(* ===== verification/_CoqProject ===== *)
-Q . S2P
Prelude.v
Staking.v
Fees.v
Rewards.v
Crypto.v
Block.v
Vote.v
StateMachine.v
Agreement.v
State.v
Mempool.v
ValidatorSet.v
Slashing.v
Storage.v
Network.v
Genesis.v
Rpc.v
Node.v
NodeSafety.v
NodeFaults.v
NodeAgreement.v
NodeChain.v
Host.v
HostFlood.v
NodeRestart.v
NodeLiveness.v
Cluster.v
Cli.v
