(* ===== verification/Prelude.v ===== *)
(** * TRv1 chain: a verification development

    The Rust workspace is a proof-of-stake chain: a validator binary that composes a
    BFT consensus machine, a mempool, an account state, an economy (staking, fees,
    developer rewards), a validator set with slashing, a tiered storage, a genesis
    format, an RPC interface and a peer-to-peer network.  This library models those
    crates, function by function, as executable definitions, and proves what makes
    each of them correct - and, where they are not, what goes wrong.

    ** Files and sources (paths under src/)

    - Prelude.v: panics, machine integers, bytes, sorting, hash-map iteration.
    - Staking.v: economics/staking (types.rs, tiers.rs, rewards.rs, pool.rs).
    - Fees.v: economics/fees (types.rs, eip1559.rs, split.rs).
    - Rewards.v: economics/rewards (types.rs, developer.rs).
    - Crypto.v: what the code takes from sha2 and ed25519-dalek, as a class.
    - Block.v: consensus/bft/src/block.rs and the identifiers of types.rs.
    - Vote.v: consensus/bft/src/types.rs, vote.rs, round.rs.
    - StateMachine.v: consensus/bft/src/state_machine.rs.
    - Agreement.v: runs of several machines over a height, and their agreement.
    - State.v: runtime/state (types.rs, accounts.rs, state_db.rs).
    - Mempool.v: mempool (types.rs, validation.rs, pool.rs).
    - ValidatorSet.v: runtime/validator-set (types.rs, rotation.rs, manager.rs).
    - Slashing.v: runtime/slashing (types.rs, evidence.rs, engine.rs).
    - Storage.v: runtime/storage (types.rs, lru_cache.rs, nvme.rs, archive.rs, tiered.rs).
    - Network.v: consensus/net (codec.rs, peer.rs, the task of network.rs).
    - Genesis.v: genesis (types.rs, config.rs, builder.rs).
    - Rpc.v: rpc (types.rs, the handlers of server.rs).
    - Node.v: validator/src/main.rs, from the genesis file to the event loop.
    - NodeSafety.v, NodeFaults.v, NodeAgreement.v, NodeChain.v, NodeRestart.v,
      NodeLiveness.v: theorems about the whole node.
    - Host.v, HostFlood.v: the process around the node - the event loop, the task and the
      handle of consensus/net/src/network.rs, and the bounded channels between them.
    - Cluster.v: a network of processes that run the node.
    - Cli.v: cli/src/main.rs.

    ** How the code is modelled

    A method [f] of a struct [T] is the definition [T_f], a free function keeps its
    name.  Mutation is explicit: a method that takes [&mut self] takes the state as
    its last argument and returns the new one.  A Rust [Result] is [result]; a panic
    is [None] of [may_panic], so that totality is a theorem ([_total], [is_Some]) and
    never an assumption.  Unsigned and signed integers are [Z] with the arithmetic of
    their width written out: [u64_add] and its like check or wrap depending on
    [OverflowChecks], so that one theorem covers the debug and the release build.  A
    HashMap is a [gmap]; where its iteration order is visible the definition goes
    through [HashOrder], any order at all, and the theorems hold for every order
    ([HashOrderLaws]).  Loops over vectors are folds; the loops that are not structural
    carry fuel: [merkle_loop] as many rounds as leaves, [withdraw_loop] one per entry,
    [rotate_loop] one per validator, and a theorem shows that the fuel is never used up.

    Code outside of the workspace is a type class with a second class for the
    documented behaviour theorems rely on: [Crypto]/[CryptoLaws] (ed25519, SHA-256),
    [Bincode], [Serde], [GenesisJson], [NetCodec] (encodings), [Lru] (the lru crate),
    [Mpsc] (tokio's bounded channels), [FileSystem] (the commands' files).
    Nothing assumes that SHA-256 has no collisions: a theorem that needs it concludes
    with the alternative that a named pair of the strings hashed is one
    ([sha256_collision]).  Each class has a concrete instance ([toy_crypto], ...), on
    which the definitions are evaluated and every theorem's hypotheses are met.
    [Clock] is the system clock as an oracle.

    ** How the parts interact

    [Node] holds the machine, the RPC state (mempool, accounts, stored blocks), the fee
    market, the staking pool and the validator set.  [node_step] is one round of the
    event loop: a peer's message goes to the machine ([on_net_message]), its answers to
    [process_bft_output], and a commit to [commit_and_advance] - [apply_commit] (State,
    Mempool, Fees, and at an epoch boundary ValidatorSet through the [VotingPower]
    interface of the staking pool, and Staking), the next height, and [propose_block] at
    this node's turn.  Gossip and RPC submissions go to the mempool.  [host_step]
    (Host.v) puts the loop next to the network's task ([runner_step]): each has a turn
    whenever it is not waiting for room in a channel.  [cluster_step] composes any number
    of nodes: a broadcast message may reach every other process
    in any order, late, repeatedly or never, but not its sender, as gossipsub delivers.

    ** What the theorems show

    - The whole node (NodeSafety.v): from a valid genesis no sequence of events within the
      bounds below makes it panic; the supply is constant and every component's invariant
      holds.
      NodeAgreement.v: a run of the event loop refines a run of the machine, so that a
      node never signs two votes for one height and round while no peer sends a bare
      commit.  NodeFaults.v: a bare commit of any peer is executed, and makes a node vote
      twice; stale timers make a proposer propose twice; committed transactions never
      leave the mempool; the votes bind a block's header and not its transactions.
      NodeRestart.v: a restart restores the accounts and nothing else, so that a restarted
      validator votes again where it has voted.  NodeChain.v: the node's ledger is the
      replay of a log of commits, and while no peer sends a bare commit the RPC interface
      serves a chain without gaps, linked by its hashes.
    - The process (Host.v): within the same bounds it never panics, and is a run of the node and one of the task
      joined by queues that lose and reorder nothing.  HostFlood.v: loop and task can wait
      for each other, a flood of one message makes them, and nothing else stops the loop.
    - The network (Cluster.v): in every reachable state of a network of processes and an
      adversary, the blocks that processes have stored at one height have one hash, while
      the adversary's keys are few; but networks of up to six validators that all run this code never commit
      (NodeLiveness.v: up to three, whatever the others vote), while seven do.
    - Consensus: no double votes while heights grow, commits rest on quorums, two
      commits in a round need a third of the validators at fault; what a quorum counts
      (also outsiders).  Agreement.v: each machine's run refines an abstract voter, and
      voters agree across all rounds of a height, if proposals name true [valid_round]s;
      the machine does not check them, and one lie of one validator splits the honest.
      The bytes of votes, the Merkle root and the signature bind what they cover, up to
      collisions.
    - Ledger: blocks conserve the supply and never replay; the state root and the state
      file do not depend on the order of the map; the pool's invariant.
    - Economy: the staking total, withdrawals, rewards and voting power exactly, with
      their bounds; the base fee and the fee split; the developers' ledger.
    - Validators: rotation terminates and elects the strongest, the cap holds, proposers
      are drawn by weight; slashing is exact, once per offence, and spares delegators.
    - Storage refines a map from keys to values while no write fails; a failing archive
      write loses a value.
    - Interfaces: genesis files, RPC submissions and network messages round-trip; bans
      of peers are not enforced; the command line tool enrols a validator exactly when
      the genesis stays valid, and the node then finds its key and its place in the set.

    ** Bounds

    [Node_wf L total room]: [room] more events, fewer than 2^32, each with a block of at
    most [L] transactions.  The nonces, the height, the round and the epoch count up by
    at most that much, so that none overflows.  Where the code adds what a peer or a
    genesis names without a check, the bound is a hypothesis that the theorem's comment
    states: heights of bare commits up to 2^64 - 2^33 ([message_ok]), fee ratios, stakes
    and powers that add up to less than 2^64, a fee transition of at most 2^49 epochs;
    [greatest_height_panics] and [ratios_unchecked] show what happens without.  [honest_run] bounds a machine's events at
    one height by 2^32, so that its round does not wrap, and [honest_program] a node's so
    that at most four machine events per round of its loop stay below that.

    ** Not modelled

    libp2p, the HTTP server, tokio's scheduler (turns come in any order) and the
    interleaving of the RPC server's threads within a round of the loop, whose sends come
    at its end; that a timer fires once; locks; logging; the parsing of command lines; the
    file system outside of Storage.v and Cli.v (a file is its contents); [f64] helpers that
    only print or are only tested; conversions and accessors that hand out a field. *)
From Stdlib Require Export ZArith Lia.
From Stdlib Require Export Strings.Byte.
From stdpp Require Export base tactics numbers option list gmap strings sorting.

Open Scope Z_scope.

(** ** Panics and machine integers *)

(** Whether the binary was built with overflow checks (Rust's debug profile)
    or without (the release profile): an arithmetic overflow panics in the
    first build and wraps in the second. *)
Class OverflowChecks := overflow_checks : bool.

Definition debug_build : OverflowChecks := true.
Definition release_build : OverflowChecks := false.

(** A computation that may panic: [None] is a panic. *)
Abbreviation may_panic A := (option A) (only parsing).

(** Rust's [Result]. *)
Inductive result (E T : Type) :=
| Ok (t : T)
| Err (e : E).
Arguments Ok {E T} t.
Arguments Err {E T} e.

Definition is_ok {E T} (r : result E T) : bool :=
  match r with Ok _ => true | Err _ => false end.

Abbreviation U64 := 18446744073709551616 (only parsing).
Abbreviation U128 := 340282366920938463463374607431768211456 (only parsing).
Abbreviation U32 := 4294967296 (only parsing).
Abbreviation I63 := 9223372036854775808 (only parsing).

(** The values of [u64] (and of [usize], on the 64-bit targets). *)
Definition u64 (x : Z) : Prop := 0 <= x < U64.
Definition u64_max : Z := U64 - 1.

(** The result of an arithmetic operator whose exact value is [x], on an
    unsigned type with [m] values. *)
Definition arith_u {OC : OverflowChecks} (m x : Z) : may_panic Z :=
  if (0 <=? x) && (x <? m) then Some x
  else if overflow_checks then None else Some (x mod m).

(** The same on [i64]. *)
Definition arith_i64 {OC : OverflowChecks} (x : Z) : may_panic Z :=
  if (- I63 <=? x) && (x <? I63) then Some x
  else if overflow_checks then None else Some ((x + I63) mod U64 - I63).

Definition u64_add {OC : OverflowChecks} (a b : Z) := arith_u U64 (a + b).
Definition u64_sub {OC : OverflowChecks} (a b : Z) := arith_u U64 (a - b).
Definition u64_mul {OC : OverflowChecks} (a b : Z) := arith_u U64 (a * b).
Definition u32_add {OC : OverflowChecks} (a b : Z) := arith_u U32 (a + b).

Definition checked (m x : Z) : option Z :=
  if (0 <=? x) && (x <? m) then Some x else None.
Definition u64_checked_add (a b : Z) : option Z := checked U64 (a + b).
Definition u128_checked_mul (a b : Z) : option Z := checked U128 (a * b).

Definition u64_saturating_add (a b : Z) : Z := Z.min u64_max (a + b).
Definition u64_saturating_sub (a b : Z) : Z := Z.max 0 (a - b).
Definition u64_saturating_mul (a b : Z) : Z := Z.min u64_max (a * b).

(** [x as u64] and [x as i64]. *)
Definition as_u64 (x : Z) : Z := x mod U64.
Definition as_i64 (x : Z) : Z := (x + I63) mod U64 - I63.

(** Integer division and remainder: a zero divisor always panics. *)
Definition div_or_panic (a b : Z) : may_panic Z :=
  if b =? 0 then None else Some (a / b).
Definition rem_or_panic (a b : Z) : may_panic Z :=
  if b =? 0 then None else Some (a mod b).

(** [Iterator::sum] on [u64]: a left fold of [+]. *)
Fixpoint u64_sum_from {OC : OverflowChecks} (acc : Z) (l : list Z) : may_panic Z :=
  match l with
  | [] => Some acc
  | x :: l => acc' ← u64_add acc x; u64_sum_from acc' l
  end.
Definition u64_sum {OC : OverflowChecks} (l : list Z) : may_panic Z := u64_sum_from 0 l.

(** Running a list of panicking steps. *)
Fixpoint fold_may_panic {A S} (f : S → A → may_panic S) (s : S) (l : list A) : may_panic S :=
  match l with
  | [] => Some s
  | x :: l => s' ← f s x; fold_may_panic f s' l
  end.

(** ** Bytes *)

Abbreviation bytes := (list Byte.byte).

#[export] Instance byte_eq_dec : EqDecision Byte.byte.
Proof. intros x y. destruct (Byte.byte_eq_dec x y); [left|right]; done. Defined.

#[export] Instance byte_countable : Countable Byte.byte.
Proof.
  refine (inj_countable Byte.to_N Byte.of_N _).
  intros x. apply Byte.of_to_N.
Defined.

Definition byte_Z (b : Byte.byte) : Z := Z.of_N (Byte.to_N b).
Definition Z_byte (z : Z) : Byte.byte :=
  match Byte.of_N (Z.to_N (z mod 256)) with Some b => b | None => x00 end.

(** [[0u8; 32]] *)
Definition zero32 : bytes := replicate 32 x00.

(** A 32-byte value that ends in the byte [n], for evaluating the definitions. *)
Definition key32 (n : Z) : bytes := replicate 31 x00 ++ [Z_byte n].

(** [to_le_bytes] of an [n]-byte integer. *)
Fixpoint le_bytes (n : nat) (z : Z) : bytes :=
  match n with
  | O => []
  | S n => Z_byte z :: le_bytes n (z / 256)
  end.

(** ** Comparators

    Rust's [cmp] returns an [Ordering]; [then] chains two of them. *)
Definition cmp_then (c1 c2 : comparison) : comparison :=
  match c1 with Eq => c2 | _ => c1 end.

(** The order of [[u8; N]]: lexicographic on the bytes. *)
Fixpoint bytes_cmp (a b : bytes) : comparison :=
  match a, b with
  | [], [] => Eq
  | [], _ :: _ => Lt
  | _ :: _, [] => Gt
  | x :: a, y :: b => cmp_then (byte_Z x ?= byte_Z y) (bytes_cmp a b)
  end.

(** [slice::sort_by], the stable sort of the standard library. *)
Fixpoint insert_by {A} (cmp : A → A → comparison) (x : A) (l : list A) : list A :=
  match l with
  | [] => [x]
  | y :: l' => match cmp x y with
               | Gt => y :: insert_by cmp x l'
               | _ => x :: l
               end
  end.
Fixpoint sort_by {A} (cmp : A → A → comparison) (l : list A) : list A :=
  match l with
  | [] => []
  | x :: l => insert_by cmp x (sort_by cmp l)
  end.

(** ** Hash maps

    The entries of a [HashMap] come out in an arbitrary order: a parameter of
    every definition that iterates one. *)
Class HashOrder :=
  hash_iter : ∀ {K} `{Countable K} {V}, gmap K V → list (K * V).
Class HashOrderLaws (HO : HashOrder) :=
  hash_iter_perm : ∀ {K} `{Countable K} {V} (m : gmap K V), hash_iter m ≡ₚ map_to_list m.

Definition hash_values `{HashOrder} {K} `{Countable K} {V} (m : gmap K V) : list V :=
  (hash_iter m).*2.
Definition hash_keys `{HashOrder} {K} `{Countable K} {V} (m : gmap K V) : list K :=
  (hash_iter m).*1.

(** Two orders, for evaluating the definitions. *)
Definition forward_order : HashOrder := λ K _ _ V m, map_to_list m.
Definition backward_order : HashOrder := λ K _ _ V m, reverse (map_to_list m).

(** ** Sums *)
Definition zsum (l : list Z) : Z := foldr Z.add 0 l.

(** The sum of [f] over the values of a map. *)
Definition map_zsum {K} `{Countable K} {V} (f : V → Z) (m : gmap K V) : Z :=
  zsum (f <$> (map_to_list m).*2).

(** * Lemmas and automation *)

Create HintDb trv1.
Create Rewrite HintDb trv1.

(** Split the guards of a definition: [if]s on booleans and on decisions,
    [match]es on options, leaving the equations in the context. *)
Ltac guard_step :=
  match goal with
  | |- context [if ?b then _ else _] =>
      lazymatch type of b with
      | bool => let E := fresh "E" in destruct b eqn:E
      | _ => case_decide
      end
  | H : context [if ?b then _ else _] |- _ =>
      lazymatch type of b with
      | bool => let E := fresh "E" in destruct b eqn:E
      | _ => let E := fresh "E" in destruct b eqn:E
      end
  end.
Ltac guards := repeat (guard_step; simplify_eq/=).

(** Turn boolean tests of [Z] into propositions. *)
Ltac bool_to_Z :=
  repeat match goal with
  | H : (_ && _)%bool = true |- _ => apply andb_true_iff in H as [? ?]
  | H : (_ || _)%bool = false |- _ => apply orb_false_iff in H as [? ?]
  | H : negb _ = true |- _ => apply negb_true_iff in H
  | H : negb _ = false |- _ => apply negb_false_iff in H
  | H : (_ =? _) = true |- _ => apply Z.eqb_eq in H
  | H : (_ =? _) = false |- _ => apply Z.eqb_neq in H
  | H : (_ <? _) = true |- _ => apply Z.ltb_lt in H
  | H : (_ <? _) = false |- _ => apply Z.ltb_ge in H
  | H : (_ <=? _) = true |- _ => apply Z.leb_le in H
  | H : (_ <=? _) = false |- _ => apply Z.leb_gt in H
  | H : (_ >=? _) = true |- _ => rewrite Z.geb_leb in H; apply Z.leb_le in H
  | H : (_ >=? _) = false |- _ => rewrite Z.geb_leb in H; apply Z.leb_gt in H
  | H : (_ >? _) = true |- _ => rewrite Z.gtb_ltb in H; apply Z.ltb_lt in H
  | H : (_ >? _) = false |- _ => rewrite Z.gtb_ltb in H; apply Z.ltb_ge in H
  end.
Ltac zlia := unfold u64, u64_max in *; bool_to_Z; lia.

(** Split every bind of a hypothesis [_ = Some _]. *)
Ltac bind_inv H :=
  let x := fresh "x" in let E := fresh "E" in
  first [ apply bind_Some in H as (x & E & H); bind_inv H | idtac ].

Section Arith.
Context {OC : OverflowChecks}.

Lemma arith_u_ok m x : 0 <= x < m → arith_u m x = Some x.
Proof. intros. unfold arith_u. case_match; [done | zlia]. Qed.

Lemma arith_u_inv m x y :
  arith_u m x = Some y →
  (0 <= x < m ∧ y = x) ∨ (overflow_checks = false ∧ ¬ (0 <= x < m) ∧ y = x mod m).
Proof.
  unfold arith_u. intros. destruct ((0 <=? x) && (x <? m)) eqn:E.
  - left. simplify_eq. zlia.
  - right. destruct overflow_checks; simplify_eq. split_and!; [done| |done].
    intros [??]. apply andb_false_iff in E as [?|?]; zlia.
Qed.

Lemma arith_u_range m x y : 0 < m → arith_u m x = Some y → 0 <= y < m.
Proof. intros Hm [[? ->]|(_&_&->)]%arith_u_inv; [done|]. by apply Z.mod_pos_bound. Qed.

Lemma arith_i64_ok x : - I63 <= x < I63 → arith_i64 x = Some x.
Proof. intros. unfold arith_i64. case_match; [done | zlia]. Qed.

Lemma u64_add_ok a b : u64 (a + b) → u64_add a b = Some (a + b).
Proof. apply arith_u_ok. Qed.
Lemma u64_sub_ok a b : u64 (a - b) → u64_sub a b = Some (a - b).
Proof. apply arith_u_ok. Qed.
Lemma u64_mul_ok a b : u64 (a * b) → u64_mul a b = Some (a * b).
Proof. apply arith_u_ok. Qed.
Lemma u32_add_ok a b : 0 <= a + b < U32 → u32_add a b = Some (a + b).
Proof. apply arith_u_ok. Qed.

Lemma u64_add_range a b c : u64_add a b = Some c → u64 c.
Proof. by apply arith_u_range. Qed.
Lemma u64_sub_range a b c : u64_sub a b = Some c → u64 c.
Proof. by apply arith_u_range. Qed.

Lemma checked_Some m x y : checked m x = Some y ↔ 0 <= x < m ∧ y = x.
Proof.
  unfold checked. split.
  - destruct (_ && _) eqn:?; intros; simplify_eq. zlia.
  - intros [? ->]. case_match; [done | zlia].
Qed.
Lemma checked_None m x : checked m x = None ↔ ¬ (0 <= x < m).
Proof.
  unfold checked. destruct (_ && _) eqn:E; split; intros; simplify_eq; try done.
  - zlia.
  - apply andb_false_iff in E as [?|?]; zlia.
Qed.

Lemma as_u64_id x : u64 x → as_u64 x = x.
Proof. intros. by apply Z.mod_small. Qed.
Lemma as_u64_range x : u64 (as_u64 x).
Proof. by apply Z.mod_pos_bound. Qed.
Lemma as_i64_id x : 0 <= x < I63 → as_i64 x = x.
Proof. intros. unfold as_i64. rewrite Z.mod_small; lia. Qed.

Lemma zsum_nonneg l : Forall (λ x, 0 <= x) l → 0 <= zsum l.
Proof. induction 1; simpl; lia. Qed.

Lemma u64_sum_from_ok acc l :
  0 <= acc → Forall (λ x, 0 <= x) l → acc + zsum l < U64 →
  u64_sum_from acc l = Some (acc + zsum l).
Proof.
  intros Hacc Hl. revert acc Hacc.
  induction Hl as [|x l Hx Hl IH]; intros acc Hacc Hsum; simpl in *; [f_equal; lia|].
  pose proof (zsum_nonneg _ Hl).
  rewrite u64_add_ok by zlia. simpl. rewrite IH by lia. f_equal. lia.
Qed.

Lemma u64_sum_ok l :
  Forall (λ x, 0 <= x) l → zsum l < U64 → u64_sum l = Some (zsum l).
Proof. intros. unfold u64_sum. by rewrite u64_sum_from_ok by (done || lia). Qed.

Lemma u64_sum_from_inv acc l s :
  0 <= acc → Forall (λ x, 0 <= x) l → u64_sum_from acc l = Some s →
  (s = acc + zsum l) ∨ (overflow_checks = false ∧ U64 <= acc + zsum l).
Proof.
  intros Hacc Hl. revert acc Hacc.
  induction Hl as [|x l Hx Hl IH]; intros acc Hacc Hsum; simpl in *; [simplify_eq; lia|].
  apply bind_Some in Hsum as (acc' & Hadd & Hsum).
  pose proof (zsum_nonneg _ Hl).
  apply arith_u_inv in Hadd as [[? ->]|(Hoc & ? & ->)]; [|right; split; [done|lia]].
  apply IH in Hsum; lia || (destruct Hsum; [left; lia | right; split; [tauto|lia]]).
Qed.

(** A [sum] that returns returns the exact sum, unless it wrapped. *)
Lemma u64_sum_inv l s :
  Forall (λ x, 0 <= x) l → u64_sum l = Some s →
  s = zsum l ∨ (overflow_checks = false ∧ U64 <= zsum l).
Proof.
  intros Hl Hs. unfold u64_sum in Hs. apply u64_sum_from_inv in Hs; [|lia|done].
  by rewrite Z.add_0_l in Hs.
Qed.
End Arith.

(** ** Sums *)

#[export] Instance zsum_proper : Proper ((≡ₚ) ==> eq) zsum.
Proof. induction 1; simpl; lia. Qed.

Lemma zsum_app l1 l2 : zsum (l1 ++ l2) = zsum l1 + zsum l2.
Proof. induction l1; simpl; lia. Qed.

Lemma zsum_fmap_le {A} (f g : A → Z) l :
  (∀ x, x ∈ l → f x <= g x) → zsum (f <$> l) <= zsum (g <$> l).
Proof.
  induction l as [|x l IH]; intros Hle; csimpl; [lia|].
  assert (f x <= g x) by (apply Hle; left). assert (zsum (f <$> l) <= zsum (g <$> l)); [|lia].
  apply IH. intros. apply Hle. by right.
Qed.

Lemma zsum_elem_le l x : Forall (λ x, 0 <= x) l → x ∈ l → x <= zsum l.
Proof.
  induction 1 as [|y l Hy Hl IH]; intros Hx; [by apply elem_of_nil in Hx|].
  pose proof (zsum_nonneg _ Hl). apply elem_of_cons in Hx as [->|Hx]; simpl; [lia|].
  specialize (IH Hx). lia.
Qed.

Section MapSum.
Context {K} `{Countable K} {V : Type} (f : V → Z).
Implicit Types (m : gmap K V).

Lemma map_zsum_empty : map_zsum f (∅ : gmap K V) = 0.
Proof. unfold map_zsum. by rewrite map_to_list_empty. Qed.

Lemma map_zsum_insert_new m k v : m !! k = None → map_zsum f (<[k:=v]> m) = f v + map_zsum f m.
Proof. intros. unfold map_zsum. by rewrite map_to_list_insert. Qed.

Lemma map_zsum_delete m k v : m !! k = Some v → map_zsum f (delete k m) = map_zsum f m - f v.
Proof.
  intros. rewrite <-(insert_id m k v) at 2 by done. rewrite <-insert_delete_eq.
  rewrite map_zsum_insert_new by apply lookup_delete_eq. lia.
Qed.

Lemma map_zsum_insert m k v :
  map_zsum f (<[k:=v]> m) = f v + map_zsum f m - from_option f 0 (m !! k).
Proof.
  destruct (m !! k) as [v'|] eqn:Hk; simpl.
  - rewrite <-insert_delete_eq, map_zsum_insert_new by apply lookup_delete_eq.
    rewrite (map_zsum_delete _ _ _ Hk). lia.
  - rewrite map_zsum_insert_new by done. lia.
Qed.

Lemma map_zsum_nonneg m : (∀ k v, m !! k = Some v → 0 <= f v) → 0 <= map_zsum f m.
Proof.
  intros Hf. apply zsum_nonneg, Forall_forall. intros x Hx.
  apply list_elem_of_fmap in Hx as (v & -> & Hv). apply list_elem_of_fmap in Hv as ([k v'] & -> & Hv).
  apply elem_of_map_to_list in Hv. simpl. eauto.
Qed.

Lemma map_zsum_lookup_le m k v :
  (∀ k v, m !! k = Some v → 0 <= f v) → m !! k = Some v → f v <= map_zsum f m.
Proof.
  intros Hf Hk. rewrite <-(insert_id m k v), <-insert_delete_eq by done.
  rewrite map_zsum_insert_new by apply lookup_delete_eq.
  assert (0 <= map_zsum f (delete k m)); [|lia].
  apply map_zsum_nonneg. intros k' v' [_ ?]%lookup_delete_Some. eauto.
Qed.

Lemma map_zsum_two_le m k1 k2 v1 v2 :
  (∀ k v, m !! k = Some v → 0 <= f v) → k1 ≠ k2 →
  m !! k1 = Some v1 → m !! k2 = Some v2 → f v1 + f v2 <= map_zsum f m.
Proof.
  intros Hf Hne H1 H2. pose proof (map_zsum_delete _ _ _ H1).
  assert (f v2 <= map_zsum f (delete k1 m)); [|lia].
  apply (map_zsum_lookup_le _ k2); [|by rewrite lookup_delete_ne].
  intros k' v' [_ ?]%lookup_delete_Some. eauto.
Qed.
End MapSum.

Lemma map_zsum_ext {K} `{Countable K} {V} (f g : V → Z) (m : gmap K V) :
  (∀ k v, m !! k = Some v → f v = g v) → map_zsum f m = map_zsum g m.
Proof.
  intros Hfg. unfold map_zsum. f_equal. apply list_fmap_ext. intros i v Hi.
  apply list_elem_of_lookup_2 in Hi. apply list_elem_of_fmap in Hi as ([k v'] & -> & Hv).
  apply elem_of_map_to_list in Hv. simpl. eauto.
Qed.

(** A run that returns equals its two parts: for evaluating a run only to see that
    it returns. *)
Lemma default_pair_eq {A B} (d : A * B) (x : option (A * B)) :
  match x with Some _ => true | None => false end = true →
  x = Some ((default d x).1, (default d x).2).
Proof. by destruct x as [[??]|]. Qed.

(** Counting in an interval of integers. *)
Lemma filter_none {A} (P : A → Prop) `{!∀ x, Decision (P x)} (l : list A) : (∀ x, x ∈ l → ¬ P x) → filter P l = [].
Proof.
  induction l as [|x l IH]; intros HP; [done|]. rewrite filter_cons_False by (apply HP; left).
  apply IH. intros y Hy. apply HP. by right.
Qed.

Lemma filter_all {A} (P : A → Prop) `{!∀ x, Decision (P x)} (l : list A) : (∀ x, x ∈ l → P x) → filter P l = l.
Proof.
  induction l as [|x l IH]; intros HP; [done|]. rewrite filter_cons_True by (apply HP; left). f_equal.
  apply IH. intros y Hy. apply HP. by right.
Qed.

Lemma length_filter_seqZ (P : Z → Prop) `{!∀ x, Decision (P x)} m n a p :
  0 <= a → 0 <= p → a + p <= n → (∀ x, m <= x < m + n → P x ↔ m + a <= x < m + a + p) →
  length (filter P (seqZ m n)) = Z.to_nat p.
Proof.
  intros Ha Hp Hn HP. replace n with (a + (p + (n - a - p))) by lia.
  rewrite !seqZ_app by lia. rewrite !filter_app.
  rewrite (filter_none _ (seqZ m a)) by (intros x Hx%elem_of_seqZ; rewrite HP; lia).
  rewrite (filter_all _ (seqZ (m + a) p)) by (intros x Hx%elem_of_seqZ; apply HP; lia).
  rewrite (filter_none _ (seqZ _ _)) by (intros x Hx%elem_of_seqZ; rewrite HP; lia).
  rewrite app_nil_r. simpl. apply length_seqZ.
Qed.

(** ** Comparators and sorting *)

(** A comparator that is a total preorder, and one whose [Eq] is equality. *)
Class TotalCmp {A} (cmp : A → A → comparison) := {
  cmp_opp x y : cmp y x = CompOpp (cmp x y);
  cmp_le_trans x y z : cmp x y ≠ Gt → cmp y z ≠ Gt → cmp x z ≠ Gt;
}.
Class StrictCmp {A} (cmp : A → A → comparison) := cmp_eq x y : cmp x y = Eq ↔ x = y.

Arguments cmp_opp {A} cmp {_} x y.
Arguments cmp_le_trans {A} cmp {_} x y z _ _.
Arguments cmp_eq {A} cmp {_} x y.

#[export] Hint Mode TotalCmp ! ! : typeclass_instances.
#[export] Hint Mode StrictCmp ! ! : typeclass_instances.

(** Three views of a comparator: by a projection, reversed, and lexicographic. *)
Definition cmp_on {A B} (f : A → B) (cmp : B → B → comparison) (x y : A) : comparison :=
  cmp (f x) (f y).
Definition cmp_desc {A} (cmp : A → A → comparison) (x y : A) : comparison := cmp y x.
Definition cmp_lex {A} (c1 c2 : A → A → comparison) (x y : A) : comparison :=
  cmp_then (c1 x y) (c2 x y).

#[global] Typeclasses Opaque cmp_on cmp_desc cmp_lex.

#[export] Instance Zcompare_total : TotalCmp Z.compare.
Proof. split; intros; [by rewrite Z.compare_antisym|]. rewrite Z.compare_gt_iff in *. lia. Qed.
#[export] Instance Zcompare_strict : StrictCmp Z.compare.
Proof. intros x y. apply Z.compare_eq_iff. Qed.
#[export] Instance cmp_on_total {A B} (f : A → B) cmp : TotalCmp cmp → TotalCmp (cmp_on f cmp).
Proof. intros. split; intros; unfold cmp_on in *; [apply (cmp_opp cmp)|by eapply (cmp_le_trans cmp)]. Qed.
#[export] Instance cmp_desc_total {A} (cmp : A → A → comparison) :
  TotalCmp cmp → TotalCmp (cmp_desc cmp).
Proof. intros. split; intros; unfold cmp_desc in *; [apply (cmp_opp cmp)|by eapply (cmp_le_trans cmp)]. Qed.

Section TotalCmp.
Context {A} (cmp : A → A → comparison) `{!TotalCmp cmp}.

Lemma cmp_refl x : cmp x x = Eq.
Proof. pose proof (cmp_opp cmp x x) as E. by destruct (cmp x x). Qed.

Lemma cmp_gt_lt x y : cmp x y = Gt ↔ cmp y x = Lt.
Proof. rewrite (cmp_opp cmp y x). destruct (cmp y x); naive_solver. Qed.

Lemma cmp_eq_sym x y : cmp x y = Eq → cmp y x = Eq.
Proof. rewrite (cmp_opp cmp x y). by intros ->. Qed.

Lemma cmp_gt_le x y : cmp x y = Gt → cmp y x ≠ Gt.
Proof. rewrite (cmp_opp cmp x y). by intros ->. Qed.

(** Elements that compare [Eq] compare alike with any third. *)
Lemma cmp_eq_l x y z : cmp x y = Eq → cmp x z = cmp y z.
Proof.
  intros Hxy. pose proof (cmp_eq_sym _ _ Hxy) as Hyx.
  assert (∀ u v w, cmp u v = Eq → cmp v w ≠ Gt → cmp u w ≠ Gt) as Hle.
  { intros u v w Huv Hvw. eapply (cmp_le_trans cmp); [|done]. by rewrite Huv. }
  assert (∀ u v w, cmp u v = Eq → cmp v w = Lt → cmp u w = Lt) as Hlt.
  { intros u v w Huv Hvw. destruct (cmp u w) eqn:Huw; [|done|].
    - exfalso. apply cmp_gt_lt in Hvw. apply cmp_eq_sym in Huw. revert Hvw.
      eapply (cmp_le_trans cmp); [|by rewrite Huv]. by rewrite Huw.
    - exfalso. eapply Hle; [exact Huv| |exact Huw]. by rewrite Hvw. }
  destruct (cmp y z) eqn:Hyz; [|by eapply Hlt|].
  - destruct (cmp x z) eqn:Hxz; [done| |].
    + rewrite (Hlt y x z Hyx Hxz) in Hyz. done.
    + exfalso. eapply (Hle x y z); [done| |done]. by rewrite Hyz.
  - destruct (cmp x z) eqn:Hxz; [| |done].
    + exfalso. eapply (Hle y x z); [done| |done]. by rewrite Hxz.
    + rewrite (Hlt y x z Hyx Hxz) in Hyz. done.
Qed.

Lemma cmp_lt_trans x y z : cmp x y = Lt → cmp y z ≠ Gt → cmp x z = Lt.
Proof.
  intros Hxy Hyz. destruct (cmp x z) eqn:Hxz; [|done|].
  - exfalso. apply Hyz. rewrite (cmp_opp cmp z y), <-(cmp_eq_l x z y Hxz), Hxy. done.
  - exfalso. eapply (cmp_le_trans cmp x y z); [by rewrite Hxy|done|done].
Qed.
End TotalCmp.

#[export] Instance cmp_lex_total {A} (c1 c2 : A → A → comparison) :
  TotalCmp c1 → TotalCmp c2 → TotalCmp (cmp_lex c1 c2).
Proof.
  intros H1 H2. split; unfold cmp_lex, cmp_then.
  - intros x y. rewrite (cmp_opp c1 x y). destruct (c1 x y); simpl; [apply (cmp_opp c2)|done|done].
  - intros x y z. destruct (c1 x y) eqn:E1; intros Hxy Hyz; [| |done].
    + rewrite (cmp_eq_l c1 x y z E1). destruct (c1 y z); [by eapply (cmp_le_trans c2)|done|done].
    + destruct (c1 y z) eqn:E2; [| |done];
        rewrite (cmp_lt_trans c1 x y z E1) by (by rewrite E2); done.
Qed.

Section Sorting.
Context {A} (cmp : A → A → comparison).

Lemma insert_by_perm x l : insert_by cmp x l ≡ₚ x :: l.
Proof.
  induction l as [|y l IH]; simpl; [done|].
  destruct (cmp x y); [done|done|]. rewrite IH. apply Permutation_swap.
Qed.

(** Sorting permutes. *)
Lemma sort_by_perm l : sort_by cmp l ≡ₚ l.
Proof. induction l as [|x l IH]; simpl; [done|]. by rewrite insert_by_perm, IH. Qed.

Lemma elem_of_sort_by l x : x ∈ sort_by cmp l ↔ x ∈ l.
Proof. by rewrite sort_by_perm. Qed.

Context `{!TotalCmp cmp}.

Lemma insert_by_sorted x l :
  StronglySorted (λ a b, cmp a b ≠ Gt) l → StronglySorted (λ a b, cmp a b ≠ Gt) (insert_by cmp x l).
Proof.
  induction 1 as [|y l Hl IH Hy]; simpl; [repeat constructor|].
  destruct (cmp x y) eqn:E.
  1,2: constructor; [by constructor|]; constructor; [by rewrite E|];
    apply Forall_forall; intros z Hz; rewrite Forall_forall in Hy;
    (eapply (cmp_le_trans cmp); [|by apply Hy]); by rewrite E.
  constructor; [done|]. rewrite insert_by_perm. constructor; [by apply cmp_gt_le|done].
Qed.

(** Sorting sorts. *)
Lemma sort_by_sorted l : StronglySorted (λ a b, cmp a b ≠ Gt) (sort_by cmp l).
Proof. induction l; simpl; [constructor|]. by apply insert_by_sorted. Qed.

(** A sorted list is determined by its elements when only equal elements
    compare [Eq]. *)
Lemma sorted_perm_eq l1 l2 :
  (∀ x y, x ∈ l1 → y ∈ l1 → cmp x y = Eq → x = y) →
  StronglySorted (λ a b, cmp a b ≠ Gt) l1 → StronglySorted (λ a b, cmp a b ≠ Gt) l2 →
  l1 ≡ₚ l2 → l1 = l2.
Proof.
  intros Heq Hs1. revert l2 Heq. induction Hs1 as [|x l1 Hs1 IH Hx]; intros l2 Heq Hs2 Hp.
  { by apply Permutation_nil_l in Hp. }
  destruct Hs2 as [|y l2 Hs2 Hy]; [by apply symmetry, Permutation_nil_l in Hp|].
  assert (x = y) as ->.
  { assert (x ∈ y :: l2) as Hxy by (rewrite <-Hp; left).
    assert (y ∈ x :: l1) as Hyx by (rewrite Hp; left).
    apply elem_of_cons in Hxy as [->|Hxy]; [done|]. pose proof Hyx as Hyx'.
    apply elem_of_cons in Hyx as [->|Hyx]; [done|].
    rewrite Forall_forall in Hx, Hy. apply Heq; [by left|done|].
    specialize (Hx _ Hyx). specialize (Hy _ Hxy). rewrite (cmp_opp cmp x y) in Hy.
    by destruct (cmp x y). }
  f_equal. apply IH; [|done|by eapply Permutation_cons_inv].
  intros. apply Heq; [by right|by right|done].
Qed.

(** Sorting forgets the order of its argument: the result is deterministic
    even if the list came out of a hash map. *)
Lemma sort_by_unique l1 l2 :
  (∀ x y, x ∈ l1 → y ∈ l1 → cmp x y = Eq → x = y) →
  l1 ≡ₚ l2 → sort_by cmp l1 = sort_by cmp l2.
Proof.
  intros Heq Hp. apply sorted_perm_eq.
  - intros x y. rewrite !elem_of_sort_by. apply Heq.
  - apply sort_by_sorted.
  - apply sort_by_sorted.
  - by rewrite !sort_by_perm.
Qed.

(** The first element is a minimum, the last a maximum. *)
Lemma sort_by_head l x r :
  sort_by cmp l = x :: r → x ∈ l ∧ ∀ y, y ∈ l → cmp x y ≠ Gt.
Proof.
  intros Hl. pose proof (sort_by_sorted l) as Hs. rewrite Hl in Hs.
  split; [apply elem_of_sort_by; rewrite Hl; left|].
  intros y Hy. apply elem_of_sort_by in Hy. rewrite Hl in Hy.
  apply StronglySorted_inv in Hs as [_ Hf]. rewrite Forall_forall in Hf.
  apply elem_of_cons in Hy as [->|]; [by rewrite cmp_refl|auto].
Qed.

Lemma sort_by_last l x :
  last (sort_by cmp l) = Some x → x ∈ l ∧ ∀ y, y ∈ l → cmp y x ≠ Gt.
Proof.
  intros Hl. apply last_Some in Hl as [r Hl]. pose proof (sort_by_sorted l) as Hs. rewrite Hl in Hs.
  assert (Hin : ∀ y, y ∈ l ↔ y ∈ r ++ [x]) by (intros; by rewrite <-Hl, elem_of_sort_by).
  split; [apply Hin, elem_of_app; right; by left|]. intros y Hy. apply Hin, elem_of_app in Hy as [Hy|Hy].
  - revert Hs Hy. clear. induction r as [|z r IH]; intros Hs Hy; [set_solver|].
    apply StronglySorted_inv in Hs as [Hs Hf]. apply elem_of_cons in Hy as [->|Hy]; [|by apply IH].
    rewrite Forall_forall in Hf. apply Hf. set_solver.
  - apply list_elem_of_singleton in Hy as ->. by rewrite cmp_refl.
Qed.
End Sorting.

(** ** Bytes *)

Lemma byte_Z_range b : 0 <= byte_Z b < 256.
Proof. unfold byte_Z. pose proof (Byte.to_N_bounded b). lia. Qed.

Lemma byte_Z_inj : Inj (=) (=) byte_Z.
Proof.
  intros x y Hxy. apply N2Z.inj in Hxy. pose proof (Byte.of_to_N x). pose proof (Byte.of_to_N y).
  congruence.
Qed.

Lemma Z_byte_Z z : byte_Z (Z_byte z) = z mod 256.
Proof.
  unfold byte_Z, Z_byte. pose proof (Z.mod_pos_bound z 256).
  destruct (Byte.of_N _) eqn:E.
  - apply Byte.to_of_N in E. rewrite E. lia.
  - apply Byte.of_N_None_iff in E. lia.
Qed.

Lemma length_le_bytes n z : length (le_bytes n z) = n.
Proof. revert z. induction n; intros; simpl; [done|]. by rewrite IHn. Qed.

(** [to_le_bytes] is injective on the values that fit. *)
Lemma le_bytes_inj n x y :
  0 <= x < 256 ^ Z.of_nat n → 0 <= y < 256 ^ Z.of_nat n → le_bytes n x = le_bytes n y → x = y.
Proof.
  revert x y. induction n as [|n IH]; intros x y Hx Hy; simpl.
  - rewrite Z.pow_0_r in *. lia.
  - rewrite Nat2Z.inj_succ, Z.pow_succ_r in * by lia. intros [= Hb Hl].
    apply (f_equal byte_Z) in Hb. rewrite !Z_byte_Z in Hb.
    apply IH in Hl; [|split; [apply Z.div_pos; lia|apply Z.div_lt_upper_bound; lia]..].
    rewrite (Z.div_mod x 256), (Z.div_mod y 256) by lia. congruence.
Qed.

#[export] Instance bytes_cmp_strict : StrictCmp bytes_cmp.
Proof.
  intros x. induction x as [|a x IH]; intros [|b y]; simpl; try done.
  unfold cmp_then. destruct (byte_Z a ?= byte_Z b) eqn:E; split; try discriminate.
  - rewrite IH. apply Z.compare_eq_iff, byte_Z_inj in E. by intros ->; subst.
  - intros [= -> ->]. by apply IH.
  - intros [= -> ->]. by rewrite Z.compare_refl in E.
  - intros [= -> ->]. by rewrite Z.compare_refl in E.
Qed.

#[export] Instance bytes_cmp_total : TotalCmp bytes_cmp.
Proof.
  split.
  - intros x. induction x as [|a x IH]; intros [|b y]; simpl; try done.
    rewrite Z.compare_antisym, IH. by destruct (byte_Z a ?= byte_Z b).
  - intros x. induction x as [|a x IH]; intros [|b y] [|c z]; simpl; try done.
    unfold cmp_then.
    destruct (byte_Z a ?= byte_Z b) eqn:E1, (byte_Z b ?= byte_Z c) eqn:E2,
      (byte_Z a ?= byte_Z c) eqn:E3;
      rewrite ?Z.compare_eq_iff, ?Z.compare_lt_iff, ?Z.compare_gt_iff in *; try done; try lia.
    by apply IH.
Qed.

(** ** Hash maps *)

#[export] Instance forward_order_laws : HashOrderLaws forward_order.
Proof. red. intros. reflexivity. Qed.
#[export] Instance backward_order_laws : HashOrderLaws backward_order.
Proof. red. intros. apply reverse_Permutation. Qed.

Section HashIter.
Context `{HashOrderLaws} {K} `{Countable K} {V : Type}.
Implicit Types (m : gmap K V).

Lemma elem_of_hash_iter m k v : (k, v) ∈ hash_iter m ↔ m !! k = Some v.
Proof. by rewrite hash_iter_perm, elem_of_map_to_list. Qed.

Lemma hash_values_perm m : hash_values m ≡ₚ (map_to_list m).*2.
Proof. unfold hash_values. by rewrite hash_iter_perm. Qed.

Lemma elem_of_hash_values m v : v ∈ hash_values m ↔ ∃ k, m !! k = Some v.
Proof.
  unfold hash_values. rewrite list_elem_of_fmap. split.
  - intros ([k v'] & -> & Hv). exists k. by apply elem_of_hash_iter.
  - intros [k Hk]. exists (k, v). split; [done|]. by apply elem_of_hash_iter.
Qed.

Lemma hash_iter_nodup m : NoDup ((hash_iter m).*1).
Proof. rewrite hash_iter_perm. apply NoDup_fst_map_to_list. Qed.

Lemma length_hash_values m : length (hash_values m) = size m.
Proof. by rewrite hash_values_perm, length_fmap, length_map_to_list. Qed.

Lemma zsum_hash_values (f : V → Z) m : zsum (f <$> hash_values m) = map_zsum f m.
Proof. unfold map_zsum. by rewrite hash_values_perm. Qed.
End HashIter.

#[export] Hint Resolve u64_add_range u64_sub_range as_u64_range : trv1.
#[export] Hint Rewrite @length_le_bytes : trv1.
