(* ===== verification/Staking.v ===== *)
(** * The staking pool (economics/staking)

    Lock tiers, the reward formula, and the pool of stakes and delegations with
    its operations.  [StakeEntry] and [DelegationEntry] share an interface,
    [Position], so that the withdrawal loop that [unstake] and [undelegate] both
    contain is modelled and verified once. *)
From S2P Require Import Prelude.
Open Scope Z_scope.

(** A 32-byte public key. *)
Abbreviation PublicKey := bytes (only parsing).

(** ** tiers.rs *)

Inductive LockTier :=
| NoLock
| ThirtyDay
| NinetyDay
| OneEightyDay
| ThreeSixtyDay
| Delegator
| Permanent.

#[export] Instance LockTier_eq_dec : EqDecision LockTier.
Proof. solve_decision. Defined.

Definition EPOCHS_PER_YEAR : Z := 365.
Definition THIRTY_DAY_EPOCHS : Z := 30.
Definition NINETY_DAY_EPOCHS : Z := 90.
Definition ONE_EIGHTY_DAY_EPOCHS : Z := 180.
Definition THREE_SIXTY_DAY_EPOCHS : Z := 360.

Definition LockTier_rate_pct (t : LockTier) : Z :=
  match t with
  | NoLock => 5
  | ThirtyDay => 10
  | NinetyDay => 20
  | OneEightyDay => 30
  | ThreeSixtyDay => 50
  | Delegator => 100
  | Permanent => 120
  end.

Definition LockTier_vote_weight_bps (t : LockTier) : Z :=
  match t with
  | NoLock => 0
  | ThirtyDay => 100
  | NinetyDay => 200
  | OneEightyDay => 300
  | ThreeSixtyDay => 500
  | Delegator => 1000
  | Permanent => 1500
  end.

Definition LockTier_lock_duration_epochs (t : LockTier) : option Z :=
  match t with
  | NoLock => Some 0
  | ThirtyDay => Some THIRTY_DAY_EPOCHS
  | NinetyDay => Some NINETY_DAY_EPOCHS
  | OneEightyDay => Some ONE_EIGHTY_DAY_EPOCHS
  | ThreeSixtyDay => Some THREE_SIXTY_DAY_EPOCHS
  | Delegator => Some 0
  | Permanent => None
  end.

(** ** rewards.rs *)

Definition BASE_APY_BPS : Z := 500.

(** The [unwrap]s of the [checked_mul]s panic; [as u64] truncates. *)
Definition calculate_reward (amount : Z) (tier : LockTier) (epochs_elapsed : Z) : may_panic Z :=
  if (amount =? 0) || (epochs_elapsed =? 0) then Some 0
  else
    n1 ← u128_checked_mul amount BASE_APY_BPS;
    n2 ← u128_checked_mul n1 (LockTier_rate_pct tier);
    numerator ← u128_checked_mul n2 epochs_elapsed;
    let denominator := 100 * 10000 * EPOCHS_PER_YEAR in
    Some (as_u64 (numerator / denominator)).

Definition calculate_epoch_reward (amount : Z) (tier : LockTier) : may_panic Z :=
  calculate_reward amount tier 1.

(** ** types.rs *)

Record StakeEntry := mkStakeEntry {
  se_staker : PublicKey;
  se_amount : Z;
  se_lock_tier : LockTier;
  se_start_epoch : Z;
  se_unlock_epoch : option Z;
}.

Record DelegationEntry := mkDelegationEntry {
  de_delegator : PublicKey;
  de_validator : PublicKey;
  de_amount : Z;
  de_lock_tier : LockTier;
  de_start_epoch : Z;
  de_unlock_epoch : option Z;
}.

Abbreviation DelegationKey := (PublicKey * PublicKey)%type (only parsing).

Record StakingState := mkStakingState {
  st_total_staked : Z;
  st_entries : gmap PublicKey (list StakeEntry);
  st_delegations : gmap DelegationKey (list DelegationEntry);
  st_current_epoch : Z;
}.

Inductive StakingError :=
| StakingError_InsufficientBalance (have need : Z)
| StakingError_StillLocked (unlock_epoch current_epoch : Z)
| StakingError_PermanentLock
| StakingError_NoStakeFound
| StakingError_NoDelegationFound
| StakingError_ZeroAmount
| StakingError_Overflow.

(** What the two kinds of entries have in common. *)
Class Position (E : Type) := {
  pos_amount : E → Z;
  pos_tier : E → LockTier;
  pos_start : E → Z;
  pos_unlock : E → option Z;
  pos_set_amount : Z → E → E;
}.
Class PositionLaws E `{Position E} := {
  pos_amount_set a (e : E) : pos_amount (pos_set_amount a e) = a;
  pos_unlock_set a (e : E) : pos_unlock (pos_set_amount a e) = pos_unlock e;
  pos_tier_set a (e : E) : pos_tier (pos_set_amount a e) = pos_tier e;
  pos_start_set a (e : E) : pos_start (pos_set_amount a e) = pos_start e;
}.

#[export] Instance StakeEntry_position : Position StakeEntry := {|
  pos_amount := se_amount; pos_tier := se_lock_tier; pos_start := se_start_epoch;
  pos_unlock := se_unlock_epoch;
  pos_set_amount a e :=
    mkStakeEntry (se_staker e) a (se_lock_tier e) (se_start_epoch e) (se_unlock_epoch e) |}.
#[export] Instance DelegationEntry_position : Position DelegationEntry := {|
  pos_amount := de_amount; pos_tier := de_lock_tier; pos_start := de_start_epoch;
  pos_unlock := de_unlock_epoch;
  pos_set_amount a e :=
    mkDelegationEntry (de_delegator e) (de_validator e) a (de_lock_tier e)
      (de_start_epoch e) (de_unlock_epoch e) |}.
#[export] Instance StakeEntry_position_laws : PositionLaws StakeEntry.
Proof. by split. Qed.
#[export] Instance DelegationEntry_position_laws : PositionLaws DelegationEntry.
Proof. by split. Qed.

(** ** pool.rs *)

(** [StakingPool] is a struct with the one field [state]. *)
Definition StakingPool := StakingState.

Definition StakingPool_new : StakingPool := mkStakingState 0 ∅ ∅ 0.

Definition StakingPool_set_epoch (epoch : Z) (p : StakingPool) : StakingPool :=
  mkStakingState (st_total_staked p) (st_entries p) (st_delegations p) epoch.

Definition StakingPool_current_epoch (p : StakingPool) : Z := st_current_epoch p.
Definition StakingPool_total_staked (p : StakingPool) : Z := st_total_staked p.

Definition set_total (t : Z) (p : StakingPool) : StakingPool :=
  mkStakingState t (st_entries p) (st_delegations p) (st_current_epoch p).
Definition set_entries m (p : StakingPool) : StakingPool :=
  mkStakingState (st_total_staked p) m (st_delegations p) (st_current_epoch p).
Definition set_delegations m (p : StakingPool) : StakingPool :=
  mkStakingState (st_total_staked p) (st_entries p) m (st_current_epoch p).

Definition is_unlocked (unlock_epoch : option Z) (current_epoch : Z) : bool :=
  match unlock_epoch with
  | None => false
  | Some unlock => unlock <=? current_epoch
  end.

Section Ops.
Context {OC : OverflowChecks}.

(** [tier.lock_duration_epochs().map(|d| current_epoch + d)] *)
Definition unlock_epoch_of (tier : LockTier) (current_epoch : Z) : may_panic (option Z) :=
  match LockTier_lock_duration_epochs tier with
  | None => Some None
  | Some d => u ← u64_add current_epoch d; Some (Some u)
  end.

Definition StakingPool_stake (p : StakingPool) (staker : PublicKey) (amount : Z) (tier : LockTier) :
    may_panic (StakingPool * result StakingError unit) :=
  if amount =? 0 then Some (p, Err StakingError_ZeroAmount)
  else
    unlock_epoch ← unlock_epoch_of tier (st_current_epoch p);
    let entry := mkStakeEntry staker amount tier (st_current_epoch p) unlock_epoch in
    let p := set_entries (<[staker := default [] (st_entries p !! staker) ++ [entry]]> (st_entries p)) p in
    match u64_checked_add (st_total_staked p) amount with
    | None => Some (p, Err StakingError_Overflow)
    | Some t => Some (set_total t p, Ok tt)
    end.

Definition StakingPool_delegate (p : StakingPool) (delegator validator : PublicKey) (amount : Z)
    (tier : LockTier) : may_panic (StakingPool * result StakingError unit) :=
  if amount =? 0 then Some (p, Err StakingError_ZeroAmount)
  else
    unlock_epoch ← unlock_epoch_of tier (st_current_epoch p);
    let entry := mkDelegationEntry delegator validator amount tier (st_current_epoch p) unlock_epoch in
    let key := (delegator, validator) in
    let p := set_delegations
      (<[key := default [] (st_delegations p !! key) ++ [entry]]> (st_delegations p)) p in
    match u64_checked_add (st_total_staked p) amount with
    | None => Some (p, Err StakingError_Overflow)
    | Some t => Some (set_total t p, Ok tt)
    end.

Section Withdraw.
Context {E : Type} `{Position E}.

Definition unlocked (epoch : Z) (e : E) : bool := is_unlocked (pos_unlock e) epoch.

Definition unlocked_total (epoch : Z) (l : list E) : may_panic Z :=
  u64_sum (pos_amount <$> filter (λ e, unlocked epoch e) l).

(** The [while] loop.  A round steps over an entry, removes one, or splits one
    and leaves nothing to withdraw; with the round that finds the condition false,
    [length entries + 2] rounds suffice. *)
Fixpoint withdraw_loop (fuel : nat) (epoch : Z) (entries : list E) (i : nat) (amount removed_total : Z) :
    may_panic (list E * Z) :=
  match fuel with
  | O => None
  | S fuel =>
    match entries !! i with
    | Some e =>
      if 0 <? amount then
        if unlocked epoch e then
          if pos_amount e <=? amount then
            amount' ← u64_sub amount (pos_amount e);
            removed' ← u64_add removed_total (pos_amount e);
            withdraw_loop fuel epoch (delete i entries) i amount' removed'
          else
            rest ← u64_sub (pos_amount e) amount;
            removed' ← u64_add removed_total amount;
            withdraw_loop fuel epoch (<[i := pos_set_amount rest e]> entries) i 0 removed'
        else withdraw_loop fuel epoch entries (S i) amount removed_total
      else Some (entries, removed_total)
    | None => Some (entries, removed_total)
    end
  end.

Definition withdraw (epoch : Z) (entries : list E) (amount : Z) : may_panic (list E * Z) :=
  withdraw_loop (S (S (length entries))) epoch entries 0 amount 0.

(** The vector mutated in place in the map, removed if it became empty. *)
Definition store_entries {K} `{Countable K} (k : K) (entries : list E) (m : gmap K (list E)) :
    gmap K (list E) :=
  match entries with
  | [] => delete k m
  | _ => <[k := entries]> m
  end.
End Withdraw.

Definition StakingPool_unstake (p : StakingPool) (staker : PublicKey) (amount : Z) :
    may_panic (StakingPool * result StakingError unit) :=
  if amount =? 0 then Some (p, Err StakingError_ZeroAmount)
  else
    match st_entries p !! staker with
    | None => Some (p, Err StakingError_NoStakeFound)
    | Some entries =>
      total ← unlocked_total (st_current_epoch p) entries;
      if total <? amount then Some (p, Err (StakingError_InsufficientBalance total amount))
      else
        '(entries', removed_total) ← withdraw (st_current_epoch p) entries amount;
        total_staked' ← u64_sub (st_total_staked p) removed_total;
        let p := set_total total_staked' p in
        Some (set_entries (store_entries staker entries' (st_entries p)) p, Ok tt)
    end.

Definition StakingPool_undelegate (p : StakingPool) (delegator validator : PublicKey) (amount : Z) :
    may_panic (StakingPool * result StakingError unit) :=
  if amount =? 0 then Some (p, Err StakingError_ZeroAmount)
  else
    let key := (delegator, validator) in
    match st_delegations p !! key with
    | None => Some (p, Err StakingError_NoDelegationFound)
    | Some entries =>
      total ← unlocked_total (st_current_epoch p) entries;
      if total <? amount then Some (p, Err (StakingError_InsufficientBalance total amount))
      else
        '(entries', removed_total) ← withdraw (st_current_epoch p) entries amount;
        total_staked' ← u64_sub (st_total_staked p) removed_total;
        let p := set_total total_staked' p in
        Some (set_delegations (store_entries key entries' (st_delegations p)) p, Ok tt)
    end.

(** The inner sum of [distribute_epoch_rewards]. *)
Definition entries_reward {E} `{Position E} (entries : list E) : may_panic Z :=
  fold_may_panic (λ acc e, r ← calculate_epoch_reward (pos_amount e) (pos_tier e); u64_add acc r)
    0 entries.

(** One of its two loops: [who] projects the key to the one rewarded. *)
Definition push_rewards {K E} `{Position E} (who : K → PublicKey)
    (rewards : list (PublicKey * Z)) (items : list (K * list E)) : may_panic (list (PublicKey * Z)) :=
  fold_may_panic (λ rewards '(k, entries),
    total_reward ← entries_reward entries;
    Some (if 0 <? total_reward then rewards ++ [(who k, total_reward)] else rewards)) rewards items.

Context {HO : HashOrder}.

Definition StakingPool_distribute_epoch_rewards (p : StakingPool) :
    may_panic (list (PublicKey * Z)) :=
  rewards ← push_rewards id [] (hash_iter (st_entries p));
  push_rewards fst rewards (hash_iter (st_delegations p)).

(** The [u128] product of two [u64]s does not overflow. *)
Definition entry_power {E} `{Position E} (e : E) : Z :=
  as_u64 (pos_amount e * LockTier_vote_weight_bps (pos_tier e) / 1000).

Definition add_powers {E} `{Position E} (power : Z) (entries : list E) : Z :=
  fold_left (λ power e, u64_saturating_add power (entry_power e)) entries power.

Definition StakingPool_get_voting_power (p : StakingPool) (pubkey : PublicKey) : Z :=
  let power := match st_entries p !! pubkey with
               | Some entries => add_powers 0 entries
               | None => 0
               end in
  fold_left (λ power '((_, validator), entries),
    if decide (validator = pubkey) then add_powers power entries else power)
    (hash_iter (st_delegations p)) power.
End Ops.

(** ** Specification *)

Section Spec.
Context {E : Type} `{Position E}.

Definition positions_total (l : list E) : Z := zsum (pos_amount <$> l).

(** What can be withdrawn at an epoch. *)
Definition unlocked_sum (epoch : Z) (l : list E) : Z :=
  zsum (pos_amount <$> filter (λ e, unlocked epoch e) l).
Definition locked_entries (epoch : Z) (l : list E) : list E :=
  filter (λ e, unlocked epoch e = false) l.

(** Withdrawing [a] from the unlocked entries, oldest first, by recursion on the
    list: no index, no mutation. *)
Fixpoint drain (epoch : Z) (l : list E) (a : Z) : list E :=
  match l with
  | [] => []
  | e :: l' =>
    if a <=? 0 then l
    else if unlocked epoch e then
      if pos_amount e <=? a then drain epoch l' (a - pos_amount e)
      else pos_set_amount (pos_amount e - a) e :: l'
    else e :: drain epoch l' a
  end.

Definition position_ok {OC : OverflowChecks} (e : E) : Prop :=
  0 < pos_amount e ∧ u64 (pos_amount e) ∧
  unlock_epoch_of (pos_tier e) (pos_start e) = Some (pos_unlock e).

(** A map of positions: no empty vector, every entry valid and filed under the
    key that owns it. *)
Definition positions_wf {OC : OverflowChecks} {K} `{Countable K} (own : K → E → Prop)
    (m : gmap K (list E)) : Prop :=
  map_Forall (λ k l, l ≠ [] ∧ Forall (λ e, position_ok e ∧ own k e) l) m.

(** The reward of a position for one epoch, exactly. *)
Definition epoch_reward (e : E) : Z :=
  pos_amount e * BASE_APY_BPS * LockTier_rate_pct (pos_tier e) / 365000000.

Definition rewards_of {K} (who : K → PublicKey) (items : list (K * list E)) :
    list (PublicKey * Z) :=
  filter (λ r, 0 < r.2) ((λ kl, (who kl.1, zsum (epoch_reward <$> kl.2))) <$> items).

Definition powers_total (l : list E) : Z := zsum (entry_power <$> l).
End Spec.

Definition own_stake (k : PublicKey) (e : StakeEntry) : Prop := se_staker e = k.
Definition own_delegation (k : DelegationKey) (e : DelegationEntry) : Prop :=
  (de_delegator e, de_validator e) = k.

(** The invariant of the pool. *)
Record StakingPool_wf {OC : OverflowChecks} (p : StakingPool) : Prop := {
  wf_total : st_total_staked p =
    map_zsum positions_total (st_entries p) + map_zsum positions_total (st_delegations p);
  wf_total_u64 : u64 (st_total_staked p);
  wf_epoch : u64 (st_current_epoch p);
  wf_entries : positions_wf own_stake (st_entries p);
  wf_delegations : positions_wf own_delegation (st_delegations p);
}.

(** The operations as data: a run of the pool. *)
Inductive staking_op :=
| OpSetEpoch (epoch : Z)
| OpStake (staker : PublicKey) (amount : Z) (tier : LockTier)
| OpUnstake (staker : PublicKey) (amount : Z)
| OpDelegate (delegator validator : PublicKey) (amount : Z) (tier : LockTier)
| OpUndelegate (delegator validator : PublicKey) (amount : Z).

(** The arguments are [u64]s. *)
Definition staking_op_ok (o : staking_op) : Prop :=
  match o with
  | OpSetEpoch e => u64 e
  | OpStake _ a _ | OpUnstake _ a | OpDelegate _ _ a _ | OpUndelegate _ _ a => u64 a
  end.

Definition staking_exec {OC : OverflowChecks} (p : StakingPool) (o : staking_op) :
    may_panic (StakingPool * result StakingError unit) :=
  match o with
  | OpSetEpoch e => Some (StakingPool_set_epoch e p, Ok tt)
  | OpStake s a t => StakingPool_stake p s a t
  | OpUnstake s a => StakingPool_unstake p s a
  | OpDelegate d v a t => StakingPool_delegate p d v a t
  | OpUndelegate d v a => StakingPool_undelegate p d v a
  end.

(** A run of operations, with what each answered. *)
Fixpoint staking_run {OC : OverflowChecks} (p : StakingPool) (os : list staking_op) :
    may_panic (StakingPool * list (result StakingError unit)) :=
  match os with
  | [] => Some (p, [])
  | o :: os =>
    '(p', r) ← staking_exec p o;
    '(p'', rs) ← staking_run p' os;
    Some (p'', r :: rs)
  end.

(** * Lemmas *)

Section WithdrawLemmas.
Context {OC : OverflowChecks} {E : Type} `{PositionLaws E}.
Implicit Types (l : list E) (e : E).

Lemma unlocked_set epoch a e : unlocked epoch (pos_set_amount a e) = unlocked epoch e.
Proof. unfold unlocked. by rewrite pos_unlock_set. Qed.

Lemma unlocked_sum_cons epoch e l :
  unlocked_sum epoch (e :: l) =
  (if unlocked epoch e then pos_amount e else 0) + unlocked_sum epoch l.
Proof.
  unfold unlocked_sum. rewrite filter_cons. destruct (unlocked epoch e) eqn:E1.
  - rewrite decide_True by done. done.
  - rewrite decide_False by (intros []). done.
Qed.

Lemma locked_entries_cons epoch e l :
  locked_entries epoch (e :: l) =
  if unlocked epoch e then locked_entries epoch l else e :: locked_entries epoch l.
Proof.
  unfold locked_entries. rewrite filter_cons. destruct (unlocked epoch e) eqn:E1.
  - rewrite decide_False by congruence. done.
  - by rewrite decide_True.
Qed.

Lemma positions_total_nonneg l : Forall (λ e, 0 <= pos_amount e) l → 0 <= positions_total l.
Proof. intros. by apply zsum_nonneg, Forall_fmap. Qed.

Lemma unlocked_sum_range epoch l :
  Forall (λ e, 0 <= pos_amount e) l → 0 <= unlocked_sum epoch l <= positions_total l.
Proof.
  induction 1 as [|e l He Hl IH]; [done|].
  rewrite unlocked_sum_cons. unfold positions_total in *. csimpl.
  destruct (unlocked epoch e); lia.
Qed.

Lemma drain_0 epoch l : drain epoch l 0 = l.
Proof. by destruct l. Qed.

(** [drain] takes exactly [a], from unlocked entries only. *)
Lemma drain_spec epoch l a :
  Forall (λ e, 0 <= pos_amount e) l → 0 <= a <= unlocked_sum epoch l →
  positions_total (drain epoch l a) = positions_total l - a ∧
  unlocked_sum epoch (drain epoch l a) = unlocked_sum epoch l - a ∧
  locked_entries epoch (drain epoch l a) = locked_entries epoch l.
Proof.
  intros Hl. revert a. induction Hl as [|e l He Hl IH]; intros a Ha.
  { unfold unlocked_sum, positions_total in *. simpl in *. split_and!; lia || done. }
  simpl. destruct (a <=? 0) eqn:Ea; [split_and!; zlia || done|].
  rewrite (unlocked_sum_cons _ e l) in *. rewrite (locked_entries_cons _ e l).
  destruct (unlocked epoch e) eqn:Eu; [destruct (pos_amount e <=? a) eqn:Ele|].
  - destruct (IH (a - pos_amount e)) as (?&?&?); [zlia|].
    unfold positions_total in *. csimpl. split_and!; lia || done.
  - rewrite unlocked_sum_cons, locked_entries_cons, unlocked_set, Eu.
    unfold positions_total. csimpl. rewrite pos_amount_set. split_and!; lia || done.
  - destruct (IH a) as (?&?&?); [zlia|].
    rewrite unlocked_sum_cons, locked_entries_cons, Eu. unfold positions_total in *. csimpl.
    split_and!; lia || congruence.
Qed.

(** The loop with its index computes [drain], and its rounds are enough. *)
Lemma withdraw_loop_drain epoch pre suf a r fuel :
  Forall (λ e, 0 < pos_amount e ∧ u64 (pos_amount e)) suf →
  0 <= a → 0 <= r → a + r < U64 → (length suf + 2 <= fuel)%nat →
  withdraw_loop fuel epoch (pre ++ suf) (length pre) a r =
  Some (pre ++ drain epoch suf a, r + Z.min a (unlocked_sum epoch suf)).
Proof.
  intros Hsuf. revert pre a r fuel. induction Hsuf as [|e suf [He Hu] Hsuf IH];
    intros pre a r fuel Ha Hr Har Hfuel; (destruct fuel as [|fuel]; [simpl in *; lia|]).
  { simpl. rewrite lookup_app_r, Nat.sub_diag by lia. simpl. do 2 f_equal.
    unfold unlocked_sum. simpl. lia. }
  simpl. rewrite lookup_app_r, Nat.sub_diag by lia. simpl.
  assert (0 <= unlocked_sum epoch suf) as Hpos.
  { apply unlocked_sum_range. eapply Forall_impl; [done|]. intros ? [??]. lia. }
  rewrite unlocked_sum_cons. destruct (0 <? a) eqn:E0.
  2: { rewrite (proj2 (Z.leb_le a 0)) by zlia. do 2 f_equal.
       destruct (unlocked epoch e); zlia. }
  rewrite (proj2 (Z.leb_gt a 0)) by zlia.
  destruct (unlocked epoch e) eqn:Eu; [destruct (pos_amount e <=? a) eqn:Ele|].
  - rewrite u64_sub_ok by zlia. simpl. rewrite u64_add_ok by zlia. simpl.
    rewrite delete_middle, IH by (zlia || simpl in *; lia). do 2 f_equal. zlia.
  - rewrite u64_sub_ok by zlia. simpl. rewrite u64_add_ok by zlia. simpl.
    rewrite insert_app_r_alt, Nat.sub_diag by lia. simpl.
    destruct fuel as [|fuel]; [simpl in *; lia|]. simpl.
    rewrite lookup_app_r, Nat.sub_diag by lia. simpl. do 2 f_equal. zlia.
  - replace (S (length pre)) with (length (pre ++ [e])) by (rewrite length_app; simpl; lia).
    rewrite (cons_middle e pre suf), app_assoc. rewrite IH by (done || simpl in *; lia).
    by rewrite <-app_assoc.
Qed.

Lemma withdraw_drain epoch l a :
  Forall (λ e, 0 < pos_amount e ∧ u64 (pos_amount e)) l → u64 a → a <= unlocked_sum epoch l →
  withdraw epoch l a = Some (drain epoch l a, a).
Proof.
  intros Hl Ha Hle. unfold withdraw.
  rewrite (withdraw_loop_drain epoch [] l) by (zlia || done). simpl. do 2 f_equal. lia.
Qed.

Lemma unlocked_total_ok epoch l :
  Forall (λ e, 0 <= pos_amount e) l → positions_total l < U64 →
  unlocked_total epoch l = Some (unlocked_sum epoch l).
Proof.
  intros Hl Hlt. pose proof (unlocked_sum_range epoch l Hl). apply u64_sum_ok.
  - apply Forall_fmap, Forall_forall. intros e [_ He]%list_elem_of_filter.
    rewrite Forall_forall in Hl. by apply Hl.
  - unfold unlocked_sum in *. lia.
Qed.

Lemma drain_Forall (P : E → Prop) epoch l a :
  (∀ e a, 0 < a < pos_amount e → P e → P (pos_set_amount a e)) →
  Forall P l → 0 <= a → Forall P (drain epoch l a).
Proof.
  intros HP Hl. revert a. induction Hl as [|e l He Hl IH]; intros a Ha; simpl; [constructor|].
  destruct (a <=? 0) eqn:?; [by constructor|].
  destruct (unlocked epoch e); [destruct (pos_amount e <=? a) eqn:?|].
  - apply IH. zlia.
  - constructor; [|done]. apply HP; [zlia|done].
  - constructor; [done|]. by apply IH.
Qed.
End WithdrawLemmas.

Section MapLemmas.
Context {OC : OverflowChecks} {K : Type} `{Countable K} {E : Type} `{PositionLaws E}.
Context (own : K → E → Prop) (own_set : ∀ k e a, own k e → own k (pos_set_amount a e)).
Implicit Types (m : gmap K (list E)).

Lemma positions_wf_nonneg m k l :
  positions_wf own m → m !! k = Some l → Forall (λ e, 0 <= pos_amount e) l.
Proof.
  intros Hm Hk. destruct (Hm _ _ Hk) as [_ Hl]. eapply Forall_impl; [done|].
  intros e [[? _] _]. simpl. lia.
Qed.

Lemma positions_wf_amounts m k l :
  positions_wf own m → m !! k = Some l → Forall (λ e, 0 < pos_amount e ∧ u64 (pos_amount e)) l.
Proof.
  intros Hm Hk. destruct (Hm _ _ Hk) as [_ Hl]. eapply Forall_impl; [done|].
  intros e [(?&?&?) _]. done.
Qed.

Lemma positions_wf_total_nonneg m : positions_wf own m → 0 <= map_zsum positions_total m.
Proof.
  intros Hm. apply map_zsum_nonneg. intros k l Hk.
  by eapply positions_total_nonneg, positions_wf_nonneg.
Qed.

Lemma positions_wf_total_le m k l :
  positions_wf own m → m !! k = Some l → positions_total l <= map_zsum positions_total m.
Proof.
  intros Hm Hk. eapply map_zsum_lookup_le; [|done]. intros k' l' Hk'. simpl.
  by eapply positions_total_nonneg, positions_wf_nonneg.
Qed.

Lemma positions_wf_push m k e :
  positions_wf own m → position_ok e → own k e →
  positions_wf own (<[k := default [] (m !! k) ++ [e]]> m).
Proof.
  intros Hm He Hown. apply map_Forall_insert_2; [|done]. split; [by destruct (default [] _)|].
  rewrite Forall_app, Forall_singleton. split; [|done].
  destruct (m !! k) as [l|] eqn:Hk; simpl; [|by apply Forall_nil]. by apply (Hm _ _ Hk).
Qed.

Lemma map_total_push m k e :
  map_zsum positions_total (<[k := default [] (m !! k) ++ [e]]> m) =
  map_zsum positions_total m + pos_amount e.
Proof.
  rewrite map_zsum_insert. unfold positions_total. rewrite fmap_app, zsum_app. csimpl.
  destruct (m !! k); simpl; lia.
Qed.

Lemma positions_wf_store m k epoch l a :
  positions_wf own m → m !! k = Some l → 0 <= a →
  positions_wf own (store_entries k (drain epoch l a) m).
Proof.
  intros Hm Hk Ha. unfold store_entries. destruct (drain epoch l a) as [|e l'] eqn:Hd.
  - intros k' l' [_ Hk']%lookup_delete_Some. by apply Hm.
  - apply map_Forall_insert_2; [|done]. split; [done|]. rewrite <-Hd.
    apply drain_Forall; [|by apply (Hm _ _ Hk)|done].
    intros e' a' Ha' [(?&?&?) ?]. unfold position_ok.
    rewrite pos_amount_set, pos_tier_set, pos_start_set, pos_unlock_set.
    split_and!; [zlia|zlia|done|by apply own_set].
Qed.

Lemma map_total_store m k epoch l a :
  positions_wf own m → m !! k = Some l → 0 <= a <= unlocked_sum epoch l →
  map_zsum positions_total (store_entries k (drain epoch l a) m) =
  map_zsum positions_total m - a.
Proof.
  intros Hm Hk Ha.
  destruct (drain_spec epoch l a) as (Ht & _); [by eapply positions_wf_nonneg|done|].
  unfold store_entries. destruct (drain epoch l a) as [|e l'] eqn:Hd.
  - rewrite (map_zsum_delete _ _ _ _ Hk). unfold positions_total in *. simpl in *. lia.
  - rewrite map_zsum_insert, Hk. simpl. lia.
Qed.
End MapLemmas.

Section PoolLemmas.
Context {OC : OverflowChecks}.
Implicit Types (p : StakingPool).

Lemma own_stake_set k e a : own_stake k e → own_stake k (pos_set_amount a e).
Proof. done. Qed.
Lemma own_delegation_set k e a : own_delegation k e → own_delegation k (pos_set_amount a e).
Proof. done. Qed.

Lemma wf_entries_total_le p k l :
  StakingPool_wf p → st_entries p !! k = Some l → positions_total l <= st_total_staked p.
Proof.
  intros [Ht _ _ He Hd] Hk. pose proof (positions_wf_total_le _ _ _ _ He Hk).
  pose proof (positions_wf_total_nonneg _ _ Hd). lia.
Qed.
Lemma wf_delegations_total_le p k l :
  StakingPool_wf p → st_delegations p !! k = Some l → positions_total l <= st_total_staked p.
Proof.
  intros [Ht _ _ He Hd] Hk. pose proof (positions_wf_total_le _ _ _ _ Hd Hk).
  pose proof (positions_wf_total_nonneg _ _ He). lia.
Qed.

(** The two withdrawals, on every branch. *)
Lemma unstake_eq p s a :
  StakingPool_wf p → u64 a →
  StakingPool_unstake p s a = Some (
    if a =? 0 then (p, Err StakingError_ZeroAmount)
    else match st_entries p !! s with
         | None => (p, Err StakingError_NoStakeFound)
         | Some l =>
           let have := unlocked_sum (st_current_epoch p) l in
           if have <? a then (p, Err (StakingError_InsufficientBalance have a))
           else (mkStakingState (st_total_staked p - a)
                   (store_entries s (drain (st_current_epoch p) l a) (st_entries p))
                   (st_delegations p) (st_current_epoch p), Ok tt)
         end).
Proof.
  intros Hp Ha. unfold StakingPool_unstake. destruct (a =? 0); [done|].
  destruct (st_entries p !! s) as [l|] eqn:Hk; [|done].
  pose proof (wf_entries_total_le _ _ _ Hp Hk) as Hle. destruct Hp as [_ Hu _ He _].
  pose proof (positions_wf_nonneg _ _ _ _ He Hk) as Hnn.
  rewrite unlocked_total_ok by (done || zlia). simpl. case_match eqn:Hlt; [done|].
  rewrite withdraw_drain; [|by eapply positions_wf_amounts|done|zlia]. simpl.
  pose proof (unlocked_sum_range (st_current_epoch p) l Hnn).
  rewrite u64_sub_ok by zlia. done.
Qed.

Lemma undelegate_eq p d v a :
  StakingPool_wf p → u64 a →
  StakingPool_undelegate p d v a = Some (
    if a =? 0 then (p, Err StakingError_ZeroAmount)
    else match st_delegations p !! (d, v) with
         | None => (p, Err StakingError_NoDelegationFound)
         | Some l =>
           let have := unlocked_sum (st_current_epoch p) l in
           if have <? a then (p, Err (StakingError_InsufficientBalance have a))
           else (mkStakingState (st_total_staked p - a) (st_entries p)
                   (store_entries (d, v) (drain (st_current_epoch p) l a) (st_delegations p))
                   (st_current_epoch p), Ok tt)
         end).
Proof.
  intros Hp Ha. unfold StakingPool_undelegate. destruct (a =? 0); [done|].
  destruct (st_delegations p !! (d, v)) as [l|] eqn:Hk; [|done].
  pose proof (wf_delegations_total_le _ _ _ Hp Hk) as Hle. destruct Hp as [_ Hu _ _ He].
  pose proof (positions_wf_nonneg _ _ _ _ He Hk) as Hnn.
  rewrite unlocked_total_ok by (done || zlia). simpl. case_match eqn:Hlt; [done|].
  rewrite withdraw_drain; [|by eapply positions_wf_amounts|done|zlia]. simpl.
  pose proof (unlocked_sum_range (st_current_epoch p) l Hnn).
  rewrite u64_sub_ok by zlia. done.
Qed.

Lemma unstake_wf p s a p' r :
  StakingPool_wf p → u64 a → StakingPool_unstake p s a = Some (p', r) → StakingPool_wf p'.
Proof.
  intros Hp Ha. rewrite unstake_eq by done. intros Hs. pose proof Hp as [Ht Hu Hep He Hd].
  destruct (a =? 0); [by simplify_eq|]. destruct (st_entries p !! s) as [l|] eqn:Hk; [|by simplify_eq].
  simpl in *. destruct (_ <? a) eqn:?; simplify_eq/=; [done|].
  pose proof (wf_entries_total_le _ _ _ Hp Hk).
  pose proof (unlocked_sum_range (st_current_epoch p) l (positions_wf_nonneg _ _ _ _ He Hk)).
  split; simpl; [|zlia|done| |done].
  - rewrite (map_total_store own_stake) by (done || zlia). lia.
  - apply positions_wf_store; [apply own_stake_set|done..|zlia].
Qed.

Lemma undelegate_wf p d v a p' r :
  StakingPool_wf p → u64 a → StakingPool_undelegate p d v a = Some (p', r) → StakingPool_wf p'.
Proof.
  intros Hp Ha. rewrite undelegate_eq by done. intros Hs. pose proof Hp as [Ht Hu Hep He Hd].
  destruct (a =? 0); [by simplify_eq|].
  destruct (st_delegations p !! (d, v)) as [l|] eqn:Hk; [|by simplify_eq].
  simpl in *. destruct (_ <? a) eqn:?; simplify_eq/=; [done|].
  pose proof (wf_delegations_total_le _ _ _ Hp Hk).
  pose proof (unlocked_sum_range (st_current_epoch p) l (positions_wf_nonneg _ _ _ _ Hd Hk)).
  split; simpl; [|zlia|done|done|].
  - rewrite (map_total_store own_delegation) by (done || zlia). lia.
  - apply positions_wf_store; [apply own_delegation_set|done..|zlia].
Qed.

(** An accepted deposit: the entry pushed and the total raised. *)
Lemma stake_ok_inv p s a t p' r :
  StakingPool_stake p s a t = Some (p', r) → r ≠ Err StakingError_Overflow →
  (p' = p ∧ a = 0 ∧ r = Err StakingError_ZeroAmount) ∨
  (∃ unlock, unlock_epoch_of t (st_current_epoch p) = Some unlock ∧ a ≠ 0 ∧
    0 <= st_total_staked p + a < U64 ∧ r = Ok tt ∧
    let e := mkStakeEntry s a t (st_current_epoch p) unlock in
    p' = mkStakingState (st_total_staked p + a)
      (<[s := default [] (st_entries p !! s) ++ [e]]> (st_entries p))
      (st_delegations p) (st_current_epoch p)).
Proof.
  unfold StakingPool_stake. intros Hs Hr. destruct (a =? 0) eqn:Ha; [left; simplify_eq; split_and!; zlia || done|].
  apply bind_Some in Hs as (unlock & Hu & Hs). right. exists unlock. simpl in Hs.
  destruct (u64_checked_add _ _) as [t'|] eqn:Hc; simplify_eq.
  apply checked_Some in Hc as [? ->]. split_and!; zlia || done.
Qed.

Lemma delegate_ok_inv p d v a t p' r :
  StakingPool_delegate p d v a t = Some (p', r) → r ≠ Err StakingError_Overflow →
  (p' = p ∧ a = 0 ∧ r = Err StakingError_ZeroAmount) ∨
  (∃ unlock, unlock_epoch_of t (st_current_epoch p) = Some unlock ∧ a ≠ 0 ∧
    0 <= st_total_staked p + a < U64 ∧ r = Ok tt ∧
    let e := mkDelegationEntry d v a t (st_current_epoch p) unlock in
    p' = mkStakingState (st_total_staked p + a) (st_entries p)
      (<[(d, v) := default [] (st_delegations p !! (d, v)) ++ [e]]> (st_delegations p))
      (st_current_epoch p)).
Proof.
  unfold StakingPool_delegate. intros Hs Hr. destruct (a =? 0) eqn:Ha; [left; simplify_eq; split_and!; zlia || done|].
  apply bind_Some in Hs as (unlock & Hu & Hs). right. exists unlock. simpl in Hs.
  destruct (u64_checked_add _ _) as [t'|] eqn:Hc; simplify_eq.
  apply checked_Some in Hc as [? ->]. split_and!; zlia || done.
Qed.

Lemma staking_exec_wf p o p' r :
  StakingPool_wf p → staking_op_ok o → staking_exec p o = Some (p', r) →
  r ≠ Err StakingError_Overflow → StakingPool_wf p'.
Proof.
  intros Hp Ho He Hr. pose proof Hp as [Ht Hu Hep Hen Hde]. destruct o; simpl in *.
  - simplify_eq. by split.
  - destruct (stake_ok_inv _ _ _ _ _ _ He Hr) as [(->&_)|(u & Hun & ? & ? & -> & ->)]; [done|].
    split; simpl; [rewrite map_total_push; simpl; lia|done|done| |done].
    apply positions_wf_push; [done| |done]. split_and!; simpl; zlia || done.
  - by eapply (unstake_wf _ _ _ _ _ Hp Ho).
  - destruct (delegate_ok_inv _ _ _ _ _ _ _ He Hr) as [(->&_)|(u & Hun & ? & ? & -> & ->)]; [done|].
    split; simpl; [rewrite map_total_push; simpl; lia|done|done|done|].
    apply positions_wf_push; [done| |done]. split_and!; simpl; zlia || done.
  - by eapply (undelegate_wf _ _ _ _ _ _ Hp Ho).
Qed.

Lemma staking_run_wf p os p' rs :
  StakingPool_wf p → Forall staking_op_ok os → staking_run p os = Some (p', rs) →
  Forall (λ r, r ≠ Err StakingError_Overflow) rs → StakingPool_wf p'.
Proof.
  intros Hp Hos. revert p rs Hp. induction Hos as [|o os Ho Hos IH]; intros p rs Hp Hrun Hrs; simpl in *.
  { by simplify_eq. }
  apply bind_Some in Hrun as ([p1 r] & Hexec & Hrun).
  apply bind_Some in Hrun as ([p2 rs'] & Hrun & ?). simplify_eq.
  apply Forall_cons in Hrs as [Hr Hrs]. eapply IH; [by eapply staking_exec_wf|done|done].
Qed.

Lemma StakingPool_new_wf : StakingPool_wf StakingPool_new.
Proof.
  split; simpl; [by rewrite !map_zsum_empty|zlia|zlia|apply map_Forall_empty..].
Qed.

Lemma unlock_epoch_of_ok t epoch :
  0 <= epoch → epoch + THREE_SIXTY_DAY_EPOCHS < U64 →
  unlock_epoch_of t epoch = Some (Z.add epoch <$> LockTier_lock_duration_epochs t).
Proof.
  intros. unfold unlock_epoch_of, THREE_SIXTY_DAY_EPOCHS in *.
  destruct t; csimpl; [..|done];
    unfold THIRTY_DAY_EPOCHS, NINETY_DAY_EPOCHS, ONE_EIGHTY_DAY_EPOCHS, THREE_SIXTY_DAY_EPOCHS;
    by rewrite u64_add_ok by zlia.
Qed.

(** Within 360 epochs of the end of [u64] no operation panics. *)
Lemma staking_exec_total p o :
  StakingPool_wf p → staking_op_ok o → st_current_epoch p + THREE_SIXTY_DAY_EPOCHS < U64 →
  is_Some (staking_exec p o).
Proof.
  intros Hp Ho He. pose proof Hp as [_ _ [? _] _ _]. destruct o; simpl in *.
  - eauto.
  - unfold StakingPool_stake. case_match; [by eexists|]. rewrite unlock_epoch_of_ok by done.
    simpl. case_match; eauto.
  - rewrite unstake_eq by done. by eexists.
  - unfold StakingPool_delegate. case_match; [by eexists|]. rewrite unlock_epoch_of_ok by done.
    simpl. case_match; eauto.
  - rewrite undelegate_eq by done. by eexists.
Qed.

(** ** Rewards *)

Lemma rate_pct_range t : 5 <= LockTier_rate_pct t <= 120.
Proof. destruct t; simpl; lia. Qed.

Lemma calculate_reward_eq amount t epochs :
  0 <= amount → 0 <= epochs → amount * BASE_APY_BPS * LockTier_rate_pct t * epochs < U128 →
  calculate_reward amount t epochs =
  Some (as_u64 (amount * BASE_APY_BPS * LockTier_rate_pct t * epochs / 365000000)).
Proof.
  intros Ha He Hn. pose proof (rate_pct_range t) as Hr. unfold calculate_reward.
  destruct (amount =? 0) eqn:Ea; simpl; [replace amount with 0 by zlia; done|].
  destruct (epochs =? 0) eqn:Ee; simpl.
  { replace epochs with 0 by zlia. by rewrite Z.mul_0_r. }
  assert (0 < amount * BASE_APY_BPS) by (unfold BASE_APY_BPS; zlia).
  assert (0 < amount * BASE_APY_BPS * LockTier_rate_pct t) by nia.
  assert (1 <= epochs) by zlia.
  unfold u128_checked_mul. rewrite (proj2 (checked_Some _ _ _)) by (split; [nia|done]). simpl.
  rewrite (proj2 (checked_Some _ _ _)) by (split; [nia|done]). simpl.
  rewrite (proj2 (checked_Some _ _ _)) by (split; [nia|done]). done.
Qed.

Lemma calculate_epoch_reward_ok {E} `{Position E} (e : E) :
  u64 (pos_amount e) →
  calculate_epoch_reward (pos_amount e) (pos_tier e) = Some (epoch_reward e) ∧
  0 <= epoch_reward e ∧ 365000000 * epoch_reward e <= 60000 * pos_amount e.
Proof.
  intros [Ha Hu]. pose proof (rate_pct_range (pos_tier e)) as Hr.
  unfold calculate_epoch_reward, epoch_reward.
  assert (0 <= pos_amount e * BASE_APY_BPS * LockTier_rate_pct (pos_tier e)
    <= 60000 * pos_amount e) as Hn by (unfold BASE_APY_BPS; nia).
  rewrite calculate_reward_eq by lia. rewrite Z.mul_1_r.
  set (n := pos_amount e * BASE_APY_BPS * LockTier_rate_pct (pos_tier e)) in *.
  assert (0 <= n / 365000000) by (apply Z.div_pos; lia).
  assert (365000000 * (n / 365000000) <= n) by (apply Z.mul_div_le; lia).
  split_and!; [|done|lia]. f_equal. apply as_u64_id. zlia.
Qed.

Lemma fold_rewards_ok {E} `{Position E} acc (l : list E) :
  Forall (λ e, u64 (pos_amount e)) l → 0 <= acc → acc + positions_total l < U64 →
  fold_may_panic (λ acc e, r ← calculate_epoch_reward (pos_amount e) (pos_tier e); u64_add acc r)
    acc l = Some (acc + zsum (epoch_reward <$> l)) ∧
  0 <= zsum (epoch_reward <$> l) ∧ 365000000 * zsum (epoch_reward <$> l) <= 60000 * positions_total l.
Proof.
  intros Hl. revert acc. induction Hl as [|e l He Hl IH]; intros acc Hacc Hsum.
  { simpl. unfold positions_total. simpl. split_and!; [f_equal; lia|lia..]. }
  destruct (calculate_epoch_reward_ok e He) as (Hr & Hpos & Hle).
  unfold positions_total in *. csimpl in *. rewrite Hr. simpl.
  assert (0 <= positions_total l) as Hnn.
  { apply positions_total_nonneg. eapply Forall_impl; [done|]. intros ? [? _]. done. }
  unfold positions_total in *.
  rewrite u64_add_ok by zlia. simpl. destruct (IH (acc + epoch_reward e)) as (-> & ? & ?); [lia..|].
  split_and!; [f_equal; lia|lia..].
Qed.

Lemma push_rewards_ok {K E} `{Position E} (who : K → PublicKey) items rewards :
  Forall (λ kl, Forall (λ e : E, u64 (pos_amount e)) kl.2 ∧ positions_total kl.2 < U64) items →
  push_rewards who rewards items = Some (rewards ++ rewards_of who items) ∧
  365000000 * zsum ((rewards_of who items).*2) <=
    60000 * zsum ((λ kl, positions_total kl.2) <$> items).
Proof.
  intros Hl. revert rewards. induction Hl as [|[k l] items [Hu Ht] Hl IH]; intros rewards; simpl in *.
  { by rewrite app_nil_r. }
  destruct (fold_rewards_ok 0 l Hu) as (Hr & Hpos & Hle); [lia..|].
  assert (entries_reward l = Some (zsum (epoch_reward <$> l))) as Her by exact Hr.
  unfold push_rewards in *. simpl. rewrite Her. simpl.
  unfold rewards_of in *. csimpl. rewrite filter_cons. simpl.
  destruct (0 <? zsum (epoch_reward <$> l)) eqn:Hz.
  - rewrite decide_True by zlia. destruct (IH (rewards ++ [(who k, zsum (epoch_reward <$> l))])) as [-> ?].
    rewrite <-app_assoc. split; [done|]. csimpl. lia.
  - rewrite decide_False by zlia. destruct (IH rewards) as [-> ?]. split; [done|]. lia.
Qed.
End PoolLemmas.

(** ** Voting power *)

(** The vote weights of the documentation, in thousandths, and the effective stake it
    gives an amount: exact, of no width. *)
Definition documented_weight (t : LockTier) : Z :=
  match t with
  | NoLock => 0
  | ThirtyDay => 100
  | NinetyDay => 200
  | OneEightyDay => 300
  | ThreeSixtyDay => 500
  | Delegator => 1000
  | Permanent => 1500
  end.
Definition effective_stake (x : Z * LockTier) : Z := x.1 * documented_weight x.2 / 1000.

(** What backs a key: the stakes of the key, and the delegations to it. *)
Definition position {E} `{Position E} (e : E) : Z * LockTier := (pos_amount e, pos_tier e).
Definition backing (p : StakingPool) (pubkey : PublicKey) : list (Z * LockTier) :=
  (position <$> default [] (st_entries p !! pubkey)) ++
  mjoin ((λ kl, if decide (kl.1.2 = pubkey) then position <$> kl.2 else []) <$> map_to_list (st_delegations p)).

(** What the loops of [get_voting_power] add up, over the maps and not over an order of
    iteration. *)
Definition voting_power_of (p : StakingPool) (pubkey : PublicKey) : Z :=
  powers_total (default [] (st_entries p !! pubkey)) +
  zsum ((λ kl, if decide (kl.1.2 = pubkey) then powers_total kl.2 else 0) <$>
    map_to_list (st_delegations p)).

Section PowerLemmas.
Context {E : Type} `{Position E}.

Lemma entry_power_bounds (e : E) :
  0 <= pos_amount e → 0 <= entry_power e ∧ 1000 * entry_power e <= 1500 * pos_amount e.
Proof.
  intros He. unfold entry_power, as_u64.
  set (n := pos_amount e * LockTier_vote_weight_bps (pos_tier e)).
  assert (0 <= n <= 1500 * pos_amount e) as Hn by (unfold n; destruct (pos_tier e); simpl; lia).
  assert (0 <= n / 1000) by (apply Z.div_pos; lia).
  assert (1000 * (n / 1000) <= n) by (apply Z.mul_div_le; lia).
  assert (n / 1000 mod U64 <= n / 1000) by (apply Z.mod_le; lia).
  split; [by apply Z.mod_pos_bound|lia].
Qed.

Lemma powers_total_bounds (l : list E) :
  Forall (λ e, 0 <= pos_amount e) l →
  0 <= powers_total l ∧ 1000 * powers_total l <= 1500 * positions_total l.
Proof.
  unfold powers_total, positions_total.
  induction 1 as [|e l He Hl IH]; csimpl; [lia|]. pose proof (entry_power_bounds e He). lia.
Qed.

Lemma add_powers_eq power (l : list E) :
  Forall (λ e, 0 <= pos_amount e) l → 0 <= power <= u64_max →
  add_powers power l = Z.min u64_max (power + powers_total l).
Proof.
  intros Hl. revert power. unfold add_powers, powers_total.
  induction Hl as [|e l He Hl IH]; intros power Hp; csimpl; [lia|].
  pose proof (entry_power_bounds e He). pose proof (powers_total_bounds l Hl) as [? _].
  unfold powers_total in *. unfold u64_saturating_add at 2. rewrite IH by lia. lia.
Qed.

Lemma fold_powers_eq pubkey power (items : list (PublicKey * PublicKey * list E)) :
  Forall (λ kl, Forall (λ e, 0 <= pos_amount e) kl.2) items → 0 <= power <= u64_max →
  fold_left (λ power '((_, validator), entries),
    if decide (validator = pubkey) then add_powers power entries else power) items power =
  Z.min u64_max (power + zsum ((λ kl, if decide (kl.1.2 = pubkey) then powers_total kl.2 else 0) <$> items)) ∧
  0 <= zsum ((λ kl, if decide (kl.1.2 = pubkey) then powers_total kl.2 else 0) <$> items) ∧
  1000 * zsum ((λ kl, if decide (kl.1.2 = pubkey) then powers_total kl.2 else 0) <$> items) <=
    1500 * zsum ((λ kl, positions_total kl.2) <$> items).
Proof.
  intros Hl. revert power. induction Hl as [|[[d v] l] items Hkl Hl IH]; intros power Hp; csimpl.
  { split_and!; lia. }
  simpl in *. pose proof (powers_total_bounds l Hkl) as [? ?].
  pose proof (positions_total_nonneg l Hkl). destruct (decide (v = pubkey)).
  - rewrite add_powers_eq by done.
    destruct (IH (Z.min u64_max (power + powers_total l))) as (-> & ? & ?); [lia|]. split_and!; lia.
  - destruct (IH power Hp) as (-> & ? & ?). split_and!; lia.
Qed.
End PowerLemmas.

Lemma map_items_sum {K} `{Countable K} {V} (f : V → Z) (m : gmap K V) :
  zsum ((λ kv, f kv.2) <$> map_to_list m) = map_zsum f m.
Proof. unfold map_zsum. by rewrite <-list_fmap_compose. Qed.

Lemma hash_items_sum `{HashOrderLaws} {K} `{Countable K} {V} (f : V → Z) (m : gmap K V) :
  zsum ((λ kv, f kv.2) <$> hash_iter m) = map_zsum f m.
Proof. by rewrite hash_iter_perm, map_items_sum. Qed.

Lemma hash_items_Forall `{HashOrderLaws} {K} `{Countable K} {V} (P : V → Prop) (m : gmap K V) :
  (∀ k v, m !! k = Some v → P v) → Forall (λ kv, P kv.2) (hash_iter m).
Proof. intros HP. apply Forall_forall. intros [k v] Hk. apply elem_of_hash_iter in Hk. eauto. Qed.

Section PoolRewards.
Context {OC : OverflowChecks} `{HashOrderLaws}.
Implicit Types (p : StakingPool).

Lemma distribute_eq p :
  StakingPool_wf p →
  StakingPool_distribute_epoch_rewards p =
    Some (rewards_of id (hash_iter (st_entries p)) ++ rewards_of fst (hash_iter (st_delegations p))) ∧
  365000000 * zsum ((rewards_of id (hash_iter (st_entries p))
    ++ rewards_of fst (hash_iter (st_delegations p))).*2) <= 60000 * st_total_staked p.
Proof.
  intros Hp. pose proof Hp as [Ht Hu _ He Hd]. unfold StakingPool_distribute_epoch_rewards.
  destruct (push_rewards_ok id (hash_iter (st_entries p)) []) as [-> Hb1].
  { apply (hash_items_Forall (λ l, Forall _ l ∧ positions_total l < U64)). intros k l Hk. split.
    - eapply Forall_impl; [by eapply positions_wf_amounts|]. intros ? [??]. done.
    - pose proof (wf_entries_total_le _ _ _ Hp Hk). zlia. }
  simpl.
  destruct (push_rewards_ok fst (hash_iter (st_delegations p))
    (rewards_of id (hash_iter (st_entries p)))) as [-> Hb2].
  { apply (hash_items_Forall (λ l, Forall _ l ∧ positions_total l < U64)). intros k l Hk. split.
    - eapply Forall_impl; [by eapply positions_wf_amounts|]. intros ? [??]. done.
    - pose proof (wf_delegations_total_le _ _ _ Hp Hk). zlia. }
  split; [done|]. rewrite fmap_app, zsum_app.
  rewrite hash_items_sum in Hb1. rewrite hash_items_sum in Hb2. lia.
Qed.

Lemma get_voting_power_eq p pubkey :
  StakingPool_wf p →
  StakingPool_get_voting_power p pubkey = Z.min u64_max (voting_power_of p pubkey) ∧
  0 <= voting_power_of p pubkey ∧ 1000 * voting_power_of p pubkey <= 1500 * st_total_staked p.
Proof.
  intros [Ht Hu _ He Hd]. unfold StakingPool_get_voting_power, voting_power_of.
  assert (∃ own, own = powers_total (default [] (st_entries p !! pubkey)) ∧ 0 <= own ∧
    1000 * own <= 1500 * map_zsum positions_total (st_entries p) ∧
    match st_entries p !! pubkey with Some l => add_powers 0 l | None => 0 end
      = Z.min u64_max own) as (own & <- & Hown & Hle & ->).
  { eexists; split; [done|]. destruct (st_entries p !! pubkey) as [l|] eqn:Hk; simpl.
    - pose proof (positions_wf_nonneg _ _ _ _ He Hk) as Hnn.
      pose proof (positions_wf_total_le _ _ _ _ He Hk). pose proof (powers_total_bounds l Hnn).
      rewrite add_powers_eq by (done || zlia). split_and!; lia.
    - pose proof (positions_wf_total_nonneg _ _ He). unfold powers_total. simpl.
      split_and!; unfold u64_max; lia. }
  destruct (fold_powers_eq pubkey (Z.min u64_max own) (hash_iter (st_delegations p))) as (-> & H1 & H2).
  - apply (hash_items_Forall (λ l, Forall _ l)). intros k l Hk. by eapply positions_wf_nonneg.
  - zlia.
  - rewrite hash_items_sum in H2. rewrite hash_iter_perm in H1, H2 |- *. split_and!; lia.
Qed.
End PoolRewards.

(** The loops add up the effective stakes of what backs the key, each cut to 64 bits. *)
Lemma powers_total_positions {E} `{Position E} (l : list E) :
  powers_total l = zsum ((λ x, effective_stake x mod U64) <$> (position <$> l)).
Proof.
  unfold powers_total. induction l as [|e l IH]; [done|]. csimpl. rewrite IH.
  assert (entry_power e = effective_stake (position e) mod U64) as ->; [|done].
  unfold entry_power, as_u64, effective_stake, position. simpl. by destruct (pos_tier e).
Qed.

Lemma voting_power_of_backing p pubkey :
  voting_power_of p pubkey = zsum ((λ x, effective_stake x mod U64) <$> backing p pubkey).
Proof.
  unfold voting_power_of, backing. rewrite fmap_app, zsum_app, powers_total_positions. f_equal.
  induction (map_to_list (st_delegations p)) as [|[[d v] l] items IH]; [done|]. csimpl.
  rewrite fmap_app, zsum_app, IH. f_equal. destruct (decide (v = pubkey)); [apply powers_total_positions|done].
Qed.

(** Effective stakes that fit are not cut. *)
Lemma effective_stakes_fit (l : list (Z * LockTier)) :
  Forall (λ x, u64 (effective_stake x)) l → (λ x, effective_stake x mod U64) <$> l = effective_stake <$> l.
Proof. induction 1 as [|x l Hx Hl IH]; [done|]. csimpl. rewrite IH, Z.mod_small by zlia. done. Qed.

(** * Properties *)

(** C14: the pool invariant.  After any sequence of operations on a new pool in
    which none was answered [Overflow], [total_staked] is the exact sum of all
    stakes and delegations and fits [u64], every vector is nonempty and every
    entry is positive, filed under its owner, and unlocks when its tier says.
    From such a pool no operation panics until 360 epochs before the end of
    [u64]. *)
Theorem StakingPool_total_is_sum {OC : OverflowChecks} (os : list staking_op) (p : StakingPool) rs :
  Forall staking_op_ok os →
  staking_run StakingPool_new os = Some (p, rs) →
  Forall (λ r, r ≠ Err StakingError_Overflow) rs →
  StakingPool_wf p ∧
  (∀ o, staking_op_ok o → st_current_epoch p + THREE_SIXTY_DAY_EPOCHS < U64 →
    is_Some (staking_exec p o)).
Proof.
  intros Hos Hrun Hrs. assert (StakingPool_wf p) as Hp by (eapply staking_run_wf; [apply StakingPool_new_wf|done..]).
  split; [done|]. intros. by apply staking_exec_total.
Qed.

(** A run to evaluate the definitions on: two stakers, a delegation, withdrawals
    refused and granted. *)
Definition demo_ops : list staking_op :=
  [OpStake (key32 1) 1000 ThirtyDay; OpStake (key32 1) 300 NoLock;
   OpDelegate (key32 2) (key32 1) 500 Delegator; OpStake (key32 3) 7 Permanent;
   OpUnstake (key32 1) 200; OpUnstake (key32 1) 200; OpSetEpoch 30; OpUnstake (key32 1) 150].
Definition demo_run : StakingPool * list (result StakingError unit) :=
  default (StakingPool_new, []) (staking_run (OC := debug_build) StakingPool_new demo_ops).

Lemma demo_ops_ok : Forall staking_op_ok demo_ops.
Proof. repeat constructor; done. Qed.
Lemma demo_run_eq : staking_run (OC := debug_build) StakingPool_new demo_ops = Some demo_run.
Proof. vm_compute. reflexivity. Qed.
Lemma demo_run_answers :
  demo_run.2 = [Ok tt; Ok tt; Ok tt; Ok tt; Ok tt;
    Err (StakingError_InsufficientBalance 100 200); Ok tt; Ok tt].
Proof. vm_compute. reflexivity. Qed.
Lemma demo_run_answered : Forall (λ r, r ≠ Err StakingError_Overflow) demo_run.2.
Proof. rewrite demo_run_answers. repeat constructor; done. Qed.
Lemma demo_wf : StakingPool_wf (OC := debug_build) demo_run.1.
Proof.
  eapply staking_run_wf; [apply StakingPool_new_wf|apply demo_ops_ok| |apply demo_run_answered].
  rewrite demo_run_eq. by destruct demo_run.
Qed.

Lemma StakingPool_total_is_sum_witness :
  st_total_staked demo_run.1 = 1457 ∧ StakingPool_wf (OC := debug_build) demo_run.1.
Proof.
  split; [vm_compute; reflexivity|].
  refine (proj1 (StakingPool_total_is_sum (OC := debug_build) demo_ops demo_run.1 demo_run.2
    demo_ops_ok _ demo_run_answered)).
  rewrite demo_run_eq. by destruct demo_run.
Defined.

(** The withdrawal loop of [unstake] and [undelegate], with its index, its
    removals in place and its bounded rounds, never panics or runs out of rounds
    and computes [drain]: it takes exactly the amount asked, from the oldest
    unlocked entries, and leaves every locked entry as it was. *)
Theorem withdraw_is_drain {OC : OverflowChecks} {E : Type} `{PositionLaws E}
    (epoch : Z) (l : list E) (a : Z) :
  Forall (λ e, 0 < pos_amount e ∧ u64 (pos_amount e)) l → u64 a → a <= unlocked_sum epoch l →
  withdraw epoch l a = Some (drain epoch l a, a) ∧
  positions_total (drain epoch l a) = positions_total l - a ∧
  unlocked_sum epoch (drain epoch l a) = unlocked_sum epoch l - a ∧
  locked_entries epoch (drain epoch l a) = locked_entries epoch l.
Proof.
  intros Hl Ha Hle. split; [by apply withdraw_drain|]. apply drain_spec; [|zlia].
  eapply Forall_impl; [done|]. intros ? [??]. simpl. lia.
Qed.

Definition demo_entries : list StakeEntry :=
  [mkStakeEntry (key32 1) 40 NoLock 0 (Some 0); mkStakeEntry (key32 1) 9 Permanent 0 None;
   mkStakeEntry (key32 1) 50 NoLock 2 (Some 2); mkStakeEntry (key32 1) 70 ThirtyDay 0 (Some 30)].
Lemma withdraw_is_drain_witness :
  withdraw (OC := debug_build) 5 demo_entries 60 =
    Some ([mkStakeEntry (key32 1) 9 Permanent 0 None; mkStakeEntry (key32 1) 30 NoLock 2 (Some 2);
           mkStakeEntry (key32 1) 70 ThirtyDay 0 (Some 30)], 60) ∧
  positions_total (drain 5 demo_entries 60) = positions_total demo_entries - 60.
Proof.
  split; [vm_compute; reflexivity|].
  refine (proj1 (proj2 (withdraw_is_drain (OC := debug_build) 5 demo_entries 60 _ _ _))).
  - by repeat constructor.
  - done.
  - vm_compute. discriminate.
Defined.

(** [unstake] and [undelegate] on every branch, from a pool that satisfies the
    invariant: which error and that it changes nothing, or the new pool, with the
    amount taken from the entries of that key and from the total and nothing
    else changed. *)
Theorem StakingPool_withdrawals {OC : OverflowChecks} (p : StakingPool) (s d v : PublicKey) (a : Z) :
  StakingPool_wf p → u64 a →
  StakingPool_unstake p s a = Some (
    if a =? 0 then (p, Err StakingError_ZeroAmount)
    else match st_entries p !! s with
         | None => (p, Err StakingError_NoStakeFound)
         | Some l =>
           let have := unlocked_sum (st_current_epoch p) l in
           if have <? a then (p, Err (StakingError_InsufficientBalance have a))
           else (mkStakingState (st_total_staked p - a)
                   (store_entries s (drain (st_current_epoch p) l a) (st_entries p))
                   (st_delegations p) (st_current_epoch p), Ok tt)
         end) ∧
  StakingPool_undelegate p d v a = Some (
    if a =? 0 then (p, Err StakingError_ZeroAmount)
    else match st_delegations p !! (d, v) with
         | None => (p, Err StakingError_NoDelegationFound)
         | Some l =>
           let have := unlocked_sum (st_current_epoch p) l in
           if have <? a then (p, Err (StakingError_InsufficientBalance have a))
           else (mkStakingState (st_total_staked p - a) (st_entries p)
                   (store_entries (d, v) (drain (st_current_epoch p) l a) (st_delegations p))
                   (st_current_epoch p), Ok tt)
         end).
Proof. intros. split; [by apply unstake_eq|by apply undelegate_eq]. Qed.

Lemma StakingPool_withdrawals_witness :
  StakingPool_unstake (OC := debug_build) demo_run.1 (key32 3) 7 =
    Some (demo_run.1, Err (StakingError_InsufficientBalance 0 7)).
Proof.
  refine (eq_trans (proj1 (StakingPool_withdrawals (OC := debug_build) demo_run.1 (key32 3)
    (key32 2) (key32 1) 7 demo_wf _)) _); [done|vm_compute; reflexivity].
Defined.

(** A deposit that would overflow the total is refused with [Overflow], but
    the entry has been pushed by then: the pool returned holds it and its
    [total_staked] no longer is the sum of its entries. *)
Theorem stake_overflow_keeps_entry {OC : OverflowChecks} (p : StakingPool) (s : PublicKey) (a : Z)
    (t : LockTier) :
  StakingPool_wf p → u64 a → a ≠ 0 → st_current_epoch p + THREE_SIXTY_DAY_EPOCHS < U64 →
  U64 <= st_total_staked p + a →
  ∃ p' e, StakingPool_stake p s a t = Some (p', Err StakingError_Overflow) ∧
    se_amount e = a ∧ st_entries p' !! s = Some (default [] (st_entries p !! s) ++ [e]) ∧
    st_total_staked p' = st_total_staked p ∧
    map_zsum positions_total (st_entries p') + map_zsum positions_total (st_delegations p') =
      st_total_staked p' + a.
Proof.
  intros [Ht Hu [He _] _ _] Ha Ha0 Hep Hov. unfold StakingPool_stake.
  rewrite (proj2 (Z.eqb_neq a 0)) by done. rewrite unlock_epoch_of_ok by done. simpl.
  unfold u64_checked_add. rewrite (proj2 (checked_None _ _)) by zlia.
  eexists _, (mkStakeEntry s a t _ _). split; [done|]. simpl.
  rewrite lookup_insert_eq, map_total_push. split_and!; [done..|simpl; lia].
Qed.

Definition full_pool : StakingPool := set_total u64_max (set_entries
  {[ key32 1 := [mkStakeEntry (key32 1) u64_max NoLock 0 (Some 0)] ]} StakingPool_new).
Lemma full_pool_eq :
  StakingPool_stake (OC := debug_build) StakingPool_new (key32 1) u64_max NoLock =
  Some (full_pool, Ok tt).
Proof. vm_compute. reflexivity. Qed.
Lemma full_pool_wf : StakingPool_wf (OC := debug_build) full_pool.
Proof.
  eapply (staking_exec_wf (OC := debug_build) StakingPool_new (OpStake (key32 1) u64_max NoLock));
    [apply StakingPool_new_wf|done|exact full_pool_eq|done].
Qed.
Lemma stake_overflow_keeps_entry_witness :
  ∃ p' e, StakingPool_stake (OC := debug_build) full_pool (key32 2) 1 NoLock =
      Some (p', Err StakingError_Overflow) ∧
    se_amount e = 1 ∧
    st_entries p' !! key32 2 = Some (default [] (st_entries full_pool !! key32 2) ++ [e]) ∧
    st_total_staked p' = st_total_staked full_pool ∧
    map_zsum positions_total (st_entries p') + map_zsum positions_total (st_delegations p') =
      st_total_staked p' + 1.
Proof.
  apply (stake_overflow_keeps_entry (OC := debug_build) full_pool (key32 2) 1 NoLock full_pool_wf);
    done.
Defined.

(** The rewards of an epoch.  From a pool that satisfies the invariant the
    distribution never panics; it pays each staker and delegator the exact sum of
    the rounded-down rewards of their entries, in the order the maps are iterated,
    and in total at most 60000/365000000 of what is staked. *)
Theorem epoch_rewards_exact {OC : OverflowChecks} `{HashOrderLaws} (p : StakingPool) :
  StakingPool_wf p →
  ∃ rewards, StakingPool_distribute_epoch_rewards p = Some rewards ∧
    rewards = rewards_of id (hash_iter (st_entries p)) ++ rewards_of fst (hash_iter (st_delegations p)) ∧
    365000000 * zsum rewards.*2 <= 60000 * st_total_staked p.
Proof. intros Hp. destruct (distribute_eq p Hp). eauto. Qed.

Lemma epoch_rewards_exact_witness :
  ∃ rewards,
    StakingPool_distribute_epoch_rewards (OC := debug_build) (HO := forward_order) full_pool = Some rewards ∧
    rewards = [(key32 1, u64_max * 500 * 5 / 365000000)] ∧
    365000000 * zsum rewards.*2 <= 60000 * st_total_staked full_pool.
Proof.
  refine (epoch_rewards_exact (OC := debug_build) (HO := forward_order) full_pool full_pool_wf).
Defined.

(** C33: the voting power of a key.  In a pool that satisfies the invariant it is the sum
    of the documented effective stakes - amount times vote weight, rounded down - of the
    key's own entries and of the delegations to it, capped at the maximum of [u64],
    whatever the order in which the map of delegations is iterated - provided that each of
    these effective stakes fits [u64]; one that does not (a Permanent entry of 2^64/1.5 or
    more) counts modulo 2^64.  In any case the power is at most 1.5 times what is staked. *)
Theorem voting_power_exact {OC : OverflowChecks} `{HashOrderLaws} (p : StakingPool) (pubkey : PublicKey) :
  StakingPool_wf p →
  (Forall (λ x, u64 (effective_stake x)) (backing p pubkey) →
   StakingPool_get_voting_power p pubkey = Z.min u64_max (zsum (effective_stake <$> backing p pubkey))) ∧
  StakingPool_get_voting_power p pubkey =
    Z.min u64_max (zsum ((λ x, effective_stake x mod U64) <$> backing p pubkey)) ∧
  1000 * StakingPool_get_voting_power p pubkey <= 1500 * st_total_staked p.
Proof.
  intros Hp. destruct (get_voting_power_eq p pubkey Hp) as (-> & ? & ?). rewrite voting_power_of_backing in *.
  split; [|split; [done|lia]]. intros Hfit. by rewrite effective_stakes_fit.
Qed.

Lemma voting_power_exact_witness :
  StakingPool_get_voting_power (HO := backward_order) demo_run.1 (key32 1) = 585 ∧
  1000 * StakingPool_get_voting_power (HO := backward_order) demo_run.1 (key32 1) <=
    1500 * st_total_staked demo_run.1.
Proof.
  split; [vm_compute; reflexivity|].
  refine (proj2 (proj2 (voting_power_exact (OC := debug_build) (HO := backward_order)
    demo_run.1 (key32 1) demo_wf))).
Defined.
