(* ===== verification/Fees.v ===== *)
(** * The fee market and the fee split (economics/fees)

    The EIP-1559 base fee with its adjustment per block, the fee of a
    transaction, and the split of a fee between burn, validator, treasury and
    developer, whose ratios move linearly from launch to maturity. *)
From S2P Require Import Prelude.
Open Scope Z_scope.

(** ** types.rs *)

Record SplitRatios := mkSplitRatios {
  burn_bps : Z;
  validator_bps : Z;
  treasury_bps : Z;
  developer_bps : Z;
}.

Record SplitConfig := mkSplitConfig {
  sc_launch : SplitRatios;
  sc_maturity : SplitRatios;
  sc_transition_epochs : Z;
}.

Record FeeConfig := mkFeeConfig {
  target_gas_per_block : Z;
  max_gas_per_block : Z;
  base_fee_floor : Z;
  elasticity_multiplier : Z;
  fc_split : SplitConfig;
}.

Definition SplitConfig_default : SplitConfig :=
  mkSplitConfig (mkSplitRatios 1000 0 4500 4500) (mkSplitRatios 2500 2500 2500 2500) 1825.

Definition FeeConfig_default : FeeConfig :=
  mkFeeConfig 15000000 30000000 1 8 SplitConfig_default.

Record TransactionFee := mkTransactionFee {
  tf_base_fee : Z;
  tf_priority_fee : Z;
  tf_total : Z;
}.

Record SplitResult := mkSplitResult {
  sr_burn : Z;
  sr_validator : Z;
  sr_treasury : Z;
  sr_developer : Z;
}.

Inductive FeeError :=
| FeeError_InvalidSplitRatios (got : Z)
| FeeError_GasExceedsMax (used max : Z)
| FeeError_ZeroElasticity
| FeeError_Overflow.

(** [/] on [i64] truncates towards zero; a zero divisor and [i64::MIN / -1]
    panic in every build. *)
Definition i64_div (a b : Z) : may_panic Z :=
  if b =? 0 then None
  else if (a ÷ b) <? I63 then Some (a ÷ b) else None.

Section Ops.
Context {OC : OverflowChecks}.

Definition SplitRatios_validate (r : SplitRatios) : may_panic bool :=
  s1 ← u64_add (burn_bps r) (validator_bps r);
  s2 ← u64_add s1 (treasury_bps r);
  s3 ← u64_add s2 (developer_bps r);
  Some (s3 =? 10000).

Definition SplitConfig_validate (c : SplitConfig) : may_panic bool :=
  b ← SplitRatios_validate (sc_launch c);
  if b : bool then SplitRatios_validate (sc_maturity c) else Some false.

(** The closure [interp]: [*] and [/] bind from the left, [epoch as i64] first. *)
Definition interp (c : SplitConfig) (epoch launch_val maturity_val : Z) : may_panic Z :=
  let l := as_i64 launch_val in
  let m := as_i64 maturity_val in
  d ← arith_i64 (m - l);
  n ← arith_i64 (d * as_i64 epoch);
  q ← i64_div n (as_i64 (sc_transition_epochs c));
  result ← arith_i64 (l + q);
  Some (as_u64 result).

Definition SplitConfig_split_at_epoch (c : SplitConfig) (epoch : Z) : may_panic SplitRatios :=
  if sc_transition_epochs c <=? epoch then Some (sc_maturity c)
  else
    v ← interp c epoch (validator_bps (sc_launch c)) (validator_bps (sc_maturity c));
    t ← interp c epoch (treasury_bps (sc_launch c)) (treasury_bps (sc_maturity c));
    d ← interp c epoch (developer_bps (sc_launch c)) (developer_bps (sc_maturity c));
    b1 ← u64_sub 10000 v;
    b2 ← u64_sub b1 t;
    b3 ← u64_sub b2 d;
    Some (mkSplitRatios b3 v t d).

(** ** eip1559.rs *)

Record FeeMarket := mkFeeMarket {
  fm_config : FeeConfig;
  fm_base_fee : Z;
}.

Definition FeeMarket_new (config : FeeConfig) (initial_base_fee : Z) :
    may_panic (result FeeError FeeMarket) :=
  if elasticity_multiplier config =? 0 then Some (Err FeeError_ZeroElasticity)
  else
    b ← SplitConfig_validate (fc_split config);
    if negb b then Some (Err (FeeError_InvalidSplitRatios 0))
    else Some (Ok (mkFeeMarket config (Z.max initial_base_fee (base_fee_floor config)))).

(** The [u128] products of two [u64]s do not overflow; the division panics when
    the target is zero. *)
Definition FeeMarket_update_base_fee (gas_used : Z) (fm : FeeMarket) : may_panic FeeMarket :=
  let gas_target := target_gas_per_block (fm_config fm) in
  let elasticity := elasticity_multiplier (fm_config fm) in
  if gas_used =? gas_target then Some fm
  else
    base_fee ←
      (if gas_target <? gas_used then
         gas_delta ← u64_sub gas_used gas_target;
         fee_delta ← div_or_panic (fm_base_fee fm * gas_delta) (gas_target * elasticity);
         Some (u64_saturating_add (fm_base_fee fm) (as_u64 (Z.max fee_delta 1)))
       else
         gas_delta ← u64_sub gas_target gas_used;
         fee_delta ← div_or_panic (fm_base_fee fm * gas_delta) (gas_target * elasticity);
         Some (u64_saturating_sub (fm_base_fee fm) (as_u64 fee_delta)));
    let base_fee :=
      if base_fee <? base_fee_floor (fm_config fm) then base_fee_floor (fm_config fm) else base_fee in
    Some (mkFeeMarket (fm_config fm) base_fee).

Definition FeeMarket_calculate_fee (fm : FeeMarket) (gas_units priority_fee_per_gas : Z) : TransactionFee :=
  let base_fee := u64_saturating_mul (fm_base_fee fm) gas_units in
  let priority_fee := u64_saturating_mul priority_fee_per_gas gas_units in
  mkTransactionFee base_fee priority_fee (u64_saturating_add base_fee priority_fee).

Definition FeeMarket_current_base_fee (fm : FeeMarket) : Z := fm_base_fee fm.

(** ** split.rs *)

Record FeeSplit := mkFeeSplit { fs_config : SplitConfig }.

Definition FeeSplit_new : FeeSplit := mkFeeSplit SplitConfig_default.

Definition FeeSplit_with_config (config : SplitConfig) : may_panic (result FeeError FeeSplit) :=
  b ← SplitConfig_validate config;
  Some (if negb b then Err (FeeError_InvalidSplitRatios 0) else Ok (mkFeeSplit config)).

Definition FeeSplit_split_fee (fs : FeeSplit) (total_fee epoch : Z) : may_panic SplitResult :=
  ratios ← SplitConfig_split_at_epoch (fs_config fs) epoch;
  let validator := as_u64 (total_fee * validator_bps ratios / 10000) in
  let treasury := as_u64 (total_fee * treasury_bps ratios / 10000) in
  let developer := as_u64 (total_fee * developer_bps ratios / 10000) in
  b1 ← u64_sub total_fee validator;
  b2 ← u64_sub b1 treasury;
  burn ← u64_sub b2 developer;
  Some (mkSplitResult burn validator treasury developer).
End Ops.

(** ** Specification *)

(** Four ratios of 10000. *)
Definition ratios_ok (r : SplitRatios) : Prop :=
  0 <= burn_bps r ∧ 0 <= validator_bps r ∧ 0 <= treasury_bps r ∧ 0 <= developer_bps r ∧
  burn_bps r + validator_bps r + treasury_bps r + developer_bps r = 10000.

(** A market the updates of which cannot panic. *)
Record FeeMarket_wf (fm : FeeMarket) : Prop := {
  fm_target : 0 < target_gas_per_block (fm_config fm) < U64;
  fm_elasticity : 0 < elasticity_multiplier (fm_config fm) < U64;
  fm_floor : 0 <= base_fee_floor (fm_config fm) <= fm_base_fee fm;
  fm_base : u64 (fm_base_fee fm);
}.

(** The exact new base fee, with no machine integers. *)
Definition next_base_fee (target elasticity floor base gas_used : Z) : Z :=
  let new :=
    if gas_used =? target then base
    else if target <? gas_used then
      Z.min u64_max (base + Z.max 1 (base * (gas_used - target) / (target * elasticity)))
    else base - base * (target - gas_used) / (target * elasticity) in
  Z.max floor new.

(** What each receives of a fee at given ratios. *)
Definition split_spec (r : SplitRatios) (fee : Z) : SplitResult :=
  let v := fee * validator_bps r / 10000 in
  let t := fee * treasury_bps r / 10000 in
  let d := fee * developer_bps r / 10000 in
  mkSplitResult (fee - v - t - d) v t d.

(** * Lemmas *)

Section MarketLemmas.
Context {OC : OverflowChecks}.

Lemma div_or_panic_ok a b : b ≠ 0 → div_or_panic a b = Some (a / b).
Proof. intros. unfold div_or_panic. by rewrite (proj2 (Z.eqb_neq b 0)). Qed.

(** No update panics, and the floor holds after each. *)
Lemma update_total gas_used fm :
  FeeMarket_wf fm → u64 gas_used →
  ∃ fm', FeeMarket_update_base_fee gas_used fm = Some fm' ∧ FeeMarket_wf fm' ∧
    fm_config fm' = fm_config fm.
Proof.
  intros Hwf Hg. pose proof Hwf as [Ht He [Hf Hfb] Hb]. unfold FeeMarket_update_base_fee.
  destruct (gas_used =? _) eqn:?; [eauto|].
  assert (∀ x, u64 x → FeeMarket_wf (mkFeeMarket (fm_config fm)
    (if x <? base_fee_floor (fm_config fm) then base_fee_floor (fm_config fm) else x))) as Hfloor.
  { intros x Hx. split; simpl; [done|done| |]; case_match; zlia. }
  assert (target_gas_per_block (fm_config fm) * elasticity_multiplier (fm_config fm) ≠ 0) by nia.
  destruct (_ <? gas_used) eqn:?; rewrite u64_sub_ok by zlia; simpl; rewrite div_or_panic_ok by done; simpl;
    (eexists; split; [done|]; split; [apply Hfloor|done]).
  - pose proof (as_u64_range (Z.max (fm_base_fee fm * (gas_used - target_gas_per_block (fm_config fm)) /
      (target_gas_per_block (fm_config fm) * elasticity_multiplier (fm_config fm))) 1)).
    unfold u64_saturating_add. zlia.
  - pose proof (as_u64_range (fm_base_fee fm * (target_gas_per_block (fm_config fm) - gas_used) /
      (target_gas_per_block (fm_config fm) * elasticity_multiplier (fm_config fm)))).
    unfold u64_saturating_sub. zlia.
Qed.

Lemma fee_delta_bound base delta target elasticity :
  0 <= base → 0 < target → 0 < elasticity → 0 <= delta <= target * elasticity →
  0 <= base * delta / (target * elasticity) <= base.
Proof.
  intros. split; [apply Z.div_pos; nia|]. apply Z.div_le_upper_bound; nia.
Qed.

(** Within [elasticity + 1] times the target the update is exact. *)
Lemma update_eq gas_used fm :
  FeeMarket_wf fm → u64 gas_used →
  gas_used - target_gas_per_block (fm_config fm) <=
    target_gas_per_block (fm_config fm) * elasticity_multiplier (fm_config fm) →
  FeeMarket_update_base_fee gas_used fm = Some (mkFeeMarket (fm_config fm)
    (next_base_fee (target_gas_per_block (fm_config fm)) (elasticity_multiplier (fm_config fm))
      (base_fee_floor (fm_config fm)) (fm_base_fee fm) gas_used)).
Proof.
  intros [Ht He [Hf Hfb] Hb] Hg Hmax. unfold FeeMarket_update_base_fee, next_base_fee.
  destruct fm as [c base]; simpl in *.
  set (target := target_gas_per_block c) in *. set (el := elasticity_multiplier c) in *.
  assert (target * el ≠ 0 ∧ target <= target * el) as [??] by nia.
  assert (∀ x y, x = y → Some (mkFeeMarket c (if x <? base_fee_floor c then base_fee_floor c else x)) =
    Some (mkFeeMarket c (Z.max (base_fee_floor c) y))) as Hfl.
  { intros x y ->. do 2 f_equal. case_match; zlia. }
  destruct (gas_used =? target) eqn:Eq; [do 2 f_equal; zlia|].
  destruct (target <? gas_used) eqn:Elt; rewrite u64_sub_ok by zlia; simpl; rewrite div_or_panic_ok by done; simpl;
    apply Hfl.
  - destruct (fee_delta_bound base (gas_used - target) target el); [zlia..|].
    rewrite as_u64_id by zlia. unfold u64_saturating_add. rewrite Z.max_comm. done.
  - destruct (fee_delta_bound base (target - gas_used) target el); [zlia..|].
    rewrite as_u64_id by zlia. unfold u64_saturating_sub. lia.
Qed.

(** The change within twice the target: an [elasticity]-th, or one. *)
Lemma next_base_fee_bound target el floor base gas_used :
  0 < target → 0 < el → 0 <= floor <= base → base <= u64_max → 0 <= gas_used <= 2 * target →
  base - base / el <= next_base_fee target el floor base gas_used <= base + Z.max 1 (base / el).
Proof.
  intros Ht He Hf Hb Hg. unfold next_base_fee.
  assert (∀ delta, 0 <= delta <= target → 0 <= base * delta / (target * el) <= base / el) as Hd.
  { intros d Hd. split; [apply Z.div_pos; nia|].
    rewrite <-(Z.div_mul_cancel_l base el target) by lia. apply Z.div_le_mono; nia. }
  assert (0 <= base / el) by (apply Z.div_pos; lia).
  destruct (gas_used =? target) eqn:?; [lia|]. destruct (target <? gas_used) eqn:?.
  - specialize (Hd (gas_used - target)). zlia.
  - specialize (Hd (target - gas_used)). zlia.
Qed.

Lemma FeeMarket_new_wf config init fm :
  0 < target_gas_per_block config < U64 → 0 <= elasticity_multiplier config < U64 →
  u64 (base_fee_floor config) → u64 init →
  FeeMarket_new config init = Some (Ok fm) → FeeMarket_wf fm ∧ fm_config fm = config.
Proof.
  intros Ht He Hf Hi. unfold FeeMarket_new. destruct (_ =? 0) eqn:?; [done|]. intros Hb.
  apply bind_Some in Hb as (b & _ & Hb). destruct b; simplify_eq/=.
  split; [|done]. split; simpl; zlia.
Qed.
End MarketLemmas.

Section SplitLemmas.
Context {OC : OverflowChecks}.

Lemma validate_ok r : ratios_ok r → SplitRatios_validate r = Some true.
Proof.
  intros (?&?&?&?&?). unfold SplitRatios_validate.
  do 3 (rewrite u64_add_ok by zlia; simpl). f_equal. zlia.
Qed.

(** The interpolation of two ratios: no step overflows, the result lies between
    them and exceeds the exact value by less than one. *)
Lemma interp_ok c epoch l m :
  0 <= l <= 10000 → 0 <= m <= 10000 → 0 <= epoch < sc_transition_epochs c →
  sc_transition_epochs c <= 2 ^ 49 →
  ∃ r, interp c epoch l m = Some r ∧ Z.min l m <= r <= Z.max l m ∧
    sc_transition_epochs c * r < sc_transition_epochs c * (l + 1) + (m - l) * epoch.
Proof.
  intros Hl Hm He HT. set (T := sc_transition_epochs c) in *.
  unfold interp. fold T. rewrite (as_i64_id l), (as_i64_id m), (as_i64_id epoch), (as_i64_id T) by lia.
  rewrite arith_i64_ok by lia. simpl. rewrite arith_i64_ok by nia. simpl.
  assert (Z.min l m - l <= ((m - l) * epoch) ÷ T <= Z.max l m - l ∧
    T * (((m - l) * epoch) ÷ T) < T + (m - l) * epoch) as [Hq1 Hq2].
  { destruct (Z.le_ge_cases l m).
    - rewrite Z.quot_div_nonneg by nia. pose proof (Z.mul_div_le ((m - l) * epoch) T).
      assert (0 <= (m - l) * epoch / T) by (apply Z.div_pos; nia).
      assert ((m - l) * epoch / T <= m - l) by (apply Z.div_le_upper_bound; nia). lia.
    - replace ((m - l) * epoch) with (- ((l - m) * epoch)) by lia.
      rewrite Z.quot_opp_l, Z.quot_div_nonneg by nia.
      pose proof (Z.mul_succ_div_gt ((l - m) * epoch) T).
      assert (0 <= (l - m) * epoch / T) by (apply Z.div_pos; nia).
      assert ((l - m) * epoch / T <= l - m) by (apply Z.div_le_upper_bound; nia). lia. }
  unfold i64_div. rewrite (proj2 (Z.eqb_neq T 0)) by lia.
  set (q := ((m - l) * epoch) ÷ T) in *. clearbody q.
  rewrite (proj2 (Z.ltb_lt _ _)) by lia. simpl. rewrite arith_i64_ok by lia. simpl.
  exists (l + q). split; [f_equal; apply as_u64_id; zlia|]. lia.
Qed.

(** With at least 2 bps of burn at both ends the remainder is never negative. *)
Lemma split_at_epoch_ok c epoch :
  ratios_ok (sc_launch c) → ratios_ok (sc_maturity c) →
  2 <= burn_bps (sc_launch c) → 2 <= burn_bps (sc_maturity c) →
  sc_transition_epochs c <= 2 ^ 49 → 0 <= epoch →
  ∃ r, SplitConfig_split_at_epoch c epoch = Some r ∧ ratios_ok r.
Proof.
  intros Hl Hm Hbl Hbm HT He. unfold SplitConfig_split_at_epoch.
  destruct (_ <=? epoch) eqn:Ele; [eauto|].
  destruct c as [[lb lv lt ld] [mb mv mt md] T]; simpl in *.
  destruct Hl as (?&?&?&?&?), Hm as (?&?&?&?&?); simpl in *.
  set (c := mkSplitConfig _ _ T).
  destruct (interp_ok c epoch lv mv) as (v & -> & ? & Hv); simpl; [zlia..|].
  destruct (interp_ok c epoch lt mt) as (t & -> & ? & Ht); simpl; [zlia..|].
  destruct (interp_ok c epoch ld md) as (d & -> & ? & Hd); simpl; [zlia..|].
  simpl in *. assert (T * (v + t + d) < T * 10001) as Hs.
  { assert (0 <= (lb - 2) * (T - epoch)) by (apply Z.mul_nonneg_nonneg; zlia).
    assert (0 <= (mb - 2) * epoch) by (apply Z.mul_nonneg_nonneg; zlia).
    assert (lb = 10000 - lv - lt - ld) as -> by lia. assert (mb = 10000 - mv - mt - md) as -> by lia.
    lia. }
  assert (v + t + d < 10001) by (apply (Z.mul_lt_mono_pos_l T); zlia).
  rewrite u64_sub_ok by zlia. simpl. rewrite u64_sub_ok by zlia. simpl. rewrite u64_sub_ok by zlia. simpl.
  eexists. split; [done|]. split_and!; simpl; lia.
Qed.

Lemma share_bounds fee bps : 0 <= fee → 0 <= bps → 0 <= fee * bps / 10000 ∧ 10000 * (fee * bps / 10000) <= fee * bps.
Proof. intros. split; [apply Z.div_pos; nia|]. apply Z.mul_div_le. lia. Qed.

Lemma split_fee_eq fs fee epoch r :
  SplitConfig_split_at_epoch (fs_config fs) epoch = Some r → ratios_ok r → u64 fee →
  FeeSplit_split_fee fs fee epoch = Some (split_spec r fee) ∧
  0 <= sr_burn (split_spec r fee) ∧
  0 <= 10000 * sr_burn (split_spec r fee) - fee * burn_bps r < 30000.
Proof.
  intros Hr (Hb & Hv & Ht & Hd & Hs) Hf. unfold FeeSplit_split_fee, split_spec. rewrite Hr. simpl.
  destruct (share_bounds fee (validator_bps r)); [zlia..|].
  destruct (share_bounds fee (treasury_bps r)); [zlia..|].
  destruct (share_bounds fee (developer_bps r)); [zlia..|].
  pose proof (Z.mul_succ_div_gt (fee * validator_bps r) 10000).
  pose proof (Z.mul_succ_div_gt (fee * treasury_bps r) 10000).
  pose proof (Z.mul_succ_div_gt (fee * developer_bps r) 10000).
  assert (fee * burn_bps r + fee * validator_bps r + fee * treasury_bps r + fee * developer_bps r
    = fee * 10000) by (rewrite <-Hs; ring).
  assert (0 <= fee * burn_bps r) by zlia.
  rewrite !as_u64_id by zlia. rewrite u64_sub_ok by zlia. simpl.
  rewrite u64_sub_ok by zlia. simpl. rewrite u64_sub_ok by zlia. split_and!; [done|lia..].
Qed.
End SplitLemmas.

(** * Properties *)

(** The base fee over the life of a market.  A market that [new] accepts with a
    nonzero gas target survives any sequence of blocks: no update panics, and
    the base fee stays a [u64] at or above the configured floor. *)
Theorem base_fee_never_below_floor {OC : OverflowChecks} (config : FeeConfig) (init : Z)
    (fm : FeeMarket) (gas : list Z) :
  0 < target_gas_per_block config < U64 → 0 <= elasticity_multiplier config < U64 →
  u64 (base_fee_floor config) → u64 init → Forall u64 gas →
  FeeMarket_new config init = Some (Ok fm) →
  ∃ fm', fold_may_panic (λ fm g, FeeMarket_update_base_fee g fm) fm gas = Some fm' ∧
    base_fee_floor config <= FeeMarket_current_base_fee fm' <= u64_max ∧ fm_config fm' = config.
Proof.
  intros Ht He Hf Hi Hgas Hnew. destruct (FeeMarket_new_wf _ _ _ Ht He Hf Hi Hnew) as [Hwf <-]. clear -Hwf Hgas.
  revert fm Hwf. induction Hgas as [|g gas Hg Hgas IH]; intros fm Hwf; simpl.
  - exists fm. destruct Hwf as [_ _ ? ?]. unfold FeeMarket_current_base_fee. split_and!; zlia || done.
  - destruct (update_total g fm Hwf Hg) as (fm1 & -> & Hwf1 & Hc). simpl.
    destruct (IH fm1 Hwf1) as (fm' & ? & ?). exists fm'. by rewrite <-Hc.
Qed.

Lemma base_fee_never_below_floor_witness :
  ∃ fm', fold_may_panic (λ fm g, FeeMarket_update_base_fee (OC := debug_build) g fm)
      (mkFeeMarket FeeConfig_default 100) [30000000; 0; 0; 15000000] = Some fm' ∧
    1 <= FeeMarket_current_base_fee fm' <= u64_max ∧ fm_config fm' = FeeConfig_default.
Proof.
  apply (base_fee_never_below_floor (OC := debug_build) FeeConfig_default 100
    (mkFeeMarket FeeConfig_default 100)); try done. by repeat constructor.
Defined.

(** C35: one update, exactly.  While the gas used is at most [elasticity + 1] times
    the target, the new base fee is the rational formula of the comments rounded
    down, at least one unit up, saturated at [u64::MAX], and floored; within twice
    the target it moves by at most an [elasticity]-th (12.5% at 8), or by one. *)
Theorem base_fee_update_exact {OC : OverflowChecks} (gas_used : Z) (fm : FeeMarket) :
  FeeMarket_wf fm → u64 gas_used →
  let target := target_gas_per_block (fm_config fm) in
  let el := elasticity_multiplier (fm_config fm) in
  gas_used - target <= target * el →
  ∃ fm', FeeMarket_update_base_fee gas_used fm = Some fm' ∧
    fm_base_fee fm' = next_base_fee target el (base_fee_floor (fm_config fm)) (fm_base_fee fm) gas_used ∧
    (gas_used <= 2 * target →
      fm_base_fee fm - fm_base_fee fm / el <= fm_base_fee fm' <=
        fm_base_fee fm + Z.max 1 (fm_base_fee fm / el)).
Proof.
  intros Hwf Hg target el Hmax. eexists. split; [by apply update_eq|]. split; [done|]. simpl.
  destruct Hwf as [? ? ? ?]. intros. apply next_base_fee_bound; zlia.
Qed.

Lemma base_fee_update_exact_witness :
  ∃ fm', FeeMarket_update_base_fee (OC := debug_build) 30000000 (mkFeeMarket FeeConfig_default 1000) = Some fm' ∧
    fm_base_fee fm' = 1125 ∧ (30000000 <= 2 * 15000000 → 875 <= fm_base_fee fm' <= 1125).
Proof.
  refine (base_fee_update_exact (OC := debug_build) 30000000 (mkFeeMarket FeeConfig_default 1000) _ _ _);
    [|done..]. split; done.
Defined.

(** Below the elasticity multiplier the base fee cannot fall: the decrease of a
    block under the target rounds down to nothing, even for an empty block, so a
    floor below it is never reached from above. *)
Theorem small_base_fee_is_stuck {OC : OverflowChecks} (gas_used : Z) (fm : FeeMarket) :
  FeeMarket_wf fm → u64 gas_used → gas_used <= target_gas_per_block (fm_config fm) →
  fm_base_fee fm < elasticity_multiplier (fm_config fm) →
  FeeMarket_update_base_fee gas_used fm = Some fm.
Proof.
  intros Hwf Hg Ht Hlt. rewrite update_eq by (done || destruct Hwf; nia).
  destruct fm as [c base], Hwf as [? He [Hf Hfb] ?]; simpl in *. do 2 f_equal. unfold next_base_fee.
  destruct (gas_used =? _) eqn:?; [lia|]. rewrite (proj2 (Z.ltb_ge _ _)) by zlia.
  rewrite Z.div_small; [lia|]. destruct Hg. split; [apply Z.mul_nonneg_nonneg; lia|nia].
Qed.

Lemma small_base_fee_is_stuck_witness :
  FeeMarket_update_base_fee (OC := debug_build) 0 (mkFeeMarket FeeConfig_default 7) =
  Some (mkFeeMarket FeeConfig_default 7).
Proof.
  apply (small_base_fee_is_stuck (OC := debug_build) 0 (mkFeeMarket FeeConfig_default 7)); [|done..].
  split; done.
Defined.

(** C13: fees are conserved.  When the ratios at launch and at maturity are nonnegative
    parts of 10000 that burn at least 2 bps, and the transition takes at most 2^49 epochs
    (the interpolation in [i64] overflows not far beyond, and the transition is not
    validated), then at any epoch the interpolated ratios are four nonnegative parts of
    10000, and a split gives each party its nonnegative share, rounded down, and burns
    exactly the rest: nothing is minted or lost. *)
Theorem split_fee_conserves {OC : OverflowChecks} (fs : FeeSplit) (fee epoch : Z) :
  let c := fs_config fs in
  ratios_ok (sc_launch c) → ratios_ok (sc_maturity c) →
  2 <= burn_bps (sc_launch c) → 2 <= burn_bps (sc_maturity c) → sc_transition_epochs c <= 2 ^ 49 →
  u64 fee → u64 epoch →
  ∃ r res, SplitConfig_split_at_epoch c epoch = Some r ∧ ratios_ok r ∧ SplitRatios_validate r = Some true ∧
    FeeSplit_split_fee fs fee epoch = Some res ∧ res = split_spec r fee ∧
    sr_burn res + sr_validator res + sr_treasury res + sr_developer res = fee ∧
    0 <= sr_validator res ∧ 0 <= sr_treasury res ∧ 0 <= sr_developer res ∧
    0 <= sr_burn res ∧ 0 <= 10000 * sr_burn res - fee * burn_bps r < 30000.
Proof.
  intros c Hl Hm Hbl Hbm HT Hf [He _].
  destruct (split_at_epoch_ok c epoch) as (r & Hr & Hok); [done..|].
  destruct (split_fee_eq fs fee epoch r Hr Hok Hf) as (Hs & ? & ?).
  exists r, (split_spec r fee). pose proof (validate_ok r Hok).
  assert (∀ a b c d, a - b - c - d + b + c + d = a) as Hc by lia.
  pose proof Hok as (Hb0 & Hv0 & Ht0 & Hd0 & _). assert (0 <= fee) as Hfee by zlia.
  do 5 (split; [done|]). split; [apply Hc|]. split; [by apply share_bounds|]. split; [by apply share_bounds|].
  split; [by apply share_bounds|]. split_and!; lia.
Qed.

Lemma split_fee_conserves_witness :
  ∃ r res, SplitConfig_split_at_epoch (OC := debug_build) SplitConfig_default 912 = Some r ∧ ratios_ok r ∧
    SplitRatios_validate (OC := debug_build) r = Some true ∧
    FeeSplit_split_fee (OC := debug_build) FeeSplit_new 12345 912 = Some res ∧ res = split_spec r 12345 ∧
    sr_burn res + sr_validator res + sr_treasury res + sr_developer res = 12345 ∧
    0 <= sr_validator res ∧ 0 <= sr_treasury res ∧ 0 <= sr_developer res ∧
    0 <= sr_burn res ∧ 0 <= 10000 * sr_burn res - 12345 * burn_bps r < 30000.
Proof. by apply (split_fee_conserves (OC := debug_build) FeeSplit_new 12345 912). Defined.

(** [with_config] accepts ratios for which the interpolation underflows.  With no
    burn at either end the three other ratios, each rounded in its own favour, can
    sum to 10001: a debug build panics and a release build burns [u64::MAX] bps. *)
Theorem zero_burn_split_underflows :
  ∃ c, FeeSplit_with_config (OC := debug_build) c = Some (Ok (mkFeeSplit c)) ∧
    (∃ v t d, interp (OC := debug_build) c 1 (validator_bps (sc_launch c)) (validator_bps (sc_maturity c)) = Some v ∧
      interp (OC := debug_build) c 1 (treasury_bps (sc_launch c)) (treasury_bps (sc_maturity c)) = Some t ∧
      interp (OC := debug_build) c 1 (developer_bps (sc_launch c)) (developer_bps (sc_maturity c)) = Some d ∧
      v + t + d = 10001) ∧
    SplitConfig_split_at_epoch (OC := debug_build) c 1 = None ∧
    ∃ r, SplitConfig_split_at_epoch (OC := release_build) c 1 = Some r ∧ burn_bps r = u64_max.
Proof.
  exists (mkSplitConfig (mkSplitRatios 0 5000 5000 0) (mkSplitRatios 0 0 0 10000) 3).
  split; [vm_compute; reflexivity|]. split; [|split; [vm_compute; reflexivity|]].
  - exists 3334, 3334, 3333. split_and!; vm_compute; reflexivity.
  - eexists. split; vm_compute; reflexivity.
Qed.
