(* ===== verification/Rewards.v ===== *)
(** * Developer rewards (economics/rewards)

    The registry of deployed contracts, the fees they have earned and not yet been
    paid, and their distribution to the deployers. *)
From S2P Require Import Prelude.
Open Scope Z_scope.

(** ** types.rs *)

Abbreviation ContractAddress := bytes (only parsing).

Record ContractRegistry := mkContractRegistry {
  cr_contract_address : ContractAddress;
  cr_deployer : bytes;
  cr_deploy_height : Z;
  cr_total_fees_earned : Z;
}.

Record RewardEvent := mkRewardEvent {
  ev_contract : ContractAddress;
  ev_developer : bytes;
  ev_amount : Z;
  ev_height : Z;
}.

Inductive RewardsError :=
| RewardsError_AlreadyRegistered (a : ContractAddress)
| RewardsError_ContractNotFound (a : ContractAddress)
| RewardsError_ZeroFeeAmount
| RewardsError_Overflow.

(** ** developer.rs *)

Record DeveloperRewards := mkDeveloperRewards {
  dr_registry : gmap ContractAddress ContractRegistry;
  dr_pending : gmap ContractAddress Z;
  dr_total_distributed : Z;
  dr_current_height : Z;
}.

Definition DeveloperRewards_new : DeveloperRewards := mkDeveloperRewards ∅ ∅ 0 0.

Definition DeveloperRewards_set_height (height : Z) (r : DeveloperRewards) : DeveloperRewards :=
  mkDeveloperRewards (dr_registry r) (dr_pending r) (dr_total_distributed r) height.

Definition DeveloperRewards_register_contract (r : DeveloperRewards) (contract_address : ContractAddress)
    (deployer : bytes) (height : Z) : DeveloperRewards * result RewardsError unit :=
  match dr_registry r !! contract_address with
  | Some _ => (r, Err (RewardsError_AlreadyRegistered contract_address))
  | None =>
    (mkDeveloperRewards
      (<[contract_address := mkContractRegistry contract_address deployer height 0]> (dr_registry r))
      (dr_pending r) (dr_total_distributed r) (dr_current_height r), Ok tt)
  end.

(** The right-hand side of the assignment to [pending] is evaluated before its
    left-hand side inserts the entry. *)
Definition DeveloperRewards_record_fee (r : DeveloperRewards) (contract_address : ContractAddress)
    (fee_amount : Z) : DeveloperRewards * result RewardsError unit :=
  if fee_amount =? 0 then (r, Err RewardsError_ZeroFeeAmount)
  else
    match dr_registry r !! contract_address with
    | None => (r, Err (RewardsError_ContractNotFound contract_address))
    | Some entry =>
      match u64_checked_add (cr_total_fees_earned entry) fee_amount with
      | None => (r, Err RewardsError_Overflow)
      | Some earned =>
        let entry := mkContractRegistry (cr_contract_address entry) (cr_deployer entry)
          (cr_deploy_height entry) earned in
        let registry := <[contract_address := entry]> (dr_registry r) in
        match u64_checked_add (default 0 (dr_pending r !! contract_address)) fee_amount with
        | None => (mkDeveloperRewards registry (dr_pending r) (dr_total_distributed r)
                    (dr_current_height r), Err RewardsError_Overflow)
        | Some amount => (mkDeveloperRewards registry (<[contract_address := amount]> (dr_pending r))
                    (dr_total_distributed r) (dr_current_height r), Ok tt)
        end
      end
    end.

Definition DeveloperRewards_get_developer (r : DeveloperRewards) (contract_address : ContractAddress) :
    option bytes :=
  cr_deployer <$> dr_registry r !! contract_address.

Section Ops.
Context {OC : OverflowChecks} {HO : HashOrder}.

Definition DeveloperRewards_get_accumulated_rewards (r : DeveloperRewards) (developer : bytes) :
    may_panic Z :=
  u64_sum (omap (λ '(addr, amount),
    match dr_registry r !! addr with
    | Some entry => if decide (cr_deployer entry = developer) then Some amount else None
    | None => None
    end) (hash_iter (dr_pending r))).

(** One round of the loop of [distribute_rewards]. *)
Definition push_event (r : DeveloperRewards) (s : list RewardEvent * Z) (item : ContractAddress * Z) :
    list RewardEvent * Z :=
  match dr_registry r !! item.1 with
  | Some entry =>
    (s.1 ++ [mkRewardEvent item.1 (cr_deployer entry) item.2 (dr_current_height r)],
     u64_saturating_add s.2 item.2)
  | None => s
  end.

Definition DeveloperRewards_distribute_rewards (r : DeveloperRewards) :
    DeveloperRewards * list RewardEvent :=
  let pending := filter (λ kv, 0 < kv.2) (hash_iter (dr_pending r)) in
  let '(events, total) := fold_left (push_event r) pending ([], dr_total_distributed r) in
  (mkDeveloperRewards (dr_registry r) ∅ total (dr_current_height r), events).

Definition DeveloperRewards_total_distributed (r : DeveloperRewards) : Z := dr_total_distributed r.
Definition DeveloperRewards_get_contract (r : DeveloperRewards) (address : ContractAddress) :
    option ContractRegistry := dr_registry r !! address.

(** ** Specification *)

Inductive rewards_op :=
| OpSetHeight (height : Z)
| OpRegister (contract_address : ContractAddress) (deployer : bytes) (height : Z)
| OpRecordFee (contract_address : ContractAddress) (fee_amount : Z)
| OpDistribute.

Definition rewards_op_ok (o : rewards_op) : Prop :=
  match o with OpRecordFee _ a => u64 a | _ => True end.

(** An operation, with the events it pays and its answer. *)
Definition rewards_exec (r : DeveloperRewards) (o : rewards_op) :
    DeveloperRewards * list RewardEvent * result RewardsError unit :=
  match o with
  | OpSetHeight h => (DeveloperRewards_set_height h r, [], Ok tt)
  | OpRegister a d h => let '(r', res) := DeveloperRewards_register_contract r a d h in (r', [], res)
  | OpRecordFee a f => let '(r', res) := DeveloperRewards_record_fee r a f in (r', [], res)
  | OpDistribute => let '(r', evs) := DeveloperRewards_distribute_rewards r in (r', evs, Ok tt)
  end.

(** A run, with all the events it has paid. *)
Definition rewards_run (s : DeveloperRewards * list RewardEvent) (os : list rewards_op) :
    DeveloperRewards * list RewardEvent :=
  fold_left (λ s o, let '(r', evs, _) := rewards_exec s.1 o in (r', s.2 ++ evs)) os s.
End Ops.

Definition events_total (evs : list RewardEvent) : Z := zsum (ev_amount <$> evs).

(** What a list of events paid for one contract. *)
Definition paid_for (k : ContractAddress) (evs : list RewardEvent) : Z :=
  zsum ((λ e, if decide (ev_contract e = k) then ev_amount e else 0) <$> evs).

(** The ledger balances: what each contract earned is what is pending and what was
    paid for it, and every payment went to the deployer. *)
Record ledger_ok (r : DeveloperRewards) (paid : list RewardEvent) : Prop := {
  ledger_balance k c : dr_registry r !! k = Some c →
    cr_total_fees_earned c = default 0 (dr_pending r !! k) + paid_for k paid ∧
    u64 (cr_total_fees_earned c) ∧ cr_contract_address c = k;
  ledger_pending k a : dr_pending r !! k = Some a → 0 < a ∧ is_Some (dr_registry r !! k);
  ledger_events e : e ∈ paid →
    0 < ev_amount e ∧ DeveloperRewards_get_developer r (ev_contract e) = Some (ev_developer e);
  ledger_total : dr_total_distributed r = Z.min u64_max (events_total paid);
}.

(** * Lemmas *)

Lemma paid_for_app k e1 e2 : paid_for k (e1 ++ e2) = paid_for k e1 + paid_for k e2.
Proof. unfold paid_for. by rewrite fmap_app, zsum_app. Qed.

Lemma paid_for_nonneg k evs : (∀ e, e ∈ evs → 0 < ev_amount e) → 0 <= paid_for k evs.
Proof.
  intros He. apply zsum_nonneg, Forall_forall. intros x Hx.
  apply list_elem_of_fmap in Hx as (e & -> & Hin). case_decide; [|done]. specialize (He e Hin). lia.
Qed.

Lemma paid_for_none k evs : (∀ e, e ∈ evs → ev_contract e ≠ k) → paid_for k evs = 0.
Proof.
  unfold paid_for. induction evs as [|e evs IH]; intros He; [done|]. csimpl.
  rewrite decide_False by (apply He; left). rewrite IH; [done|]. intros. apply He. by right.
Qed.

Section KeySum.
Context `{HashOrderLaws}.

(** In the entries of a map a key occurs once. *)
Lemma key_sum_hash_iter {K} `{Countable K} (m : gmap K Z) (k : K) :
  zsum ((λ kv, if decide (kv.1 = k) then kv.2 else 0) <$> hash_iter m) = default 0 (m !! k).
Proof.
  rewrite hash_iter_perm. induction m as [|k' v m Hk' IH] using map_ind.
  { by rewrite map_to_list_empty. }
  rewrite map_to_list_insert by done. csimpl. rewrite IH. destruct (decide (k' = k)) as [->|Hne].
  - rewrite lookup_insert_eq, Hk'. simpl. lia.
  - by rewrite lookup_insert_ne.
Qed.

Lemma fold_push_event r items evs total :
  Forall (λ kv, 0 < kv.2 ∧ is_Some (dr_registry r !! kv.1)) items → total <= u64_max →
  ∃ new, fold_left (push_event r) items (evs, total) =
      (evs ++ new, Z.min u64_max (total + events_total new)) ∧
    ev_contract <$> new = items.*1 ∧ ev_amount <$> new = items.*2 ∧
    Forall (λ e, DeveloperRewards_get_developer r (ev_contract e) = Some (ev_developer e) ∧
      ev_height e = dr_current_height r) new ∧
    0 <= events_total new.
Proof.
  intros Hl. revert evs total. induction Hl as [|[k a] items [Ha [c Hc]] Hl IH]; intros evs total Ht; simpl in *.
  { exists []. unfold events_total. simpl. rewrite app_nil_r.
    split_and!; [f_equal; lia|done..|lia]. }
  unfold push_event at 2. simpl. rewrite Hc.
  destruct (IH (evs ++ [mkRewardEvent k (cr_deployer c) a (dr_current_height r)])
    (u64_saturating_add total a)) as (new & -> & Hk & Hv & Hd & Hnn).
  { unfold u64_saturating_add. lia. }
  exists (mkRewardEvent k (cr_deployer c) a (dr_current_height r) :: new). unfold events_total, u64_saturating_add in *. csimpl in *.
  split_and!; [rewrite <-app_assoc; simpl; f_equal; lia| | | |lia].
  - by rewrite Hk.
  - by rewrite Hv.
  - constructor; [|done]. simpl. unfold DeveloperRewards_get_developer. by rewrite Hc.
Qed.
End KeySum.

Lemma paid_for_items k evs items :
  ev_contract <$> evs = items.*1 → ev_amount <$> evs = items.*2 →
  paid_for k evs = zsum ((λ kv, if decide (kv.1 = k) then kv.2 else 0) <$> items).
Proof.
  revert items. induction evs as [|e evs IH]; intros [|[k' a] items] Hk Hv; try done.
  unfold paid_for in *. csimpl in *. simplify_eq. by rewrite (IH items).
Qed.

Lemma filter_pending_id l :
  Forall (λ kv : ContractAddress * Z, 0 < kv.2) l → filter (λ kv, 0 < kv.2) l = l.
Proof. induction 1; [done|]. rewrite filter_cons, decide_True by done. by f_equal. Qed.

Section Ledger.
Context `{HashOrderLaws}.

(** A distribution pays every pending amount, once. *)
Lemma distribute_spec r paid :
  ledger_ok r paid →
  ∃ new, DeveloperRewards_distribute_rewards r =
      (mkDeveloperRewards (dr_registry r) ∅ (Z.min u64_max (dr_total_distributed r + events_total new))
        (dr_current_height r), new) ∧
    (∀ k, paid_for k new = default 0 (dr_pending r !! k)) ∧
    Forall (λ e, 0 < ev_amount e ∧ DeveloperRewards_get_developer r (ev_contract e) = Some (ev_developer e) ∧
      ev_height e = dr_current_height r) new ∧ 0 <= events_total new.
Proof.
  intros [Hb Hp He Ht]. unfold DeveloperRewards_distribute_rewards.
  assert (Forall (λ kv, 0 < kv.2 ∧ is_Some (dr_registry r !! kv.1)) (hash_iter (dr_pending r))) as Hit.
  { apply Forall_forall. intros [k a] Hk. by apply elem_of_hash_iter, Hp in Hk. }
  rewrite filter_pending_id by (eapply Forall_impl; [done|]; intros ? [??]; done).
  destruct (fold_push_event r (hash_iter (dr_pending r)) [] (dr_total_distributed r) Hit)
    as (new & -> & Hk & Hv & Hd & Hnn); [lia|].
  exists new. split; [done|]. split; [|split; [|done]].
  - intros k. by rewrite (paid_for_items k new _ Hk Hv), key_sum_hash_iter.
  - apply Forall_forall. intros e Hin. rewrite Forall_forall in Hd. split; [|by apply Hd].
    assert (ev_amount e ∈ (hash_iter (dr_pending r)).*2) as Hin2
      by (rewrite <-Hv; by apply list_elem_of_fmap_2).
    apply list_elem_of_fmap in Hin2 as (kv & -> & Hkv). rewrite Forall_forall in Hit. by apply Hit.
Qed.

Lemma new_ledger : ledger_ok DeveloperRewards_new [].
Proof. split; simpl; [done|done|by intros e ?%elem_of_nil|done]. Qed.

Lemma record_fee_ledger r paid a f :
  ledger_ok r paid → u64 f → ledger_ok (DeveloperRewards_record_fee r a f).1 paid.
Proof.
  intros Hl Hf. pose proof Hl as [Hb Hp He Ht]. unfold DeveloperRewards_record_fee.
  destruct (f =? 0) eqn:Hf0; [done|]. destruct (dr_registry r !! a) as [c|] eqn:Hc; [|done].
  destruct (u64_checked_add (cr_total_fees_earned c) f) as [earned|] eqn:Hadd; [|done].
  apply checked_Some in Hadd as [Hr ->]. destruct (Hb a c Hc) as (Heq & Hu & Ha).
  assert (0 <= paid_for a paid) by (apply paid_for_nonneg; intros; by apply He).
  assert (0 <= default 0 (dr_pending r !! a)).
  { destruct (dr_pending r !! a) eqn:Hpa; simpl; [|done]. destruct (Hp _ _ Hpa). lia. }
  unfold u64_checked_add. rewrite (proj2 (checked_Some _ _ _)) by (split; [zlia|done]). simpl.
  split; simpl; [| | |done].
  - intros k c'. destruct (decide (k = a)) as [->|Hne].
    + rewrite !lookup_insert_eq. intros [= <-]. simpl. split_and!; zlia || done.
    + rewrite !lookup_insert_ne by done. apply Hb.
  - intros k x. destruct (decide (k = a)) as [->|Hne].
    + rewrite !lookup_insert_eq. intros [= <-]. split; [zlia|by eexists].
    + rewrite !lookup_insert_ne by done. apply Hp.
  - intros e Hin. destruct (He e Hin) as [? Hdev]. split; [done|].
    unfold DeveloperRewards_get_developer in *. simpl. destruct (decide (ev_contract e = a)) as [Hk|Hne].
    + rewrite Hk in *. rewrite lookup_insert_eq. by rewrite Hc in Hdev.
    + by rewrite lookup_insert_ne.
Qed.

Lemma exec_ledger r paid o r' evs res :
  ledger_ok r paid → rewards_op_ok o → rewards_exec r o = (r', evs, res) → ledger_ok r' (paid ++ evs).
Proof.
  intros Hl Ho Hexec. pose proof Hl as [Hb Hp He Ht]. destruct o; simpl in *.
  - simplify_eq. rewrite app_nil_r. by split.
  - unfold DeveloperRewards_register_contract in Hexec.
    destruct (dr_registry r !! contract_address) as [c|] eqn:Hc; simplify_eq; rewrite app_nil_r; [done|].
    split; simpl; [| | |done].
    + intros k c'. destruct (decide (k = contract_address)) as [->|Hne].
      * rewrite lookup_insert_eq. intros [= <-]. simpl.
        destruct (dr_pending r !! contract_address) eqn:Hpa; simpl.
        { destruct (Hp _ _ Hpa) as [_ [? ?]]. congruence. }
        rewrite paid_for_none; [done|]. intros e Hin Hk. destruct (He e Hin) as [_ Hdev].
        unfold DeveloperRewards_get_developer in Hdev. by rewrite Hk, Hc in Hdev.
      * rewrite lookup_insert_ne by done. apply Hb.
    + intros k x Hk. destruct (Hp k x Hk) as [? ?]. split; [done|]. rewrite lookup_insert_is_Some'. by right.
    + intros e Hin. destruct (He e Hin) as [? Hdev]. split; [done|].
      unfold DeveloperRewards_get_developer in *. simpl.
      rewrite lookup_insert_ne; [done|]. intros Hk. by rewrite <-Hk, Hc in Hdev.
  - destruct (DeveloperRewards_record_fee r contract_address fee_amount) as [r1 res1] eqn:Hrf. simplify_eq.
    rewrite app_nil_r. pose proof (record_fee_ledger r paid contract_address fee_amount Hl Ho) as Hok.
    by rewrite Hrf in Hok.
  - destruct (distribute_spec r paid Hl) as (new & Hd & Hk & Hn & Hnn). rewrite Hd in Hexec. simplify_eq.
    split; simpl; [|done| |].
    + intros k c Hc. destruct (Hb k c Hc) as (? & ? & ?). rewrite paid_for_app, Hk, lookup_empty. simpl.
      split_and!; lia || done.
    + intros e [Hin|Hin]%elem_of_app; [by apply He|]. rewrite Forall_forall in Hn.
      destruct (Hn e Hin) as (?&?&?). done.
    + unfold events_total in *. rewrite fmap_app, zsum_app, Ht. lia.
Qed.

Lemma run_ledger os s :
  ledger_ok s.1 s.2 → Forall rewards_op_ok os → ledger_ok (rewards_run s os).1 (rewards_run s os).2.
Proof.
  intros Hl Hos. revert s Hl. induction Hos as [|o os Ho Hos IH]; intros [r paid] Hl; [done|].
  simpl. destruct (rewards_exec r o) as [[r' evs] res] eqn:He. simpl. apply IH. simpl.
  by eapply exec_ledger.
Qed.
End Ledger.

(** * Properties *)

(** C34: the developer ledger balances.  After any sequence of registrations, recorded
    fees and distributions, what each contract has earned is exactly what is
    pending for it plus what all distributions paid for it; every payment was
    positive and went to the deployer of a registered contract; and
    [total_distributed] is the sum of all payments, capped at [u64::MAX]. *)
Theorem rewards_ledger_balances `{HashOrderLaws} (os : list rewards_op) :
  Forall rewards_op_ok os →
  ledger_ok (rewards_run (DeveloperRewards_new, []) os).1 (rewards_run (DeveloperRewards_new, []) os).2.
Proof. intros. apply run_ledger; [apply new_ledger|done]. Qed.

Definition demo_rewards_ops : list rewards_op :=
  [OpRegister (key32 1) (key32 9) 5; OpRecordFee (key32 1) 30; OpRecordFee (key32 2) 1;
   OpRecordFee (key32 1) 12; OpSetHeight 8; OpDistribute; OpRecordFee (key32 1) 7].
Lemma rewards_ledger_balances_witness :
  (rewards_run (HO := forward_order) (DeveloperRewards_new, []) demo_rewards_ops).2 =
    [mkRewardEvent (key32 1) (key32 9) 42 8] ∧
  ledger_ok (rewards_run (HO := forward_order) (DeveloperRewards_new, []) demo_rewards_ops).1
    (rewards_run (HO := forward_order) (DeveloperRewards_new, []) demo_rewards_ops).2.
Proof.
  split; [vm_compute; reflexivity|].
  apply (rewards_ledger_balances (HO := forward_order) demo_rewards_ops).
  by repeat constructor.
Defined.

(** A distribution empties [pending] and pays each contract exactly what was
    pending for it, in one event to its deployer at the current height; with no
    fee recorded since, the next one pays nothing. *)
Theorem distribute_rewards_pays_pending `{HashOrderLaws}
    (r : DeveloperRewards) (paid : list RewardEvent) :
  ledger_ok r paid →
  ∃ r' events, DeveloperRewards_distribute_rewards r = (r', events) ∧
    dr_pending r' = ∅ ∧ dr_registry r' = dr_registry r ∧
    (∀ k, paid_for k events = default 0 (dr_pending r !! k)) ∧
    Forall (λ e, DeveloperRewards_get_developer r (ev_contract e) = Some (ev_developer e) ∧
      ev_height e = dr_current_height r) events ∧
    (DeveloperRewards_distribute_rewards r').2 = [].
Proof.
  intros Hl. destruct (distribute_spec r paid Hl) as (new & Hd & Hk & Hn & _).
  eexists _, new. split; [exact Hd|]. simpl. split_and!; [done|done|done| |].
  - eapply Forall_impl; [done|]. intros ? (?&?&?). done.
  - unfold DeveloperRewards_distribute_rewards. simpl.
    assert (hash_iter (∅ : gmap ContractAddress Z) = []) as ->; [|done].
    apply Permutation_nil_r. by rewrite hash_iter_perm, map_to_list_empty.
Qed.

Lemma distribute_rewards_pays_pending_witness :
  ∃ r' events,
    DeveloperRewards_distribute_rewards (HO := backward_order)
      (rewards_run (HO := backward_order) (DeveloperRewards_new, []) demo_rewards_ops).1 = (r', events) ∧
    events = [mkRewardEvent (key32 1) (key32 9) 7 8] ∧ dr_pending r' = ∅.
Proof.
  destruct (distribute_rewards_pays_pending (HO := backward_order)
    (rewards_run (HO := backward_order) (DeveloperRewards_new, []) demo_rewards_ops).1
    (rewards_run (HO := backward_order) (DeveloperRewards_new, []) demo_rewards_ops).2)
    as (r' & evs & Hd & Hp & _).
  - apply (run_ledger (HO := backward_order)); [apply new_ledger|by repeat constructor].
  - exists r', evs. split; [exact Hd|]. split; [|exact Hp].
    vm_compute in Hd. injection Hd as _ <-. vm_compute. reflexivity.
Defined.
