(* ===== verification/Crypto.v ===== *)
(** * Cryptographic libraries

    What the code takes from [ed25519_dalek] and [sha2]: the functions it calls,
    as a type class every definition that uses them is parameterised by, and the
    documented behaviour it relies on, as a second class only theorems mention.
    A concrete instance of both, [toy_crypto], evaluates the definitions. *)
From S2P Require Import Prelude.
Open Scope Z_scope.

(** Signing keys, verifying keys, messages, digests and signatures are bytes. *)
Class Crypto := {
  sha256 : bytes → bytes;
  (** [SigningKey::verifying_key] *)
  ed_verifying_key : bytes → bytes;
  (** [Signer::sign] *)
  ed_sign : bytes → bytes → bytes;
  (** [VerifyingKey::from_bytes] succeeds: the bytes are a point of the curve *)
  ed_key_ok : bytes → bool;
  (** [Verifier::verify] of a key, a message and a signature *)
  ed_verify : bytes → bytes → bytes → bool;
  (** [VerifyingKey::verify_strict], which also refuses weak keys *)
  ed_verify_strict : bytes → bytes → bytes → bool;
}.

Class CryptoLaws (C : Crypto) := {
  length_sha256 m : length (sha256 m) = 32%nat;
  length_ed_verifying_key sk : length (ed_verifying_key sk) = 32%nat;
  length_ed_sign sk m : length (ed_sign sk m) = 64%nat;
  ed_key_ok_verifying_key sk : ed_key_ok (ed_verifying_key sk) = true;
  ed_verify_strict_sign sk m : ed_verify_strict (ed_verifying_key sk) m (ed_sign sk m) = true;
  ed_verify_strict_verify pk m s : ed_verify_strict pk m s = true → ed_verify pk m s = true;
}.

(** A collision of the hash function between two given collections of inputs.  (That
    some collision exists is no news for a function with 32-byte results; that one
    lies among the strings a protocol hashed is.) *)
Definition sha256_collision {C : Crypto} (l1 l2 : list bytes) : Prop :=
  ∃ x y, x ∈ l1 ∧ y ∈ l2 ∧ x ≠ y ∧ sha256 x = sha256 y.

(** ** A concrete instance *)

Definition toy_hash (m : bytes) : bytes :=
  le_bytes 32 (fold_left (λ h b, h * 3 + byte_Z b + 1) m 7).
Definition toy_key (sk : bytes) : bytes := toy_hash sk.
Definition toy_signature (pk m : bytes) : bytes := toy_hash (pk ++ m) ++ toy_hash m.

Definition toy_crypto : Crypto := {|
  sha256 := toy_hash;
  ed_verifying_key := toy_key;
  ed_sign sk m := toy_signature (toy_key sk) m;
  ed_key_ok pk := bool_decide (length pk = 32%nat);
  ed_verify pk m s := bool_decide (s = toy_signature pk m);
  ed_verify_strict pk m s := bool_decide (s = toy_signature pk m);
|}.

#[export] Instance toy_crypto_laws : CryptoLaws toy_crypto.
Proof.
  split; intros; simpl; unfold toy_key, toy_signature, toy_hash;
    rewrite ?length_app, ?length_le_bytes; try done.
  by apply bool_decide_eq_true.
Qed.

Lemma ed_verify_sign {C : Crypto} {CL : CryptoLaws C} sk m :
  ed_verify (ed_verifying_key sk) m (ed_sign sk m) = true.
Proof. apply ed_verify_strict_verify, ed_verify_strict_sign. Qed.

(** The bytes hashed determine the digests only up to a collision. *)
Lemma sha256_inj_or {C : Crypto} x y l1 l2 :
  sha256 x = sha256 y → x ∈ l1 → y ∈ l2 → x = y ∨ sha256_collision l1 l2.
Proof. intros Hh Hx Hy. destruct (decide (x = y)); [by left|right]. by exists x, y. Qed.

Lemma sha256_collision_mono {C : Crypto} l1 l2 l1' l2' :
  l1 ⊆ l1' → l2 ⊆ l2' → sha256_collision l1 l2 → sha256_collision l1' l2'.
Proof. intros H1 H2 (x & y & Hx & Hy & Hxy). exists x, y. auto. Qed.
