(* ===== verification/Block.v ===== *)
(** * Blocks and transactions (consensus/bft/src/block.rs, types.rs)

    Transactions with their signing message, signature and hash; block headers and
    blocks with their hash; the Merkle root of a block's transactions.  The
    [bincode] encodings, which [serde] derives, are a parameter. *)
From S2P Require Import Prelude Crypto.
Open Scope Z_scope.

(** [ValidatorId], [BlockHash], [Height] and [Round] are one-field structs. *)
Definition ValidatorId := bytes.
Definition BlockHash := bytes.
Definition Height := Z.
Definition Round := Z.

Definition BlockHash_is_zero (h : BlockHash) : bool := bool_decide (h = zero32).

Record BlockHeader := mkBlockHeader {
  bh_height : Height;
  bh_timestamp : Z;
  bh_parent_hash : BlockHash;
  bh_proposer : ValidatorId;
  bh_state_root : bytes;
  bh_tx_merkle_root : bytes;
}.

Record Transaction := mkTransaction {
  tx_from : bytes;
  tx_to : bytes;
  tx_amount : Z;
  tx_nonce : Z;
  tx_signature : bytes;
  tx_data : bytes;
}.

#[export] Instance Transaction_eq_dec : EqDecision Transaction.
Proof. solve_decision. Defined.

Record Block := mkBlock {
  blk_header : BlockHeader;
  blk_transactions : list Transaction;
}.

(** [bincode::serialize], which does not fail on these types; the encodings of two
    transactions differ when the transactions do. *)
Class Bincode := {
  bincode_transaction : Transaction → bytes;
  bincode_header : BlockHeader → bytes;
}.
Class BincodeLaws (B : Bincode) := {
  bincode_transaction_inj : Inj (=) (=) bincode_transaction;
  bincode_header_inj : Inj (=) (=) bincode_header;
}.

Section Ops.
Context {C : Crypto}.

Definition Transaction_signing_message (tx : Transaction) : bytes :=
  sha256 (tx_from tx ++ tx_to tx ++ le_bytes 8 (tx_amount tx) ++ le_bytes 8 (tx_nonce tx) ++ tx_data tx).

Definition Transaction_sign (signing_key : bytes) (tx : Transaction) : Transaction :=
  mkTransaction (tx_from tx) (tx_to tx) (tx_amount tx) (tx_nonce tx)
    (ed_sign signing_key (Transaction_signing_message tx)) (tx_data tx).

(** [Signature::from_bytes] of 64 bytes does not fail. *)
Definition Transaction_verify_signature (tx : Transaction) : bool :=
  if negb (length (tx_signature tx) =? 64)%nat then false
  else if negb (ed_key_ok (tx_from tx)) then false
  else ed_verify (tx_from tx) (Transaction_signing_message tx) (tx_signature tx).

Context {B : Bincode}.

Definition Transaction_hash (tx : Transaction) : bytes := sha256 (bincode_transaction tx).

Definition Block_hash (b : Block) : BlockHash := sha256 (bincode_header (blk_header b)).

(** One level of the tree: [chunks(2)], an odd leaf paired with itself. *)
Fixpoint merkle_level (leaves : list bytes) : list bytes :=
  match leaves with
  | [] => []
  | [a] => [sha256 (a ++ a)]
  | a :: b :: rest => sha256 (a ++ b) :: merkle_level rest
  end.

(** The [while] loop, and [leaves[0]] after it. *)
Fixpoint merkle_loop (fuel : nat) (leaves : list bytes) : may_panic bytes :=
  match fuel with
  | O => None
  | S fuel =>
    match leaves with
    | [] => None
    | [root] => Some root
    | _ => merkle_loop fuel (merkle_level leaves)
    end
  end.

Definition Block_compute_tx_merkle_root (transactions : list Transaction) : may_panic bytes :=
  match transactions with
  | [] => Some zero32
  | _ =>
    let leaves := (λ tx, sha256 (bincode_transaction tx)) <$> transactions in
    merkle_loop (length leaves) leaves
  end.
End Ops.

(** * Lemmas *)

Lemma list_pair_ind {A} (P : list A → Prop) :
  P [] → (∀ a, P [a]) → (∀ a b l, P l → P (a :: b :: l)) → ∀ l, P l.
Proof.
  intros H0 H1 H2. fix IH 1. intros [|a [|b l]]; [exact H0|apply H1|apply H2, IH].
Qed.

Section Merkle.
Context {C : Crypto} {CL : CryptoLaws C}.

Lemma length_merkle_level l : length (merkle_level l) = Nat.div2 (S (length l)).
Proof.
  induction l as [|a|a b l IH] using list_pair_ind; simpl; [done|done|]. by rewrite IH.
Qed.

Lemma length_merkle_level_lt l : (2 <= length l)%nat → (0 < length (merkle_level l) < length l)%nat.
Proof.
  intros Hl. rewrite length_merkle_level. pose proof (Nat.div2_odd (S (length l))).
  pose proof (Nat.b2n_le_1 (Nat.odd (S (length l)))). lia.
Qed.

(** Each level is shorter, so that as many rounds as leaves suffice. *)
Lemma merkle_loop_total fuel l :
  (0 < length l <= fuel)%nat → is_Some (merkle_loop fuel l).
Proof.
  revert l. induction fuel as [|fuel IH]; intros l Hl; [lia|]. simpl.
  destruct l as [|a [|b l]]; [simpl in *; lia|by eexists|].
  apply IH. pose proof (length_merkle_level_lt (a :: b :: l)). simpl length in *. lia.
Qed.

(** Extra rounds change nothing. *)
Lemma merkle_loop_mono fuel fuel' l r :
  merkle_loop fuel l = Some r → (fuel <= fuel')%nat → merkle_loop fuel' l = Some r.
Proof.
  revert fuel' l. induction fuel as [|fuel IH]; intros [|fuel'] l Hl Hle; try done; [lia|].
  simpl in *. destruct l as [|a [|b l]]; [done|done|]. apply IH; [done|lia].
Qed.

(** The strings hashed for the parents of a level, and of all levels above it. *)
Fixpoint level_inputs (level : list bytes) : list bytes :=
  match level with
  | [] => []
  | [a] => [a ++ a]
  | a :: b :: level => (a ++ b) :: level_inputs level
  end.
Fixpoint loop_inputs (fuel : nat) (hashes : list bytes) : list bytes :=
  match fuel, hashes with
  | S fuel, _ :: _ :: _ => level_inputs hashes ++ loop_inputs fuel (merkle_level hashes)
  | _, _ => []
  end.

Lemma merkle_level_32 l : Forall (λ x, length x = 32%nat) (merkle_level l).
Proof.
  induction l as [|a|a b l IH] using list_pair_ind; simpl; repeat constructor;
    by apply length_sha256 || apply IH.
Qed.

(** Levels of equal length with equal parents are equal, or show a collision. *)
Lemma merkle_level_binding l1 l2 :
  length l1 = length l2 → Forall (λ x, length x = 32%nat) l1 → Forall (λ x, length x = 32%nat) l2 →
  merkle_level l1 = merkle_level l2 → l1 = l2 ∨ sha256_collision (level_inputs l1) (level_inputs l2).
Proof.
  revert l2. induction l1 as [|a|a b l1 IH] using list_pair_ind;
    intros l2 Hlen Hl1 Hl2; destruct l2 as [|a' [|b' l2]]; try done.
  - by left.
  - simpl. intros [= Hh]. eapply sha256_inj_or in Hh as [Hh|?]; [|by right|left|left]. left.
    apply app_inj_1 in Hh as [-> _]; [done|].
    rewrite Forall_singleton in Hl1, Hl2. lia.
  - simpl. intros [= Hh Hr]. inversion Hl1 as [|? ? ? Hl1']; subst. inversion Hl2 as [|? ? ? Hl2']; subst.
    inversion Hl1'; subst. inversion Hl2'; subst.
    eapply sha256_inj_or in Hh as [Hh|?]; [|by right|left|left].
    apply app_inj_1 in Hh as [-> ->]; [|simpl in *; lia].
    destruct (IH l2) as [->|Hc]; [simpl in Hlen; lia|done..|by left|right].
    eapply sha256_collision_mono; [..|exact Hc]; set_solver.
Qed.

Lemma merkle_loop_binding fuel l1 l2 r :
  length l1 = length l2 → Forall (λ x, length x = 32%nat) l1 → Forall (λ x, length x = 32%nat) l2 →
  merkle_loop fuel l1 = Some r → merkle_loop fuel l2 = Some r →
  l1 = l2 ∨ sha256_collision (loop_inputs fuel l1) (loop_inputs fuel l2).
Proof.
  revert l1 l2. induction fuel as [|fuel IH]; intros l1 l2 Hlen Hl1 Hl2; [done|]. simpl.
  destruct l1 as [|a [|b l1]], l2 as [|a' [|b' l2]]; try done; [naive_solver|].
  intros H1 H2. destruct (IH (merkle_level (a :: b :: l1)) (merkle_level (a' :: b' :: l2))) as [Heq|Hc];
    [|apply merkle_level_32..|done|done| |].
  - rewrite !length_merkle_level. congruence.
  - destruct (merkle_level_binding (a :: b :: l1) (a' :: b' :: l2)) as [?|Hc]; [done..|by left|right].
    eapply sha256_collision_mono; [..|exact Hc]; by apply list_subseteq_app_l.
  - right. eapply sha256_collision_mono; [..|exact Hc]; by apply list_subseteq_app_r.
Qed.

Lemma merkle_level_duplicate l x :
  Nat.Odd (length l) → last l = Some x → merkle_level (l ++ [x]) = merkle_level l.
Proof.
  induction l as [|a|a b l IH] using list_pair_ind; intros Hodd Hx.
  - done.
  - simpl in *. by simplify_eq.
  - simpl. rewrite IH; [done| |].
    + destruct Hodd as [k Hk]. exists (k - 1)%nat. simpl in Hk. lia.
    + destruct l; [|done]. exfalso. destruct Hodd as [k Hk]. simpl in Hk. lia.
Qed.

Lemma merkle_loop_duplicate fuel l x :
  (2 <= length l)%nat → Nat.Odd (length l) → last l = Some x →
  merkle_loop (S fuel) (l ++ [x]) = merkle_loop (S fuel) l.
Proof.
  intros Hlen Hodd Hx. destruct l as [|a [|b l]]; [simpl in *; lia..|].
  change (merkle_loop fuel (merkle_level ((a :: b :: l) ++ [x])) = merkle_loop fuel (merkle_level (a :: b :: l))).
  by rewrite merkle_level_duplicate.
Qed.

Lemma merkle_leaves_32 {B : Bincode} (txs : list Transaction) :
  Forall (λ x, length x = 32%nat) ((λ tx, sha256 (bincode_transaction tx)) <$> txs).
Proof. apply Forall_fmap, Forall_true. intros tx. apply length_sha256. Qed.

(** Everything hashed for a root: the encodings of the transactions, then the parents. *)
Definition merkle_inputs {B : Bincode} (txs : list Transaction) : list bytes :=
  (bincode_transaction <$> txs) ++
  loop_inputs (length txs) ((λ tx, sha256 (bincode_transaction tx)) <$> txs).

(** Lists with the same leaves are equal, or show a collision. *)
Lemma merkle_leaves_binding {B : Bincode} {BL : BincodeLaws B} (txs txs' : list Transaction) :
  ((λ tx, sha256 (bincode_transaction tx)) <$> txs) = ((λ tx, sha256 (bincode_transaction tx)) <$> txs') →
  txs = txs' ∨ sha256_collision (bincode_transaction <$> txs) (bincode_transaction <$> txs').
Proof.
  revert txs'. induction txs as [|t ts IH]; intros [|t' ts']; csimpl; try done; [by left|].
  intros [= Ht Hts]. eapply sha256_inj_or in Ht as [Ht|?]; [|by right|left|left].
  apply bincode_transaction_inj in Ht as ->.
  destruct (IH ts' Hts) as [->|Hc]; [by left|right]. eapply sha256_collision_mono; [..|exact Hc]; set_solver.
Qed.
End Merkle.

(** What [signing_message] feeds to SHA-256. *)
Definition signing_bytes (tx : Transaction) : bytes :=
  tx_from tx ++ tx_to tx ++ le_bytes 8 (tx_amount tx) ++ le_bytes 8 (tx_nonce tx) ++ tx_data tx.

(** Fields of fixed width can be read back from their concatenation. *)
Definition Transaction_wf (tx : Transaction) : Prop :=
  length (tx_from tx) = 32%nat ∧ length (tx_to tx) = 32%nat ∧ u64 (tx_amount tx) ∧ u64 (tx_nonce tx).

Lemma signing_bytes_inj tx1 tx2 :
  Transaction_wf tx1 → Transaction_wf tx2 →
  signing_bytes tx1 = signing_bytes tx2 →
  tx_from tx1 = tx_from tx2 ∧ tx_to tx1 = tx_to tx2 ∧ tx_amount tx1 = tx_amount tx2 ∧
  tx_nonce tx1 = tx_nonce tx2 ∧ tx_data tx1 = tx_data tx2.
Proof.
  intros (?&?&?&?) (?&?&?&?) Hb. unfold signing_bytes in Hb.
  apply app_inj_1 in Hb as [? Hb]; [|lia]. apply app_inj_1 in Hb as [? Hb]; [|lia].
  apply app_inj_1 in Hb as [? Hb]; [|by rewrite !length_le_bytes].
  apply app_inj_1 in Hb as [? Hb]; [|by rewrite !length_le_bytes].
  split_and!; [done|done|by eapply (le_bytes_inj 8)|by eapply (le_bytes_inj 8)|done].
Qed.

(** An encoding that separates transactions, for the witnesses: every byte of a field
    is announced, and the end of the field too. *)
Fixpoint delimited (b : bytes) : bytes :=
  match b with
  | [] => [x00]
  | x :: b => x01 :: x :: delimited b
  end.
Fixpoint positive_bytes (p : positive) : bytes :=
  match p with
  | xH => []
  | xO p => x00 :: positive_bytes p
  | xI p => x01 :: positive_bytes p
  end.
Definition toy_Z (z : Z) : bytes := delimited (positive_bytes (encode z)).
Definition toy_bincode : Bincode := {|
  bincode_transaction tx := delimited (tx_from tx) ++ delimited (tx_to tx) ++ toy_Z (tx_amount tx)
    ++ toy_Z (tx_nonce tx) ++ delimited (tx_signature tx) ++ delimited (tx_data tx);
  bincode_header h := toy_Z (bh_height h) ++ toy_Z (bh_timestamp h) ++ delimited (bh_parent_hash h)
    ++ delimited (bh_proposer h) ++ delimited (bh_state_root h) ++ delimited (bh_tx_merkle_root h);
|}.

Lemma delimited_inj a b r s : delimited a ++ r = delimited b ++ s → a = b ∧ r = s.
Proof.
  revert b. induction a as [|x a IH]; intros [|y b]; simpl; try done; intros Heq; simplify_eq; [done|].
  destruct (IH b) as [-> ->]; done.
Qed.
Lemma delimited_inj_nil a b : delimited a = delimited b → a = b.
Proof. intros Heq. apply (delimited_inj a b [] []). by rewrite Heq. Qed.
Lemma positive_bytes_inj : Inj (=) (=) positive_bytes.
Proof. intros p. induction p; intros [] ?; simplify_eq/=; f_equal; by apply IHp. Qed.
Lemma toy_Z_inj x y r s : toy_Z x ++ r = toy_Z y ++ s → x = y ∧ r = s.
Proof. intros [Heq ->]%delimited_inj. apply positive_bytes_inj in Heq. by apply encode_inj in Heq. Qed.
#[export] Instance toy_bincode_laws : BincodeLaws toy_bincode.
Proof.
  split.
  - intros [] [] Heq. simpl in Heq. apply delimited_inj in Heq as [-> Heq].
    apply delimited_inj in Heq as [-> Heq]. apply toy_Z_inj in Heq as [-> Heq].
    apply toy_Z_inj in Heq as [-> Heq]. apply delimited_inj in Heq as [-> Heq].
    by apply delimited_inj_nil in Heq as ->.
  - intros [] [] Heq. simpl in Heq. apply toy_Z_inj in Heq as [-> Heq].
    apply toy_Z_inj in Heq as [-> Heq]. apply delimited_inj in Heq as [-> Heq].
    apply delimited_inj in Heq as [-> Heq]. apply delimited_inj in Heq as [-> Heq].
    by apply delimited_inj_nil in Heq as ->.
Qed.

(** * Properties *)

(** Signing a transaction with the key of its sender makes it verify, without
    changing anything else of it; and the message signed binds the sender, the
    receiver, the amount, the nonce and the data: two well-formed transactions
    with the same message agree on all five, unless what was hashed for them is a
    collision of SHA-256. *)
Theorem signed_transaction_bound {C : Crypto} {CL : CryptoLaws C} (sk : bytes) (tx tx' : Transaction) :
  Transaction_wf tx → Transaction_wf tx' → tx_from tx = ed_verifying_key sk →
  Transaction_verify_signature (Transaction_sign sk tx) = true ∧
  Transaction_signing_message (Transaction_sign sk tx) = Transaction_signing_message tx ∧
  (Transaction_signing_message tx = Transaction_signing_message tx' →
    (tx_from tx = tx_from tx' ∧ tx_to tx = tx_to tx' ∧ tx_amount tx = tx_amount tx' ∧
     tx_nonce tx = tx_nonce tx' ∧ tx_data tx = tx_data tx') ∨ sha256_collision [signing_bytes tx] [signing_bytes tx']).
Proof.
  intros Hwf Hwf' Hfrom. split; [|split; [done|]].
  - unfold Transaction_verify_signature. simpl. rewrite length_ed_sign, Hfrom, ed_key_ok_verifying_key. simpl.
    assert (Transaction_signing_message (Transaction_sign sk tx) = Transaction_signing_message tx) as -> by done.
    apply ed_verify_sign.
  - intros Hm. apply (sha256_inj_or (signing_bytes tx) (signing_bytes tx') [signing_bytes tx] [signing_bytes tx']) in Hm as [Hm|?];
      [|by right|left|left]. left. by apply signing_bytes_inj.
Qed.

Definition demo_tx : Transaction :=
  mkTransaction (ed_verifying_key (Crypto := toy_crypto) (key32 1)) (key32 2) 50 1 [] [].
Lemma signed_transaction_bound_witness :
  Transaction_verify_signature (C := toy_crypto)
    (Transaction_sign (C := toy_crypto) (key32 1) demo_tx) = true.
Proof.
  refine (proj1 (signed_transaction_bound (C := toy_crypto) (key32 1) demo_tx demo_tx _ _ eq_refl));
    repeat split; done.
Defined.

(** C32: the Merkle root of a block's transactions is always computed, and binds them:
    two lists of the same length with the same root are equal, unless two of the
    strings hashed while computing the two roots are a collision of SHA-256. *)
Theorem merkle_root_binds {C : Crypto} {CL : CryptoLaws C} {B : Bincode} {BL : BincodeLaws B} (txs : list Transaction) :
  is_Some (Block_compute_tx_merkle_root txs) ∧
  ∀ txs', length txs = length txs' →
    Block_compute_tx_merkle_root txs = Block_compute_tx_merkle_root txs' →
    txs = txs' ∨ sha256_collision (merkle_inputs txs) (merkle_inputs txs').
Proof.
  assert (∀ tx l, let leaves := (λ tx, sha256 (bincode_transaction tx)) <$> (tx :: l) in
    is_Some (merkle_loop (length leaves) leaves)) as Htot.
  { intros tx l leaves. apply merkle_loop_total. simpl. lia. }
  split; [destruct txs; [by eexists|apply Htot]|].
  intros txs' Hlen Heq. destruct txs as [|tx l], txs' as [|tx' l']; try done; [by left|].
  unfold Block_compute_tx_merkle_root in Heq.
  destruct (Htot tx l) as [r Hr]. rewrite Hr in Heq. symmetry in Heq.
  set (leaf := λ tx, sha256 (bincode_transaction tx)) in *.
  assert (length (leaf <$> tx :: l) = length (leaf <$> tx' :: l')) as Hlen' by (by rewrite !length_fmap).
  rewrite <-Hlen' in Heq.
  destruct (merkle_loop_binding _ _ _ r Hlen' (merkle_leaves_32 _) (merkle_leaves_32 _) Hr Heq) as [Hl|Hc].
  - destruct (merkle_leaves_binding (tx :: l) (tx' :: l') Hl) as [?|Hc]; [by left|right].
    eapply sha256_collision_mono; [..|exact Hc]; by apply list_subseteq_app_l.
  - right. eapply sha256_collision_mono; [..|exact Hc]; unfold merkle_inputs;
      apply list_subseteq_app_r; [|rewrite <-(length_fmap leaf (tx' :: l')), <-Hlen']; rewrite ?length_fmap; done.
Qed.

Definition demo_txs : list Transaction :=
  [demo_tx; Transaction_sign (C := toy_crypto) (key32 1) demo_tx;
   mkTransaction (key32 3) (key32 2) 9 1 [] [x01]].
Lemma merkle_root_binds_witness :
  is_Some (Block_compute_tx_merkle_root (C := toy_crypto) (B := toy_bincode) demo_txs).
Proof. exact (proj1 (merkle_root_binds (C := toy_crypto) (B := toy_bincode) demo_txs)). Defined.

(** Lists of different lengths can share a root without any collision: an odd
    level pairs its last node with itself, so that repeating the last of an odd
    number of transactions leaves the root unchanged. *)
Theorem merkle_root_forged_by_repetition {C : Crypto} {B : Bincode} (txs : list Transaction) (tx : Transaction) :
  Nat.Odd (length txs) → (3 <= length txs)%nat → last txs = Some tx →
  Block_compute_tx_merkle_root (txs ++ [tx]) = Block_compute_tx_merkle_root txs.
Proof.
  intros Hodd Hlen Hlast. unfold Block_compute_tx_merkle_root.
  destruct txs as [|a txs]; [simpl in *; lia|]. rewrite <-app_comm_cons.
  set (leaf := λ tx, sha256 (bincode_transaction tx)).
  rewrite app_comm_cons, fmap_app, length_app, Nat.add_1_r. change (leaf <$> [tx]) with [leaf tx].
  rewrite merkle_loop_duplicate; [|rewrite length_fmap; lia|by rewrite length_fmap|].
  2: { by rewrite fmap_last, Hlast. }
  destruct (merkle_loop_total (length (leaf <$> a :: txs)) (leaf <$> a :: txs)) as [r Hr].
  { rewrite length_fmap. lia. }
  rewrite Hr. eapply merkle_loop_mono; [exact Hr|lia].
Qed.

Lemma merkle_root_forged_by_repetition_witness :
  Block_compute_tx_merkle_root (C := toy_crypto) (B := toy_bincode)
    (demo_txs ++ [mkTransaction (key32 3) (key32 2) 9 1 [] [x01]]) =
  Block_compute_tx_merkle_root (C := toy_crypto) (B := toy_bincode) demo_txs.
Proof.
  apply (merkle_root_forged_by_repetition (C := toy_crypto) (B := toy_bincode) demo_txs);
    [by exists 1%nat|simpl; lia|done].
Defined.
