(* ===== verification/Vote.v ===== *)
(** * Votes and rounds (consensus/bft/src/types.rs, vote.rs, round.rs)

    Votes with the bytes they sign, the sets that collect them and decide quorums,
    and the state of a round. *)
From S2P Require Import Prelude Crypto Block.
Open Scope Z_scope.

(** ** types.rs *)

Inductive VoteType := Prevote | Precommit.
#[export] Instance VoteType_eq_dec : EqDecision VoteType.
Proof. solve_decision. Defined.

Record Vote := mkVote {
  v_vote_type : VoteType;
  v_height : Height;
  v_round : Round;
  v_block_hash : option BlockHash;
  v_validator : ValidatorId;
  v_signature : bytes;
}.

Record Proposal := mkProposal {
  p_height : Height;
  p_round : Round;
  p_block_hash : BlockHash;
  p_proposer : ValidatorId;
  p_signature : bytes;
  p_valid_round : option Round;
}.

Inductive TimeoutStep := TimeoutPropose | TimeoutPrevote | TimeoutPrecommit.
#[export] Instance TimeoutStep_eq_dec : EqDecision TimeoutStep.
Proof. solve_decision. Defined.

Record TimeoutEvent := mkTimeoutEvent {
  te_height : Height;
  te_round : Round;
  te_step : TimeoutStep;
}.

Inductive ConsensusMessage :=
| ProposeBlock (proposal : Proposal) (block : option Block)
| CastVote (vote : Vote)
| CommitBlock (height : Height) (block_hash : BlockHash)
| ScheduleTimeout (event : TimeoutEvent).

Record TimeoutConfig := mkTimeoutConfig {
  propose_ms : Z;
  prevote_ms : Z;
  precommit_ms : Z;
  increment_ms : Z;
}.

Definition TimeoutConfig_default : TimeoutConfig := mkTimeoutConfig 3000 1000 1000 500.

Definition TimeoutConfig_timeout_for {OC : OverflowChecks} (c : TimeoutConfig) (step : TimeoutStep)
    (round : Round) : may_panic Z :=
  let base := match step with
              | TimeoutPropose => propose_ms c
              | TimeoutPrevote => prevote_ms c
              | TimeoutPrecommit => precommit_ms c
              end in
  m ← u64_mul (increment_ms c) round;
  u64_add base m.

(** ** vote.rs *)

Definition Vote_sign_bytes (vote_type : VoteType) (height : Height) (round : Round)
    (block_hash : option BlockHash) : bytes :=
  [match vote_type with Prevote => x01 | Precommit => x02 end]
  ++ le_bytes 8 height ++ le_bytes 4 round
  ++ match block_hash with
     | Some h => [x01] ++ h
     | None => [x00]
     end.

Section Votes.
Context {C : Crypto}.

Definition Vote_new (vote_type : VoteType) (height : Height) (round : Round)
    (block_hash : option BlockHash) (signing_key : bytes) : Vote :=
  mkVote vote_type height round block_hash (ed_verifying_key signing_key)
    (ed_sign signing_key (Vote_sign_bytes vote_type height round block_hash)).

Definition Vote_verify (v : Vote) : bool :=
  ed_verify (v_validator v)
    (Vote_sign_bytes (v_vote_type v) (v_height v) (v_round v) (v_block_hash v)) (v_signature v).

Record VoteSet := mkVoteSet {
  vs_vote_type : VoteType;
  vs_height : Height;
  vs_round : Round;
  vs_total_validators : Z;
  vs_votes : gmap bytes Vote;
}.

Definition VoteSet_new (vote_type : VoteType) (height : Height) (round : Round) (total_validators : Z) :
    VoteSet :=
  mkVoteSet vote_type height round total_validators ∅.

Definition VoteSet_add_vote (vote : Vote) (vs : VoteSet) : VoteSet * bool :=
  if negb (bool_decide (v_vote_type vote = vs_vote_type vs))
     || negb (bool_decide (v_height vote = vs_height vs))
     || negb (bool_decide (v_round vote = vs_round vs))
  then (vs, false)
  else if negb (Vote_verify vote) then (vs, false)
  else
    let key := v_validator vote in
    match vs_votes vs !! key with
    | Some _ => (vs, false)
    | None => (mkVoteSet (vs_vote_type vs) (vs_height vs) (vs_round vs) (vs_total_validators vs)
                (<[key := vote]> (vs_votes vs)), true)
    end.

(** [usize] products of the number of votes do not overflow. *)
Definition VoteSet_is_quorum (vs : VoteSet) (count : nat) : bool :=
  vs_total_validators vs * 2 <? Z.of_nat count * 3.

Context {HO : HashOrder}.

Definition VoteSet_has_quorum_for (vs : VoteSet) (block_hash : BlockHash) : bool :=
  VoteSet_is_quorum vs
    (length (filter (λ v, v_block_hash v = Some block_hash) (hash_values (vs_votes vs)))).

Definition VoteSet_has_quorum_for_nil (vs : VoteSet) : bool :=
  VoteSet_is_quorum vs (length (filter (λ v, v_block_hash v = None) (hash_values (vs_votes vs)))).

(** The first loop of [quorum_block]: the votes per hash. *)
Definition count_vote (counts : gmap BlockHash nat) (vote : Vote) : gmap BlockHash nat :=
  match v_block_hash vote with
  | Some hash => <[hash := S (default O (counts !! hash))]> counts
  | None => counts
  end.
Definition count_votes (votes : list Vote) : gmap BlockHash nat := fold_left count_vote votes ∅.

(** Its second loop. *)
Fixpoint first_quorum (vs : VoteSet) (counts : list (BlockHash * nat)) : option BlockHash :=
  match counts with
  | [] => None
  | (hash, count) :: counts =>
    if VoteSet_is_quorum vs count then Some hash else first_quorum vs counts
  end.

Definition VoteSet_quorum_block (vs : VoteSet) : option BlockHash :=
  first_quorum vs (hash_iter (count_votes (hash_values (vs_votes vs)))).

Definition VoteSet_has_two_thirds_any (vs : VoteSet) : bool :=
  VoteSet_is_quorum vs (size (vs_votes vs)).

Definition VoteSet_count (vs : VoteSet) : nat := size (vs_votes vs).
End Votes.

(** ** round.rs *)

Inductive RoundStep := StepNewRound | StepPropose | StepPrevote | StepPrecommit | StepCommit.
#[export] Instance RoundStep_eq_dec : EqDecision RoundStep.
Proof. solve_decision. Defined.

Record RoundState := mkRoundState {
  rs_round : Round;
  rs_step : RoundStep;
  rs_proposal : option BlockHash;
  rs_prevotes : VoteSet;
  rs_precommits : VoteSet;
}.

Definition RoundState_new (round : Round) (height : Height) (total_validators : Z) : RoundState :=
  mkRoundState round StepNewRound None
    (VoteSet_new Prevote height round total_validators)
    (VoteSet_new Precommit height round total_validators).

Definition RoundState_propose_timeout {OC : OverflowChecks} (rs : RoundState) (c : TimeoutConfig) :=
  TimeoutConfig_timeout_for c TimeoutPropose (rs_round rs).
Definition RoundState_prevote_timeout {OC : OverflowChecks} (rs : RoundState) (c : TimeoutConfig) :=
  TimeoutConfig_timeout_for c TimeoutPrevote (rs_round rs).
Definition RoundState_precommit_timeout {OC : OverflowChecks} (rs : RoundState) (c : TimeoutConfig) :=
  TimeoutConfig_timeout_for c TimeoutPrecommit (rs_round rs).

(** ** Specification *)

(** The validators whose recorded vote is for a hash. *)
Definition voters_for (vs : VoteSet) (h : BlockHash) : gset bytes :=
  dom (filter (λ kv : bytes * Vote, v_block_hash kv.2 = Some h) (vs_votes vs)).

(** Every recorded vote belongs to the set's type, height and round, is filed under
    its validator, and carries a signature that verifies. *)
Definition VoteSet_wf {C : Crypto} (vs : VoteSet) : Prop :=
  map_Forall (λ k v, v_validator v = k ∧ v_vote_type v = vs_vote_type vs ∧
    v_height v = vs_height vs ∧ v_round v = vs_round vs ∧ Vote_verify v = true) (vs_votes vs).

(** * Lemmas *)

Section VoteSetLemmas.
Context {C : Crypto}.
Implicit Types (vs : VoteSet).

Lemma VoteSet_new_wf t h r n : VoteSet_wf (VoteSet_new t h r n).
Proof. apply map_Forall_empty. Qed.

(** [add_vote] records a vote exactly when it returns [true], and never replaces one. *)
Lemma add_vote_spec vote vs :
  VoteSet_wf vs →
  let '(vs', added) := VoteSet_add_vote vote vs in
  VoteSet_wf vs' ∧ vs_votes vs ⊆ vs_votes vs' ∧
  vs_vote_type vs' = vs_vote_type vs ∧ vs_height vs' = vs_height vs ∧ vs_round vs' = vs_round vs ∧
  vs_total_validators vs' = vs_total_validators vs ∧
  vs_votes vs' = (if added then <[v_validator vote := vote]> (vs_votes vs) else vs_votes vs) ∧
  (added = true ↔ v_vote_type vote = vs_vote_type vs ∧ v_height vote = vs_height vs ∧
    v_round vote = vs_round vs ∧ Vote_verify vote = true ∧ vs_votes vs !! v_validator vote = None).
Proof.
  intros Hwf. unfold VoteSet_add_vote.
  destruct (bool_decide (v_vote_type vote = _)) eqn:E1; [apply bool_decide_eq_true in E1|
    apply bool_decide_eq_false in E1; simpl; by split_and!; [..|split; [|intros (?&?&?&?&?)]]].
  destruct (bool_decide (v_height vote = _)) eqn:E2; [apply bool_decide_eq_true in E2|
    apply bool_decide_eq_false in E2; simpl; by split_and!; [..|split; [|intros (?&?&?&?&?)]]].
  destruct (bool_decide (v_round vote = _)) eqn:E3; [apply bool_decide_eq_true in E3|
    apply bool_decide_eq_false in E3; simpl; by split_and!; [..|split; [|intros (?&?&?&?&?)]]].
  simpl. destruct (Vote_verify vote) eqn:E4; simpl; [|by split_and!; [..|split; [|intros (?&?&?&?&?)]]].
  destruct (vs_votes vs !! v_validator vote) eqn:E5; [by split_and!; [..|split; [|intros (?&?&?&?&?)]]|]. simpl.
  split_and!; try done.
  - unfold VoteSet_wf. simpl. by apply map_Forall_insert_2.
  - by apply insert_subseteq.
Qed.

(** A fresh vote that matches and verifies is recorded. *)
Lemma add_vote_accept vote vs :
  v_vote_type vote = vs_vote_type vs → v_height vote = vs_height vs → v_round vote = vs_round vs →
  Vote_verify vote = true → vs_votes vs !! v_validator vote = None →
  VoteSet_add_vote vote vs =
    (mkVoteSet (vs_vote_type vs) (vs_height vs) (vs_round vs) (vs_total_validators vs)
      (<[v_validator vote := vote]> (vs_votes vs)), true).
Proof.
  intros Ht Hh Hr Hv Hn. unfold VoteSet_add_vote.
  rewrite !bool_decide_eq_true_2 by done. simpl. by rewrite Hv, Hn.
Qed.

Lemma is_quorum_mono vs (c1 c2 : nat) :
  (c1 <= c2)%nat → VoteSet_is_quorum vs c1 = true → VoteSet_is_quorum vs c2 = true.
Proof. unfold VoteSet_is_quorum. rewrite !Z.ltb_lt. lia. Qed.
End VoteSetLemmas.

Lemma size_union_inter (A B : gset bytes) : (size A + size B = size (A ∪ B) + size (A ∩ B))%nat.
Proof.
  rewrite size_union_alt. assert (size B = size (B ∖ A) + size (A ∩ B))%nat as ->; [|lia].
  rewrite <-size_union by set_solver. f_equal. apply set_eq. intros x.
  destruct (decide (x ∈ A)); set_solver.
Qed.

(** Two quorums among [n] validators share more than a third of them; a voter
    who is not a validator counts against that. *)
Lemma quorum_intersection (V A B : gset bytes) :
  2 * Z.of_nat (size V) < 3 * Z.of_nat (size A) → 2 * Z.of_nat (size V) < 3 * Z.of_nat (size B) →
  Z.of_nat (size V) < 3 * Z.of_nat (size (A ∩ B) + size ((A ∪ B) ∖ V)).
Proof.
  intros HA HB. pose proof (size_union_inter A B).
  assert (size (A ∪ B) <= size (V ∪ (A ∪ B) ∖ V))%nat as Hle.
  { apply subseteq_size. intros x Hx. destruct (decide (x ∈ V)); set_solver. }
  rewrite (size_union V) in Hle by set_solver. lia.
Qed.

Section QuorumLemmas.
Context {C : Crypto} {HO : HashOrder} {HL : HashOrderLaws HO}.
Implicit Types (vs : VoteSet).

Lemma length_filter_values (P : Vote → Prop) `{∀ v, Decision (P v)} (m : gmap bytes Vote) :
  length (filter P (hash_values m)) = size (filter (λ kv : bytes * Vote, P kv.2) m).
Proof.
  rewrite hash_values_perm. induction m as [|k v m Hk IH] using map_ind.
  { by rewrite map_to_list_empty, map_filter_empty, map_size_empty. }
  rewrite map_to_list_insert by done. csimpl. rewrite filter_cons. destruct (decide (P v)).
  - rewrite map_filter_insert_True by done. rewrite map_size_insert_None; [simpl; by rewrite IH|].
    apply map_lookup_filter_None. by left.
  - rewrite map_filter_insert_False by done. by rewrite delete_id.
Qed.

Lemma length_votes_for vs h :
  length (filter (λ v, v_block_hash v = Some h) (hash_values (vs_votes vs))) = size (voters_for vs h).
Proof. rewrite length_filter_values. unfold voters_for. by rewrite size_dom. Qed.

Lemma count_votes_from (counts : gmap BlockHash nat) votes h :
  (∀ h n, counts !! h = Some n → (0 < n)%nat) →
  default O (fold_left count_vote votes counts !! h) =
    (default O (counts !! h) + length (filter (λ v, v_block_hash v = Some h) votes))%nat ∧
  (∀ h n, fold_left count_vote votes counts !! h = Some n → (0 < n)%nat).
Proof.
  revert counts. induction votes as [|v votes IH]; intros counts Hpos; simpl; [split; [lia|done]|].
  rewrite filter_cons. unfold count_vote at 2 4. destruct (v_block_hash v) as [hash|] eqn:Hv.
  - destruct (IH (<[hash := S (default O (counts !! hash))]> counts)) as [-> Hpos'].
    { intros h' n. destruct (decide (h' = hash)) as [->|].
      - rewrite lookup_insert_eq. intros [= <-]. lia.
      - rewrite lookup_insert_ne by done. apply Hpos. }
    split; [|done]. destruct (decide (h = hash)) as [->|].
    + rewrite decide_True by done. rewrite lookup_insert_eq. simpl. lia.
    + rewrite decide_False by congruence. by rewrite lookup_insert_ne.
  - destruct (IH counts Hpos) as [-> ?]. split; [|done]. by rewrite decide_False.
Qed.

(** The counts of [quorum_block] are the numbers of voters. *)
Lemma count_votes_lookup vs h n :
  count_votes (hash_values (vs_votes vs)) !! h = Some n ↔ n = size (voters_for vs h) ∧ (0 < n)%nat.
Proof.
  unfold count_votes. destruct (count_votes_from ∅ (hash_values (vs_votes vs)) h) as [Heq Hpos]; [done|].
  rewrite lookup_empty, length_votes_for in Heq. simpl in Heq. split.
  - intros Hn. rewrite Hn in Heq. simpl in Heq. split; [done|]. by eapply Hpos.
  - intros [-> Hlt]. destruct (_ !! h) as [n|] eqn:Hn; simpl in *; [by f_equal|lia].
Qed.

Lemma has_quorum_for_iff vs h :
  VoteSet_has_quorum_for vs h = true ↔ vs_total_validators vs * 2 < Z.of_nat (size (voters_for vs h)) * 3.
Proof. unfold VoteSet_has_quorum_for, VoteSet_is_quorum. by rewrite length_votes_for, Z.ltb_lt. Qed.

Lemma first_quorum_Some vs l h :
  first_quorum vs l = Some h → ∃ n, (h, n) ∈ l ∧ VoteSet_is_quorum vs n = true.
Proof.
  induction l as [|[h' n] l IH]; simpl; [done|]. destruct (VoteSet_is_quorum vs n) eqn:E.
  - intros [= ->]. exists n. split; [left|done].
  - intros Hf. destruct (IH Hf) as (n' & ? & ?). exists n'. split; [by right|done].
Qed.

Lemma first_quorum_None vs l h n :
  first_quorum vs l = None → (h, n) ∈ l → VoteSet_is_quorum vs n = false.
Proof.
  induction l as [|[h' n'] l IH]; simpl; [by intros _ ?%elem_of_nil|].
  destruct (VoteSet_is_quorum vs n') eqn:E; [done|].
  intros Hf [[= -> ->]|?]%elem_of_cons; [done|by apply IH].
Qed.

(** [quorum_block] finds a hash with a quorum exactly when there is one. *)
Lemma quorum_block_Some vs h :
  VoteSet_quorum_block vs = Some h → VoteSet_has_quorum_for vs h = true.
Proof.
  intros (n & Hin & Hq)%first_quorum_Some. apply elem_of_hash_iter, count_votes_lookup in Hin as [-> _].
  unfold VoteSet_has_quorum_for. by rewrite length_votes_for.
Qed.

Lemma quorum_block_None vs h :
  0 <= vs_total_validators vs → VoteSet_quorum_block vs = None → VoteSet_has_quorum_for vs h = false.
Proof.
  intros Ht Hq. unfold VoteSet_has_quorum_for. rewrite length_votes_for.
  destruct (size (voters_for vs h)) as [|n] eqn:Hs.
  { unfold VoteSet_is_quorum. apply Z.ltb_ge. lia. }
  eapply first_quorum_None; [exact Hq|]. apply elem_of_hash_iter, count_votes_lookup.
  split; [done|lia].
Qed.

(** Votes for different hashes come from different validators. *)
Lemma voters_for_disjoint vs h1 h2 : h1 ≠ h2 → voters_for vs h1 ## voters_for vs h2.
Proof.
  intros Hne k H1 H2. unfold voters_for in *.
  apply elem_of_dom in H1 as [v1 H1], H2 as [v2 H2].
  apply map_lookup_filter_Some in H1 as [H1 ?], H2 as [H2 ?]. simpl in *. congruence.
Qed.

Lemma voters_for_subset vs h : voters_for vs h ⊆ dom (vs_votes vs).
Proof. apply subseteq_dom, map_filter_subseteq. Qed.

(** While only members have voted, at most one hash has a quorum. *)
Lemma quorum_unique vs h1 h2 :
  Z.of_nat (size (vs_votes vs)) <= vs_total_validators vs →
  VoteSet_has_quorum_for vs h1 = true → VoteSet_has_quorum_for vs h2 = true → h1 = h2.
Proof.
  intros Hn H1 H2. apply has_quorum_for_iff in H1, H2.
  destruct (decide (h1 = h2)) as [|Hne]; [done|exfalso].
  pose proof (size_union _ _ (voters_for_disjoint vs h1 h2 Hne)) as Hu.
  assert (size (voters_for vs h1 ∪ voters_for vs h2) <= size (dom (vs_votes vs)))%nat as Hle.
  { apply subseteq_size, union_least; apply voters_for_subset. }
  rewrite size_dom in Hle. lia.
Qed.
End QuorumLemmas.

(** A vote set after a sequence of votes offered to it. *)
Definition VoteSet_add_votes {C : Crypto} (votes : list Vote) (vs : VoteSet) : VoteSet :=
  fold_left (λ vs v, (VoteSet_add_vote v vs).1) votes vs.

Lemma add_votes_spec {C : Crypto} votes vs :
  VoteSet_wf vs →
  let vs' := VoteSet_add_votes votes vs in
  VoteSet_wf vs' ∧ vs_votes vs ⊆ vs_votes vs' ∧ vs_total_validators vs' = vs_total_validators vs ∧
  vs_vote_type vs' = vs_vote_type vs ∧ vs_height vs' = vs_height vs ∧ vs_round vs' = vs_round vs.
Proof.
  revert vs. induction votes as [|v votes IH]; intros vs Hwf; [done|]. simpl.
  pose proof (add_vote_spec v vs Hwf) as Ha. destruct (VoteSet_add_vote v vs) as [vs1 b].
  destruct Ha as (Hwf1 & Hsub & ? & ? & ? & ? & _). simpl.
  destruct (IH vs1 Hwf1) as (?&?&?&?&?&?). split_and!; [done|by etrans|congruence..].
Qed.

(** A key that signed two votes of the same type, height and round for two hashes. *)
Definition signed_both {C : Crypto} (k : bytes) (h1 h2 : BlockHash) : Prop :=
  ∃ v1 v2, v_validator v1 = k ∧ v_validator v2 = k ∧
    Vote_verify v1 = true ∧ Vote_verify v2 = true ∧ v_vote_type v1 = v_vote_type v2 ∧
    v_height v1 = v_height v2 ∧ v_round v1 = v_round v2 ∧
    v_block_hash v1 = Some h1 ∧ v_block_hash v2 = Some h2.

(** Two nodes with quorums for different hashes: the voters in common, and the
    voters outside of the set of validators. *)
Lemma conflicting_quorums {C : Crypto} {HO : HashOrder} {HL : HashOrderLaws HO}
    (V : gset bytes) (vs1 vs2 : VoteSet) (h1 h2 : BlockHash) :
  VoteSet_wf vs1 → VoteSet_wf vs2 →
  vs_vote_type vs1 = vs_vote_type vs2 → vs_height vs1 = vs_height vs2 → vs_round vs1 = vs_round vs2 →
  vs_total_validators vs1 = Z.of_nat (size V) → vs_total_validators vs2 = Z.of_nat (size V) →
  VoteSet_has_quorum_for vs1 h1 = true → VoteSet_has_quorum_for vs2 h2 = true → h1 ≠ h2 →
  ∃ double outside : gset bytes,
    Z.of_nat (size V) < 3 * Z.of_nat (size double + size outside) ∧ outside ## V ∧
    (∀ k, k ∈ double → signed_both k h1 h2) ∧
    (∀ k, k ∈ outside → k ∈ dom (vs_votes vs1) ∪ dom (vs_votes vs2)).
Proof.
  intros Hw1 Hw2 Ht Hh Hr Hn1 Hn2 H1 H2 Hne. apply has_quorum_for_iff in H1, H2.
  exists (voters_for vs1 h1 ∩ voters_for vs2 h2), ((voters_for vs1 h1 ∪ voters_for vs2 h2) ∖ V).
  split_and!.
  - apply quorum_intersection; lia.
  - set_solver.
  - intros k [Hk1 Hk2]%elem_of_intersection. unfold voters_for in *.
    apply elem_of_dom in Hk1 as [v1 [Hv1 ?]%map_lookup_filter_Some].
    apply elem_of_dom in Hk2 as [v2 [Hv2 ?]%map_lookup_filter_Some].
    destruct (Hw1 _ _ Hv1) as (?&?&?&?&?), (Hw2 _ _ Hv2) as (?&?&?&?&?).
    exists v1, v2. simpl in *. split_and!; congruence.
  - intros k. pose proof (voters_for_subset vs1 h1). pose proof (voters_for_subset vs2 h2). set_solver.
Qed.

(** * Properties *)

(** C31: the bytes a validator signs determine the vote: two votes with 32-byte hashes,
    [u64] heights and [u32] rounds whose signed bytes agree have the same type,
    height, round and block hash, so that a signature cannot be replayed as
    another vote. *)
Theorem vote_sign_bytes_injective (t1 t2 : VoteType) (h1 h2 : Height) (r1 r2 : Round)
    (b1 b2 : option BlockHash) :
  u64 h1 → u64 h2 → 0 <= r1 < U32 → 0 <= r2 < U32 →
  Vote_sign_bytes t1 h1 r1 b1 = Vote_sign_bytes t2 h2 r2 b2 →
  t1 = t2 ∧ h1 = h2 ∧ r1 = r2 ∧ b1 = b2.
Proof.
  intros Hh1 Hh2 Hr1 Hr2 Hb. unfold Vote_sign_bytes in Hb. apply app_inj_1 in Hb as [Ht Hb]; [|done].
  apply app_inj_1 in Hb as [Hh Hb]; [|by rewrite !length_le_bytes].
  apply app_inj_1 in Hb as [Hr Hb]; [|by rewrite !length_le_bytes].
  split_and!; [by destruct t1, t2|by eapply (le_bytes_inj 8)|by eapply (le_bytes_inj 4)|].
  destruct b1, b2; simpl in Hb; congruence.
Qed.

Lemma vote_sign_bytes_injective_witness :
  Vote_sign_bytes Prevote 5 0 None = Vote_sign_bytes Prevote 5 0 None ∧ (5 : Z) = 5.
Proof.
  split; [reflexivity|].
  exact (proj1 (proj2 (vote_sign_bytes_injective Prevote Prevote 5 5 0 0 None None
    ltac:(done) ltac:(done) ltac:(done) ltac:(done) eq_refl))).
Defined.

(** C30: whatever votes are offered to a new vote set, it holds at most one vote per
    validator, each of its type, height and round and with a signature that
    verifies; [quorum_block] returns a hash only if [has_quorum_for] it and nothing
    only if no hash has a quorum; and while no more votes than validators are
    recorded the hash is unique, so that the order in which the hash maps are
    iterated does not matter. *)
Theorem vote_set_quorums {C : Crypto} {HO : HashOrder} {HL : HashOrderLaws HO}
    (t : VoteType) (h : Height) (r : Round) (n : Z) (votes : list Vote) :
  0 <= n →
  let vs := VoteSet_add_votes votes (VoteSet_new t h r n) in
  VoteSet_wf vs ∧
  (∀ hash, VoteSet_quorum_block vs = Some hash → VoteSet_has_quorum_for vs hash = true) ∧
  (VoteSet_quorum_block vs = None → ∀ hash, VoteSet_has_quorum_for vs hash = false) ∧
  (Z.of_nat (size (vs_votes vs)) <= n →
    ∀ hash, VoteSet_quorum_block vs = Some hash ↔ VoteSet_has_quorum_for vs hash = true).
Proof.
  intros Hn vs. destruct (add_votes_spec votes (VoteSet_new t h r n)) as (Hwf & _ & Ht & _);
    [apply VoteSet_new_wf|]. fold vs in Hwf, Ht. clearbody vs. simpl in Ht.
  split_and!; [done|intros hash; apply quorum_block_Some|..].
  - intros Hq hash. apply quorum_block_None; [lia|done].
  - intros Hsz hash. split; [apply quorum_block_Some|]. intros Hq.
    destruct (VoteSet_quorum_block vs) as [hash'|] eqn:Hqb.
    + f_equal. apply quorum_block_Some in Hqb. apply (quorum_unique vs); [lia|done|done].
    + pose proof (quorum_block_None vs hash ltac:(lia) Hqb). congruence.
Qed.

Definition demo_votes : list Vote :=
  (λ k, Vote_new (C := toy_crypto) Prevote 5 0 (Some (key32 77)) (key32 k)) <$> [1; 2; 3].
Definition demo_vote_set : VoteSet :=
  VoteSet_add_votes (C := toy_crypto) demo_votes (VoteSet_new Prevote 5 0 4).
Lemma vote_set_quorums_witness :
  VoteSet_quorum_block (HO := forward_order) demo_vote_set = Some (key32 77) ∧
  VoteSet_wf (C := toy_crypto) demo_vote_set.
Proof.
  split; [vm_compute; reflexivity|].
  exact (proj1 (vote_set_quorums (C := toy_crypto) (HO := forward_order) Prevote 5 0 4 demo_votes
    ltac:(done))).
Defined.

(** Agreement within a round.  If one node sees a quorum for a hash and another
    node sees, in the same set of [n] validators, a quorum for a different one,
    then more than [n/3] keys either belong to validators that signed both votes
    or to voters outside of the set, which [add_vote] does not exclude. *)
Theorem conflicting_quorums_need_faults {C : Crypto} {HO : HashOrder} {HL : HashOrderLaws HO}
    (V : gset bytes) (vs1 vs2 : VoteSet) (h1 h2 : BlockHash) :
  VoteSet_wf vs1 → VoteSet_wf vs2 →
  vs_vote_type vs1 = vs_vote_type vs2 → vs_height vs1 = vs_height vs2 → vs_round vs1 = vs_round vs2 →
  vs_total_validators vs1 = Z.of_nat (size V) → vs_total_validators vs2 = Z.of_nat (size V) →
  VoteSet_has_quorum_for vs1 h1 = true → VoteSet_has_quorum_for vs2 h2 = true → h1 ≠ h2 →
  ∃ double outside : gset bytes,
    Z.of_nat (size V) < 3 * Z.of_nat (size double + size outside) ∧ outside ## V ∧
    (∀ k, k ∈ double → signed_both k h1 h2) ∧
    (∀ k, k ∈ outside → k ∈ dom (vs_votes vs1) ∪ dom (vs_votes vs2)).
Proof. apply conflicting_quorums. Qed.

Definition demo_vote_set2 : VoteSet :=
  VoteSet_add_votes (C := toy_crypto)
    ((λ k, Vote_new (C := toy_crypto) Prevote 5 0 (Some (key32 78)) (key32 k)) <$> [2; 3; 4])
    (VoteSet_new Prevote 5 0 4).
Definition demo_validators : gset bytes :=
  list_to_set ((λ k, toy_key (key32 k)) <$> [1; 2; 3; 4]).
Lemma conflicting_quorums_need_faults_witness :
  ∃ double outside : gset bytes, 4 < 3 * Z.of_nat (size double + size outside) ∧ outside ## demo_validators.
Proof.
  assert (VoteSet_wf (C := toy_crypto) demo_vote_set ∧ VoteSet_wf (C := toy_crypto) demo_vote_set2) as [Hw1 Hw2].
  { split; apply (add_votes_spec (C := toy_crypto)); apply VoteSet_new_wf. }
  destruct (conflicting_quorums_need_faults (C := toy_crypto) (HO := forward_order) demo_validators
    demo_vote_set demo_vote_set2 (key32 77) (key32 78) Hw1 Hw2
    ltac:(vm_compute; reflexivity) ltac:(vm_compute; reflexivity) ltac:(vm_compute; reflexivity)
    ltac:(vm_compute; reflexivity) ltac:(vm_compute; reflexivity)
    ltac:(vm_compute; reflexivity) ltac:(vm_compute; reflexivity) ltac:(vm_compute; discriminate))
    as (d & o & Hd & Ho & _).
  exists d, o. split; [|exact Ho]. exact Hd.
Defined.

(** Nobody checks that a voter is a validator: with one validator, two keys outside
    of the set give two different hashes a quorum each, and which one
    [quorum_block] returns depends on the order of the hash map. *)
Theorem outsiders_form_quorums {C : Crypto} {CL : CryptoLaws C} (t : VoteType) (h : Height) (r : Round)
    (sk1 sk2 : bytes) (h1 h2 : BlockHash) :
  ed_verifying_key sk1 ≠ ed_verifying_key sk2 →
  let vs := VoteSet_add_votes [Vote_new t h r (Some h1) sk1; Vote_new t h r (Some h2) sk2]
              (VoteSet_new t h r 1) in
  (∀ HO : HashOrder, HashOrderLaws HO →
    VoteSet_has_quorum_for vs h1 = true ∧ VoteSet_has_quorum_for vs h2 = true).
Proof.
  intros Hne vs HO HL.
  assert (∀ t h r b sk, Vote_verify (Vote_new t h r b sk) = true) as Hver by (intros; apply ed_verify_sign).
  assert (vs_votes vs = <[ed_verifying_key sk2 := Vote_new t h r (Some h2) sk2]>
    {[ed_verifying_key sk1 := Vote_new t h r (Some h1) sk1]}) as Hvs.
  { unfold vs, VoteSet_add_votes. simpl.
    rewrite (add_vote_accept _ (VoteSet_new t h r 1)) by (done || apply Hver). simpl.
    rewrite add_vote_accept; [done..|apply Hver|]. simpl. by rewrite lookup_insert_ne. }
  assert (vs_total_validators vs = 1) as Htot.
  { destruct (add_votes_spec [Vote_new t h r (Some h1) sk1; Vote_new t h r (Some h2) sk2]
      (VoteSet_new t h r 1)) as (_ & _ & Ht & _); [apply VoteSet_new_wf|done]. }
  assert (∀ k v, vs_votes vs !! k = Some v → ∀ hh, v_block_hash v = Some hh → VoteSet_has_quorum_for vs hh = true) as Hq.
  { intros k v Hk hh Hh. apply has_quorum_for_iff. rewrite Htot.
    assert (size (voters_for vs hh) ≠ O); [|lia]. intros Hz%size_empty_inv.
    assert (k ∈ voters_for vs hh); [|set_solver]. unfold voters_for.
    apply elem_of_dom. exists v. by apply map_lookup_filter_Some. }
  split; eapply Hq; [rewrite Hvs; by rewrite lookup_insert_ne, lookup_singleton_eq|done
    |rewrite Hvs; by rewrite lookup_insert_eq|done].
Qed.

Lemma outsiders_form_quorums_witness :
  let vs := VoteSet_add_votes (C := toy_crypto)
    [Vote_new (C := toy_crypto) Precommit 1 0 (Some (key32 1)) (key32 8);
     Vote_new (C := toy_crypto) Precommit 1 0 (Some (key32 2)) (key32 9)] (VoteSet_new Precommit 1 0 1) in
  VoteSet_quorum_block (HO := forward_order) vs ≠ VoteSet_quorum_block (HO := backward_order) vs ∧
  VoteSet_has_quorum_for (HO := forward_order) vs (key32 1) = true.
Proof.
  split; [vm_compute; discriminate|].
  exact (proj1 (outsiders_form_quorums (C := toy_crypto) Precommit 1 0 (key32 8) (key32 9) (key32 1) (key32 2)
    ltac:(vm_compute; discriminate) forward_order forward_order_laws)).
Defined.
