(* ===== verification/StateMachine.v ===== *)
(** * The consensus state machine (consensus/bft/src/state_machine.rs)

    One node's BFT state and its handlers.  A handler takes an input and returns the
    new state with the messages to send; [bft_exec] and [bft_run] compose them over
    sequences of events. *)
From S2P Require Import Prelude Crypto Block Vote.
Open Scope Z_scope.

Record BftStateMachine := mkBftStateMachine {
  sm_height : Height;
  sm_round : Round;
  sm_step : RoundStep;
  sm_validator_index : option Z;
  sm_validators : list ValidatorId;
  sm_round_state : RoundState;
  sm_locked_value : option BlockHash;
  sm_locked_round : option Round;
  sm_valid_value : option BlockHash;
  sm_valid_round : option Round;
  sm_timeout_config : TimeoutConfig;
  sm_proposed_blocks : gmap BlockHash Block;
}.

(** Assignments to the fields. *)
Definition set_height x s := mkBftStateMachine x (sm_round s) (sm_step s) (sm_validator_index s)
  (sm_validators s) (sm_round_state s) (sm_locked_value s) (sm_locked_round s) (sm_valid_value s)
  (sm_valid_round s) (sm_timeout_config s) (sm_proposed_blocks s).
Definition set_round x s := mkBftStateMachine (sm_height s) x (sm_step s) (sm_validator_index s)
  (sm_validators s) (sm_round_state s) (sm_locked_value s) (sm_locked_round s) (sm_valid_value s)
  (sm_valid_round s) (sm_timeout_config s) (sm_proposed_blocks s).
Definition set_step x s := mkBftStateMachine (sm_height s) (sm_round s) x (sm_validator_index s)
  (sm_validators s) (sm_round_state s) (sm_locked_value s) (sm_locked_round s) (sm_valid_value s)
  (sm_valid_round s) (sm_timeout_config s) (sm_proposed_blocks s).
Definition set_round_state x s := mkBftStateMachine (sm_height s) (sm_round s) (sm_step s)
  (sm_validator_index s) (sm_validators s) x (sm_locked_value s) (sm_locked_round s)
  (sm_valid_value s) (sm_valid_round s) (sm_timeout_config s) (sm_proposed_blocks s).
Definition set_locked v r s := mkBftStateMachine (sm_height s) (sm_round s) (sm_step s)
  (sm_validator_index s) (sm_validators s) (sm_round_state s) v r (sm_valid_value s)
  (sm_valid_round s) (sm_timeout_config s) (sm_proposed_blocks s).
Definition set_valid v r s := mkBftStateMachine (sm_height s) (sm_round s) (sm_step s)
  (sm_validator_index s) (sm_validators s) (sm_round_state s) (sm_locked_value s)
  (sm_locked_round s) v r (sm_timeout_config s) (sm_proposed_blocks s).
Definition set_proposed_blocks x s := mkBftStateMachine (sm_height s) (sm_round s) (sm_step s)
  (sm_validator_index s) (sm_validators s) (sm_round_state s) (sm_locked_value s)
  (sm_locked_round s) (sm_valid_value s) (sm_valid_round s) (sm_timeout_config s) x.
Definition set_proposal x s := set_round_state (mkRoundState (rs_round (sm_round_state s))
  (rs_step (sm_round_state s)) x (rs_prevotes (sm_round_state s)) (rs_precommits (sm_round_state s))) s.
Definition set_prevotes x s := set_round_state (mkRoundState (rs_round (sm_round_state s))
  (rs_step (sm_round_state s)) (rs_proposal (sm_round_state s)) x (rs_precommits (sm_round_state s))) s.
Definition set_precommits x s := set_round_state (mkRoundState (rs_round (sm_round_state s))
  (rs_step (sm_round_state s)) (rs_proposal (sm_round_state s)) (rs_prevotes (sm_round_state s)) x) s.

Definition total_validators (s : BftStateMachine) : Z := Z.of_nat (length (sm_validators s)).

Definition BftStateMachine_new (height : Height) (validators : list ValidatorId)
    (validator_index : option Z) (timeout_config : TimeoutConfig) : BftStateMachine :=
  mkBftStateMachine height 0 StepNewRound validator_index validators
    (RoundState_new 0 height (Z.of_nat (length validators))) None None None None timeout_config ∅.

Definition BftStateMachine_start_round (round : Round) (s : BftStateMachine) :
    BftStateMachine * list ConsensusMessage :=
  let s := set_step StepPropose (set_round round s) in
  let s := set_round_state (RoundState_new round (sm_height s) (total_validators s)) s in
  (s, [ScheduleTimeout (mkTimeoutEvent (sm_height s) (sm_round s) TimeoutPropose)]).

Definition BftStateMachine_advance_height (new_height : Height) (s : BftStateMachine) :
    BftStateMachine * list ConsensusMessage :=
  let s := set_proposed_blocks ∅ (set_valid None None (set_locked None None (set_height new_height s))) in
  BftStateMachine_start_round 0 s.

Definition BftStateMachine_get_committed_block (s : BftStateMachine) (hash : BlockHash) : option Block :=
  sm_proposed_blocks s !! hash.

Section Handlers.
Context {OC : OverflowChecks} {C : Crypto} {B : Bincode} {HO : HashOrder}.

Definition BftStateMachine_proposer_index (s : BftStateMachine) (height : Height) (round : Round) :
    may_panic Z :=
  let n := total_validators s in
  if n =? 0 then Some 0
  else sum ← u64_add height round; rem_or_panic sum n.

Definition BftStateMachine_is_proposer (s : BftStateMachine) : may_panic bool :=
  match sm_validator_index s with
  | Some idx => i ← BftStateMachine_proposer_index s (sm_height s) (sm_round s); Some (i =? idx)
  | None => Some false
  end.

(** The hash to prevote for, by the locking rules. *)
Definition prevote_hash (s : BftStateMachine) (proposal : Proposal) : option BlockHash :=
  match sm_locked_value s with
  | Some locked =>
    if bool_decide (p_block_hash proposal = locked) then Some (p_block_hash proposal)
    else match p_valid_round proposal, sm_locked_round s with
         | Some prop_vr, Some lr => if lr <=? prop_vr then Some (p_block_hash proposal) else None
         | _, _ => None
         end
  | None => Some (p_block_hash proposal)
  end.

Definition BftStateMachine_on_proposal (proposal : Proposal) (block : option Block)
    (s : BftStateMachine) : may_panic (BftStateMachine * list ConsensusMessage) :=
  if negb (p_height proposal =? sm_height s) || negb (p_round proposal =? sm_round s) then Some (s, [])
  else if negb (bool_decide (sm_step s = StepPropose)) then Some (s, [])
  else
    expected_idx ← BftStateMachine_proposer_index s (sm_height s) (sm_round s);
    if total_validators s <=? expected_idx then Some (s, [])
    else
      expected ← sm_validators s !! Z.to_nat expected_idx;
      if negb (bool_decide (p_proposer proposal = expected)) then Some (s, [])
      else
        let mismatch := match block with
                        | Some blk => negb (bool_decide (Block_hash blk = p_block_hash proposal))
                        | None => false
                        end in
        if mismatch then Some (s, [])
        else
          let s := match block with
                   | Some blk =>
                     set_proposed_blocks (<[p_block_hash proposal := blk]> (sm_proposed_blocks s)) s
                   | None => s
                   end in
          let s := set_proposal (Some (p_block_hash proposal)) s in
          let hash := prevote_hash s proposal in
          let s := set_step StepPrevote s in
          Some (s, [CastVote (mkVote Prevote (sm_height s) (sm_round s) hash
                      (p_proposer proposal) (p_signature proposal))]).

Definition BftStateMachine_on_prevote (vote : Vote) (s : BftStateMachine) :
    BftStateMachine * list ConsensusMessage :=
  if negb (v_height vote =? sm_height s) || negb (v_round vote =? sm_round s) then (s, [])
  else if negb (bool_decide (v_vote_type vote = Prevote)) then (s, [])
  else
    let s := set_prevotes (VoteSet_add_vote vote (rs_prevotes (sm_round_state s))).1 s in
    let prevotes := rs_prevotes (sm_round_state s) in
    match sm_step s with
    | StepPrevote =>
      match VoteSet_quorum_block prevotes with
      | Some hash =>
        let s := set_valid (Some hash) (Some (sm_round s)) s in
        let s := set_locked (Some hash) (Some (sm_round s)) s in
        let s := set_step StepPrecommit s in
        (s, [CastVote (mkVote Precommit (sm_height s) (sm_round s) (Some hash)
               (v_validator vote) (v_signature vote))])
      | None =>
        if VoteSet_has_quorum_for_nil prevotes then
          let s := set_step StepPrecommit s in
          (s, [CastVote (mkVote Precommit (sm_height s) (sm_round s) None
                 (v_validator vote) (v_signature vote))])
        else if VoteSet_has_two_thirds_any prevotes then
          (s, [ScheduleTimeout (mkTimeoutEvent (sm_height s) (sm_round s) TimeoutPrevote)])
        else (s, [])
      end
    | StepPrecommit =>
      match VoteSet_quorum_block prevotes with
      | Some hash => (set_valid (Some hash) (Some (sm_round s)) s, [])
      | None => (s, [])
      end
    | _ => (s, [])
    end.

Definition BftStateMachine_on_precommit (vote : Vote) (s : BftStateMachine) :
    BftStateMachine * list ConsensusMessage :=
  if negb (v_height vote =? sm_height s) || negb (v_round vote =? sm_round s) then (s, [])
  else if negb (bool_decide (v_vote_type vote = Precommit)) then (s, [])
  else
    let s := set_precommits (VoteSet_add_vote vote (rs_precommits (sm_round_state s))).1 s in
    let precommits := rs_precommits (sm_round_state s) in
    match VoteSet_quorum_block precommits with
    | Some hash =>
      if negb (bool_decide (sm_step s = StepCommit)) then
        (set_step StepCommit s, [CommitBlock (sm_height s) hash])
      else (s, [])
    | None =>
      if VoteSet_has_two_thirds_any precommits && bool_decide (sm_step s = StepPrecommit) then
        (s, [ScheduleTimeout (mkTimeoutEvent (sm_height s) (sm_round s) TimeoutPrecommit)])
      else (s, [])
    end.

Definition BftStateMachine_on_timeout (event : TimeoutEvent) (s : BftStateMachine) :
    may_panic (BftStateMachine * list ConsensusMessage) :=
  if negb (te_height event =? sm_height s) || negb (te_round event =? sm_round s) then Some (s, [])
  else
    match te_step event with
    | TimeoutPropose =>
      if bool_decide (sm_step s = StepPropose) then
        let s := set_step StepPrevote s in
        Some (s, [ScheduleTimeout (mkTimeoutEvent (sm_height s) (sm_round s) TimeoutPrevote)])
      else Some (s, [])
    | TimeoutPrevote =>
      if bool_decide (sm_step s = StepPrevote) then
        let s := set_step StepPrecommit s in
        first ← sm_validators s !! O;
        Some (s, [CastVote (mkVote Precommit (sm_height s) (sm_round s) None first (replicate 64 x00))])
      else Some (s, [])
    | TimeoutPrecommit =>
      if bool_decide (sm_step s = StepPrecommit) then
        next_round ← u32_add (sm_round s) 1;
        Some (BftStateMachine_start_round next_round s)
      else Some (s, [])
    end.

(** The inputs of a machine that has started its first round. *)
Inductive bft_event :=
| EvProposal (proposal : Proposal) (block : option Block)
| EvPrevote (vote : Vote)
| EvPrecommit (vote : Vote)
| EvTimeout (event : TimeoutEvent)
| EvAdvanceHeight (height : Height).

Definition bft_exec (s : BftStateMachine) (e : bft_event) :
    may_panic (BftStateMachine * list ConsensusMessage) :=
  match e with
  | EvProposal p b => BftStateMachine_on_proposal p b s
  | EvPrevote v => Some (BftStateMachine_on_prevote v s)
  | EvPrecommit v => Some (BftStateMachine_on_precommit v s)
  | EvTimeout t => BftStateMachine_on_timeout t s
  | EvAdvanceHeight h => Some (BftStateMachine_advance_height h s)
  end.

Fixpoint bft_run (s : BftStateMachine) (es : list bft_event) :
    may_panic (BftStateMachine * list ConsensusMessage) :=
  match es with
  | [] => Some (s, [])
  | e :: es =>
    '(s', out) ← bft_exec s e;
    '(s'', outs) ← bft_run s' es;
    Some (s'', out ++ outs)
  end.
End Handlers.

(** ** Specification *)

(** A value with the round it was fixed in. *)
Definition value_ok (v : option BlockHash) (r : option Round) (round : Round) : Prop :=
  match v, r with
  | Some _, Some r => 0 <= r <= round
  | None, None => True
  | _, _ => False
  end.

Record votes_ok {C : Crypto} (t : VoteType) (s : BftStateMachine) (vs : VoteSet) : Prop := {
  votes_wf : VoteSet_wf vs;
  votes_type : vs_vote_type vs = t;
  votes_height : vs_height vs = sm_height s;
  votes_round : vs_round vs = sm_round s;
  votes_total : vs_total_validators vs = total_validators s;
}.

(** The invariant of the machine: the vote sets are those of the current height and
    round, locked and valid values come with a round that has passed, cached blocks
    hash to their key. *)
Record bft_wf {C : Crypto} {B : Bincode} (s : BftStateMachine) : Prop := {
  bft_round : 0 <= sm_round s;
  bft_rs_round : rs_round (sm_round_state s) = sm_round s;
  bft_prevotes : votes_ok Prevote s (rs_prevotes (sm_round_state s));
  bft_precommits : votes_ok Precommit s (rs_precommits (sm_round_state s));
  bft_locked : value_ok (sm_locked_value s) (sm_locked_round s) (sm_round s);
  bft_valid : value_ok (sm_valid_value s) (sm_valid_round s) (sm_round s);
  bft_blocks : map_Forall (λ h b, Block_hash b = h) (sm_proposed_blocks s);
}.

(** What a node commits itself to by a message. *)
Inductive msg_key :=
| KeyVote (t : VoteType) (h : Height) (r : Round)
| KeyCommit (h : Height).
Definition key_of (m : ConsensusMessage) : option msg_key :=
  match m with
  | CastVote v => Some (KeyVote (v_vote_type v) (v_height v) (v_round v))
  | CommitBlock h _ => Some (KeyCommit h)
  | _ => None
  end.

Definition step_rank (st : RoundStep) : Z :=
  match st with
  | StepNewRound => 0 | StepPropose => 1 | StepPrevote => 2 | StepPrecommit => 3 | StepCommit => 4
  end.

(** A machine's progress as one number: by height, then by round and step, with the
    commit after every round. *)
Definition heights_apart : Z := 2 ^ 36.
Definition progress_at (h : Height) (r : Round) (st : RoundStep) : Z :=
  match st with
  | StepCommit => h * heights_apart + (heights_apart - 1)
  | _ => h * heights_apart + r * 4 + step_rank st
  end.
Definition progress (s : BftStateMachine) : Z := progress_at (sm_height s) (sm_round s) (sm_step s).
Definition key_progress (k : msg_key) : Z :=
  match k with
  | KeyVote Prevote h r => progress_at h r StepPrevote
  | KeyVote Precommit h r => progress_at h r StepPrecommit
  | KeyCommit h => progress_at h 0 StepCommit
  end.

(** Within a round a handler stays at its step, or moves forward and says so at most
    once. *)
Inductive moves (s s' : BftStateMachine) : list msg_key → Prop :=
| moves_stay : sm_step s' = sm_step s → moves s s' []
| moves_prevote ks : sm_step s = StepPropose → sm_step s' = StepPrevote →
    ks = [] ∨ ks = [KeyVote Prevote (sm_height s) (sm_round s)] → moves s s' ks
| moves_precommit : sm_step s = StepPrevote → sm_step s' = StepPrecommit →
    moves s s' [KeyVote Precommit (sm_height s) (sm_round s)]
| moves_commit : sm_step s ≠ StepCommit → sm_step s' = StepCommit →
    moves s s' [KeyCommit (sm_height s)].

(** * Lemmas *)

Section Handlers_lemmas.
Context {OC : OverflowChecks} {C : Crypto} {B : Bincode} {HO : HashOrder}.
Implicit Types (s : BftStateMachine).

Lemma RoundState_new_ok s round :
  votes_ok Prevote (set_round round s) (VoteSet_new Prevote (sm_height s) round (total_validators s)) ∧
  votes_ok Precommit (set_round round s) (VoteSet_new Precommit (sm_height s) round (total_validators s)).
Proof. split; split; try done; apply VoteSet_new_wf. Qed.

Lemma start_round_wf round s :
  bft_wf s → sm_round s <= round → bft_wf (BftStateMachine_start_round round s).1.
Proof.
  intros [H0 H1 H2 H3 H4 H5 H6] Hr. destruct (RoundState_new_ok s round) as [[] []].
  assert (∀ v r, value_ok v r (sm_round s) → value_ok v r round) as Hv.
  { intros [] [] ?; simpl in *; lia || done. }
  split; simpl; [lia|done|by split|by split|by apply Hv|by apply Hv|done].
Qed.

Lemma advance_height_wf h s : bft_wf (BftStateMachine_advance_height h s).1.
Proof.
  destruct (RoundState_new_ok (set_height h s) 0) as [[] []].
  split; simpl; [lia|done|by split|by split|done|done|apply map_Forall_empty].
Qed.

Lemma votes_ok_add t s vs v :
  votes_ok t s vs → votes_ok t s (VoteSet_add_vote v vs).1.
Proof.
  intros [Hwf H1 H2 H3 H4]. pose proof (add_vote_spec v vs Hwf) as Ha.
  destruct (VoteSet_add_vote v vs) as [vs' b]. destruct Ha as (?&?&?&?&?&?&_).
  split; simpl; congruence || done.
Qed.

Lemma on_prevote_wf v s : bft_wf s → bft_wf (BftStateMachine_on_prevote v s).1.
Proof.
  intros [H0 H1 H2 H3 H4 H5 H6]. pose proof (votes_ok_add _ _ _ v H2) as [Hw1 Hw2 Hw3 Hw4 Hw5].
  destruct H3 as [Hp1 Hp2 Hp3 Hp4 Hp5].
  unfold BftStateMachine_on_prevote. repeat case_match; simpl; try (by split);
    (split; simpl; [done|done|by split|by split| | |done]; try done; lia).
Qed.

Lemma on_precommit_wf v s : bft_wf s → bft_wf (BftStateMachine_on_precommit v s).1.
Proof.
  intros [H0 H1 H2 H3 H4 H5 H6]. pose proof (votes_ok_add _ _ _ v H3) as [Hw1 Hw2 Hw3 Hw4 Hw5].
  destruct H2 as [Hp1 Hp2 Hp3 Hp4 Hp5].
  unfold BftStateMachine_on_precommit. repeat case_match; simpl; try (by split);
    (split; simpl; [done|done|by split|by split|done|done|done]).
Qed.

(** What [on_proposal] requires, and does. *)
Definition accept_proposal (p : Proposal) (blk : option Block) s : BftStateMachine :=
  set_step StepPrevote (set_proposal (Some (p_block_hash p))
    (match blk with
     | Some b => set_proposed_blocks (<[p_block_hash p := b]> (sm_proposed_blocks s)) s
     | None => s
     end)).
Definition prevote_for (p : Proposal) s : ConsensusMessage :=
  CastVote (mkVote Prevote (sm_height s) (sm_round s) (prevote_hash s p) (p_proposer p) (p_signature p)).
Definition proposal_ok (p : Proposal) (blk : option Block) s : Prop :=
  p_height p = sm_height s ∧ p_round p = sm_round s ∧ sm_step s = StepPropose ∧
  (∃ i, BftStateMachine_proposer_index s (sm_height s) (sm_round s) = Some i ∧
    i < total_validators s ∧ sm_validators s !! Z.to_nat i = Some (p_proposer p)) ∧
  (∀ b, blk = Some b → Block_hash b = p_block_hash p).

Lemma on_proposal_inv p blk s s' out :
  BftStateMachine_on_proposal p blk s = Some (s', out) →
  (s' = s ∧ out = []) ∨
  (proposal_ok p blk s ∧ s' = accept_proposal p blk s ∧ out = [prevote_for p s]).
Proof.
  unfold BftStateMachine_on_proposal. intros Hp.
  destruct (_ || _) eqn:E1; [left; by simplify_eq|]. bool_to_Z.
  destruct (bool_decide (sm_step s = StepPropose)) eqn:E2; simpl in Hp; [|left; by simplify_eq].
  apply bind_Some in Hp as (i & Hi & Hp).
  destruct (total_validators s <=? i) eqn:E3; [left; by simplify_eq|].
  apply bind_Some in Hp as (expected & He & Hp).
  destruct (bool_decide (p_proposer p = expected)) eqn:E4; simpl in Hp; [|left; by simplify_eq].
  apply bool_decide_eq_true in E2, E4. subst expected.
  assert ((∀ b, blk = Some b → Block_hash b = p_block_hash p) → proposal_ok p blk s) as Hok.
  { intros Hb. split_and!; try done. exists i. split_and!; [done|zlia|done]. }
  destruct blk as [b|]; simpl in Hp.
  - destruct (bool_decide (Block_hash b = _)) eqn:E5; simpl in Hp; simplify_eq; [|by left].
    apply bool_decide_eq_true in E5. right. split; [apply Hok; by intros ? [= <-]|done].
  - simplify_eq. right. split; [by apply Hok|done].
Qed.

Lemma on_proposal_accept p blk s :
  proposal_ok p blk s →
  BftStateMachine_on_proposal p blk s = Some (accept_proposal p blk s, [prevote_for p s]).
Proof.
  intros (Hh & Hr & Hs & (i & Hi & Hlt & Hp) & Hb). unfold BftStateMachine_on_proposal.
  rewrite Hh, Hr, !Z.eqb_refl. simpl. rewrite bool_decide_eq_true_2 by done. simpl. rewrite Hi. simpl.
  rewrite (proj2 (Z.leb_gt _ _)) by done. rewrite Hp. simpl. rewrite bool_decide_eq_true_2 by done. simpl.
  destruct blk as [b|]; simpl; [|done]. rewrite bool_decide_eq_true_2 by (by apply Hb). done.
Qed.

Lemma on_proposal_wf p blk s s' out :
  bft_wf s → BftStateMachine_on_proposal p blk s = Some (s', out) → bft_wf s'.
Proof.
  intros Hwf [[-> _]|((_ & _ & _ & _ & Hb) & -> & _)]%on_proposal_inv; [done|].
  destruct Hwf as [H0 H1 [] [] H4 H5 H6].
  destruct blk as [b|]; (split; simpl; [done|done|by split|by split|done|done|]); [|done].
  apply map_Forall_insert_2; [|done]. by apply Hb.
Qed.

Lemma on_timeout_wf t s s' out :
  sm_round s < U32 - 1 → bft_wf s → BftStateMachine_on_timeout t s = Some (s', out) → bft_wf s'.
Proof.
  intros Hr Hwf. pose proof Hwf as [H0 H1 [] [] H4 H5 H6].
  assert (∀ st, bft_wf (set_step st s)) as Hst.
  { intros st. split; simpl; [done|done|by split|by split|done|done|done]. }
  unfold BftStateMachine_on_timeout. intros Ht. destruct (_ || _); [by simplify_eq|].
  destruct (te_step t); (destruct (bool_decide _); [|by simplify_eq]).
  - simplify_eq. apply Hst.
  - apply bind_Some in Ht as (first & _ & Ht). simplify_eq. apply Hst.
  - rewrite u32_add_ok in Ht by lia. simpl in Ht.
    injection Ht as <- _. apply start_round_wf; [done|lia].
Qed.

(** ** Progress *)

Lemma on_prevote_moves v s s' out :
  BftStateMachine_on_prevote v s = (s', out) →
  sm_height s' = sm_height s ∧ sm_round s' = sm_round s ∧ moves s s' (omap key_of out).
Proof.
  unfold BftStateMachine_on_prevote. intros Hv.
  repeat case_match; simplify_eq/=; (split; [done|]; split; [done|]);
    first [by apply moves_stay | by apply moves_precommit].
Qed.

Lemma on_precommit_moves v s s' out :
  BftStateMachine_on_precommit v s = (s', out) →
  sm_height s' = sm_height s ∧ sm_round s' = sm_round s ∧ moves s s' (omap key_of out).
Proof.
  unfold BftStateMachine_on_precommit. intros Hv.
  destruct (_ || _); [simplify_eq; split_and!; [done..|by apply moves_stay]|].
  destruct (negb _); [simplify_eq; split_and!; [done..|by apply moves_stay]|].
  destruct (VoteSet_quorum_block _) as [hash|].
  - destruct (bool_decide _) eqn:E; simplify_eq/=; (split_and!; [done..|]); [by apply moves_stay|].
    apply bool_decide_eq_false in E. by apply moves_commit.
  - destruct (_ && _); simplify_eq/=; (split_and!; [done..|by apply moves_stay]).
Qed.

Lemma on_proposal_moves p blk s s' out :
  BftStateMachine_on_proposal p blk s = Some (s', out) →
  sm_height s' = sm_height s ∧ sm_round s' = sm_round s ∧ moves s s' (omap key_of out).
Proof.
  intros [[-> ->]|((_ & _ & Hst & _) & -> & ->)]%on_proposal_inv; [split_and!; [done..|by apply moves_stay]|].
  split_and!; [by destruct blk..|]. apply moves_prevote; [done|done|by right].
Qed.

Lemma on_timeout_moves t s s' out :
  sm_round s < U32 - 1 → 0 <= sm_round s → BftStateMachine_on_timeout t s = Some (s', out) →
  (sm_height s' = sm_height s ∧ sm_round s' = sm_round s ∧ moves s s' (omap key_of out)) ∨
  (sm_height s' = sm_height s ∧ sm_round s' = sm_round s + 1 ∧ sm_step s = StepPrecommit ∧
    sm_step s' = StepPropose ∧ omap key_of out = []).
Proof.
  intros Hr Hr0. unfold BftStateMachine_on_timeout. intros Ht.
  destruct (_ || _); [left; simplify_eq; split_and!; [done..|by apply moves_stay]|].
  destruct (te_step t); (destruct (bool_decide _) eqn:E;
    [apply bool_decide_eq_true in E|left; simplify_eq; split_and!; [done..|by apply moves_stay]]).
  - left. simplify_eq/=. split_and!; [done..|]. apply moves_prevote; [done|done|by left].
  - left. apply bind_Some in Ht as (first & _ & Ht). simplify_eq/=. split_and!; [done..|].
    by apply moves_precommit.
  - right. rewrite u32_add_ok in Ht by lia. simpl in Ht. by injection Ht as <- <-.
Qed.

(** Moves within a round, in terms of progress. *)
Lemma moves_progress s s' ks :
  sm_height s' = sm_height s → sm_round s' = sm_round s → 0 <= sm_round s < U32 →
  moves s s' ks →
  progress s <= progress s' ∧
  (ks = [] ∨ ∃ k, ks = [k] ∧ key_progress k = progress s' ∧ progress s < progress s').
Proof.
  unfold progress. intros -> -> Hr Hm. destruct Hm as [->|ks -> -> [->| ->]| -> ->|Hc ->].
  - split; [lia|by left].
  - split; [simpl; lia|by left].
  - split; [simpl; lia|]. right. eexists. split; [done|]. simpl. lia.
  - split; [simpl; lia|]. right. eexists. split; [done|]. simpl. lia.
  - assert (progress_at (sm_height s) (sm_round s) (sm_step s) <
      progress_at (sm_height s) (sm_round s) StepCommit) as Hlt.
    { destruct (sm_step s); try done; unfold progress_at, heights_apart; simpl; lia. }
    split; [lia|]. right. eexists. split; [done|]. done.
Qed.

Lemma progress_bounds s :
  0 <= sm_round s < U32 →
  sm_height s * heights_apart <= progress s < (sm_height s + 1) * heights_apart.
Proof.
  intros Hr. unfold progress, progress_at, heights_apart. destruct (sm_step s); simpl; lia.
Qed.

(** Heights only grow. *)
Definition event_ok s (e : bft_event) : Prop :=
  match e with EvAdvanceHeight h => sm_height s < h | _ => True end.

Lemma bft_exec_wf s e s' out :
  sm_round s < U32 - 1 → bft_wf s → bft_exec s e = Some (s', out) →
  bft_wf s' ∧ sm_round s' <= sm_round s + 1.
Proof.
  intros Hr Hwf He. pose proof (bft_round _ Hwf). destruct e; simpl in He.
  - split; [by eapply on_proposal_wf|]. apply on_proposal_moves in He as (_ & -> & _). lia.
  - injection He as He. pose proof (on_prevote_wf vote s Hwf) as Hw. rewrite He in Hw. split; [done|].
    apply on_prevote_moves in He as (_ & -> & _). lia.
  - injection He as He. pose proof (on_precommit_wf vote s Hwf) as Hw. rewrite He in Hw. split; [done|].
    apply on_precommit_moves in He as (_ & -> & _). lia.
  - split; [by eapply on_timeout_wf|].
    apply on_timeout_moves in He as [(_ & -> & _)|(_ & -> & _)]; [lia..|done|done].
  - injection He as <- _. split; [by apply (advance_height_wf height s)|]. simpl. lia.
Qed.

Lemma bft_exec_progress s e s' out :
  sm_round s < U32 - 1 → bft_wf s → event_ok s e → bft_exec s e = Some (s', out) →
  progress s <= progress s' ∧
  (omap key_of out = [] ∨
   ∃ k, omap key_of out = [k] ∧ key_progress k = progress s' ∧ progress s < progress s').
Proof.
  intros Hr Hwf Hok He. pose proof (bft_round _ Hwf) as H0. destruct e; simpl in He.
  - apply on_proposal_moves in He as (? & ? & ?). by apply moves_progress; [..|lia|].
  - injection He as He. apply on_prevote_moves in He as (? & ? & ?). by apply moves_progress; [..|lia|].
  - injection He as He. apply on_precommit_moves in He as (? & ? & ?). by apply moves_progress; [..|lia|].
  - apply on_timeout_moves in He as [(? & ? & ?)|(Hh & Hr' & Hs & Hs' & ->)]; [..|done|done].
    + by apply moves_progress; [..|lia|].
    + split; [|by left]. unfold progress. rewrite Hh, Hr', Hs, Hs'. simpl. lia.
  - injection He as <- <-. simpl in Hok. split; [|by left].
    pose proof (progress_bounds s ltac:(lia)). unfold progress at 2. simpl. unfold heights_apart in *. lia.
Qed.

Fixpoint advancing s (es : list bft_event) : Prop :=
  match es with
  | [] => True
  | e :: es => event_ok s e ∧ ∀ s' out, bft_exec s e = Some (s', out) → advancing s' es
  end.

(** Events that never advance the height. *)
Definition stays_at_height (e : bft_event) : bool :=
  match e with EvAdvanceHeight _ => false | _ => true end.
Lemma advancing_stays s es : forallb stays_at_height es = true → advancing s es.
Proof.
  revert s. induction es as [|e es IH]; intros s; simpl; [done|]. intros [He Hes]%andb_true_iff.
  split; [by destruct e|]. intros. by apply IH.
Qed.

(** Over a run progress grows, and every vote or commit is further along than all
    before it. *)
Lemma bft_run_progress s es s' outs :
  bft_wf s → sm_round s + Z.of_nat (length es) < U32 → advancing s es →
  bft_run s es = Some (s', outs) →
  bft_wf s' ∧ progress s <= progress s' ∧ NoDup (omap key_of outs) ∧
  Forall (λ k, progress s < key_progress k <= progress s') (omap key_of outs).
Proof.
  revert s outs. induction es as [|e es IH]; intros s outs Hwf Hlen Hadv Hrun; simpl in *.
  { simplify_eq. split_and!; [done|lia|constructor|constructor]. }
  apply bind_Some in Hrun as ([s1 out] & He & Hrun). apply bind_Some in Hrun as ([s2 outs'] & Hrun & Heq).
  simplify_eq. destruct Hadv as [Hok Hadv].
  destruct (bft_exec_wf s e s1 out) as [Hwf1 Hr1]; [lia|done|done|].
  destruct (bft_exec_progress s e s1 out) as [Hle Hout]; [lia|done|done|done|].
  destruct (IH s1 outs' Hwf1) as (Hwf' & Hle' & Hnd & Hall); [lia|by eapply Hadv|done|].
  rewrite omap_app.
  assert (Forall (λ k, progress s < key_progress k <= progress s') (omap key_of outs')) as Hall'.
  { eapply Forall_impl; [done|]. simpl. lia. }
  split; [done|]. split; [lia|]. destruct Hout as [->|(k & -> & Hk & Hlt)]; [done|].
  split.
  - apply NoDup_cons. split; [|done]. intros Hin. rewrite Forall_forall in Hall.
    specialize (Hall k Hin). simpl in Hall. lia.
  - constructor; [lia|done].
Qed.

(** ** What justifies a vote or a commit *)

Context {HL : HashOrderLaws HO}.

Lemma bft_exec_commit s e s' out h hash :
  bft_wf s → bft_exec s e = Some (s', out) → CommitBlock h hash ∈ out →
  h = sm_height s' ∧ sm_height s' = sm_height s ∧ sm_round s' = sm_round s ∧
  sm_validators s' = sm_validators s ∧
  votes_ok Precommit s' (rs_precommits (sm_round_state s')) ∧
  VoteSet_has_quorum_for (rs_precommits (sm_round_state s')) hash = true.
Proof.
  intros Hwf He Hin. destruct e; simpl in He.
  - apply on_proposal_inv in He as [[-> ->]|(_ & _ & ->)]; set_solver.
  - exfalso. revert He Hin. unfold BftStateMachine_on_prevote. repeat case_match; intros; simplify_eq; set_solver.
  - injection He as He. pose proof (on_precommit_wf vote s Hwf) as Hwf'. rewrite He in Hwf'. simpl in Hwf'.
    destruct Hwf' as [_ _ _ Hp _ _ _]. revert He Hin Hp. unfold BftStateMachine_on_precommit.
    destruct (_ || _); [intros; simplify_eq; set_solver|].
    destruct (negb _); [intros; simplify_eq; set_solver|].
    destruct (VoteSet_quorum_block _) as [q|] eqn:Hq; [|destruct (_ && _); intros; simplify_eq; set_solver].
    destruct (negb _); intros [= <- <-] Hin Hp; [|set_solver].
    apply list_elem_of_singleton in Hin. simplify_eq. apply quorum_block_Some in Hq. by split_and!.
  - exfalso. revert He Hin. unfold BftStateMachine_on_timeout.
    destruct (_ || _); [intros; simplify_eq; set_solver|].
    destruct (te_step event); (destruct (bool_decide _); [|intros; simplify_eq; set_solver]).
    + intros; simplify_eq. set_solver.
    + intros (first & _ & ?)%bind_Some ?. simplify_eq. set_solver.
    + intros (nr & _ & ?)%bind_Some ?. unfold BftStateMachine_start_round in *. simplify_eq. set_solver.
  - unfold BftStateMachine_advance_height, BftStateMachine_start_round in He. simplify_eq. set_solver.
Qed.
End Handlers_lemmas.

Definition bft_init (height : Height) (validators : list ValidatorId) (validator_index : option Z)
    (timeout_config : TimeoutConfig) : BftStateMachine :=
  (BftStateMachine_start_round 0 (BftStateMachine_new height validators validator_index timeout_config)).1.

Lemma bft_init_wf {C : Crypto} {B : Bincode} h vals idx cfg : bft_wf (bft_init h vals idx cfg).
Proof. split; simpl; [done|done|split; (done || apply VoteSet_new_wf)..|done|done|apply map_Forall_empty]. Qed.

(** * Properties *)

(** C8: no equivocation.  A node that starts at a height and is fed any events, with
    heights only advanced upwards and fewer than 2^32 events, keeps the invariant
    of the machine and asks for at most one vote of each type per height and round
    and commits at most once per height. *)
Theorem bft_never_votes_twice {OC : OverflowChecks} {C : Crypto} {B : Bincode} {HO : HashOrder}
    (h : Height) (vals : list ValidatorId) (idx : option Z) (cfg : TimeoutConfig)
    (es : list bft_event) (s : BftStateMachine) (outs : list ConsensusMessage) :
  Z.of_nat (length es) < U32 → advancing (bft_init h vals idx cfg) es →
  bft_run (bft_init h vals idx cfg) es = Some (s, outs) →
  bft_wf s ∧ NoDup (omap key_of outs).
Proof.
  intros Hlen Hadv Hrun. destruct (bft_run_progress _ es s outs (bft_init_wf h vals idx cfg)) as (?&?&?&?);
    [simpl; lia|done|done|done].
Qed.

Definition demo_keys : list bytes := (λ k, toy_key (key32 k)) <$> [1; 2; 3; 4].
Definition demo_hash : BlockHash := key32 77.
Definition demo_vote (t : VoteType) (k : Z) : Vote :=
  Vote_new (C := toy_crypto) t 5 0 (Some demo_hash) (key32 k).
Definition demo_proposal : Proposal :=
  mkProposal 5 0 demo_hash (toy_key (key32 2)) [] None.
Definition demo_events : list bft_event :=
  [EvProposal demo_proposal None; EvPrevote (demo_vote Prevote 1); EvPrevote (demo_vote Prevote 2);
   EvPrevote (demo_vote Prevote 3); EvPrevote (demo_vote Prevote 4);
   EvPrecommit (demo_vote Precommit 4); EvPrecommit (demo_vote Precommit 2);
   EvPrecommit (demo_vote Precommit 1); EvPrecommit (demo_vote Precommit 3)].
Definition demo_start : BftStateMachine := bft_init 5 demo_keys (Some 0) TimeoutConfig_default.
Definition demo_bft_run : BftStateMachine * list ConsensusMessage :=
  default (demo_start, []) (bft_run (OC := debug_build) (C := toy_crypto) (B := toy_bincode)
    (HO := forward_order) demo_start demo_events).

Lemma demo_bft_run_eq :
  bft_run (OC := debug_build) (C := toy_crypto) (B := toy_bincode) (HO := forward_order)
    demo_start demo_events = Some (demo_bft_run.1, demo_bft_run.2).
Proof. unfold demo_bft_run. apply default_pair_eq. vm_compute. reflexivity. Qed.

Lemma bft_never_votes_twice_witness :
  omap key_of demo_bft_run.2 = [KeyVote Prevote 5 0; KeyVote Precommit 5 0; KeyCommit 5] ∧
  NoDup (omap key_of demo_bft_run.2).
Proof.
  split; [vm_compute; reflexivity|].
  refine (proj2 (bft_never_votes_twice (OC := debug_build) (C := toy_crypto) (B := toy_bincode)
    (HO := forward_order) 5 demo_keys (Some 0) TimeoutConfig_default demo_events
    demo_bft_run.1 demo_bft_run.2 _ _ demo_bft_run_eq));
    [reflexivity|apply advancing_stays; reflexivity].
Defined.

(** A commit is justified.  Whenever a handler asks to commit a block, it is at
    the machine's height, and more than two thirds of the number of validators
    have sent, for that height, the current round and that hash, precommits with
    signatures that verify, one per key. *)
Theorem commit_has_quorum {OC : OverflowChecks} {C : Crypto} {B : Bincode} {HO : HashOrder}
    {HL : HashOrderLaws HO} (s s' : BftStateMachine) (e : bft_event) (out : list ConsensusMessage)
    (h : Height) (hash : BlockHash) :
  bft_wf s → bft_exec s e = Some (s', out) → CommitBlock h hash ∈ out →
  h = sm_height s ∧
  ∃ voters : gset bytes, 2 * total_validators s < 3 * Z.of_nat (size voters) ∧
    ∀ k, k ∈ voters → ∃ v, v_validator v = k ∧ v_vote_type v = Precommit ∧ v_height v = h ∧
      v_round v = sm_round s ∧ v_block_hash v = Some hash ∧ Vote_verify v = true.
Proof.
  intros Hwf He Hin. destruct (bft_exec_commit s e s' out h hash Hwf He Hin) as (-> & Hh & Hr & Hv & Hok & Hq).
  destruct Hok as [Hw Ht Hh' Hr' Htot]. apply has_quorum_for_iff in Hq.
  split; [done|]. exists (voters_for (rs_precommits (sm_round_state s')) hash). split.
  - unfold total_validators in *. rewrite <-Hv. lia.
  - intros k Hk. unfold voters_for in Hk. apply elem_of_dom in Hk as [v Hk].
    apply map_lookup_filter_Some in Hk as [Hk Hb]. destruct (Hw _ _ Hk) as (?&?&?&?&?).
    exists v. simpl in *. split_and!; congruence.
Qed.

Definition demo_before_commit_run : BftStateMachine * list ConsensusMessage :=
  default (demo_start, []) (bft_run (OC := debug_build) (C := toy_crypto) (B := toy_bincode)
    (HO := forward_order) demo_start (take 7 demo_events)).
Definition demo_before_commit : BftStateMachine := demo_before_commit_run.1.
Lemma demo_before_commit_eq :
  bft_run (OC := debug_build) (C := toy_crypto) (B := toy_bincode) (HO := forward_order)
    demo_start (take 7 demo_events) = Some (demo_before_commit, demo_before_commit_run.2).
Proof. unfold demo_before_commit, demo_before_commit_run. apply default_pair_eq. vm_compute. reflexivity. Qed.
Lemma demo_before_commit_wf : bft_wf (C := toy_crypto) (B := toy_bincode) demo_before_commit.
Proof.
  refine (proj1 (bft_run_progress (OC := debug_build) (C := toy_crypto) (B := toy_bincode)
    (HO := forward_order) demo_start (take 7 demo_events) _ _ (bft_init_wf _ _ _ _) _ _
    demo_before_commit_eq)); [reflexivity|apply advancing_stays; reflexivity].
Qed.
Definition demo_exec (s : BftStateMachine) (e : bft_event) : BftStateMachine * list ConsensusMessage :=
  default (demo_start, []) (bft_exec (OC := debug_build) (C := toy_crypto) (B := toy_bincode)
    (HO := forward_order) s e).
Lemma demo_exec_eq s v :
  bft_exec (OC := debug_build) (C := toy_crypto) (B := toy_bincode) (HO := forward_order) s (EvPrecommit v) =
  Some ((demo_exec s (EvPrecommit v)).1, (demo_exec s (EvPrecommit v)).2).
Proof. unfold demo_exec. by apply default_pair_eq. Qed.
Lemma commit_has_quorum_witness :
  5 = sm_height demo_before_commit ∧
  ∃ voters : gset bytes, 2 * total_validators demo_before_commit < 3 * Z.of_nat (size voters) ∧
    ∀ k, k ∈ voters → ∃ v, v_validator v = k ∧ v_vote_type v = Precommit ∧ v_height v = 5 ∧
      v_round v = sm_round demo_before_commit ∧ v_block_hash v = Some demo_hash ∧
      Vote_verify (C := toy_crypto) v = true.
Proof.
  refine (commit_has_quorum (OC := debug_build) (C := toy_crypto) (B := toy_bincode) (HO := forward_order)
    demo_before_commit _ (EvPrecommit (demo_vote Precommit 1)) _ 5 demo_hash
    demo_before_commit_wf (demo_exec_eq _ _) _).
  vm_compute. left.
Defined.

(** Agreement within a round.  Two nodes with the same set of validators that ask
    to commit different blocks at the same height and round need more than a third
    of the validators to have signed both precommits, counting each voter from
    outside of the set against that third. *)
Theorem commits_agree_within_round {C : Crypto} {B : Bincode}
    {OC1 OC2 : OverflowChecks} {HO1 HO2 : HashOrder} {HL1 : HashOrderLaws HO1} {HL2 : HashOrderLaws HO2}
    (s1 s1' s2 s2' : BftStateMachine) (e1 e2 : bft_event) (out1 out2 : list ConsensusMessage)
    (h : Height) (hash1 hash2 : BlockHash) :
  bft_wf s1 → bft_wf s2 →
  bft_exec (OC := OC1) (HO := HO1) s1 e1 = Some (s1', out1) → CommitBlock h hash1 ∈ out1 →
  bft_exec (OC := OC2) (HO := HO2) s2 e2 = Some (s2', out2) → CommitBlock h hash2 ∈ out2 →
  sm_round s1 = sm_round s2 → sm_validators s1 = sm_validators s2 → NoDup (sm_validators s1) →
  hash1 ≠ hash2 →
  ∃ double outside : gset bytes,
    total_validators s1 < 3 * Z.of_nat (size double + size outside) ∧
    outside ## list_to_set (sm_validators s1) ∧ ∀ k, k ∈ double → signed_both k hash1 hash2.
Proof.
  intros Hw1 Hw2 He1 Hi1 He2 Hi2 Hr Hv Hnd Hne.
  destruct (bft_exec_commit _ _ _ _ _ _ Hw1 He1 Hi1) as (Hh1 & Hhh1 & Hr1 & Hv1 & [] & Hq1).
  destruct (bft_exec_commit _ _ _ _ _ _ Hw2 He2 Hi2) as (Hh2 & Hhh2 & Hr2 & Hv2 & [] & Hq2).
  apply (has_quorum_for_iff (HO := HO2)) in Hq2. apply (has_quorum_for_iff (HO := HO1)) in Hq2.
  assert (total_validators s1 = Z.of_nat (size (list_to_set (sm_validators s1) : gset bytes))) as Hn.
  { unfold total_validators. by rewrite size_list_to_set. }
  assert (total_validators s1' = total_validators s1 ∧ total_validators s2' = total_validators s1) as [Hn1 Hn2].
  { unfold total_validators. rewrite Hv1, Hv2, Hv. done. }
  destruct (conflicting_quorums (HO := HO1) (list_to_set (sm_validators s1))
    (rs_precommits (sm_round_state s1')) (rs_precommits (sm_round_state s2')) hash1 hash2)
    as (double & outside & ? & ? & ? & _); try done; try congruence.
  exists double, outside. split_and!; [lia|done|done].
Qed.

Definition demo_precommit (hash : BlockHash) (k : Z) : Vote :=
  Vote_new (C := toy_crypto) Precommit 5 0 (Some hash) (key32 k).
Definition demo_split (hash : BlockHash) (k1 k2 : Z) : BftStateMachine :=
  (BftStateMachine_on_precommit (C := toy_crypto) (HO := forward_order) (demo_precommit hash k2)
    (BftStateMachine_on_precommit (C := toy_crypto) (HO := forward_order) (demo_precommit hash k1)
      demo_start).1).1.
Lemma demo_split_wf hash k1 k2 : bft_wf (C := toy_crypto) (B := toy_bincode) (demo_split hash k1 k2).
Proof. apply on_precommit_wf, on_precommit_wf, bft_init_wf. Qed.
Lemma commits_agree_within_round_witness :
  ∃ double outside : gset bytes,
    total_validators (demo_split (key32 77) 1 2) < 3 * Z.of_nat (size double + size outside) ∧
    outside ## list_to_set (sm_validators (demo_split (key32 77) 1 2)) ∧
    ∀ k, k ∈ double → signed_both (C := toy_crypto) k (key32 77) (key32 78).
Proof.
  refine (commits_agree_within_round (C := toy_crypto) (B := toy_bincode)
    (OC1 := debug_build) (OC2 := debug_build) (HO1 := forward_order) (HO2 := forward_order)
    (demo_split (key32 77) 1 2) _ (demo_split (key32 78) 2 3) _
    (EvPrecommit (demo_precommit (key32 77) 3)) (EvPrecommit (demo_precommit (key32 78) 4))
    _ _ 5 (key32 77) (key32 78) (demo_split_wf _ _ _) (demo_split_wf _ _ _)
    (demo_exec_eq _ _) _ (demo_exec_eq _ _) _ _ _ _ _);
    [vm_compute; left|vm_compute; left|vm_compute; reflexivity|vm_compute; reflexivity| |vm_compute; discriminate].
  apply (bool_decide_unpack _). vm_compute. exact I.
Defined.

(** The prevote for an accepted proposal.  It is for the proposal's block exactly
    when the node is not locked, is locked on that block, or the proposal names a
    [valid_round] at or after the lock; otherwise it is nil.  Nothing else about
    [valid_round] or the proposal's signature is checked: a proposer unlocks a node
    by writing the round it locked in, with no polka of that round shown. *)
Theorem prevote_follows_lock_rule {OC : OverflowChecks} {C : Crypto} {B : Bincode}
    (p : Proposal) (blk : option Block) (s : BftStateMachine) :
  bft_wf s → proposal_ok p blk s →
  BftStateMachine_on_proposal p blk s = Some (accept_proposal p blk s, [prevote_for p s]) ∧
  (prevote_hash s p = Some (p_block_hash p) ↔
    sm_locked_value s = None ∨ sm_locked_value s = Some (p_block_hash p) ∨
    ∃ vr lr, p_valid_round p = Some vr ∧ sm_locked_round s = Some lr ∧ lr <= vr) ∧
  (prevote_hash s p ≠ Some (p_block_hash p) → prevote_hash s p = None) ∧
  (∀ lr sig, sm_locked_round s = Some lr →
    BftStateMachine_on_proposal (mkProposal (p_height p) (p_round p) (p_block_hash p) (p_proposer p) sig (Some lr))
      blk s = Some (accept_proposal p blk s,
        [CastVote (mkVote Prevote (sm_height s) (sm_round s) (Some (p_block_hash p)) (p_proposer p) sig)])).
Proof.
  intros Hwf Hok. split; [by apply on_proposal_accept|]. pose proof (bft_locked _ Hwf) as Hl. unfold prevote_hash.
  split; [|split].
  - destruct (sm_locked_value s) as [l|]; [|naive_solver]. destruct (bool_decide _) eqn:E.
    + apply bool_decide_eq_true in E as ->. naive_solver.
    + apply bool_decide_eq_false in E. destruct (p_valid_round p) as [vr|], (sm_locked_round s) as [lr|];
        try naive_solver. destruct (lr <=? vr) eqn:Ele; naive_solver zlia.
  - repeat case_match; done.
  - intros lr sig Hlr. rewrite on_proposal_accept by done. unfold prevote_for, prevote_hash. simpl. rewrite Hlr.
    rewrite (proj2 (Z.leb_le lr lr)) by lia.
    destruct (sm_locked_value s); [|done]. by case_match.
Qed.

Lemma prevote_follows_lock_rule_witness :
  BftStateMachine_on_proposal (OC := debug_build) (C := toy_crypto) (B := toy_bincode)
    demo_proposal None demo_start =
  Some (accept_proposal demo_proposal None demo_start, [prevote_for demo_proposal demo_start]).
Proof.
  refine (proj1 (prevote_follows_lock_rule (OC := debug_build) (C := toy_crypto) (B := toy_bincode)
    demo_proposal None demo_start (bft_init_wf _ _ _ _) _)).
  split; [reflexivity|]. split; [reflexivity|]. split; [reflexivity|]. split; [|discriminate].
  exists 1. split; [reflexivity|]. split; [reflexivity|vm_compute; reflexivity].
Defined.

(** A node that times out waiting for the proposal moves on without voting: contrary
    to the comment, no nil prevote is cast, and none can be at any later time in
    that round, whatever it then receives. *)
Theorem missed_proposal_never_prevotes {OC : OverflowChecks} {C : Crypto} {B : Bincode} {HO : HashOrder}
    (s s' s'' : BftStateMachine) (es : list bft_event) (out outs : list ConsensusMessage) :
  bft_wf s → sm_step s = StepPropose → sm_round s + Z.of_nat (length es) < U32 - 1 →
  BftStateMachine_on_timeout (mkTimeoutEvent (sm_height s) (sm_round s) TimeoutPropose) s = Some (s', out) →
  advancing s' es → bft_run s' es = Some (s'', outs) →
  out = [ScheduleTimeout (mkTimeoutEvent (sm_height s) (sm_round s) TimeoutPrevote)] ∧
  KeyVote Prevote (sm_height s) (sm_round s) ∉ omap key_of outs.
Proof.
  intros Hwf Hs Hlen Ht Hadv Hrun. pose proof (bft_round _ Hwf).
  assert (bft_wf s') as Hwf' by (eapply (on_timeout_wf _ s); [lia|done|done]).
  unfold BftStateMachine_on_timeout in Ht. simpl in Ht.
  rewrite !Z.eqb_refl, bool_decide_eq_true_2 in Ht by done. simplify_eq/=. split; [done|].
  destruct (bft_run_progress (set_step StepPrevote s) es s'' outs Hwf') as (_ & _ & _ & Hall);
    [simpl; lia|done|done|].
  intros Hin. rewrite Forall_forall in Hall. destruct (Hall _ Hin) as [Hlt _]. by apply Z.lt_irrefl in Hlt.
Qed.

Definition demo_missed : BftStateMachine * list ConsensusMessage :=
  default (demo_start, []) (bft_run (OC := debug_build) (C := toy_crypto) (B := toy_bincode)
    (HO := forward_order) (set_step StepPrevote demo_start) demo_events).
Lemma demo_missed_eq :
  bft_run (OC := debug_build) (C := toy_crypto) (B := toy_bincode) (HO := forward_order)
    (set_step StepPrevote demo_start) demo_events = Some (demo_missed.1, demo_missed.2).
Proof. unfold demo_missed. apply default_pair_eq. vm_compute. reflexivity. Qed.
Lemma missed_proposal_never_prevotes_witness :
  omap key_of demo_missed.2 = [KeyVote Precommit 5 0; KeyCommit 5] ∧
  KeyVote Prevote 5 0 ∉ omap key_of demo_missed.2.
Proof.
  split; [vm_compute; reflexivity|].
  refine (proj2 (missed_proposal_never_prevotes (OC := debug_build) (C := toy_crypto) (B := toy_bincode)
    (HO := forward_order) demo_start (set_step StepPrevote demo_start) _ demo_events _ _
    (bft_init_wf _ _ _ _) _ _ _ _ demo_missed_eq));
    [reflexivity|reflexivity|vm_compute; reflexivity|apply advancing_stays; reflexivity].
Defined.

(** Proposers rotate.  At any height, among any [n] consecutive rounds each of the
    [n] validators is the proposer of exactly one. *)
Theorem proposers_rotate {OC : OverflowChecks} (s : BftStateMachine) (h : Height) (r i : Z) :
  0 <= h → 0 <= r → h + r + total_validators s < U64 → 0 <= i < total_validators s →
  exists! r', r <= r' < r + total_validators s ∧ BftStateMachine_proposer_index s h r' = Some i.
Proof.
  intros Hh Hr Hsum Hi. set (n := total_validators s) in *.
  assert (∀ r', r <= r' < r + n → BftStateMachine_proposer_index s h r' = Some ((h + r') mod n)) as Hidx.
  { intros r' Hr'. unfold BftStateMachine_proposer_index. fold n.
    rewrite (proj2 (Z.eqb_neq n 0)) by lia. rewrite u64_add_ok by zlia. simpl. unfold rem_or_panic.
    by rewrite (proj2 (Z.eqb_neq n 0)) by lia. }
  pose proof (Z.mod_pos_bound (i - (h + r)) n ltac:(lia)) as Hm.
  exists (r + (i - (h + r)) mod n). split.
  - split; [lia|]. rewrite Hidx by lia. f_equal.
    replace (h + (r + (i - (h + r)) mod n)) with ((h + r) + (i - (h + r)) mod n) by lia.
    rewrite Z.add_mod_idemp_r by lia. replace (h + r + (i - (h + r))) with i by lia. by apply Z.mod_small.
  - intros r' [Hr' Hp]. rewrite Hidx in Hp by done. injection Hp as Hp.
    assert ((i - (h + r)) mod n = r' - r) as ->; [|lia]. rewrite <-Hp.
    rewrite Zminus_mod_idemp_l. replace (h + r' - (h + r)) with (r' - r) by lia. apply Z.mod_small. lia.
Qed.

Lemma proposers_rotate_witness :
  exists! r', 0 <= r' < 0 + total_validators demo_start ∧
    BftStateMachine_proposer_index (OC := debug_build) demo_start 5 r' = Some 0.
Proof. apply (proposers_rotate (OC := debug_build) demo_start 5 0 0); done. Defined.
