(* ===== verification/Agreement.v ===== *)
(** * Agreement across rounds (consensus/bft/src/state_machine.rs)

    Within a round, two commits for different blocks need a third of the validators at
    fault (StateMachine.v).  Across rounds it is the lock that keeps the nodes together.
    This file proves agreement for a whole height, over the complete runs of any number
    of honest machines: each run is a [history], the histories with the hypotheses on
    the network give an abstract voting argument, and the argument gives agreement.  The
    argument needs every [valid_round] that a proposal names to be one with a quorum of
    prevotes; the machine does not check it, and without it one validator suffices to
    make two honest nodes commit different blocks. *)
From S2P Require Import Prelude Crypto Block Vote StateMachine.
Open Scope Z_scope.

(** ** Histories *)

(** The events that carry a vote. *)
Definition event_vote (e : bft_event) : option Vote :=
  match e with EvPrevote v | EvPrecommit v => Some v | _ => None end.

(** A vote, up to who cast it and the signature. *)
Definition vote_is (t : VoteType) (h : Height) (r : Round) (x : BlockHash) (v : Vote) : Prop :=
  v_vote_type v = t ∧ v_height v = h ∧ v_round v = r ∧ v_block_hash v = Some x.
#[export] Instance vote_is_dec t h r x v : Decision (vote_is t h r x v) := _.

(** The machine asks its node to sign a vote. *)
Definition asks (t : VoteType) (h : Height) (r : Round) (x : BlockHash) (outs : list ConsensusMessage) : Prop :=
  ∃ v, CastVote v ∈ outs ∧ vote_is t h r x v.

Section Histories.
Context {C : Crypto} {B : Bincode}.

(** A node has received votes of one kind that verify from [voters]. *)
Definition heard (rcv : list bft_event) (t : VoteType) (h : Height) (r : Round) (x : BlockHash)
    (voters : gset bytes) : Prop :=
  ∀ k, k ∈ voters →
    ∃ e v, e ∈ rcv ∧ event_vote e = Some v ∧ v_validator v = k ∧ vote_is t h r x v ∧ Vote_verify v = true.
Definition heard_quorum (n : Z) (rcv : list bft_event) (t : VoteType) (h : Height) (r : Round)
    (x : BlockHash) : Prop :=
  ∃ voters : gset bytes, 2 * n < 3 * Z.of_nat (size voters) ∧ heard rcv t h r x voters.

(** Why a node locked at or after [r] prevotes [y] in round [r']: it is the block it is
    locked on, or the proposal named a round at or after the lock. *)
Definition prevote_excused (n : Z) (rcv : list bft_event) (h : Height) (r r' : Round) (y : BlockHash) : Prop :=
  ∃ lr z, r <= lr < r' ∧ heard_quorum n rcv Prevote h lr z ∧
    (y = z ∨ ∃ p b vr, EvProposal p b ∈ rcv ∧ p_height p = h ∧ p_round p = r' ∧ p_block_hash p = y ∧
      p_valid_round p = Some vr ∧ lr <= vr).

(** What holds of a machine at height [h] that has received events among [rcv] and has
    answered [outs]. *)
Record history (h : Height) (n : Z) (rcv : list bft_event) (s : BftStateMachine)
    (outs : list ConsensusMessage) : Prop := {
  hi_wf : bft_wf s;
  hi_height : sm_height s = h;
  hi_total : total_validators s = n;
  hi_votes : ∀ vs k v, vs = rs_prevotes (sm_round_state s) ∨ vs = rs_precommits (sm_round_state s) →
    vs_votes vs !! k = Some v → ∃ e, e ∈ rcv ∧ event_vote e = Some v;
  hi_rounds : ∀ v, CastVote v ∈ outs → v_round v <= sm_round s;
  hi_lock : ∀ x lr, sm_locked_value s = Some x → sm_locked_round s = Some lr →
    heard_quorum n rcv Prevote h lr x ∧
    (lr = sm_round s → sm_step s = StepPrecommit ∨ sm_step s = StepCommit);
  hi_precommits : ∀ r x, asks Precommit h r x outs →
    heard_quorum n rcv Prevote h r x ∧
    ∃ y lr, sm_locked_value s = Some y ∧ sm_locked_round s = Some lr ∧ r <= lr;
  hi_prevotes : ∀ r x r' y, asks Precommit h r x outs → asks Prevote h r' y outs → r < r' →
    prevote_excused n rcv h r r' y;
  hi_commits : ∀ h' x, CommitBlock h' x ∈ outs → h' = h ∧ ∃ r, heard_quorum n rcv Precommit h r x;
}.
End Histories.

(** ** Abstract voting *)

(** [voted t r x k]: validator [k] cast a vote of type [t] for [x] in round [r]. *)
Section Voting.
Context (V F : gset bytes) (voted : VoteType → Round → BlockHash → ValidatorId → Prop).

Definition quorum_voted (t : VoteType) (r : Round) (x : BlockHash) : Prop :=
  ∃ voters : gset bytes, 2 * Z.of_nat (size V) < 3 * Z.of_nat (size voters) ∧
    ∀ k, k ∈ voters → voted t r x k.

(** What the validators outside of [F] promise to each other. *)
Record voting_laws : Prop := {
  vl_members : ∀ t r x k, voted t r x k → k ∈ V ∪ F;
  vl_once : ∀ r x y k, k ∉ F → voted Prevote r x k → voted Prevote r y k → x = y;
  vl_precommit : ∀ r x k, k ∉ F → voted Precommit r x k → quorum_voted Prevote r x;
  vl_lock : ∀ r r' x y k, k ∉ F → voted Precommit r x k → voted Prevote r' y k → r < r' →
    ∃ lr z, r <= lr < r' ∧ quorum_voted Prevote lr z ∧
      (y = z ∨ ∃ vr, lr <= vr < r' ∧ quorum_voted Prevote vr y);
}.

(** The faulty voters; one from outside of [V] counts twice. *)
Definition few_faults : Prop :=
  3 * Z.of_nat (size F + size (F ∖ V)) <= Z.of_nat (size V).
End Voting.

(** ** Networks *)

(** The complete run of an honest machine at one height: its key, the build and the
    hash seed of its program, its state before the height, what it receives and how it
    ends. *)
Record honest_node := mkHonestNode {
  hn_key : ValidatorId;
  hn_checks : OverflowChecks;
  hn_order : HashOrder;
  hn_before : BftStateMachine;
  hn_events : list bft_event;
  hn_after : BftStateMachine;
  hn_outs : list ConsensusMessage;
}.

Section Networks.
Context {C : Crypto} {B : Bincode} (h : Height) (vals : list ValidatorId).

Definition honest_run (nd : honest_node) : Prop :=
  HashOrderLaws (hn_order nd) ∧ sm_validators (hn_before nd) = vals ∧ hn_key nd ∈ vals ∧
  Z.of_nat (length (hn_events nd)) < U32 ∧ forallb stays_at_height (hn_events nd) = true ∧
  bft_run (OC := hn_checks nd) (HO := hn_order nd)
    (BftStateMachine_advance_height h (hn_before nd)).1 (hn_events nd) = Some (hn_after nd, hn_outs nd).

Context (nodes : list honest_node) (F : gset bytes).

(** A vote may have been signed: by a key of [F], or for an honest machine. *)
Definition signed (t : VoteType) (r : Round) (x : BlockHash) (k : ValidatorId) : Prop :=
  k ∈ F ∨ ∃ nd, nd ∈ nodes ∧ hn_key nd = k ∧ asks t h r x (hn_outs nd).

(** Signatures are not forged. *)
Definition unforged : Prop :=
  ∀ nd e v t r x, nd ∈ nodes → e ∈ hn_events nd → event_vote e = Some v → Vote_verify v = true →
    vote_is t h r x v → signed t r x (v_validator v).

(** A proposal that reaches an honest machine names only an earlier round in which its
    block had a quorum of prevotes. *)
Definition valid_rounds_true : Prop :=
  ∀ nd p b vr, nd ∈ nodes → EvProposal p b ∈ hn_events nd → p_height p = h → p_valid_round p = Some vr →
    vr < p_round p ∧ quorum_voted (list_to_set vals) signed Prevote vr (p_block_hash p).
End Networks.

(** * Lemmas *)

Section History_lemmas.
Context {C : Crypto} {B : Bincode}.

Lemma asks_app t h r x outs1 outs2 :
  asks t h r x (outs1 ++ outs2) ↔ asks t h r x outs1 ∨ asks t h r x outs2.
Proof. unfold asks. set_solver. Qed.
Lemma asks_nil t h r x : ¬ asks t h r x [].
Proof. unfold asks. set_solver. Qed.
Lemma asks_cons t h r x m outs :
  asks t h r x (m :: outs) ↔ (∃ v, m = CastVote v ∧ vote_is t h r x v) ∨ asks t h r x outs.
Proof. unfold asks. set_solver. Qed.

Lemma add_vote_lookup v vs k w :
  vs_votes (VoteSet_add_vote v vs).1 !! k = Some w → w = v ∨ vs_votes vs !! k = Some w.
Proof.
  unfold VoteSet_add_vote. repeat case_match; simpl; try by right.
  intros [[_ <-]|[_ ?]]%lookup_insert_Some; [by left|by right].
Qed.

(** The lock after a step: as before, or on a block that the current round's prevotes
    have a quorum for. *)
Definition lock_kept (s s' : BftStateMachine) : Prop :=
  sm_locked_value s' = sm_locked_value s ∧ sm_locked_round s' = sm_locked_round s ∧
  (sm_round s' = sm_round s → sm_step s = StepPrecommit ∨ sm_step s = StepCommit →
    sm_step s' = StepPrecommit ∨ sm_step s' = StepCommit).
Definition lock_taken (h : Height) (n : Z) (rcv : list bft_event) (s' : BftStateMachine) : Prop :=
  ∃ x, sm_locked_value s' = Some x ∧ sm_locked_round s' = Some (sm_round s') ∧
    heard_quorum n rcv Prevote h (sm_round s') x ∧ sm_step s' = StepPrecommit.

(** Why a step's own prevote respects the lock. *)
Definition prevote_checked (rcv : list bft_event) (h : Height) (s : BftStateMachine) (r' : Round)
    (y : BlockHash) : Prop :=
  r' = sm_round s ∧ sm_step s = StepPropose ∧
  ∀ z lr, sm_locked_value s = Some z → sm_locked_round s = Some lr →
    y = z ∨ ∃ p b vr, EvProposal p b ∈ rcv ∧ p_height p = h ∧ p_round p = r' ∧ p_block_hash p = y ∧
      p_valid_round p = Some vr ∧ lr <= vr.

Lemma locked_bound (s : BftStateMachine) x lr :
  bft_wf s → sm_locked_value s = Some x → sm_locked_round s = Some lr → 0 <= lr <= sm_round s.
Proof. intros [_ _ _ _ Hl _ _] Hx Hr. rewrite Hx, Hr in Hl. done. Qed.

(** A step extends a history. *)
Lemma history_step h n rcv s s' outs out :
  history h n rcv s outs → bft_wf s' → sm_height s' = h → total_validators s' = n →
  sm_round s <= sm_round s' →
  (∀ vs k v, vs = rs_prevotes (sm_round_state s') ∨ vs = rs_precommits (sm_round_state s') →
    vs_votes vs !! k = Some v → ∃ e, e ∈ rcv ∧ event_vote e = Some v) →
  (∀ v, CastVote v ∈ out → v_round v = sm_round s') →
  lock_kept s s' ∨ lock_taken h n rcv s' →
  (∀ r x, asks Precommit h r x out → lock_taken h n rcv s' ∧ sm_locked_value s' = Some x ∧ r = sm_round s') →
  (∀ r' y, asks Prevote h r' y out → prevote_checked rcv h s r' y) →
  (∀ h' x, CommitBlock h' x ∈ out → h' = h ∧ heard_quorum n rcv Precommit h (sm_round s') x) →
  history h n rcv s' (outs ++ out).
Proof.
  intros [W Hh Hn Hv Hr Hl Hpc Hpv Hc] W' Hh' Hn' Hle Hv' Hr' Hlock Hpc' Hpv' Hc'.
  split; try done.
  - intros v [Hin|Hin]%elem_of_app; [specialize (Hr v Hin); lia|rewrite (Hr' v Hin); lia].
  - intros x lr Hx Hlr. destruct Hlock as [(E1 & E2 & E3)|(y & E1 & E2 & E3 & E4)].
    + rewrite E1 in Hx. rewrite E2 in Hlr. destruct (Hl x lr Hx Hlr) as [HQ Hstep]. split; [done|].
      intros ->. pose proof (locked_bound s _ _ W Hx Hlr). apply E3; [lia|]. apply Hstep. lia.
    + simplify_eq. split; [done|by left].
  - intros r x [Hold|Hnew]%asks_app.
    + destruct (Hpc r x Hold) as [HQ (y & lr & Hy & Hlr & ?)]. split; [done|].
      destruct Hold as (v & Hin & _ & _ & Hvr & _). specialize (Hr v Hin).
      destruct Hlock as [(E1 & E2 & _)|(z & E1 & E2 & _)].
      * exists y, lr. by rewrite E1, E2.
      * exists z, (sm_round s'). split_and!; [done|done|lia].
    + destruct (Hpc' r x Hnew) as [(z & E1 & E2 & E3 & E4) [Hx ->]].
      assert (z = x) as -> by congruence. split; [done|]. exists x, (sm_round s'). split_and!; [done|done|lia].
  - intros r x r' y [Hold|Hnew]%asks_app [Hold'|Hnew']%asks_app Hlt; [by eapply Hpv|..].
    + destruct (Hpv' r' y Hnew') as (-> & Hst & Hexc).
      destruct (Hpc r x Hold) as [_ (z & lr & Hz & Hlr & ?)].
      destruct (Hl z lr Hz Hlr) as [HQ Hstep]. pose proof (locked_bound s _ _ W Hz Hlr).
      exists lr, z. split_and!; [lia| |done|by apply Hexc].
      destruct (decide (lr = sm_round s)) as [->|]; [|lia].
      rewrite Hst in Hstep. destruct Hstep; done.
    + destruct (Hpc' r x Hnew) as (_ & _ & ->). destruct Hold' as (v & Hin & _ & _ & Hvr & _).
      specialize (Hr v Hin). lia.
    + destruct (Hpc' r x Hnew) as (_ & _ & ->). destruct (Hpv' r' y Hnew') as [-> _]. lia.
  - intros h' x [Hin|Hin]%elem_of_app; [by apply Hc|]. destruct (Hc' h' x Hin). eauto.
Qed.

(** A step that answers nothing of weight, and keeps the lock. *)
Lemma history_quiet h n rcv s s' outs out :
  history h n rcv s outs → bft_wf s' → sm_height s' = h → total_validators s' = n →
  sm_round s <= sm_round s' →
  (∀ vs k v, vs = rs_prevotes (sm_round_state s') ∨ vs = rs_precommits (sm_round_state s') →
    vs_votes vs !! k = Some v → ∃ e, e ∈ rcv ∧ event_vote e = Some v) →
  lock_kept s s' →
  Forall (λ m, match m with
               | CastVote v => v_block_hash v = None ∧ v_round v = sm_round s'
               | CommitBlock _ _ => False
               | _ => True
               end) out →
  history h n rcv s' (outs ++ out).
Proof.
  intros Hi W' Hh' Hn' Hle Hv' Hlock Hq. rewrite Forall_forall in Hq.
  eapply history_step; eauto.
  - intros v Hin. apply (Hq _ Hin).
  - intros r x (v & Hin & _ & _ & _ & Hx). destruct (Hq _ Hin). congruence.
  - intros r x (v & Hin & _ & _ & _ & Hx). destruct (Hq _ Hin). congruence.
  - intros h' x Hin. by destruct (Hq _ Hin).
Qed.
End History_lemmas.

Section Runs.
Context {OC : OverflowChecks} {C : Crypto} {B : Bincode} {HO : HashOrder} {HL : HashOrderLaws HO}.
Implicit Types (s : BftStateMachine).

Lemma quorum_heard t rcv s vs x :
  votes_ok t s vs → (∀ k v, vs_votes vs !! k = Some v → ∃ e, e ∈ rcv ∧ event_vote e = Some v) →
  VoteSet_quorum_block vs = Some x →
  heard_quorum (total_validators s) rcv t (sm_height s) (sm_round s) x.
Proof.
  intros [Hwf Ht Hh Hr Hn] Hrcv Hq. apply quorum_block_Some, has_quorum_for_iff in Hq.
  exists (voters_for vs x). split; [lia|]. intros k Hk. unfold voters_for in Hk.
  apply elem_of_dom in Hk as [v Hk]. apply map_lookup_filter_Some in Hk as [Hk Hx]. simpl in Hx.
  destruct (Hwf _ _ Hk) as (? & ? & ? & ? & ?). destruct (Hrcv _ _ Hk) as (e & ? & ?).
  exists e, v. unfold vote_is. split_and!; congruence.
Qed.

Lemma history_on_proposal h n rcv s outs p b s' out :
  history h n rcv s outs → EvProposal p b ∈ rcv →
  BftStateMachine_on_proposal p b s = Some (s', out) → history h n rcv s' (outs ++ out).
Proof.
  intros Hi Hin Hp. pose proof (on_proposal_wf _ _ _ _ _ (hi_wf _ _ _ _ _ Hi) Hp) as W'.
  apply on_proposal_inv in Hp as [[-> ->]|((Hph & Hpr & Hst & _) & -> & ->)]; [by rewrite app_nil_r|].
  pose proof Hi as [W Hh Hn Hv _ _ _ _ _].
  eapply history_step; [exact Hi|exact W'|by destruct b|by destruct b|by destruct b|by destruct b| | | | |].
  - intros v Hv'. apply list_elem_of_singleton in Hv'. injection Hv' as ->. by destruct b.
  - left. split_and!; [by destruct b|by destruct b|]. intros _ [E|E]; congruence.
  - intros r x [(v & [= <-] & [=] & _)|Ha]%asks_cons. by apply asks_nil in Ha.
  - intros r' y [(v & [= <-] & _ & _ & <- & Hy)|Ha]%asks_cons; [|by apply asks_nil in Ha].
    simpl in *. split_and!; [done|done|]. intros z lr Hz Hlr. unfold prevote_hash in Hy. rewrite Hz, Hlr in Hy.
    destruct (bool_decide _) eqn:E; [apply bool_decide_eq_true in E; left; congruence|].
    destruct (p_valid_round p) as [vr|] eqn:Hvr; [|done]. destruct (lr <=? vr) eqn:Ele; [|done].
    right. exists p, b, vr. split_and!; try done; [congruence..|zlia].
  - intros h' x Hc. apply list_elem_of_singleton in Hc. done.
Qed.

Lemma history_on_prevote h n rcv s outs v s' out :
  history h n rcv s outs → EvPrevote v ∈ rcv →
  BftStateMachine_on_prevote v s = (s', out) → history h n rcv s' (outs ++ out).
Proof.
  intros Hi Hin Hp. pose proof Hi as [W Hh Hn Hv _ _ _ _ _].
  pose proof (on_prevote_wf v s W) as W'. rewrite Hp in W'. simpl in W'. revert W' Hp.
  unfold BftStateMachine_on_prevote.
  destruct (_ || _); [intros _ [= <- <-]; by rewrite app_nil_r|].
  destruct (negb _); [intros _ [= <- <-]; by rewrite app_nil_r|].
  set (vs := (VoteSet_add_vote v (rs_prevotes (sm_round_state s))).1).
  assert (∀ ws k w, ws = vs ∨ ws = rs_precommits (sm_round_state s) → vs_votes ws !! k = Some w →
    ∃ e, e ∈ rcv ∧ event_vote e = Some w) as Hv'.
  { intros ws k w [-> | ->] Hk; [|by eapply Hv; [right|]].
    apply add_vote_lookup in Hk as [->|Hk]; [by exists (EvPrevote v)|by eapply Hv; [left|]]. }
  assert (votes_ok Prevote s vs) as Hok by (apply votes_ok_add, W).
  assert (∀ s', bft_wf s' → sm_height s' = sm_height s → sm_validators s' = sm_validators s →
    sm_round s' = sm_round s → rs_prevotes (sm_round_state s') = vs →
    rs_precommits (sm_round_state s') = rs_precommits (sm_round_state s) → lock_kept s s' →
    ∀ out, Forall (λ m, match m with
               | CastVote v => v_block_hash v = None ∧ v_round v = sm_round s'
               | CommitBlock _ _ => False
               | _ => True
               end) out → history h n rcv s' (outs ++ out)) as Hquiet.
  { intros s1 W1 E1 E2 E3 E4 E5 Hl out' Hout. eapply history_quiet; [exact Hi|done|congruence| |lia| |done|done].
    - unfold total_validators. by rewrite E2.
    - rewrite E4, E5. exact Hv'. }
  cbn [sm_step set_prevotes set_round_state sm_round_state rs_prevotes].
  clearbody vs.
  destruct (sm_step s) eqn:Hst.
  1, 2, 5: intros W' [= <- <-]; apply Hquiet; try done; split_and!; try done; simpl; rewrite Hst; intros _ [|]; done.
  - destruct (VoteSet_quorum_block vs) as [x|] eqn:Hq.
    + intros W' [= <- <-].
      pose proof (quorum_heard Prevote rcv s vs x Hok ltac:(intros; eapply Hv'; [by left|done]) Hq) as HQ.
      rewrite Hh, Hn in HQ.
      assert (lock_taken h n rcv (set_step StepPrecommit (set_locked (Some x) (Some (sm_round s))
        (set_valid (Some x) (Some (sm_round s)) (set_prevotes vs s))))) as Hlt by (by exists x).
      eapply history_step; [exact Hi|done|done|done|done|done| |by right| | |].
      * intros w Hw. apply list_elem_of_singleton in Hw. by injection Hw as ->.
      * intros r y [(w & [= <-] & _ & _ & <- & [= <-])|Ha]%asks_cons; [done|by apply asks_nil in Ha].
      * intros r y [(w & [= <-] & [=] & _)|Ha]%asks_cons. by apply asks_nil in Ha.
      * intros h' y Hc. apply list_elem_of_singleton in Hc. done.
    + destruct (VoteSet_has_quorum_for_nil vs); [|destruct (VoteSet_has_two_thirds_any vs)];
        intros W' [= <- <-]; apply Hquiet; try done; try (by repeat constructor);
        split_and!; try done; simpl; rewrite Hst; intros _ [|]; done.
  - destruct (VoteSet_quorum_block vs) as [x|] eqn:Hq; intros W' [= <- <-]; apply Hquiet; try done;
      split_and!; try done; simpl; rewrite Hst; by intros; left.
Qed.

Lemma history_on_precommit h n rcv s outs v s' out :
  history h n rcv s outs → EvPrecommit v ∈ rcv →
  BftStateMachine_on_precommit v s = (s', out) → history h n rcv s' (outs ++ out).
Proof.
  intros Hi Hin Hp. pose proof Hi as [W Hh Hn Hv _ _ _ _ _].
  pose proof (on_precommit_wf v s W) as W'. rewrite Hp in W'. simpl in W'. revert W' Hp.
  unfold BftStateMachine_on_precommit.
  destruct (_ || _); [intros _ [= <- <-]; by rewrite app_nil_r|].
  destruct (negb _); [intros _ [= <- <-]; by rewrite app_nil_r|].
  set (vs := (VoteSet_add_vote v (rs_precommits (sm_round_state s))).1).
  assert (∀ ws k w, ws = rs_prevotes (sm_round_state s) ∨ ws = vs → vs_votes ws !! k = Some w →
    ∃ e, e ∈ rcv ∧ event_vote e = Some w) as Hv'.
  { intros ws k w [-> | ->] Hk; [by eapply Hv; [left|]|].
    apply add_vote_lookup in Hk as [->|Hk]; [by exists (EvPrecommit v)|by eapply Hv; [right|]]. }
  assert (votes_ok Precommit s vs) as Hok by (apply votes_ok_add, W).
  cbn [sm_step set_precommits set_round_state sm_round_state rs_precommits].
  clearbody vs.
  destruct (VoteSet_quorum_block vs) as [x|] eqn:Hq.
  - pose proof (quorum_heard Precommit rcv s vs x Hok ltac:(intros; eapply Hv'; [by right|done]) Hq) as HQ.
    rewrite Hh, Hn in HQ.
    destruct (negb _) eqn:E; intros W' [= <- <-].
    + eapply history_step; [exact Hi|done|done|done|done|done| |left| | |].
      * intros w Hw. by apply list_elem_of_singleton in Hw.
      * split_and!; [done|done|by right].
      * intros r y [(w & [=] & _)|Ha]%asks_cons. by apply asks_nil in Ha.
      * intros r y [(w & [=] & _)|Ha]%asks_cons. by apply asks_nil in Ha.
      * intros h' y Hc. apply list_elem_of_singleton in Hc. by injection Hc as -> ->.
    + by eapply history_quiet.
  - destruct (_ && _); intros W' [= <- <-]; eapply history_quiet; try done; by repeat constructor.
Qed.

Lemma history_on_timeout h n rcv s outs t s' out :
  history h n rcv s outs → sm_round s < U32 - 1 →
  BftStateMachine_on_timeout t s = Some (s', out) → history h n rcv s' (outs ++ out).
Proof.
  intros Hi Hb Hp. pose proof Hi as [W Hh Hn Hv _ _ _ _ _].
  pose proof (on_timeout_wf _ _ _ _ Hb W Hp) as W'. revert W' Hp. unfold BftStateMachine_on_timeout.
  destruct (_ || _); [intros _ [= <- <-]; by rewrite app_nil_r|].
  destruct (te_step t); (destruct (bool_decide _) eqn:Hst; [apply bool_decide_eq_true in Hst|
    intros _ [= <- <-]; by rewrite app_nil_r]).
  - intros W' [= <- <-]. eapply history_quiet; try done; [|by repeat constructor].
    split_and!; try done. rewrite Hst. by intros _ [|].
  - intros W' (first & _ & [= <- <-])%bind_Some. eapply history_quiet; try done; [|by repeat constructor].
    split_and!; try done. by left.
  - pose proof (bft_round _ W). intros W' (nr & Hnr & Heq)%bind_Some.
    rewrite u32_add_ok in Hnr by lia. injection Hnr as <-. unfold BftStateMachine_start_round in Heq.
    injection Heq as <- <-.
    eapply history_quiet; [exact Hi|done|done|done|simpl; lia| | |by repeat constructor].
    + simpl. intros vs k v [-> | ->]; simpl; by rewrite lookup_empty.
    + split_and!; [done|done|]. simpl. lia.
Qed.

Lemma history_exec h n rcv s outs e s' out :
  history h n rcv s outs → e ∈ rcv → stays_at_height e = true → sm_round s < U32 - 1 →
  bft_exec s e = Some (s', out) → history h n rcv s' (outs ++ out).
Proof.
  intros Hi Hin Hst Hr He. destruct e; simpl in *.
  - by eapply history_on_proposal.
  - injection He as He. by eapply history_on_prevote.
  - injection He as He. by eapply history_on_precommit.
  - by eapply history_on_timeout.
  - done.
Qed.

Lemma history_run h n rcv s outs es s' outs' :
  history h n rcv s outs → es ⊆ rcv → forallb stays_at_height es = true →
  sm_round s + Z.of_nat (length es) < U32 → bft_run s es = Some (s', outs') →
  history h n rcv s' (outs ++ outs').
Proof.
  revert s outs outs'. induction es as [|e es IH]; intros s outs outs' Hi Hin Hst Hlen Hrun; simpl in *.
  { simplify_eq. by rewrite app_nil_r. }
  apply bind_Some in Hrun as ([s1 out] & He & Hrun). apply bind_Some in Hrun as ([s2 out2] & Hrun & Heq).
  injection Heq as -> <-. apply andb_true_iff in Hst as [Hst Hsts].
  destruct (bft_exec_wf s e s1 out) as [_ Hr1]; [lia|by apply Hi|done|].
  rewrite app_assoc. apply (IH s1); [|set_solver|done|lia|done].
  apply (history_exec h n rcv s outs e s1 out); [done|apply Hin; left|done|lia|done].
Qed.

(** A machine that has just been moved to a height. *)
Lemma history_start h s rcv :
  history h (total_validators s) rcv (BftStateMachine_advance_height h s).1 [].
Proof.
  pose proof (advance_height_wf h s) as W.
  split; try done.
  - simpl. intros vs k v [-> | ->]; simpl; by rewrite lookup_empty.
  - intros v Hv. by apply elem_of_nil in Hv.
  - intros r x Ha. by apply asks_nil in Ha.
  - intros r x r' y Ha. by apply asks_nil in Ha.
  - intros h' x Hv. by apply elem_of_nil in Hv.
Qed.
End Runs.

(** ** Abstract voting is safe *)

Section Voting_lemmas.
Context {V F : gset bytes} {voted : VoteType → Round → BlockHash → ValidatorId → Prop}.
Hypothesis HV : voting_laws V F voted.
Hypothesis HF : few_faults V F.

(** Two quorums share an honest validator. *)
Lemma quorums_share_honest t1 r1 x1 t2 r2 x2 :
  quorum_voted V voted t1 r1 x1 → quorum_voted V voted t2 r2 x2 →
  ∃ k, (k ∉ F) ∧ voted t1 r1 x1 k ∧ voted t2 r2 x2 k.
Proof.
  intros (A & HA & Ha) (D & HD & Hd).
  assert (Z.of_nat (size F) < Z.of_nat (size (A ∩ D))) as Hlt.
  { pose proof (quorum_intersection V A D HA HD). unfold few_faults in HF.
    assert (size ((A ∪ D) ∖ V) <= size (F ∖ V))%nat; [|lia].
    apply subseteq_size. intros k [Hk Hn]%elem_of_difference.
    assert (k ∈ V ∪ F); [|set_solver]. apply elem_of_union in Hk as [Hk|Hk]; eapply HV; eauto. }
  destruct (decide ((A ∩ D) ∖ F = ∅)) as [Hsub|Hsub].
  - assert (size (A ∩ D) <= size F)%nat; [|lia]. apply subseteq_size. intros k Hk.
    destruct (decide (k ∈ F)); [done|]. set_solver.
  - apply set_choose_L in Hsub as [k [[Hk1 Hk2]%elem_of_intersection Hn]%elem_of_difference].
    exists k. auto.
Qed.

(** Once a block has a quorum of precommits, no other has a quorum of prevotes in that
    round or later. *)
Lemma polkas_follow_commit r x r' y :
  quorum_voted V voted Precommit r x → r <= r' → quorum_voted V voted Prevote r' y → y = x.
Proof.
  intros Hx Hle. remember (Z.to_nat (r' - r)) as m eqn:Hm. revert r' y Hle Hm.
  induction m as [m IH] using lt_wf_ind. intros r' y Hle -> Hy.
  destruct (decide (r' = r)) as [->|Hne].
  - destruct (quorums_share_honest _ _ _ _ _ _ Hx Hx) as (k & Hk & Hkx & _).
    pose proof (vl_precommit _ _ _ HV _ _ _ Hk Hkx) as Hpx.
    destruct (quorums_share_honest _ _ _ _ _ _ Hy Hpx) as (k' & Hk' & H1 & H2).
    by eapply (vl_once _ _ _ HV).
  - destruct (quorums_share_honest _ _ _ _ _ _ Hx Hy) as (k & Hk & Hkx & Hky).
    destruct (vl_lock _ _ _ HV _ _ _ _ _ Hk Hkx Hky) as (lr & z & Hlr & Hz & Hwhy); [lia|].
    assert (∀ r1 w, r <= r1 < r' → quorum_voted V voted Prevote r1 w → w = x) as IH'.
    { intros r1 w Hr1. by apply (IH (Z.to_nat (r1 - r))); [lia..|]. }
    destruct Hwhy as [->|(vr & Hvr & Hyv)]; [by eapply IH'|]. by eapply (IH' vr); [lia|].
Qed.

Lemma voting_safe r1 x1 r2 x2 :
  quorum_voted V voted Precommit r1 x1 → quorum_voted V voted Precommit r2 x2 → x1 = x2.
Proof.
  assert (∀ r1 x1 r2 x2, r1 <= r2 → quorum_voted V voted Precommit r1 x1 →
    quorum_voted V voted Precommit r2 x2 → x2 = x1) as Hw.
  { intros s1 y1 s2 y2 Hle H1 H2.
    destruct (quorums_share_honest _ _ _ _ _ _ H2 H2) as (k & Hk & Hk2 & _).
    eapply polkas_follow_commit; [exact H1|exact Hle|]. by eapply (vl_precommit _ _ _ HV). }
  intros H1 H2. destruct (decide (r1 <= r2)); [symmetry; by apply (Hw r1 x1 r2 x2)|].
  apply (Hw r2 x2 r1 x1); [lia|done|done].
Qed.
End Voting_lemmas.

(** ** Networks of honest machines are voters *)

Lemma omap_nodup_inj {X Y} (f : X → option Y) l a b k :
  NoDup (omap f l) → a ∈ l → b ∈ l → f a = Some k → f b = Some k → a = b.
Proof.
  induction l as [|c l IH]; intros Hnd Ha Hb Hfa Hfb; [by apply elem_of_nil in Ha|].
  assert (∀ d, d ∈ l → f d = Some k → k ∈ omap f l) as Hk.
  { intros d ? ?. apply list_elem_of_omap. eauto. }
  apply elem_of_cons in Ha as [->|Ha], Hb as [->|Hb]; simpl in Hnd; [done|..].
  - rewrite Hfa in Hnd. apply NoDup_cons in Hnd as [Hn _]. by destruct Hn; eapply Hk.
  - rewrite Hfb in Hnd. apply NoDup_cons in Hnd as [Hn _]. by destruct Hn; eapply Hk.
  - apply IH; try done. destruct (f c); [by apply NoDup_cons in Hnd as [_ ?]|done].
Qed.

Section Network_lemmas.
Context {C : Crypto} {B : Bincode} {h : Height} {vals : list ValidatorId}.
Context {nodes : list honest_node} {F : gset bytes}.
Hypothesis Hvals : NoDup vals.
Hypothesis Hkeys : NoDup (hn_key <$> nodes).
Hypothesis Hruns : Forall (honest_run h vals) nodes.
Hypothesis Hunforged : unforged h nodes F.

Lemma same_key nd1 nd2 : nd1 ∈ nodes → nd2 ∈ nodes → hn_key nd1 = hn_key nd2 → nd1 = nd2.
Proof.
  intros [i Hi]%list_elem_of_lookup [j Hj]%list_elem_of_lookup Hk.
  assert (i = j) as <-; [|congruence].
  eapply (NoDup_lookup _ i j (hn_key nd1)); [exact Hkeys|by rewrite list_lookup_fmap, Hi|].
  by rewrite list_lookup_fmap, Hj, Hk.
Qed.

Lemma node_history nd :
  nd ∈ nodes →
  history h (Z.of_nat (length vals)) (hn_events nd) (hn_after nd) (hn_outs nd) ∧
  NoDup (omap key_of (hn_outs nd)).
Proof.
  intros Hin. destruct (proj1 (Forall_forall _ _) Hruns nd Hin) as (HL & Hv & _ & Hlen & Hst & Hrun).
  split.
  - rewrite <-Hv. apply (history_run (OC := hn_checks nd) (HO := hn_order nd) h _ _
      (BftStateMachine_advance_height h (hn_before nd)).1 [] (hn_events nd)); try done.
    apply history_start.
  - destruct (bft_run_progress (OC := hn_checks nd) (HO := hn_order nd) _ _ _ _
      (advance_height_wf h (hn_before nd)) Hlen (advancing_stays _ _ Hst) Hrun) as (_ & _ & ? & _). done.
Qed.

Lemma heard_is_voted nd t r x :
  nd ∈ nodes → heard_quorum (Z.of_nat (length vals)) (hn_events nd) t h r x →
  quorum_voted (list_to_set vals) (signed h nodes F) t r x.
Proof.
  intros Hin (voters & Hq & Hh). exists voters. split; [by rewrite size_list_to_set|].
  intros k Hk. destruct (Hh k Hk) as (e & v & He & Hev & <- & Hv & Hver). by eapply Hunforged.
Qed.

Lemma network_votes :
  valid_rounds_true h vals nodes F → voting_laws (list_to_set vals) F (signed h nodes F).
Proof.
  intros Htrue. split.
  - intros t r x k [Hk|(nd & Hin & <- & _)]; [set_solver|].
    destruct (proj1 (Forall_forall _ _) Hruns nd Hin) as (_ & _ & ? & _).
    apply elem_of_union_l. by apply elem_of_list_to_set.
  - intros r x y k Hk [?|(nd1 & Hin1 & Hk1 & v1 & Hv1 & Ht1 & Hh1 & Hr1 & Hx1)]; [done|].
    intros [?|(nd2 & Hin2 & Hk2 & v2 & Hv2 & Ht2 & Hh2 & Hr2 & Hx2)]; [done|].
    assert (nd1 = nd2) as <- by (apply same_key; congruence).
    destruct (node_history nd1 Hin1) as [_ Hnd].
    assert (CastVote v1 = CastVote v2) as [= <-]; [|congruence].
    eapply (omap_nodup_inj key_of _ _ _ (KeyVote Prevote h r) Hnd); simpl; congruence.
  - intros r x k Hk [?|(nd & Hin & Hkn & Ha)]; [done|].
    destruct (node_history nd Hin) as [Hi _]. eapply heard_is_voted; [done|]. by eapply hi_precommits.
  - intros r r' x y k Hk [?|(nd1 & Hin1 & Hk1 & Ha1)]; [done|].
    intros [?|(nd2 & Hin2 & Hk2 & Ha2)] Hlt; [done|].
    assert (nd1 = nd2) as <- by (apply same_key; congruence).
    destruct (node_history nd1 Hin1) as [Hi _].
    destruct (hi_prevotes _ _ _ _ _ Hi r x r' y Ha1 Ha2 Hlt) as (lr & z & Hlr & HQ & Hwhy).
    exists lr, z. split; [done|]. split; [by eapply heard_is_voted|].
    destruct Hwhy as [->|(p & b & vr & Hp & Hph & Hpr & Hpx & Hvr & ?)]; [by left|right].
    destruct (Htrue nd1 p b vr) as [Hb Hqv]; [done..|]. rewrite Hpx in Hqv. exists vr. split; [lia|done].
Qed.
End Network_lemmas.

(** All commits of the machines are of one block. *)
Lemma machines_agree {C : Crypto} {B : Bincode} (h : Height) (vals : list ValidatorId)
    (nodes : list honest_node) (F : gset bytes) :
  NoDup vals → NoDup (hn_key <$> nodes) → Forall (honest_run h vals) nodes →
  few_faults (list_to_set vals) F → unforged h nodes F → valid_rounds_true h vals nodes F →
  ∀ nd1 nd2 h1 h2 x1 x2, nd1 ∈ nodes → nd2 ∈ nodes →
    CommitBlock h1 x1 ∈ hn_outs nd1 → CommitBlock h2 x2 ∈ hn_outs nd2 →
    h1 = h ∧ h2 = h ∧ x1 = x2.
Proof.
  intros Hvals Hkeys Hruns Hfew Hunf Htrue nd1 nd2 h1 h2 x1 x2 Hn1 Hn2 Hc1 Hc2.
  destruct (node_history Hruns nd1 Hn1) as [Hi1 _], (node_history Hruns nd2 Hn2) as [Hi2 _].
  destruct (hi_commits _ _ _ _ _ Hi1 h1 x1 Hc1) as (-> & r1 & Hq1).
  destruct (hi_commits _ _ _ _ _ Hi2 h2 x2 Hc2) as (-> & r2 & Hq2).
  split_and!; [done|done|].
  eapply (voting_safe (network_votes Hvals Hkeys Hruns Hunf Htrue) Hfew r1 x1 r2 x2).
  - exact (heard_is_voted Hvals Hunf nd1 _ _ _ Hn1 Hq1).
  - exact (heard_is_voted Hvals Hunf nd2 _ _ _ Hn2 Hq2).
Qed.

(** The hypotheses, decided. *)
Section Checks.
Context (h : Height) (F : gset bytes) (nodes : list honest_node).

Definition signed_bool (t : VoteType) (r : Round) (x : BlockHash) (k : ValidatorId) : bool :=
  bool_decide (k ∈ F) ||
  existsb (λ nd, bool_decide (hn_key nd = k) &&
    existsb (λ m, match m with CastVote v => bool_decide (vote_is t h r x v) | _ => false end) (hn_outs nd))
    nodes.
Definition event_signed (e : bft_event) : bool :=
  match event_vote e with
  | Some v =>
    match v_block_hash v with
    | Some x => negb (v_height v =? h) || signed_bool (v_vote_type v) (v_round v) x (v_validator v)
    | None => true
    end
  | None => true
  end.

Lemma signed_bool_sound t r x k : signed_bool t r x k = true → signed h nodes F t r x k.
Proof.
  unfold signed_bool. intros [Hk|Hs]%orb_true_iff; [left; by apply bool_decide_eq_true in Hk|right].
  apply existsb_exists in Hs as (nd & Hin & [Hk Ha]%andb_true_iff).
  apply existsb_exists in Ha as (m & Hm & Hv). exists nd. apply list_elem_of_In in Hin, Hm.
  split; [done|]. split; [by apply bool_decide_eq_true in Hk|].
  destruct m; try done. exists vote. split; [done|by apply bool_decide_eq_true in Hv].
Qed.

Definition events_signed : bool := forallb (λ nd, forallb event_signed (hn_events nd)) nodes.
Lemma unforged_check {C : Crypto} : events_signed = true → unforged h nodes F.
Proof.
  unfold events_signed.
  intros Hall nd e v t r x Hin He Hev _ (<- & Hh & <- & Hx). rewrite forallb_forall in Hall.
  apply list_elem_of_In in Hin. specialize (Hall nd Hin). rewrite forallb_forall in Hall.
  apply list_elem_of_In in He. specialize (Hall e He). unfold event_signed in Hall.
  rewrite Hev, Hx, Hh, Z.eqb_refl in Hall. by apply signed_bool_sound.
Qed.

Lemma quorum_check (V voters : gset bytes) t r x :
  2 * Z.of_nat (size V) < 3 * Z.of_nat (size voters) →
  forallb (signed_bool t r x) (elements voters) = true → quorum_voted V (signed h nodes F) t r x.
Proof.
  intros Hq Hall. exists voters. split; [done|]. intros k Hk. rewrite forallb_forall in Hall.
  apply signed_bool_sound, Hall, list_elem_of_In. by apply elem_of_elements.
Qed.

Definition proposal_true (voters : gset bytes) (e : bft_event) : bool :=
  match e with
  | EvProposal p _ =>
    match p_valid_round p with
    | Some vr => (vr <? p_round p) && forallb (signed_bool Prevote vr (p_block_hash p)) (elements voters)
    | None => true
    end
  | _ => true
  end.
Definition proposals_true (voters : gset bytes) : bool :=
  forallb (λ nd, forallb (proposal_true voters) (hn_events nd)) nodes.
Lemma valid_rounds_check (vals : list ValidatorId) (voters : gset bytes) :
  2 * Z.of_nat (size (list_to_set vals : gset bytes)) < 3 * Z.of_nat (size voters) →
  proposals_true voters = true → valid_rounds_true h vals nodes F.
Proof.
  intros Hq Hall nd p b vr Hin He _ Hvr. unfold proposals_true in Hall. rewrite forallb_forall in Hall.
  apply list_elem_of_In in Hin. specialize (Hall nd Hin). rewrite forallb_forall in Hall.
  apply list_elem_of_In in He. specialize (Hall _ He). simpl in Hall. rewrite Hvr in Hall.
  apply andb_true_iff in Hall as [Hlt Hs]. split; [zlia|]. by apply quorum_check with voters.
Qed.

(** The votes of [F] among the events. *)
Definition faulty_votes : list Vote :=
  filter (λ v, v_validator v ∈ F) (omap event_vote (nodes ≫= hn_events)).
Definition no_double_vote : Prop :=
  ∀ v1 v2, v1 ∈ faulty_votes → v2 ∈ faulty_votes → v_validator v1 = v_validator v2 →
    v_vote_type v1 = v_vote_type v2 → v_height v1 = v_height v2 → v_round v1 = v_round v2 →
    v_block_hash v1 = v_block_hash v2.
Definition vote_compatible (v1 v2 : Vote) : bool :=
  negb (bool_decide (v_validator v1 = v_validator v2 ∧ v_vote_type v1 = v_vote_type v2 ∧
    v_height v1 = v_height v2 ∧ v_round v1 = v_round v2)) || bool_decide (v_block_hash v1 = v_block_hash v2).
Definition pairwise_compatible (vs : list Vote) : bool :=
  forallb (λ v1, forallb (vote_compatible v1) vs) vs.
Lemma no_double_vote_check : pairwise_compatible faulty_votes = true → no_double_vote.
Proof.
  unfold pairwise_compatible. intros Hall v1 v2 H1 H2 Hk Ht Hh Hr. rewrite forallb_forall in Hall.
  apply list_elem_of_In in H1, H2. specialize (Hall v1 H1). rewrite forallb_forall in Hall.
  specialize (Hall v2 H2). unfold vote_compatible in Hall.
  rewrite bool_decide_eq_true_2 in Hall by done. simpl in Hall. by apply bool_decide_eq_true in Hall.
Qed.
End Checks.

(** * Examples *)

(** Four validators at height 3.  The last proposes [key32 70] in round 0; the second
    commits it there.  The others miss a precommit, go to round 1 and get a proposal
    for [y] from the first validator, which is faulty: all it does is not to precommit
    in round 0, and to name round 0 in its proposal. *)
Definition split_block : BlockHash := key32 70.
Definition split_other_block : BlockHash := key32 71.
Definition split_vote (t : VoteType) (r : Round) (x : option BlockHash) (k : Z) : Vote :=
  Vote_new (C := toy_crypto) t 3 r x (key32 k).
Definition split_first_round : list bft_event :=
  EvProposal (mkProposal 3 0 split_block (toy_key (key32 4)) [] None) None ::
  (EvPrevote ∘ split_vote Prevote 0 (Some split_block) <$> [2; 3; 4]).
Definition split_early : list bft_event :=
  split_first_round ++ (EvPrecommit ∘ split_vote Precommit 0 (Some split_block) <$> [2; 3; 4]).
Definition split_late (y : BlockHash) : list bft_event :=
  split_first_round ++
  [EvPrecommit (split_vote Precommit 0 (Some split_block) 3);
   EvPrecommit (split_vote Precommit 0 (Some split_block) 4);
   EvPrecommit (split_vote Precommit 0 None 1);
   EvTimeout (mkTimeoutEvent 3 0 TimeoutPrecommit);
   EvProposal (mkProposal 3 1 y (toy_key (key32 1)) [] (Some 0)) None] ++
  (EvPrevote ∘ split_vote Prevote 1 (Some y) <$> [1; 3; 4]) ++
  (EvPrecommit ∘ split_vote Precommit 1 (Some y) <$> [1; 3; 4]).
Definition split_node (k : Z) (es : list bft_event) : honest_node :=
  let before := BftStateMachine_new 3 demo_keys (Some (k - 1)) TimeoutConfig_default in
  let r := default (before, []) (bft_run (OC := debug_build) (C := toy_crypto) (B := toy_bincode)
             (HO := forward_order) (BftStateMachine_advance_height 3 before).1 es) in
  mkHonestNode (toy_key (key32 k)) debug_build forward_order before es r.1 r.2.
Definition split_nodes (y : BlockHash) : list honest_node :=
  [split_node 2 split_early; split_node 3 (split_late y); split_node 4 (split_late y)].
Definition split_faulty : gset bytes := {[toy_key (key32 1)]}.

Definition split_node_check (k : Z) (es : list bft_event) : bool :=
  bool_decide (toy_key (key32 k) ∈ demo_keys) && (Z.of_nat (length es) <? U32) && forallb stays_at_height es &&
  match bft_run (OC := debug_build) (C := toy_crypto) (B := toy_bincode) (HO := forward_order)
    (BftStateMachine_advance_height 3 (BftStateMachine_new 3 demo_keys (Some (k - 1)) TimeoutConfig_default)).1 es with
  | Some _ => true
  | None => false
  end.
Lemma split_node_honest k es :
  split_node_check k es = true →
  honest_run (C := toy_crypto) (B := toy_bincode) 3 demo_keys (split_node k es).
Proof.
  unfold split_node_check. intros [[[Hk Hlen]%andb_true_iff Hst]%andb_true_iff Hrun]%andb_true_iff.
  apply bool_decide_eq_true in Hk. apply Z.ltb_lt in Hlen.
  split; [exact forward_order_laws|]. split; [reflexivity|]. split; [exact Hk|]. split; [exact Hlen|].
  split; [exact Hst|]. unfold split_node. cbn [hn_checks hn_order hn_before hn_events hn_after hn_outs].
  destruct (bft_run _ es) as [[s out]|]; [reflexivity|discriminate].
Qed.

(** What holds whichever block the faulty validator proposes. *)
Lemma split_network (y : BlockHash) :
  y = split_block ∨ y = split_other_block →
  NoDup demo_keys ∧ NoDup (hn_key <$> split_nodes y) ∧
  Forall (honest_run (C := toy_crypto) (B := toy_bincode) 3 demo_keys) (split_nodes y) ∧
  few_faults (list_to_set demo_keys) split_faulty ∧
  unforged (C := toy_crypto) 3 (split_nodes y) split_faulty.
Proof.
  intros Hy. split; [|split; [|split; [|split]]].
  - apply (bool_decide_unpack _). vm_compute. exact I.
  - change (NoDup ((λ k, toy_key (key32 k)) <$> [2; 3; 4])). apply (bool_decide_unpack _). vm_compute. exact I.
  - unfold split_nodes. rewrite !Forall_cons, Forall_nil.
    split; [apply split_node_honest; vm_compute; reflexivity|].
    split; [apply split_node_honest; destruct Hy as [-> | ->]; vm_compute; reflexivity|].
    split; [apply split_node_honest; destruct Hy as [-> | ->]; vm_compute; reflexivity|exact I].
  - vm_compute. discriminate.
  - apply unforged_check. destruct Hy as [-> | ->]; vm_compute; reflexivity.
Qed.

Lemma split_commits (y : BlockHash) :
  y = split_block ∨ y = split_other_block →
  CommitBlock 3 split_block ∈ hn_outs (split_node 2 split_early) ∧
  CommitBlock 3 y ∈ hn_outs (split_node 3 (split_late y)) ∧
  CommitBlock 3 y ∈ hn_outs (split_node 4 (split_late y)).
Proof.
  assert (∀ m l, existsb (λ c, match c, m with CommitBlock h x, CommitBlock h' x' => bool_decide (h = h' ∧ x = x')
    | _, _ => false end) l = true → m ∈ l) as Hin.
  { intros m l (c & Hc & Heq)%existsb_exists. apply list_elem_of_In in Hc. destruct c, m; try done.
    by apply bool_decide_eq_true in Heq as [-> ->]. }
  intros Hy. split_and!; apply Hin; destruct Hy as [-> | ->]; vm_compute; reflexivity.
Qed.

(** * Properties *)

(** C7: agreement over a whole height.  Take the complete runs of any number of honest
    machines at one height, in any builds and with any hash seeds, over events delivered
    in any order, late, repeated or never; let the other voters with a verifying vote be
    at most a third of the validators (a voter from outside of the set counting twice), signatures of honest keys be unforged, and every [valid_round] named by a
    proposal be an earlier round with a quorum of prevotes for the block.  Then all
    commits of all these machines, in whatever rounds, are of one block. *)
Theorem height_agreement {C : Crypto} {B : Bincode} (h : Height) (vals : list ValidatorId)
    (nodes : list honest_node) (F : gset bytes) :
  NoDup vals → NoDup (hn_key <$> nodes) → Forall (honest_run h vals) nodes →
  few_faults (list_to_set vals) F → unforged h nodes F → valid_rounds_true h vals nodes F →
  ∀ nd1 nd2 h1 h2 x1 x2, nd1 ∈ nodes → nd2 ∈ nodes →
    CommitBlock h1 x1 ∈ hn_outs nd1 → CommitBlock h2 x2 ∈ hn_outs nd2 →
    h1 = h ∧ h2 = h ∧ x1 = x2.
Proof.
  intros Hvals Hkeys Hruns Hfew Hunf Htrue. by apply (machines_agree h vals nodes F).
Qed.

Definition demo_honest_voters : gset bytes := list_to_set ((λ k, toy_key (key32 k)) <$> [2; 3; 4]).
Lemma height_agreement_witness :
  (CommitBlock 3 split_block ∈ hn_outs (split_node 2 split_early) ∧
   CommitBlock 3 split_block ∈ hn_outs (split_node 3 (split_late split_block)) ∧
   CommitBlock 3 split_block ∈ hn_outs (split_node 4 (split_late split_block))) ∧
  ∀ nd1 nd2 h1 h2 x1 x2, nd1 ∈ split_nodes split_block → nd2 ∈ split_nodes split_block →
    CommitBlock h1 x1 ∈ hn_outs nd1 → CommitBlock h2 x2 ∈ hn_outs nd2 → h1 = 3 ∧ h2 = 3 ∧ x1 = x2.
Proof.
  split; [exact (split_commits split_block (or_introl eq_refl))|].
  destruct (split_network split_block (or_introl eq_refl)) as (Hvals & Hkeys & Hruns & Hfew & Hunf).
  refine (height_agreement (C := toy_crypto) (B := toy_bincode) 3 demo_keys (split_nodes split_block)
    split_faulty Hvals Hkeys Hruns Hfew Hunf _).
  apply valid_rounds_check with demo_honest_voters; vm_compute; reflexivity.
Defined.

(** C23: the premise on [valid_round] is needed, and nothing in the code provides it: with
    four validators, one of them faulty, and every other hypothesis of the agreement
    theorem, two honest machines commit different blocks at one height.  The faulty
    validator signs no two votes for different blocks, so that no evidence of it exists;
    its proposal in round 1 merely claims a [valid_round] of 0, and the machines that
    are locked on the other block unlock. *)
Theorem one_false_valid_round_splits :
  ∃ (C : Crypto) (B : Bincode) (h : Height) (vals : list ValidatorId) (nodes : list honest_node)
    (F : gset bytes) (nd1 nd2 : honest_node) (x1 x2 : BlockHash),
    CryptoLaws C ∧ NoDup vals ∧ NoDup (hn_key <$> nodes) ∧ Forall (honest_run h vals) nodes ∧
    few_faults (list_to_set vals) F ∧ unforged h nodes F ∧
    length vals = 4%nat ∧ size F = 1%nat ∧ no_double_vote F nodes ∧
    nd1 ∈ nodes ∧ nd2 ∈ nodes ∧
    CommitBlock h x1 ∈ hn_outs nd1 ∧ CommitBlock h x2 ∈ hn_outs nd2 ∧ x1 ≠ x2.
Proof.
  destruct (split_network split_other_block (or_intror eq_refl)) as (Hvals & Hkeys & Hruns & Hfew & Hunf).
  destruct (split_commits split_other_block (or_intror eq_refl)) as (Hc1 & Hc2 & _).
  exists toy_crypto, toy_bincode, 3, demo_keys, (split_nodes split_other_block), split_faulty,
    (split_node 2 split_early), (split_node 3 (split_late split_other_block)), split_block, split_other_block.
  split; [exact toy_crypto_laws|]. do 5 (split; [assumption|]). split; [reflexivity|].
  split; [vm_compute; reflexivity|]. split; [apply no_double_vote_check; vm_compute; reflexivity|].
  split; [left|]. split; [right; left|]. split; [exact Hc1|]. split; [exact Hc2|]. vm_compute. discriminate.
Qed.
