(* ===== verification/State.v ===== *)
(** * The account state (runtime/state)

    Accounts with balances and nonces, the execution of transfers and of blocks of
    them, the state root, and saving and loading.  [serde_json] and [hex] are
    parameters. *)
From stdpp Require Import pretty.
From S2P Require Import Prelude Crypto Block.
Open Scope Z_scope.

(** ** types.rs *)

Inductive StateError :=
| StateError_InsufficientBalance (needed available : Z)
| StateError_InvalidNonce (expected got : Z)
| StateError_AccountNotFound
| StateError_Overflow
| StateError_Io (msg : string)
| StateError_Json (msg : string).

(** The [Display] that [thiserror] derives from the attributes. *)
Definition StateError_to_string (e : StateError) : string :=
  match e with
  | StateError_InsufficientBalance needed available =>
    "insufficient balance: need " +:+ pretty needed +:+ ", have " +:+ pretty available
  | StateError_InvalidNonce expected got =>
    "invalid nonce: expected " +:+ pretty expected +:+ ", got " +:+ pretty got
  | StateError_AccountNotFound => "account not found"
  | StateError_Overflow => "arithmetic overflow"
  | StateError_Io msg => "I/O error: " +:+ msg
  | StateError_Json msg => "JSON error: " +:+ msg
  end.

Record TransactionReceipt := mkTransactionReceipt {
  rc_tx_hash : bytes;
  rc_success : bool;
  rc_fee_paid : Z;
  rc_error : option string;
}.

(** ** accounts.rs *)

Record AccountState := mkAccountState {
  balance : Z;
  nonce : Z;
}.

Definition AccountState_default : AccountState := mkAccountState 0 0.
Definition AccountState_new (balance : Z) : AccountState := mkAccountState balance 0.

(** [StateDB] is a struct with the one field [accounts]. *)
Abbreviation StateDB := (gmap bytes AccountState) (only parsing).

Section Accounts.
Context {OC : OverflowChecks}.

Definition AccountState_debit (amount : Z) (a : AccountState) :
    may_panic (AccountState * result StateError unit) :=
  if balance a <? amount then
    Some (a, Err (StateError_InsufficientBalance amount (balance a)))
  else
    b ← u64_sub (balance a) amount;
    Some (mkAccountState b (nonce a), Ok tt).

Definition AccountState_credit (amount : Z) (a : AccountState) :
    AccountState * result StateError unit :=
  match u64_checked_add (balance a) amount with
  | None => (a, Err StateError_Overflow)
  | Some b => (mkAccountState b (nonce a), Ok tt)
  end.

Definition AccountState_increment_nonce (a : AccountState) : may_panic AccountState :=
  n ← u64_add (nonce a) 1;
  Some (mkAccountState (balance a) n).

(** ** state_db.rs *)

Definition StateDB_new : StateDB := ∅.
Definition StateDB_get_account (pubkey : bytes) (db : StateDB) : option AccountState := db !! pubkey.
(** The account and the state in which it exists. *)
Definition StateDB_get_or_create_account (pubkey : bytes) (db : StateDB) : StateDB * AccountState :=
  match db !! pubkey with
  | Some a => (db, a)
  | None => (<[pubkey := AccountState_default]> db, AccountState_default)
  end.
Definition StateDB_set_account (pubkey : bytes) (state : AccountState) (db : StateDB) : StateDB :=
  <[pubkey := state]> db.

Definition StateDB_apply_transfer (from to : bytes) (amount expected_nonce : Z) (db : StateDB) :
    may_panic (StateDB * result StateError unit) :=
  match db !! from with
  | None => Some (db, Err StateError_AccountNotFound)
  | Some sender =>
    if negb (nonce sender =? expected_nonce) then
      Some (db, Err (StateError_InvalidNonce (nonce sender) expected_nonce))
    else if balance sender <? amount then
      Some (db, Err (StateError_InsufficientBalance amount (balance sender)))
    else if bool_decide (from = to) then
      sender ← AccountState_increment_nonce sender;
      Some (<[from := sender]> db, Ok tt)
    else
      '(sender, r) ← AccountState_debit amount sender;
      let db := <[from := sender]> db in
      match r with
      | Err e => Some (db, Err e)
      | Ok _ =>
        sender ← AccountState_increment_nonce sender;
        let db := <[from := sender]> db in
        let '(db, receiver) := StateDB_get_or_create_account to db in
        let '(receiver, r) := AccountState_credit amount receiver in
        Some (<[to := receiver]> db, r)
      end
  end.
End Accounts.

(** [serde_json::to_vec], which does not fail on these types; the text of a map with
    its entries in the order given, and [from_str] of it; [hex]. *)
Class Serde := {
  json_account : AccountState → bytes;
  json_transaction : Transaction → bytes;
  json_accounts : list (string * AccountState) → bytes;
  json_parse_accounts : bytes → result string (gmap string AccountState);
  hex_encode : bytes → string;
  hex_decode : string → result string bytes;
}.
Class SerdeLaws (S : Serde) := {
  json_parse_print l : NoDup l.*1 → json_parse_accounts (json_accounts l) = Ok (list_to_map l);
  hex_decode_encode b : hex_decode (hex_encode b) = Ok b;
}.

Section StateDB.
Context {OC : OverflowChecks} {C : Crypto} {S : Serde} {HO : HashOrder}.

Definition StateDB_hash_transaction (tx : Transaction) : bytes := sha256 (json_transaction tx).

Definition receipt_of (tx : Transaction) (r : result StateError unit) : TransactionReceipt :=
  match r with
  | Ok _ => mkTransactionReceipt (StateDB_hash_transaction tx) true 0 None
  | Err e => mkTransactionReceipt (StateDB_hash_transaction tx) false 0 (Some (StateError_to_string e))
  end.

(** One round of the loop of [apply_block]. *)
Definition apply_transaction (s : StateDB * list TransactionReceipt) (tx : Transaction) :
    may_panic (StateDB * list TransactionReceipt) :=
  '(db, r) ← StateDB_apply_transfer (tx_from tx) (tx_to tx) (tx_amount tx) (tx_nonce tx) s.1;
  Some (db, s.2 ++ [receipt_of tx r]).

Definition StateDB_apply_block (transactions : list Transaction) (db : StateDB) :
    may_panic (StateDB * list TransactionReceipt) :=
  fold_may_panic apply_transaction (db, []) transactions.

Definition StateDB_compute_state_root (db : StateDB) : bytes :=
  let entries := sort_by (cmp_on fst bytes_cmp) (hash_iter db) in
  sha256 (concat ((λ e, e.1 ++ json_account e.2) <$> entries)).

Definition StateDB_account_count (db : StateDB) : nat := size db.

Definition StateDB_total_supply (db : StateDB) : may_panic Z :=
  u64_sum (balance <$> hash_values db).

(** [save_to_file]: the text written, given the outcome of the write. *)
Definition save_text (db : StateDB) : bytes :=
  let hex_map : gmap string AccountState :=
    list_to_map ((λ e, (hex_encode e.1, e.2)) <$> hash_iter db) in
  json_accounts (hash_iter hex_map).
Definition StateDB_save_to_file (write : bytes → result string unit) (db : StateDB) :
    result StateError unit :=
  match write (save_text db) with
  | Ok u => Ok u
  | Err msg => Err (StateError_Io msg)
  end.

(** The loop of [load_from_file]. *)
Fixpoint load_entries (entries : list (string * AccountState)) (accounts : StateDB) :
    result StateError StateDB :=
  match entries with
  | [] => Ok accounts
  | (hex_key, state) :: entries =>
    match hex_decode hex_key with
    | Err msg => Err (StateError_Json msg)
    | Ok b =>
      if negb (length b =? 32)%nat then
        Err (StateError_Json ("invalid key length: expected 32 bytes, got " +:+ pretty (length b)))
      else load_entries entries (<[b := state]> accounts)
    end
  end.

(** [load_from_file], of what the file held. *)
Definition StateDB_load_from_file (data : result string bytes) : result StateError StateDB :=
  match data with
  | Err msg => Err (StateError_Io msg)
  | Ok text =>
    match json_parse_accounts text with
    | Err msg => Err (StateError_Json msg)
    | Ok hex_map => load_entries (hash_iter hex_map) ∅
    end
  end.
End StateDB.

(** ** Specification *)

(** The exact supply: no machine integers. *)
Definition supply (db : StateDB) : Z := map_zsum balance db.
Definition nonce_of (k : bytes) (db : StateDB) : Z := from_option nonce 0 (db !! k).

(** Balances are nonnegative, the supply fits [u64], and nonces can still grow by
    [room]. *)
Record StateDB_wf (room : Z) (db : StateDB) : Prop := {
  db_accounts : map_Forall (λ _ a, 0 <= balance a ∧ 0 <= nonce a ∧ nonce a + room < U64) db;
  db_supply : supply db < U64;
}.

(** The transactions of a block that succeeded. *)
Definition successes (txs : list Transaction) (receipts : list TransactionReceipt) : list Transaction :=
  (filter (λ p, p.2 = true) (zip txs (rc_success <$> receipts))).*1.

(** A transfer on exact integers. *)
Definition transfer_spec (from to : bytes) (amount expected_nonce : Z) (db : StateDB) :
    StateDB * result StateError unit :=
  match db !! from with
  | None => (db, Err StateError_AccountNotFound)
  | Some s =>
    if negb (nonce s =? expected_nonce) then (db, Err (StateError_InvalidNonce (nonce s) expected_nonce))
    else if balance s <? amount then (db, Err (StateError_InsufficientBalance amount (balance s)))
    else if bool_decide (from = to) then (<[from := mkAccountState (balance s) (nonce s + 1)]> db, Ok tt)
    else
      let r := default AccountState_default (db !! to) in
      (<[to := mkAccountState (balance r + amount) (nonce r)]>
        (<[from := mkAccountState (balance s - amount) (nonce s + 1)]> db), Ok tt)
  end.

(** * Lemmas *)

Section TransferLemmas.
Context {OC : OverflowChecks}.
Implicit Types (db : StateDB).

Lemma db_balance_nonneg room db k a : StateDB_wf room db → db !! k = Some a → 0 <= balance a.
Proof. intros [Hdb _] Hk. by apply (Hdb _ _ Hk). Qed.

Lemma db_balance_le room db k a : StateDB_wf room db → db !! k = Some a → balance a <= supply db.
Proof. intros Hwf Hk. eapply map_zsum_lookup_le; [|done]. intros. by eapply db_balance_nonneg. Qed.

Lemma db_balance_two_le room db k1 k2 a1 a2 :
  StateDB_wf room db → k1 ≠ k2 → db !! k1 = Some a1 → db !! k2 = Some a2 →
  balance a1 + balance a2 <= supply db.
Proof. intros Hwf ? ? ?. eapply map_zsum_two_le; [|done..]. intros. by eapply db_balance_nonneg. Qed.

(** While the supply fits, the transfer of the code is the exact one: in particular
    the credit cannot overflow after the debit. *)
Lemma apply_transfer_eq room from to amount n db :
  StateDB_wf room db → 0 < room → u64 amount →
  StateDB_apply_transfer from to amount n db = Some (transfer_spec from to amount n db).
Proof.
  intros Hwf Hroom Ha. unfold StateDB_apply_transfer, transfer_spec.
  destruct (db !! from) as [s|] eqn:Hs; [|done]. destruct (negb _); [done|].
  destruct (balance s <? amount) eqn:Hb; [done|].
  destruct (db_accounts _ _ Hwf _ _ Hs) as (? & ? & ?).
  pose proof (db_balance_le _ _ _ _ Hwf Hs). pose proof (db_supply _ _ Hwf).
  unfold AccountState_increment_nonce, AccountState_debit. rewrite Hb.
  destruct (bool_decide (from = to)) eqn:Hft.
  { rewrite u64_add_ok by zlia. done. }
  apply bool_decide_eq_false in Hft. rewrite u64_sub_ok by zlia. simpl.
  rewrite u64_add_ok by zlia. simpl. unfold StateDB_get_or_create_account, AccountState_credit.
  rewrite insert_insert_eq, lookup_insert_ne by done.
  destruct (db !! to) as [r|] eqn:Hr; simpl; unfold u64_checked_add.
  - pose proof (db_balance_two_le _ _ _ _ _ _ Hwf Hft Hs Hr). pose proof (db_balance_nonneg _ _ _ _ Hwf Hr).
    by rewrite (proj2 (checked_Some _ _ (balance r + amount))) by (split; [zlia|done]).
  - rewrite (proj2 (checked_Some _ _ (0 + amount))) by (split; [zlia|done]). simpl.
    by rewrite insert_insert_eq.
Qed.

(** It moves money and makes none, and uses one nonce when it succeeds. *)
Lemma transfer_spec_wf room from to amount n db db' r :
  StateDB_wf (room + 1) db → 0 <= room → 0 <= amount → transfer_spec from to amount n db = (db', r) →
  StateDB_wf room db' ∧ supply db' = supply db ∧
  (∀ k, nonce_of k db' = nonce_of k db + (if is_ok r && bool_decide (k = from) then 1 else 0)) ∧
  (is_ok r = true → n = nonce_of from db) ∧ (is_ok r = false → db' = db).
Proof.
  intros Hwf Hroom Ha. pose proof Hwf as [Hdb Hsup].
  assert (map_Forall (λ _ a, 0 <= balance a ∧ 0 <= nonce a ∧ nonce a + room < U64) db) as Hdb'.
  { intros k a Hk. destruct (Hdb k a Hk) as (?&?&?). lia. }
  unfold transfer_spec. destruct (db !! from) as [s|] eqn:Hs.
  2: { intros [= <- <-]. simpl. split_and!; [by split|done|lia|done|done]. }
  destruct (negb (nonce s =? n)) eqn:Hn.
  { intros [= <- <-]. simpl. split_and!; [by split|done|lia|done|done]. }
  destruct (balance s <? amount) eqn:Hb.
  { intros [= <- <-]. simpl. split_and!; [by split|done|lia|done|done]. }
  destruct (Hdb _ _ Hs) as (? & ? & ?). assert (n = nonce_of from db) as Hno.
  { unfold nonce_of. rewrite Hs. simpl. zlia. }
  destruct (bool_decide (from = to)) eqn:Hft; intros [= <- <-]; simpl.
  - assert (supply (<[from:=mkAccountState (balance s) (nonce s + 1)]> db) = supply db) as Hsup'.
    { unfold supply. rewrite map_zsum_insert, Hs. simpl. lia. }
    split_and!; [split; [apply map_Forall_insert_2; [simpl; lia|done]|lia]|done| |done|done].
    intros k. unfold nonce_of. destruct (decide (k = from)) as [->|Hk].
    + rewrite bool_decide_true, lookup_insert_eq, Hs by done. done.
    + rewrite bool_decide_false, lookup_insert_ne by done. lia.
  - apply bool_decide_eq_false in Hft.
    set (rc := default AccountState_default (db !! to)).
    assert (0 <= balance rc ∧ 0 <= nonce rc ∧ nonce rc + room < U64) as (?&?&?).
    { unfold rc. destruct (db !! to) eqn:Ht; simpl; [by apply (Hdb' _ _ Ht)|lia]. }
    assert (balance rc = from_option balance 0 (db !! to) ∧ nonce rc = from_option nonce 0 (db !! to)) as [Hrb Hrn].
    { unfold rc. by destruct (db !! to). }
    assert (supply (<[to:=mkAccountState (balance rc + amount) (nonce rc)]>
      (<[from:=mkAccountState (balance s - amount) (nonce s + 1)]> db)) = supply db) as Hsup'.
    { unfold supply. rewrite !map_zsum_insert, lookup_insert_ne, Hs by done. simpl. lia. }
    split_and!; [split; [|lia]|done| |done|done].
    + apply map_Forall_insert_2; [simpl; lia|]. apply map_Forall_insert_2; [simpl; zlia|done].
    + intros k. unfold nonce_of. destruct (decide (k = to)) as [->|Hk].
      * rewrite lookup_insert_eq, bool_decide_false by done. simpl. lia.
      * rewrite lookup_insert_ne by done. destruct (decide (k = from)) as [->|Hk'].
        -- rewrite bool_decide_true, lookup_insert_eq, Hs by done. done.
        -- rewrite bool_decide_false, lookup_insert_ne by done. lia.
Qed.
End TransferLemmas.

Section BlockLemmas.
Context {OC : OverflowChecks} {C : Crypto} {S : Serde}.
Implicit Types (db : StateDB).

Lemma successes_cons tx txs r rs :
  successes (tx :: txs) (r :: rs) = if rc_success r then tx :: successes txs rs else successes txs rs.
Proof. unfold successes. csimpl. rewrite filter_cons. simpl. by destruct (rc_success r). Qed.

Definition sender_nonce (tx : Transaction) : bytes * Z := (tx_from tx, tx_nonce tx).

Lemma apply_transaction_eq room db acc tx :
  StateDB_wf room db → 0 < room → u64 (tx_amount tx) →
  apply_transaction (db, acc) tx =
    let '(db', r) := transfer_spec (tx_from tx) (tx_to tx) (tx_amount tx) (tx_nonce tx) db in
    Some (db', acc ++ [receipt_of tx r]).
Proof.
  intros. unfold apply_transaction. rewrite (apply_transfer_eq room) by done.
  by destruct (transfer_spec _ _ _ _ _).
Qed.

(** A block, from any state: the receipts are appended in the order of the
    transactions, the supply is kept, and the successes of a sender use up
    consecutive nonces. *)
Lemma apply_block_from room txs db acc :
  0 <= room → StateDB_wf (room + Z.of_nat (length txs)) db → Forall (λ tx, u64 (tx_amount tx)) txs →
  ∃ db' rs, fold_may_panic apply_transaction (db, acc) txs = Some (db', acc ++ rs) ∧
    rc_tx_hash <$> rs = StateDB_hash_transaction <$> txs ∧
    StateDB_wf room db' ∧ supply db' = supply db ∧
    (∀ k, nonce_of k db' = nonce_of k db + Z.of_nat (length (filter (λ tx, tx_from tx = k) (successes txs rs)))) ∧
    (∀ tx, tx ∈ successes txs rs → nonce_of (tx_from tx) db <= tx_nonce tx < nonce_of (tx_from tx) db') ∧
    NoDup (sender_nonce <$> successes txs rs).
Proof.
  intros Hroom. revert db acc. induction txs as [|tx txs IH]; intros db acc Hwf Hu; simpl.
  { exists db, []. rewrite app_nil_r. rewrite Z.add_0_r in Hwf.
    split_and!; [done|done|done|done|intros k; simpl; lia|by intros tx ?%elem_of_nil|constructor]. }
  apply Forall_cons in Hu as [Hu Hus]. set (len := Z.of_nat (length txs)) in *.
  assert (StateDB_wf (room + len + 1) db) as Hwf1.
  { replace (room + len + 1) with (room + Z.of_nat (length (tx :: txs))) by (simpl; lia). done. }
  rewrite (apply_transaction_eq (room + len + 1)) by (done || lia).
  destruct (transfer_spec (tx_from tx) (tx_to tx) (tx_amount tx) (tx_nonce tx) db) as [db1 r] eqn:Ht.
  assert (0 <= tx_amount tx) as Ha by zlia. assert (0 <= room + len) as Hrl by lia.
  destruct (transfer_spec_wf (room + len) _ _ _ _ _ _ _ Hwf1 Hrl Ha Ht)
    as (Hwf2 & Hsup & Hnonce & Hok & _).
  cbn [mbind option_bind fst snd]. set (receipt := receipt_of tx r).
  destruct (IH db1 (acc ++ [receipt])) as (db' & rs & -> & Hh & Hwf' & Hsup' & Hn' & Hin & Hnd); [done|done|].
  exists db', (receipt :: rs). rewrite <-app_assoc. simpl.
  assert (rc_success receipt = is_ok r ∧ rc_tx_hash receipt = StateDB_hash_transaction tx) as [Hrs Hrh]
    by (by destruct r).
  rewrite successes_cons, Hrs.
  split_and!; [done|by f_equal|done|lia| | |].
  - intros k. rewrite Hn', Hnonce. destruct (is_ok r); simpl; [|lia].
    rewrite filter_cons. destruct (decide (tx_from tx = k)) as [->|Hk]; simpl.
    + rewrite bool_decide_true by done. lia.
    + rewrite bool_decide_false by done. lia.
  - intros tx' Htx'. pose proof (Hnonce (tx_from tx')) as Hnt.
    assert (∀ tx', tx' ∈ successes txs rs →
      nonce_of (tx_from tx') db <= tx_nonce tx' < nonce_of (tx_from tx') db') as Hrest.
    { intros t Ht'. specialize (Hin t Ht'). rewrite Hnonce in Hin. destruct (_ && _); lia. }
    destruct (is_ok r) eqn:Hr; [|by apply Hrest].
    apply elem_of_cons in Htx' as [->|Htx']; [|by apply Hrest].
    rewrite Hok by done. specialize (Hn' (tx_from tx)). rewrite Hnonce, bool_decide_true in Hn' by done.
    simpl in Hn'. lia.
  - destruct (is_ok r) eqn:Hr; [|done]. csimpl. apply NoDup_cons. split; [|done].
    intros (tx' & Heq & Htx')%list_elem_of_fmap. injection Heq as Hf Hnn.
    specialize (Hin tx' Htx'). rewrite <-Hf, <-Hnn, Hnonce, bool_decide_true in Hin by done.
    rewrite <-(Hok eq_refl) in Hin. simpl in Hin. lia.
Qed.
End BlockLemmas.

Lemma total_supply_exact {OC : OverflowChecks} {HO : HashOrder} {HL : HashOrderLaws HO} (room : Z) (db : StateDB) :
  StateDB_wf room db → StateDB_total_supply db = Some (supply db).
Proof.
  intros Hwf. unfold StateDB_total_supply, supply. rewrite <-zsum_hash_values. apply u64_sum_ok.
  - apply Forall_fmap, Forall_forall. intros a [k Hk]%elem_of_hash_values. by eapply db_balance_nonneg.
  - rewrite zsum_hash_values. apply Hwf.
Qed.

Section RootLemmas.
Context {C : Crypto} {S : Serde}.

Lemma hash_iter_fst_inj {HO : HashOrder} {HL : HashOrderLaws HO} {V} (m : gmap bytes V) x y :
  x ∈ hash_iter m → y ∈ hash_iter m → cmp_on fst bytes_cmp x y = Eq → x = y.
Proof.
  intros Hx Hy Heq. apply (cmp_eq bytes_cmp) in Heq. destruct x as [k v], y as [k' v']. simpl in *. subst k'.
  apply elem_of_hash_iter in Hx, Hy. congruence.
Qed.

Lemma sorted_entries_unique {HO1 HO2 : HashOrder} {HL1 : HashOrderLaws HO1} {HL2 : HashOrderLaws HO2}
    {V} (m : gmap bytes V) :
  sort_by (cmp_on fst bytes_cmp) (hash_iter (HashOrder := HO1) m) =
  sort_by (cmp_on fst bytes_cmp) (hash_iter (HashOrder := HO2) m).
Proof.
  apply sort_by_unique; [apply cmp_on_total, _|intros x y; apply hash_iter_fst_inj|].
  by rewrite (hash_iter_perm (HO := HO1)), (hash_iter_perm (HO := HO2)).
Qed.
End RootLemmas.

Section SaveLoad.
Context {S : Serde} {SL : SerdeLaws S} {HO : HashOrder} {HL : HashOrderLaws HO}.

Lemma hex_encode_inj : Inj (=) (=) hex_encode.
Proof. intros x y Heq. pose proof (hex_decode_encode x). rewrite Heq, hex_decode_encode in *. congruence. Qed.

(** Loading the entries of a hexadecimal map rebuilds the accounts. *)
Lemma load_entries_ok (l : list (bytes * AccountState)) (accounts : StateDB) :
  Forall (λ e, length e.1 = 32%nat) l → NoDup l.*1 → (∀ k, k ∈ l.*1 → accounts !! k = None) →
  load_entries ((λ e, (hex_encode e.1, e.2)) <$> l) accounts = Ok (list_to_map l ∪ accounts).
Proof.
  intros Hl. revert accounts. induction Hl as [|[k a] l Hk Hl IH]; intros accounts Hnd Hdis; simpl.
  { by rewrite (left_id_L ∅ (∪)). }
  rewrite hex_decode_encode. simpl in Hk. rewrite Hk. simpl.
  apply NoDup_cons in Hnd as [Hnin Hnd]. rewrite IH; [|done|].
  - f_equal. apply map_eq. intros k'. rewrite !lookup_union.
    destruct (decide (k' = k)) as [->|Hne].
    + rewrite lookup_insert_eq, (not_elem_of_list_to_map_1 l k Hnin), lookup_insert_eq.
      by destruct (accounts !! k).
    + by rewrite !lookup_insert_ne.
  - intros k' Hk'. rewrite lookup_insert_ne; [|set_solver]. apply Hdis. simpl. set_solver.
Qed.

(** Another process, with another hash seed, reads what was saved. *)
Lemma load_save {HO' : HashOrder} {HL' : HashOrderLaws HO'} (db : StateDB) :
  map_Forall (λ k _, length k = 32%nat) db →
  StateDB_load_from_file (HO := HO') (Ok (save_text (HO := HO) db)) = Ok db.
Proof.
  intros Hlen. unfold StateDB_load_from_file, save_text.
  set (l := (λ e, (hex_encode e.1, e.2)) <$> hash_iter (HashOrder := HO) db).
  assert (NoDup l.*1) as Hnd.
  { unfold l. rewrite <-list_fmap_compose. change (NoDup ((hex_encode ∘ fst) <$> hash_iter (HashOrder := HO) db)).
    rewrite list_fmap_compose. apply NoDup_fmap_2; [apply hex_encode_inj|apply hash_iter_nodup]. }
  rewrite json_parse_print by apply hash_iter_nodup.
  set (m := list_to_map l : gmap string AccountState).
  assert (list_to_map (hash_iter (HashOrder := HO) m) = m) as ->.
  { rewrite (list_to_map_proper _ (map_to_list m)); [apply list_to_map_to_list|apply hash_iter_nodup|apply hash_iter_perm]. }
  assert (∃ l', hash_iter (HashOrder := HO') m = (λ e, (hex_encode e.1, e.2)) <$> l' ∧
    l' ≡ₚ hash_iter (HashOrder := HO) db) as (l' & -> & Hl').
  { assert (hash_iter (HashOrder := HO') m ≡ₚ l) as Hp.
    { rewrite hash_iter_perm. unfold m. by apply map_to_list_to_map. }
    unfold l in Hp. apply (Permutation_map_inv _ _) in Hp as (l' & Heq & Hl').
    exists l'. split; [exact Heq|by symmetry]. }
  rewrite load_entries_ok.
  - f_equal. rewrite (right_id_L ∅ (∪)).
    rewrite (list_to_map_proper l' (map_to_list db)); [apply list_to_map_to_list| |].
    + rewrite Hl'. apply hash_iter_nodup.
    + by rewrite Hl', hash_iter_perm.
  - apply Forall_forall. intros [k a] Hk. rewrite Hl' in Hk. apply elem_of_hash_iter in Hk. by apply (Hlen _ _ Hk).
  - rewrite Hl'. apply hash_iter_nodup.
  - intros. apply lookup_empty.
Qed.
End SaveLoad.

(** A concrete encoding, for the witnesses. *)
Fixpoint bytes_positive (b : bytes) : positive :=
  match b with
  | [] => 1
  | x :: b => if bool_decide (x = x00) then (bytes_positive b)~0 else (bytes_positive b)~1
  end.
#[export] Instance AccountState_eq_dec : EqDecision AccountState.
Proof. solve_decision. Defined.
#[export] Instance AccountState_countable : Countable AccountState.
Proof.
  refine (inj_countable' (λ a, (balance a, nonce a)) (λ p, mkAccountState p.1 p.2) _). by intros [].
Defined.
Definition toy_serde : Serde := {|
  json_account a := positive_bytes (encode a);
  json_transaction tx := x01 :: bincode_transaction (Bincode := toy_bincode) tx;
  json_accounts l := positive_bytes (encode l);
  json_parse_accounts b :=
    match decode (bytes_positive b) with
    | Some l => Ok (list_to_map (l : list (string * AccountState)))
    | None => Err "expected a map"
    end;
  hex_encode := String.string_of_list_byte;
  hex_decode s := Ok (String.list_byte_of_string s);
|}.
Lemma bytes_positive_bytes p : bytes_positive (positive_bytes p) = p.
Proof. induction p; simpl; congruence. Qed.
#[export] Instance toy_serde_laws : SerdeLaws toy_serde.
Proof.
  split; simpl.
  - intros l _. by rewrite bytes_positive_bytes, decode_encode.
  - intros b. by rewrite String.list_byte_of_string_of_list_byte.
Qed.

(** * Properties *)

(** C9: executing a block conserves the supply.  From any state whose balances are
    nonnegative and whose exact supply fits [u64], a block of any transfers, valid
    or not, returns one receipt per transaction in order, leaves the sum of all
    balances as it was, and again satisfies the invariant: no debit or credit
    overflows, [total_supply] is exact before and after. *)
Theorem apply_block_conserves_supply {OC : OverflowChecks} {C : Crypto} {S : Serde}
    {HO : HashOrder} {HL : HashOrderLaws HO} (txs : list Transaction) (db : StateDB) :
  StateDB_wf (Z.of_nat (length txs)) db → Forall (λ tx, u64 (tx_amount tx)) txs →
  ∃ db' receipts, StateDB_apply_block txs db = Some (db', receipts) ∧
    rc_tx_hash <$> receipts = StateDB_hash_transaction <$> txs ∧ StateDB_wf 0 db' ∧
    StateDB_total_supply db = Some (supply db) ∧ StateDB_total_supply db' = Some (supply db) ∧
    supply db' = supply db.
Proof.
  intros Hwf Hu. assert (StateDB_wf (0 + Z.of_nat (length txs)) db) as Hwf0 by done.
  destruct (apply_block_from 0 txs db [] ltac:(done) Hwf0 Hu) as (db' & rs & Hrun & Hh & Hwf' & Hsup & _).
  exists db', rs. split_and!; [done|done|done|by eapply total_supply_exact| |done].
  by rewrite (total_supply_exact 0 db' Hwf'), Hsup.
Qed.

Definition demo_db : StateDB :=
  {[ key32 1 := mkAccountState 100 0; key32 2 := mkAccountState 5 7 ]}.
Definition demo_transfer (from to amount n : Z) : Transaction :=
  mkTransaction (key32 from) (key32 to) amount n [] [].
Definition demo_block : list Transaction :=
  [demo_transfer 1 3 60 0; demo_transfer 1 3 60 0; demo_transfer 1 2 60 1; demo_transfer 1 2 40 1;
   demo_transfer 2 2 45 7].
Lemma demo_db_wf : StateDB_wf 5 demo_db.
Proof.
  split; [|vm_compute; reflexivity].
  apply map_Forall_insert_2; [simpl; lia|]. apply map_Forall_insert_2; [simpl; lia|apply map_Forall_empty].
Qed.
Lemma apply_block_conserves_supply_witness :
  ∃ db' receipts, StateDB_apply_block (OC := debug_build) (C := toy_crypto) (S := toy_serde)
      demo_block demo_db = Some (db', receipts) ∧
    rc_success <$> receipts = [true; false; false; true; true] ∧ supply db' = 105.
Proof.
  destruct (apply_block_conserves_supply (OC := debug_build) (C := toy_crypto) (S := toy_serde)
    (HO := forward_order) demo_block demo_db demo_db_wf ltac:(by repeat constructor))
    as (db' & receipts & Hrun & _ & _ & _ & _ & Hsup).
  exists db', receipts. split; [exact Hrun|]. split; [|rewrite Hsup; vm_compute; reflexivity].
  assert (receipts = (default (∅, []) (StateDB_apply_block (OC := debug_build) (C := toy_crypto)
    (S := toy_serde) demo_block demo_db)).2) as -> by (by rewrite Hrun).
  vm_compute. reflexivity.
Defined.

(** C10: no replay.  When the balances add up to less than 2^64 and every nonce has room for
    as many steps as the block has transactions - otherwise a credit that overflows is
    reported as failed although the sender's nonce has moved - a block is executed without
    a panic, and the transactions of it that succeed have pairwise distinct
    pairs of sender and nonce, each nonce between the sender's before and after the
    block, and each account's nonce grows by exactly the number of its successful
    transactions: a transfer that has succeeded can never succeed again. *)
Theorem apply_block_no_replay {OC : OverflowChecks} {C : Crypto} {S : Serde}
    (txs : list Transaction) (db : StateDB) :
  StateDB_wf (Z.of_nat (length txs)) db → Forall (λ tx, u64 (tx_amount tx)) txs →
  ∃ db' receipts, StateDB_apply_block txs db = Some (db', receipts) ∧
    let succeeded := successes txs receipts in
    NoDup (sender_nonce <$> succeeded) ∧
    (∀ tx, tx ∈ succeeded → nonce_of (tx_from tx) db <= tx_nonce tx < nonce_of (tx_from tx) db') ∧
    (∀ k, nonce_of k db' = nonce_of k db + Z.of_nat (length (filter (λ tx, tx_from tx = k) succeeded))).
Proof.
  intros Hwf Hu. assert (StateDB_wf (0 + Z.of_nat (length txs)) db) as Hwf0 by done.
  destruct (apply_block_from 0 txs db [] ltac:(done) Hwf0 Hu)
    as (db' & rs & Hrun & _ & _ & _ & Hn & Hin & Hnd).
  by exists db', rs.
Qed.

Lemma apply_block_no_replay_witness :
  ∃ db' receipts, StateDB_apply_block (OC := debug_build) (C := toy_crypto) (S := toy_serde)
      demo_block demo_db = Some (db', receipts) ∧
    NoDup (sender_nonce <$> successes demo_block receipts).
Proof.
  destruct (apply_block_no_replay (OC := debug_build) (C := toy_crypto) (S := toy_serde)
    demo_block demo_db demo_db_wf ltac:(by repeat constructor)) as (db' & receipts & Hrun & Hnd & _).
  exists db', receipts. exact (conj Hrun Hnd).
Defined.

(** A transfer on every branch, for a state with room for one more nonce: the error
    and an unchanged state, or the exact transfer.  In particular [credit] cannot
    fail after the sender has been debited while the supply fits [u64]. *)
Theorem apply_transfer_exact {OC : OverflowChecks} (from to : bytes) (amount n : Z) (db : StateDB) :
  StateDB_wf 1 db → u64 amount →
  ∃ db' r, StateDB_apply_transfer from to amount n db = Some (db', r) ∧
    (db', r) = transfer_spec from to amount n db ∧ (is_ok r = false → db' = db) ∧
    r ≠ Err StateError_Overflow.
Proof.
  intros Hwf Ha. destruct (transfer_spec from to amount n db) as [db' r] eqn:Ht.
  exists db', r. rewrite (apply_transfer_eq 1), Ht by done. split_and!; [done|done| |].
  - assert (0 <= amount) as Ha0 by zlia. assert (0 <= 0) as H0 by done.
    apply (transfer_spec_wf 0 _ _ _ _ _ _ _ Hwf H0 Ha0 Ht).
  - unfold transfer_spec in Ht. repeat case_match; simplify_eq; done.
Qed.

(** C39: the state root does not depend on the order in which the hash map of accounts
    is iterated, so that all nodes with the same accounts compute the same root;
    and what [save_to_file] writes, [load_from_file] of another process reads back as
    the same state. *)
Theorem state_root_and_file_deterministic {C : Crypto} {S : Serde} {SL : SerdeLaws S}
    {HO1 HO2 : HashOrder} {HL1 : HashOrderLaws HO1} {HL2 : HashOrderLaws HO2} (db : StateDB) :
  StateDB_compute_state_root (HO := HO1) db = StateDB_compute_state_root (HO := HO2) db ∧
  (map_Forall (λ k _, length k = 32%nat) db →
    StateDB_load_from_file (HO := HO2) (Ok (save_text (HO := HO1) db)) = Ok db).
Proof.
  split; [|apply load_save]. unfold StateDB_compute_state_root.
  by rewrite (sorted_entries_unique (HO1 := HO1) (HO2 := HO2)).
Qed.

Lemma state_root_and_file_deterministic_witness :
  StateDB_load_from_file (S := toy_serde) (HO := forward_order)
    (Ok (save_text (S := toy_serde) (HO := backward_order) demo_db)) = Ok demo_db.
Proof.
  refine (proj2 (state_root_and_file_deterministic (C := toy_crypto) (S := toy_serde)
    (HO1 := backward_order) (HO2 := forward_order) demo_db) _).
  apply map_Forall_insert_2; [reflexivity|]. apply map_Forall_insert_2; [reflexivity|apply map_Forall_empty].
Defined.

(** Without that bound the transfer is not atomic: when the credit overflows, the
    error is returned after the sender has been debited and its nonce used, so that
    the amount is destroyed. *)
Theorem credit_overflow_burns_funds {OC : OverflowChecks} (from to : bytes) (s r : AccountState)
    (amount : Z) (db : StateDB) :
  from ≠ to → db !! from = Some s → db !! to = Some r → u64 amount → 0 <= nonce s < u64_max →
  amount <= balance s <= u64_max → 0 <= balance r → U64 <= balance r + amount →
  ∃ db', StateDB_apply_transfer from to amount (nonce s) db = Some (db', Err StateError_Overflow) ∧
    db' !! from = Some (mkAccountState (balance s - amount) (nonce s + 1)) ∧
    supply db' = supply db - amount.
Proof.
  intros Hft Hs Hr Ha Hn Hb Hr0 Hov. unfold StateDB_apply_transfer. rewrite Hs, Z.eqb_refl. simpl.
  rewrite (proj2 (Z.ltb_ge _ _)) by lia. rewrite bool_decide_false by done.
  unfold AccountState_debit, AccountState_increment_nonce, StateDB_get_or_create_account, AccountState_credit.
  rewrite (proj2 (Z.ltb_ge _ _)) by lia. rewrite u64_sub_ok by zlia. simpl.
  rewrite u64_add_ok by zlia. simpl. rewrite insert_insert_eq, lookup_insert_ne, Hr by done.
  unfold u64_checked_add. rewrite (proj2 (checked_None _ _)) by lia.
  eexists. split; [done|]. rewrite lookup_insert_ne, lookup_insert_eq by done. split; [done|].
  unfold supply. rewrite !map_zsum_insert, lookup_insert_ne, Hr, Hs by done. simpl. lia.
Qed.

Lemma credit_overflow_burns_funds_witness :
  ∃ db', StateDB_apply_transfer (OC := debug_build) (key32 1) (key32 2) 7 3
      {[ key32 1 := mkAccountState 10 3; key32 2 := mkAccountState u64_max 0 ]} =
      Some (db', Err StateError_Overflow) ∧
    db' !! key32 1 = Some (mkAccountState (10 - 7) (3 + 1)) ∧
    supply db' = supply {[ key32 1 := mkAccountState 10 3; key32 2 := mkAccountState u64_max 0 ]} - 7.
Proof.
  apply (credit_overflow_burns_funds (OC := debug_build) (key32 1) (key32 2)
    (mkAccountState 10 3) (mkAccountState u64_max 0) 7);
    [vm_compute; discriminate|vm_compute; reflexivity|vm_compute; reflexivity|done..|simpl; unfold u64_max; lia].
Defined.
