(* ===== verification/Mempool.v ===== *)
(** * The transaction pool (mempool)

    Validation of transactions and the pool that holds them until a block takes
    them: by sender, with a set of known hashes, a total and two limits. *)
From S2P Require Import Prelude Crypto Block State.
Open Scope Z_scope.

(** ** types.rs *)

Inductive MempoolError :=
| MempoolError_DuplicateTransaction
| MempoolError_PoolFull
| MempoolError_InvalidSignature
| MempoolError_NonceTooLow (expected got : Z)
| MempoolError_InsufficientBalance
| MempoolError_InvalidTransaction (msg : string).

Record MempoolConfig := mkMempoolConfig {
  max_size : Z;
  max_tx_per_account : Z;
}.
Definition MempoolConfig_default : MempoolConfig := mkMempoolConfig 10000 100.

Record PendingTransaction := mkPendingTransaction {
  pt_tx : Transaction;
  pt_added_at : Z;
  pt_fee_priority : Z;
}.
Definition PendingTransaction_new (tx : Transaction) (added_at : Z) : PendingTransaction :=
  mkPendingTransaction tx added_at (tx_amount tx).

(** ** validation.rs *)

Definition validate_transaction (tx : Transaction) : result MempoolError unit :=
  if bool_decide (tx_from tx = zero32) then
    Err (MempoolError_InvalidTransaction "sender cannot be zero address")
  else if bool_decide (tx_signature tx = []) then
    Err (MempoolError_InvalidTransaction "signature cannot be empty")
  else Ok tt.

Section Pool.
Context {OC : OverflowChecks} {C : Crypto} {S : Serde} {HO : HashOrder}.

Definition build_signing_message (tx : Transaction) : bytes :=
  sha256 (tx_from tx ++ tx_to tx ++ le_bytes 8 (tx_amount tx) ++ le_bytes 8 (tx_nonce tx) ++ tx_data tx).

Definition verify_signature (tx : Transaction) : result MempoolError unit :=
  if negb (ed_key_ok (tx_from tx)) then Err MempoolError_InvalidSignature
  else if negb (length (tx_signature tx) =? 64)%nat then Err MempoolError_InvalidSignature
  else if negb (ed_verify_strict (tx_from tx) (build_signing_message tx) (tx_signature tx)) then
    Err MempoolError_InvalidSignature
  else Ok tt.

(** ** pool.rs *)

Record TransactionPool := mkTransactionPool {
  pool_config : MempoolConfig;
  pool_by_sender : gmap bytes (list PendingTransaction);
  pool_known_hashes : gset bytes;
  pool_total_count : Z;
}.

Definition TransactionPool_new (config : MempoolConfig) : TransactionPool :=
  mkTransactionPool config ∅ ∅ 0.

Definition compute_tx_hash (tx : Transaction) : bytes := sha256 (json_transaction tx).

Definition TransactionPool_add_transaction (tx : Transaction) (p : TransactionPool) :
    may_panic (TransactionPool * result MempoolError unit) :=
  match validate_transaction tx with
  | Err e => Some (p, Err e)
  | Ok _ =>
    match verify_signature tx with
    | Err e => Some (p, Err e)
    | Ok _ =>
      if max_size (pool_config p) <=? pool_total_count p then Some (p, Err MempoolError_PoolFull)
      else
        let tx_hash := compute_tx_hash tx in
        if bool_decide (tx_hash ∈ pool_known_hashes p) then Some (p, Err MempoolError_DuplicateTransaction)
        else
          let sender_txs := default [] (pool_by_sender p !! tx_from tx) in
          if max_tx_per_account (pool_config p) <=? Z.of_nat (length sender_txs) then
            Some (mkTransactionPool (pool_config p) (<[tx_from tx := sender_txs]> (pool_by_sender p))
                    (pool_known_hashes p) (pool_total_count p), Err MempoolError_PoolFull)
          else
            let pending := PendingTransaction_new tx (pool_total_count p) in
            total ← u64_add (pool_total_count p) 1;
            Some (mkTransactionPool (pool_config p)
                    (<[tx_from tx := sender_txs ++ [pending]]> (pool_by_sender p))
                    ({[tx_hash]} ∪ pool_known_hashes p) total, Ok tt)
    end
  end.

(** [retain] on one sender's transactions. *)
Definition retain_uncommitted (remove_set : gset bytes) (txs : list PendingTransaction) :
    list PendingTransaction :=
  filter (λ ptx, compute_tx_hash (pt_tx ptx) ∉ remove_set) txs.

Definition TransactionPool_remove_committed (tx_hashes : list bytes) (p : TransactionPool) :
    may_panic TransactionPool :=
  let remove_set : gset bytes := list_to_set tx_hashes in
  total ← fold_may_panic (λ total '(_, txs),
      removed ← u64_sub (Z.of_nat (length txs)) (Z.of_nat (length (retain_uncommitted remove_set txs)));
      u64_sub total removed) (pool_total_count p) (hash_iter (pool_by_sender p));
  let by_sender := retain_uncommitted remove_set <$> pool_by_sender p in
  let by_sender := filter (λ e : bytes * list PendingTransaction, e.2 ≠ []) by_sender in
  Some (mkTransactionPool (pool_config p) by_sender
    (fold_left (λ (hs : gset bytes) h, hs ∖ {[h]}) tx_hashes (pool_known_hashes p)) total).

(** Highest priority first, then the earliest added. *)
Definition pending_cmp : PendingTransaction → PendingTransaction → comparison :=
  cmp_lex (cmp_desc (cmp_on pt_fee_priority Z.compare)) (cmp_on pt_added_at Z.compare).

Definition TransactionPool_get_pending_ordered (max_count : nat) (p : TransactionPool) : list Transaction :=
  let all_pending := concat (hash_values (pool_by_sender p)) in
  pt_tx <$> take max_count (sort_by pending_cmp all_pending).

Definition TransactionPool_pending_count (p : TransactionPool) : Z := pool_total_count p.
Definition TransactionPool_contains (tx_hash : bytes) (p : TransactionPool) : bool :=
  bool_decide (tx_hash ∈ pool_known_hashes p).
Definition TransactionPool_clear (p : TransactionPool) : TransactionPool :=
  mkTransactionPool (pool_config p) ∅ ∅ 0.
End Pool.

(** ** Specification *)

(** All pending transactions. *)
Definition all_pending (p : TransactionPool) : list PendingTransaction :=
  concat ((map_to_list (pool_by_sender p)).*2).

(** The invariant of the pool: the total is the number of pending transactions and
    within the limit; each sender's are valid, its own and within the limit of an
    account; the known hashes are exactly those of the pending transactions, all
    different. *)
Record TransactionPool_wf {C : Crypto} {S : Serde} (p : TransactionPool) : Prop := {
  pool_total : pool_total_count p = Z.of_nat (length (all_pending p));
  pool_size : pool_total_count p <= Z.max 0 (max_size (pool_config p));
  pool_senders : map_Forall (λ k txs,
    Z.of_nat (length txs) <= Z.max 0 (max_tx_per_account (pool_config p)) ∧
    Forall (λ ptx, tx_from (pt_tx ptx) = k ∧ pt_fee_priority ptx = tx_amount (pt_tx ptx) ∧
      validate_transaction (pt_tx ptx) = Ok tt ∧ verify_signature (pt_tx ptx) = Ok tt) txs)
    (pool_by_sender p);
  pool_hashes h : h ∈ pool_known_hashes p ↔ h ∈ (compute_tx_hash ∘ pt_tx) <$> all_pending p;
  pool_nodup : NoDup ((compute_tx_hash ∘ pt_tx) <$> all_pending p);
}.

(** The operations as data: a run of the pool. *)
Inductive pool_op :=
| OpAdd (tx : Transaction)
| OpRemoveCommitted (tx_hashes : list bytes)
| OpClear.

Fixpoint pool_run {OC : OverflowChecks} {C : Crypto} {S : Serde} {HO : HashOrder}
    (p : TransactionPool) (os : list pool_op) : may_panic TransactionPool :=
  match os with
  | [] => Some p
  | OpAdd tx :: os => '(p, _) ← TransactionPool_add_transaction tx p; pool_run p os
  | OpRemoveCommitted hs :: os => p ← TransactionPool_remove_committed hs p; pool_run p os
  | OpClear :: os => pool_run (TransactionPool_clear p) os
  end.

(** * Lemmas *)

Lemma concat_map_insert {V} (m : gmap bytes (list V)) k old new :
  default [] (m !! k) = old → concat ((map_to_list (<[k := new]> m)).*2) ++ old ≡ₚ
    new ++ concat ((map_to_list m).*2).
Proof.
  intros Hold. destruct (m !! k) as [l|] eqn:Hk; simpl in Hold; subst old.
  - rewrite <-(insert_id m k l) at 2 by done.
    rewrite <-insert_delete_eq, map_to_list_insert by apply lookup_delete_eq.
    rewrite <-(insert_delete_eq m k l), map_to_list_insert by apply lookup_delete_eq. csimpl.
    rewrite <-app_assoc. f_equiv. apply Permutation_app_comm.
  - rewrite map_to_list_insert by done. csimpl. by rewrite app_nil_r.
Qed.

Lemma snd_prod_map {K A B} (f : A → B) (l : list (K * A)) : (prod_map id f <$> l).*2 = f <$> l.*2.
Proof. induction l; csimpl; congruence. Qed.

Lemma filter_concat {A} (P : A → Prop) `{∀ x, Decision (P x)} (ls : list (list A)) :
  filter P (concat ls) = concat (filter P <$> ls).
Proof. induction ls as [|l ls IH]; csimpl; [done|]. by rewrite filter_app, IH. Qed.

Lemma concat_filter_nonempty {K A} (l : list (K * list A)) :
  concat ((filter (λ e, e.2 ≠ []) l).*2) = concat (l.*2).
Proof.
  induction l as [|[k x] l IH]; [done|]. rewrite filter_cons. simpl. case_decide as Hx; csimpl.
  - by rewrite IH.
  - destruct x as [|a x]; [exact IH|done].
Qed.

Lemma map_to_list_filter_perm {V} (P : bytes * V → Prop) `{∀ x, Decision (P x)} (m : gmap bytes V) :
  map_to_list (filter P m) ≡ₚ filter P (map_to_list m).
Proof.
  apply NoDup_Permutation.
  - apply NoDup_map_to_list.
  - apply NoDup_filter, NoDup_map_to_list.
  - intros [k v]. rewrite elem_of_map_to_list, list_elem_of_filter, elem_of_map_to_list.
    rewrite map_lookup_filter_Some. tauto.
Qed.

Section PoolLemmas.
Context {OC : OverflowChecks} {C : Crypto} {S : Serde} {HO : HashOrder} {HL : HashOrderLaws HO}.
Implicit Types (p : TransactionPool).

Lemma TransactionPool_new_wf config : TransactionPool_wf (TransactionPool_new config).
Proof.
  split; unfold all_pending; simpl; rewrite ?map_to_list_empty; simpl;
    [done|lia|apply map_Forall_empty|set_solver|constructor].
Qed.

Lemma clear_wf p : TransactionPool_wf (TransactionPool_clear p).
Proof. apply (TransactionPool_new_wf (pool_config p)). Qed.

(** What an accepted transaction needed, and its effect. *)
Definition add_guards (tx : Transaction) p : Prop :=
  validate_transaction tx = Ok tt ∧ verify_signature tx = Ok tt ∧
  pool_total_count p < max_size (pool_config p) ∧ (compute_tx_hash tx ∉ pool_known_hashes p) ∧
  Z.of_nat (length (default [] (pool_by_sender p !! tx_from tx))) < max_tx_per_account (pool_config p).
Definition add_result (tx : Transaction) p : TransactionPool :=
  mkTransactionPool (pool_config p)
    (<[tx_from tx := default [] (pool_by_sender p !! tx_from tx) ++
        [PendingTransaction_new tx (pool_total_count p)]]> (pool_by_sender p))
    ({[compute_tx_hash tx]} ∪ pool_known_hashes p) (pool_total_count p + 1).

Lemma add_transaction_eq tx p :
  TransactionPool_wf p → max_size (pool_config p) < U64 →
  ∃ p' r, TransactionPool_add_transaction tx p = Some (p', r) ∧
    ((add_guards tx p ∧ r = Ok tt ∧ p' = add_result tx p) ∨
     (¬ add_guards tx p ∧ is_ok r = false ∧ (all_pending p' ≡ₚ all_pending p) ∧
      pool_known_hashes p' = pool_known_hashes p ∧ TransactionPool_wf p')).
Proof.
  intros Hwf Hmax. pose proof Hwf as [Ht Hs Hse Hh Hnd].
  unfold TransactionPool_add_transaction, add_guards.
  destruct (validate_transaction tx) as [[]|e] eqn:Hv; [|eexists _, _; split; [done|]; right; split_and!; try done; naive_solver].
  destruct (verify_signature tx) as [[]|e] eqn:Hvs; [|eexists _, _; split; [done|]; right; split_and!; try done; naive_solver].
  destruct (max_size (pool_config p) <=? pool_total_count p) eqn:Hsz; [eexists _, _; split; [done|]; right; split_and!; try done; intros (?&?&?&?&?); zlia|].
  destruct (bool_decide _) eqn:Hk.
  { apply bool_decide_eq_true in Hk. eexists _, _; split; [done|]; right; split_and!; try done. tauto. }
  apply bool_decide_eq_false in Hk.
  destruct (max_tx_per_account (pool_config p) <=? _) eqn:Hacc.
  - eexists _, _; split; [done|]. right. set (txs := default [] (pool_by_sender p !! tx_from tx)) in *.
    assert (concat ((map_to_list (<[tx_from tx:=txs]> (pool_by_sender p))).*2) ≡ₚ all_pending p) as Hp.
    { apply (Permutation_app_inv_r txs). rewrite (concat_map_insert _ _ txs txs) by done.
      apply Permutation_app_comm. }
    split_and!; [intros (?&?&?&?&?); zlia|done|exact Hp|done|].
    split; unfold all_pending in *; simpl; [by rewrite Hp|lia| |by intros h; rewrite Hp|by rewrite Hp].
    apply map_Forall_insert_2; [|done]. unfold txs.
    destruct (pool_by_sender p !! tx_from tx) eqn:Hl; simpl; [by apply (Hse _ _ Hl)|].
    split; [lia|constructor].
  - rewrite u64_add_ok by zlia. simpl. eexists _, _; split; [done|]. left.
    split_and!; [done|done|zlia|done|zlia|done|done].
Qed.

Lemma add_result_pending tx p :
  all_pending (add_result tx p) ≡ₚ PendingTransaction_new tx (pool_total_count p) :: all_pending p.
Proof.
  unfold all_pending, add_result. simpl. set (txs := default [] (pool_by_sender p !! tx_from tx)).
  apply (Permutation_app_inv_r txs). rewrite (concat_map_insert _ _ txs) by done.
  rewrite <-app_assoc. apply Permutation_app_comm.
Qed.

Lemma add_result_wf tx p :
  TransactionPool_wf p → add_guards tx p → TransactionPool_wf (add_result tx p).
Proof.
  intros Hwf (Hv & Hvs & Hsz & Hk & Hacc). pose proof (add_result_pending tx p) as Hp.
  destruct Hwf as [Ht Hs Hse Hh Hnd]. split.
  - rewrite Hp. simpl. lia.
  - simpl. lia.
  - simpl. apply map_Forall_insert_2; [|done]. rewrite length_app. simpl. split; [lia|].
    rewrite Forall_app, Forall_singleton. split; [|done].
    destruct (pool_by_sender p !! tx_from tx) eqn:Hl; simpl; [by apply (Hse _ _ Hl)|by apply Forall_nil].
  - intros h. rewrite Hp. csimpl. rewrite elem_of_union, elem_of_singleton, elem_of_cons, Hh. done.
  - rewrite Hp. csimpl. apply NoDup_cons. by rewrite <-Hh.
Qed.

(** ** Removal *)

Lemma retain_concat rs (ls : list (list PendingTransaction)) :
  retain_uncommitted rs (concat ls) = concat (retain_uncommitted rs <$> ls).
Proof. apply filter_concat. Qed.

Lemma retain_length rs txs : (length (retain_uncommitted rs txs) <= length txs)%nat.
Proof. apply length_filter. Qed.

Lemma elem_of_retain hs txs x :
  x ∈ retain_uncommitted (list_to_set hs) txs ↔ x ∈ txs ∧ compute_tx_hash (pt_tx x) ∉ hs.
Proof. unfold retain_uncommitted. rewrite list_elem_of_filter, elem_of_list_to_set. tauto. Qed.

(** The running total loses exactly what is removed, and never underflows. *)
Lemma remove_totals rs total (items : list (bytes * list PendingTransaction)) :
  0 <= total < U64 → Z.of_nat (length (concat (items.*2))) <= total →
  fold_may_panic (λ total '(_, txs),
      removed ← u64_sub (Z.of_nat (length txs)) (Z.of_nat (length (retain_uncommitted rs txs)));
      u64_sub total removed) total items =
  Some (total - Z.of_nat (length (concat (items.*2)))
    + Z.of_nat (length (retain_uncommitted rs (concat (items.*2))))).
Proof.
  revert total. induction items as [|[k txs] items IH]; intros total Ht Hle; csimpl in *.
  { f_equal. lia. }
  rewrite length_app in Hle. pose proof (retain_length rs txs).
  rewrite u64_sub_ok by zlia. simpl. rewrite u64_sub_ok by zlia. simpl. rewrite IH by lia. f_equal.
  unfold retain_uncommitted. rewrite filter_app, !length_app. lia.
Qed.

Lemma known_after_removal (hs : list bytes) (known : gset bytes) (h : bytes) :
  h ∈ fold_left (λ (hs : gset bytes) h, hs ∖ {[h]}) hs known ↔ h ∈ known ∧ h ∉ hs.
Proof.
  revert known. induction hs as [|x hs IH]; intros known; simpl; [set_solver|].
  rewrite IH. set_solver.
Qed.

Lemma remove_committed_eq hs p :
  TransactionPool_wf p → max_size (pool_config p) < U64 →
  ∃ p', TransactionPool_remove_committed hs p = Some p' ∧ TransactionPool_wf p' ∧
    pool_config p' = pool_config p ∧
    all_pending p' ≡ₚ retain_uncommitted (list_to_set hs) (all_pending p).
Proof.
  intros Hwf Hmax. pose proof Hwf as [Ht Hs Hse Hh Hnd]. unfold TransactionPool_remove_committed.
  assert (concat ((hash_iter (pool_by_sender p)).*2) ≡ₚ all_pending p) as Hit.
  { unfold all_pending. by rewrite hash_iter_perm. }
  assert (length (retain_uncommitted (list_to_set hs) (concat ((hash_iter (pool_by_sender p)).*2))) =
    length (retain_uncommitted (list_to_set hs) (all_pending p))) as Hlen.
  { unfold retain_uncommitted. by rewrite Hit. }
  assert (length (concat ((hash_iter (pool_by_sender p)).*2)) = length (all_pending p)) as Hlen0 by (by rewrite Hit).
  rewrite remove_totals by (rewrite ?Hlen0; lia). simpl. rewrite Hlen, Hlen0.
  eexists. split; [done|]. set (p' := mkTransactionPool _ _ _ _).
  assert (all_pending p' ≡ₚ retain_uncommitted (list_to_set hs) (all_pending p)) as Hp'.
  { unfold all_pending, p'. simpl. rewrite map_to_list_filter_perm, concat_filter_nonempty, map_to_list_fmap.
    by rewrite retain_concat, snd_prod_map. }
  split; [|done]. pose proof (retain_length (list_to_set hs) (all_pending p)). split.
  - rewrite Hp'. simpl. lia.
  - simpl. lia.
  - simpl. intros k txs Hk. apply map_lookup_filter_Some in Hk as [Hk _]. rewrite lookup_fmap in Hk.
    apply fmap_Some in Hk as (old & Hk & ->). destruct (Hse _ _ Hk) as [Hl Hall]. split.
    + pose proof (retain_length (list_to_set hs) old). lia.
    + apply Forall_forall. intros x [Hx _]%elem_of_retain. rewrite Forall_forall in Hall. by apply Hall.
  - intros h. rewrite Hp'. simpl. rewrite known_after_removal, Hh, !list_elem_of_fmap. split.
    + intros [(x & -> & Hx) Hn]. exists x. split; [done|]. by apply elem_of_retain.
    + intros (x & -> & [Hx Hn]%elem_of_retain). split; [by exists x|done].
  - rewrite Hp'. eapply sublist_NoDup; [exact Hnd|]. apply fmap_sublist, sublist_filter.
Qed.
End PoolLemmas.

Section PoolRuns.
Context {OC : OverflowChecks} {C : Crypto} {S : Serde} {HO : HashOrder} {HL : HashOrderLaws HO}.

Lemma add_transaction_config tx p p' r :
  TransactionPool_add_transaction tx p = Some (p', r) → pool_config p' = pool_config p.
Proof.
  unfold TransactionPool_add_transaction. intros Ha. repeat case_match; simplify_eq; try done.
  apply bind_Some in Ha as (? & _ & ?). by simplify_eq.
Qed.

Lemma pool_run_wf os p :
  TransactionPool_wf p → max_size (pool_config p) < U64 →
  ∃ p', pool_run p os = Some p' ∧ TransactionPool_wf p' ∧ pool_config p' = pool_config p.
Proof.
  revert p. induction os as [|[tx|hs|] os IH]; intros p Hwf Hmax; simpl; [by exists p|..].
  - destruct (add_transaction_eq tx p Hwf Hmax) as (p1 & r & Ha & Hcase). rewrite Ha. simpl.
    pose proof (add_transaction_config _ _ _ _ Ha) as Hc.
    assert (TransactionPool_wf p1) as Hwf1.
    { destruct Hcase as [(Hg & _ & ->)|(_ & _ & _ & _ & ?)]; [by apply add_result_wf|done]. }
    destruct (IH p1 Hwf1) as (p' & ? & ? & ?); [by rewrite Hc|]. exists p'. split_and!; congruence || done.
  - destruct (remove_committed_eq hs p Hwf Hmax) as (p1 & Hr & Hwf1 & Hc & _). rewrite Hr. simpl.
    destruct (IH p1 Hwf1) as (p' & ? & ? & ?); [by rewrite Hc|]. exists p'. split_and!; congruence || done.
  - apply (IH _ (clear_wf p)). done.
Qed.

Lemma concat_hash_values p : concat (hash_values (pool_by_sender p)) ≡ₚ all_pending p.
Proof. unfold all_pending. by rewrite hash_values_perm. Qed.

#[export] Instance pending_cmp_total : TotalCmp pending_cmp.
Proof.
  apply cmp_lex_total; [apply cmp_desc_total|]; apply cmp_on_total; apply _.
Qed.
End PoolRuns.

(** * Properties *)

(** C12: the pool invariant.  Any sequence of additions, removals and clears, from a new
    pool, runs without a panic and leaves a pool within its limits, whose total is
    the number of pending transactions, each valid, signed by its sender and
    filed under it, and whose known hashes are exactly theirs, without duplicates. *)
Theorem mempool_invariant {OC : OverflowChecks} {C : Crypto} {S : Serde} {HO : HashOrder}
    {HL : HashOrderLaws HO} (config : MempoolConfig) (os : list pool_op) :
  max_size config < U64 →
  ∃ p, pool_run (TransactionPool_new config) os = Some p ∧ TransactionPool_wf p ∧ pool_config p = config.
Proof. intros Hmax. apply (pool_run_wf os _ (TransactionPool_new_wf config) Hmax). Qed.

Definition demo_signed (sk amount n : Z) : Transaction :=
  Transaction_sign (C := toy_crypto) (key32 sk)
    (mkTransaction (toy_key (key32 sk)) (key32 9) amount n [] []).
Definition demo_pool_ops : list pool_op :=
  [OpAdd (demo_signed 1 10 0); OpAdd (demo_signed 1 10 0); OpAdd (demo_signed 2 30 0);
   OpAdd (mkTransaction (key32 7) (key32 9) 5 0 [x01] []);
   OpAdd (demo_signed 1 40 1);
   OpRemoveCommitted [compute_tx_hash (C := toy_crypto) (S := toy_serde) (demo_signed 2 30 0)]].
Lemma mempool_invariant_witness :
  ∃ p, pool_run (OC := debug_build) (C := toy_crypto) (S := toy_serde) (HO := forward_order)
      (TransactionPool_new MempoolConfig_default) demo_pool_ops = Some p ∧
    TransactionPool_wf (C := toy_crypto) (S := toy_serde) p ∧ pool_config p = MempoolConfig_default.
Proof.
  exact (mempool_invariant (OC := debug_build) (C := toy_crypto) (S := toy_serde) (HO := forward_order)
    MempoolConfig_default demo_pool_ops ltac:(vm_compute; reflexivity)).
Defined.

(** Adding a transaction, on every branch.  It is accepted exactly when it is well
    formed, its signature verifies, the pool and its sender have room and its hash
    is not known, and then becomes one more pending transaction under a known hash;
    otherwise the pending transactions and the known hashes stay as they were. *)
Theorem add_transaction_exact {OC : OverflowChecks} {C : Crypto} {S : Serde} (tx : Transaction)
    (p : TransactionPool) :
  TransactionPool_wf p → max_size (pool_config p) < U64 →
  ∃ p' r, TransactionPool_add_transaction tx p = Some (p', r) ∧ TransactionPool_wf p' ∧
    (r = Ok tt ↔ add_guards tx p) ∧
    (r = Ok tt → all_pending p' ≡ₚ PendingTransaction_new tx (pool_total_count p) :: all_pending p ∧
      TransactionPool_contains (compute_tx_hash tx) p' = true) ∧
    (r ≠ Ok tt → (all_pending p' ≡ₚ all_pending p) ∧ pool_known_hashes p' = pool_known_hashes p).
Proof.
  intros Hwf Hmax. destruct (add_transaction_eq tx p Hwf Hmax) as (p' & r & Ha & Hcase).
  exists p', r. split; [done|]. destruct Hcase as [(Hg & -> & ->)|(Hg & Hr & Hp & Hk & Hwf')].
  - split_and!; [by apply add_result_wf|done| |done]. intros _. split; [apply add_result_pending|].
    unfold TransactionPool_contains. simpl. apply bool_decide_eq_true. set_solver.
  - destruct r as [[]|e]; [done|]. split_and!; try done.
Qed.

Definition demo_mempool : TransactionPool :=
  default (TransactionPool_new MempoolConfig_default)
    (pool_run (OC := debug_build) (C := toy_crypto) (S := toy_serde) (HO := forward_order)
      (TransactionPool_new MempoolConfig_default) demo_pool_ops).
Lemma demo_mempool_wf : TransactionPool_wf (C := toy_crypto) (S := toy_serde) demo_mempool.
Proof.
  destruct (pool_run_wf (OC := debug_build) (C := toy_crypto) (S := toy_serde) (HO := forward_order)
    demo_pool_ops _ (TransactionPool_new_wf (HO := forward_order) MempoolConfig_default) ltac:(vm_compute; reflexivity)) as (p & Hr & Hwf & _).
  unfold demo_mempool. by rewrite Hr.
Qed.
Lemma add_transaction_exact_witness :
  ∃ p' r, TransactionPool_add_transaction (OC := debug_build) (C := toy_crypto) (S := toy_serde)
      (demo_signed 2 30 0) demo_mempool = Some (p', r) ∧
    TransactionPool_wf (C := toy_crypto) (S := toy_serde) p'.
Proof.
  destruct (add_transaction_exact (OC := debug_build) (C := toy_crypto) (S := toy_serde)
    (demo_signed 2 30 0) demo_mempool demo_mempool_wf) as (p' & r & Ha & Hwf & _).
  - vm_compute. reflexivity.
  - exists p', r. exact (conj Ha Hwf).
Defined.

(** The transactions for a block.  [get_pending_ordered] returns [max_count]
    different pending transactions, or all if there are fewer, sorted by amount and
    then by arrival, and none that is left out comes before one that is returned. *)
Theorem pending_ordered_takes_best {C : Crypto} {S : Serde} {HO : HashOrder} {HL : HashOrderLaws HO}
    (p : TransactionPool) (max_count : nat) :
  TransactionPool_wf p →
  ∃ chosen rest, TransactionPool_get_pending_ordered max_count p = pt_tx <$> chosen ∧
    chosen ++ rest ≡ₚ all_pending p ∧
    length chosen = (max_count `min` length (all_pending p))%nat ∧
    StronglySorted (λ a b, pending_cmp a b ≠ Gt) chosen ∧
    (∀ x y, x ∈ chosen → y ∈ rest → pending_cmp x y ≠ Gt) ∧
    NoDup (compute_tx_hash <$> TransactionPool_get_pending_ordered max_count p).
Proof.
  intros Hwf. unfold TransactionPool_get_pending_ordered.
  set (sorted := sort_by pending_cmp (concat (hash_values (pool_by_sender p)))).
  assert (sorted ≡ₚ all_pending p) as Hp by (unfold sorted; by rewrite sort_by_perm, concat_hash_values).
  pose proof (sort_by_sorted pending_cmp (concat (hash_values (pool_by_sender p)))) as Hs. fold sorted in Hs.
  exists (take max_count sorted), (drop max_count sorted). rewrite take_drop.
  rewrite <-(take_drop max_count sorted) in Hs at 1.
  split_and!; [done|exact Hp|by rewrite length_take, Hp|by eapply StronglySorted_app_1_l| |].
  - intros x y Hx Hy. apply StronglySorted_app in Hs as (Hs & _). by apply Hs.
  - rewrite <-list_fmap_compose. destruct Hwf as [_ _ _ _ Hnd].
    eapply sublist_NoDup; [|apply fmap_sublist, sublist_take]. by rewrite Hp.
Qed.

Lemma pending_ordered_takes_best_witness :
  (tx_amount <$> TransactionPool_get_pending_ordered (HO := backward_order) 1 demo_mempool) = [40] ∧
  NoDup (compute_tx_hash (C := toy_crypto) (S := toy_serde) <$>
    TransactionPool_get_pending_ordered (HO := backward_order) 1 demo_mempool).
Proof.
  split; [vm_compute; reflexivity|].
  destruct (pending_ordered_takes_best (C := toy_crypto) (S := toy_serde) (HO := backward_order)
    demo_mempool 1 demo_mempool_wf) as (? & ? & _ & _ & _ & _ & _ & Hnd).
  exact Hnd.
Defined.

(** Committed transactions leave the pool: exactly the pending transactions whose
    pool hash is listed are removed, the others and their total are kept, and a
    removed hash can be added again. *)
Theorem remove_committed_exact {OC : OverflowChecks} {C : Crypto} {S : Serde} {HO : HashOrder}
    {HL : HashOrderLaws HO} (hs : list bytes) (p : TransactionPool) :
  TransactionPool_wf p → max_size (pool_config p) < U64 →
  ∃ p', TransactionPool_remove_committed hs p = Some p' ∧ TransactionPool_wf p' ∧
    (∀ ptx, ptx ∈ all_pending p' ↔ ptx ∈ all_pending p ∧ compute_tx_hash (pt_tx ptx) ∉ hs) ∧
    (∀ h, TransactionPool_contains h p' = true ↔ TransactionPool_contains h p = true ∧ h ∉ hs).
Proof.
  intros Hwf Hmax. destruct (remove_committed_eq hs p Hwf Hmax) as (p' & Hr & Hwf' & _ & Hp).
  exists p'. split_and!; [done|done| |].
  - intros ptx. by rewrite Hp, elem_of_retain.
  - intros h. unfold TransactionPool_contains. rewrite !bool_decide_eq_true.
    unfold TransactionPool_remove_committed in Hr. apply bind_Some in Hr as (total & _ & Hr).
    simplify_eq/=. apply known_after_removal.
Qed.

Lemma remove_committed_exact_witness :
  ∃ p', TransactionPool_remove_committed (OC := debug_build) (C := toy_crypto) (S := toy_serde)
      (HO := forward_order) [] demo_mempool = Some p' ∧
    TransactionPool_wf (C := toy_crypto) (S := toy_serde) p'.
Proof.
  destruct (remove_committed_exact (OC := debug_build) (C := toy_crypto) (S := toy_serde)
    (HO := forward_order) [] demo_mempool demo_mempool_wf) as (p' & Hr & Hwf & _).
  - vm_compute. reflexivity.
  - exists p'. exact (conj Hr Hwf).
Defined.
