(* ===== verification/ValidatorSet.v ===== *)
(** * The validator set (runtime/validator-set)

    Registered validators with a status, the epoch rotation that swaps stronger
    standby validators in, jailing, and the weighted choice of a proposer.  The
    component uses the staking pool only through [get_voting_power]: the interface
    [VotingPower], which the pool of Staking.v implements. *)
From S2P Require Import Prelude Staking.
Open Scope Z_scope.

(** ** The interface to the staking pool *)

Class VotingPower (P : Type) := voting_power : P → bytes → Z.

(** What a well-formed pool promises: powers are [u64]s. *)
Class VotingPowerLaws (P : Type) {VP : VotingPower P} := {
  power_pool_ok : P → Prop;
  voting_power_u64 p k : power_pool_ok p → u64 (voting_power p k);
}.

#[export] Instance StakingPool_voting_power {HO : HashOrder} : VotingPower StakingPool :=
  StakingPool_get_voting_power.
#[export] Instance StakingPool_voting_power_laws {OC : OverflowChecks} {HO : HashOrder}
  {HL : HashOrderLaws HO} : VotingPowerLaws StakingPool.
Proof.
  refine {| power_pool_ok := StakingPool_wf |}. intros p k Hp. unfold voting_power, StakingPool_voting_power.
  destruct (get_voting_power_eq p k Hp) as (-> & ? & _). unfold u64_max. zlia.
Defined.

(** ** types.rs *)

Inductive ValidatorStatus := Active | Standby | Jailed.
#[export] Instance ValidatorStatus_eq_dec : EqDecision ValidatorStatus.
Proof. solve_decision. Defined.

Record ValidatorInfo := mkValidatorInfo {
  vi_pubkey : bytes;
  vi_stake : Z;
  vi_commission_rate : Z;
  vi_status : ValidatorStatus;
  vi_performance_score : Z;
  vi_join_height : Z;
}.

Definition ValidatorInfo_effective_stake (v : ValidatorInfo) (vote_weight_bps : Z) : Z :=
  as_u64 (vi_stake v * vote_weight_bps / 1000).

Record ValidatorSetConfig := mkValidatorSetConfig {
  active_set_cap : Z;
  epoch_length : Z;
  min_stake : Z;
}.
Definition ValidatorSetConfig_default : ValidatorSetConfig := mkValidatorSetConfig 200 100 1000000.

Record ValidatorSetState := mkValidatorSetState {
  vs_validators : gmap bytes ValidatorInfo;
  vs_config : ValidatorSetConfig;
  vs_current_epoch : Z;
}.

Inductive ValidatorSetError :=
| ValidatorSetError_AlreadyRegistered (k : bytes)
| ValidatorSetError_NotFound (k : bytes)
| ValidatorSetError_InsufficientStake (have need : Z)
| ValidatorSetError_Jailed
| ValidatorSetError_NotJailed
| ValidatorSetError_AlreadyActive
| ValidatorSetError_AlreadyStandby
| ValidatorSetError_Overflow.

(** ** rotation.rs *)

Definition set_status (st : ValidatorStatus) (v : ValidatorInfo) : ValidatorInfo :=
  mkValidatorInfo (vi_pubkey v) (vi_stake v) (vi_commission_rate v) st (vi_performance_score v)
    (vi_join_height v).

(** [if let Some(v) = validators.get_mut(&k) { v.status = st }] *)
Definition set_status_at (st : ValidatorStatus) (k : bytes) (m : gmap bytes ValidatorInfo) :
    gmap bytes ValidatorInfo := alter (set_status st) k m.

Record RankedValidator := mkRankedValidator {
  rv_pubkey : bytes;
  rv_effective_stake : Z;
}.

(** Descending effective stake, then ascending public key. *)
Definition rank_cmp : RankedValidator → RankedValidator → comparison :=
  cmp_lex (cmp_desc (cmp_on rv_effective_stake Z.compare)) (cmp_on rv_pubkey bytes_cmp).

Section Rotation.
Context {P : Type} {VP : VotingPower P} {HO : HashOrder} {OC : OverflowChecks}.

Definition sort_by_stake (validators : list ValidatorInfo) (staking_pool : P) : list RankedValidator :=
  sort_by rank_cmp
    ((λ v, mkRankedValidator (vi_pubkey v) (voting_power staking_pool (vi_pubkey v))) <$> validators).

(** [validators.values().filter(|v| v.status == st).cloned().collect()] *)
Definition with_status (st : ValidatorStatus) (validators : gmap bytes ValidatorInfo) : list ValidatorInfo :=
  filter (λ v, vi_status v = st) (hash_values validators).

(** The body of the loop: [None] is a [break]. *)
Definition rotate_round (validators : gmap bytes ValidatorInfo) (staking_pool : P) :
    option (gmap bytes ValidatorInfo * (bytes * bytes)) :=
  let active := with_status Active validators in
  let standby := with_status Standby validators in
  match last (sort_by_stake active staking_pool), head (sort_by_stake standby staking_pool) with
  | Some weakest_active, Some strongest_standby =>
    if rv_effective_stake weakest_active <? rv_effective_stake strongest_standby then
      let validators := set_status_at Standby (rv_pubkey weakest_active) validators in
      let validators := set_status_at Active (rv_pubkey strongest_standby) validators in
      Some (validators, (rv_pubkey strongest_standby, rv_pubkey weakest_active))
    else None
  | _, _ => None
  end.

(** The loop; [None] means that the rounds ran out. *)
Fixpoint rotate_loop (fuel : nat) (validators : gmap bytes ValidatorInfo) (staking_pool : P)
    (swaps : list (bytes * bytes)) : option (gmap bytes ValidatorInfo * list (bytes * bytes)) :=
  match fuel with
  | O => None
  | S fuel =>
    match rotate_round validators staking_pool with
    | None => Some (validators, swaps)
    | Some (validators, swap) => rotate_loop fuel validators staking_pool (swaps ++ [swap])
    end
  end.

(** The promotions below the cap. *)
Definition fill_active (validators : gmap bytes ValidatorInfo) (staking_pool : P) (active_cap : Z) :
    gmap bytes ValidatorInfo :=
  let active_count := Z.of_nat (length (with_status Active validators)) in
  if active_count <? active_cap then
    let standby_ranked := sort_by_stake (with_status Standby validators) staking_pool in
    let slots_available := active_cap - active_count in
    fold_left (λ m ranked, set_status_at Active (rv_pubkey ranked) m)
      (take (Z.to_nat slots_available) standby_ranked) validators
  else validators.

(** One round per validator and one to break suffice. *)
Definition rotate (validators : gmap bytes ValidatorInfo) (staking_pool : P) (active_cap : Z) :
    option (gmap bytes ValidatorInfo * list (bytes * bytes)) :=
  '(validators, swaps) ← rotate_loop (S (size validators)) validators staking_pool [];
  Some (fill_active validators staking_pool active_cap, swaps).

Definition jail (validators : gmap bytes ValidatorInfo) (pubkey : bytes) :
    gmap bytes ValidatorInfo * result ValidatorSetError unit :=
  match validators !! pubkey with
  | None => (validators, Err (ValidatorSetError_NotFound pubkey))
  | Some v => (<[pubkey := set_status Jailed v]> validators, Ok tt)
  end.

Definition unjail (validators : gmap bytes ValidatorInfo) (pubkey : bytes) :
    gmap bytes ValidatorInfo * result ValidatorSetError unit :=
  match validators !! pubkey with
  | None => (validators, Err (ValidatorSetError_NotFound pubkey))
  | Some v =>
    if negb (bool_decide (vi_status v = Jailed)) then (validators, Err ValidatorSetError_NotJailed)
    else (<[pubkey := set_status Standby v]> validators, Ok tt)
  end.

(** ** manager.rs *)

Definition ACTIVE_SET_CAP : Z := 200.

(** [ValidatorSetManager] is a struct with the one field [state]. *)
Definition ValidatorSetManager := ValidatorSetState.

Definition ValidatorSetManager_with_config (config : ValidatorSetConfig) : ValidatorSetManager :=
  mkValidatorSetState ∅ config 0.
Definition ValidatorSetManager_new : ValidatorSetManager :=
  ValidatorSetManager_with_config ValidatorSetConfig_default.

Definition set_validators (m : gmap bytes ValidatorInfo) (s : ValidatorSetManager) : ValidatorSetManager :=
  mkValidatorSetState m (vs_config s) (vs_current_epoch s).

Definition ValidatorSetManager_active_count (s : ValidatorSetManager) : Z :=
  Z.of_nat (length (with_status Active (vs_validators s))).
Definition ValidatorSetManager_total_count (s : ValidatorSetManager) : nat := size (vs_validators s).

Definition ValidatorSetManager_register_validator (pubkey : bytes)
    (initial_stake commission_rate current_height : Z) (s : ValidatorSetManager) :
    ValidatorSetManager * result ValidatorSetError ValidatorStatus :=
  match vs_validators s !! pubkey with
  | Some _ => (s, Err (ValidatorSetError_AlreadyRegistered pubkey))
  | None =>
    if initial_stake <? min_stake (vs_config s) then
      (s, Err (ValidatorSetError_InsufficientStake initial_stake (min_stake (vs_config s))))
    else
      let status := if ValidatorSetManager_active_count s <? active_set_cap (vs_config s)
                    then Active else Standby in
      let info := mkValidatorInfo pubkey initial_stake commission_rate status 10000 current_height in
      (set_validators (<[pubkey := info]> (vs_validators s)) s, Ok status)
  end.

Definition ValidatorSetManager_deregister_validator (pubkey : bytes) (s : ValidatorSetManager) :
    ValidatorSetManager * result ValidatorSetError ValidatorInfo :=
  match vs_validators s !! pubkey with
  | None => (s, Err (ValidatorSetError_NotFound pubkey))
  | Some v => (set_validators (delete pubkey (vs_validators s)) s, Ok v)
  end.

Definition ValidatorSetManager_update_stake (pubkey : bytes) (new_stake : Z) (s : ValidatorSetManager) :
    ValidatorSetManager * result ValidatorSetError unit :=
  match vs_validators s !! pubkey with
  | None => (s, Err (ValidatorSetError_NotFound pubkey))
  | Some v => (set_validators (<[pubkey := mkValidatorInfo (vi_pubkey v) new_stake
      (vi_commission_rate v) (vi_status v) (vi_performance_score v) (vi_join_height v)]>
      (vs_validators s)) s, Ok tt)
  end.

Definition ValidatorSetManager_get_active_set (s : ValidatorSetManager) (staking_pool : P) :
    list ValidatorInfo :=
  omap (λ r, vs_validators s !! rv_pubkey r)
    (sort_by_stake (with_status Active (vs_validators s)) staking_pool).
Definition ValidatorSetManager_get_standby_set (s : ValidatorSetManager) : list ValidatorInfo :=
  with_status Standby (vs_validators s).
Definition ValidatorSetManager_get_jailed_set (s : ValidatorSetManager) : list ValidatorInfo :=
  with_status Jailed (vs_validators s).

Definition ValidatorSetManager_epoch_rotation (staking_pool : P) (s : ValidatorSetManager) :
    may_panic (ValidatorSetManager * list (bytes * bytes)) :=
  '(validators, swaps) ← rotate (vs_validators s) staking_pool (active_set_cap (vs_config s));
  epoch ← u64_add (vs_current_epoch s) 1;
  Some (mkValidatorSetState validators (vs_config s) epoch, swaps).

Definition ValidatorSetManager_is_active (s : ValidatorSetManager) (pubkey : bytes) : bool :=
  match vs_validators s !! pubkey with
  | Some v => bool_decide (vi_status v = Active)
  | None => false
  end.
Definition ValidatorSetManager_get_validator (s : ValidatorSetManager) (pubkey : bytes) :
    option ValidatorInfo := vs_validators s !! pubkey.
Definition ValidatorSetManager_jail (pubkey : bytes) (s : ValidatorSetManager) :
    ValidatorSetManager * result ValidatorSetError unit :=
  let '(m, r) := jail (vs_validators s) pubkey in (set_validators m s, r).
Definition ValidatorSetManager_unjail (pubkey : bytes) (s : ValidatorSetManager) :
    ValidatorSetManager * result ValidatorSetError unit :=
  let '(m, r) := unjail (vs_validators s) pubkey in (set_validators m s, r).

(** The loop of [get_proposer], which falls through to [active.last()]. *)
Fixpoint proposer_loop (slot cumulative : Z) (active : list (bytes * Z)) (fallback : option bytes) :
    may_panic (option bytes) :=
  match active with
  | [] => Some fallback
  | (pubkey, power) :: active =>
    cumulative ← u64_add cumulative power;
    if slot <? cumulative then Some (Some pubkey) else proposer_loop slot cumulative active fallback
  end.

Definition ValidatorSetManager_get_proposer (s : ValidatorSetManager) (height : Z) (staking_pool : P) :
    may_panic (option bytes) :=
  let active := (λ v, (vi_pubkey v, voting_power staking_pool (vi_pubkey v))) <$>
                  with_status Active (vs_validators s) in
  match active with
  | [] => Some None
  | _ =>
    let active := sort_by (cmp_on fst bytes_cmp) active in
    total_power ← u64_sum active.*2;
    if total_power =? 0 then Some None
    else
      slot ← rem_or_panic height total_power;
      proposer_loop slot 0 active (fst <$> last active)
  end.

Definition ValidatorSetManager_current_epoch (s : ValidatorSetManager) : Z := vs_current_epoch s.
End Rotation.

(** ** Specification *)

(** Every validator is filed under its own key. *)
Definition keyed (m : gmap bytes ValidatorInfo) : Prop := map_Forall (λ k v, vi_pubkey v = k) m.
Definition status_of (m : gmap bytes ValidatorInfo) (k : bytes) : option ValidatorStatus :=
  vi_status <$> m !! k.
Definition status_set (st : ValidatorStatus) (m : gmap bytes ValidatorInfo) : gset bytes :=
  dom (filter (λ kv : bytes * ValidatorInfo, vi_status kv.2 = st) m).

(** Equal but for the statuses. *)
Definition same_infos (m m' : gmap bytes ValidatorInfo) : Prop :=
  ∀ k, set_status Standby <$> m !! k = set_status Standby <$> m' !! k.

(** * Lemmas *)

Lemma elem_of_status_set st m k : k ∈ status_set st m ↔ status_of m k = Some st.
Proof.
  unfold status_set, status_of. rewrite elem_of_dom. unfold is_Some. setoid_rewrite map_lookup_filter_Some.
  destruct (m !! k); simpl; naive_solver.
Qed.

Lemma status_of_set_at st k m k' :
  status_of (set_status_at st k m) k' = if decide (k' = k) then (λ _, st) <$> m !! k else status_of m k'.
Proof.
  unfold status_of, set_status_at. case_decide as Hk.
  - subst. rewrite lookup_alter_eq. by destruct (m !! k).
  - by rewrite lookup_alter_ne.
Qed.

Lemma keyed_set_at st k m : keyed m → keyed (set_status_at st k m).
Proof.
  intros Hm k' v Hv. unfold set_status_at in Hv. destruct (decide (k' = k)) as [->|Hk].
  - rewrite lookup_alter_eq in Hv. apply fmap_Some in Hv as (v' & Hv & ->). by apply (Hm k v').
  - rewrite lookup_alter_ne in Hv by done. by apply Hm.
Qed.

Lemma same_infos_set_at st k m : same_infos m (set_status_at st k m).
Proof.
  intros k'. unfold set_status_at. destruct (decide (k' = k)) as [->|Hk].
  - rewrite lookup_alter_eq. by destruct (m !! k).
  - by rewrite lookup_alter_ne.
Qed.

Lemma same_infos_trans m1 m2 m3 : same_infos m1 m2 → same_infos m2 m3 → same_infos m1 m3.
Proof. intros H1 H2 k. by rewrite H1, H2. Qed.

#[export] Instance rank_cmp_total : TotalCmp rank_cmp.
Proof. apply cmp_lex_total; [apply cmp_desc_total|]; apply cmp_on_total; apply _. Qed.

Lemma rank_cmp_le x y : rank_cmp x y ≠ Gt → rv_effective_stake y <= rv_effective_stake x.
Proof.
  unfold rank_cmp, cmp_lex, cmp_desc, cmp_on, cmp_then.
  destruct (rv_effective_stake y ?= rv_effective_stake x) eqn:E; try done; intros _;
    rewrite ?Z.compare_eq_iff, ?Z.compare_lt_iff in E; lia.
Qed.

Section RotationLemmas.
Context {P : Type} {VP : VotingPower P} {HO : HashOrder} {HL : HashOrderLaws HO}.
Implicit Types (m : gmap bytes ValidatorInfo) (pool : P).

Lemma with_status_keys st m :
  keyed m → vi_pubkey <$> with_status st m ≡ₚ elements (status_set st m).
Proof.
  intros Hm. unfold with_status. rewrite hash_values_perm. unfold status_set.
  induction m as [|k v m Hk IH] using map_ind.
  { by rewrite map_to_list_empty, map_filter_empty, dom_empty_L. }
  apply map_Forall_insert in Hm as [Hv Hm]; [|done]. rewrite map_to_list_insert by done. csimpl.
  rewrite filter_cons. case_decide as Hs.
  - rewrite map_filter_insert_True by done. rewrite dom_insert_L, elements_union_singleton.
    + csimpl. by rewrite Hv, IH.
    + rewrite not_elem_of_dom. apply map_lookup_filter_None. by left.
  - rewrite map_filter_insert_False by done. rewrite delete_id by done. by apply IH.
Qed.

Lemma length_with_status st m : keyed m → length (with_status st m) = size (status_set st m).
Proof. intros Hm. rewrite <-(length_fmap vi_pubkey), with_status_keys by done. done. Qed.

Lemma elem_of_ranked st m pool r :
  keyed m →
  r ∈ sort_by_stake (with_status st m) pool ↔
  status_of m (rv_pubkey r) = Some st ∧ rv_effective_stake r = voting_power pool (rv_pubkey r).
Proof.
  intros Hm. unfold sort_by_stake. rewrite elem_of_sort_by, list_elem_of_fmap.
  assert (∀ k, status_of m k = Some st ↔ ∃ v, vi_pubkey v = k ∧ v ∈ with_status st m) as Hk.
  { intros k. rewrite <-elem_of_status_set, <-elem_of_elements, <-with_status_keys by done.
    rewrite list_elem_of_fmap. naive_solver. }
  rewrite Hk. split.
  - intros (v & -> & Hv). simpl. eauto.
  - intros [(v & Hv & Hin) Hr]. exists v. split; [|done]. destruct r. simpl in *. by subst.
Qed.

(** A round that swaps. *)
Lemma rotate_round_Some m pool m' s w :
  keyed m → rotate_round m pool = Some (m', (s, w)) →
  status_of m w = Some Active ∧ status_of m s = Some Standby ∧
  voting_power pool w < voting_power pool s ∧
  (∀ a, status_of m a = Some Active → voting_power pool w <= voting_power pool a) ∧
  (∀ x, status_of m x = Some Standby → voting_power pool x <= voting_power pool s) ∧
  m' = set_status_at Active s (set_status_at Standby w m).
Proof.
  intros Hm. unfold rotate_round.
  destruct (last _) as [wr|] eqn:Hw; [|done]. destruct (head _) as [sr|] eqn:Hs; [|done].
  destruct (_ <? _) eqn:Hlt; [|done]. intros [= <- <- <-].
  pose proof (elem_of_ranked Active m pool wr Hm) as [Hw1 _].
  destruct Hw1 as [Hwa Hwp]; [apply last_Some in Hw as [l ->]; set_solver|].
  destruct (sort_by_stake (with_status Standby m) pool) as [|sr' l] eqn:Hsl; [done|].
  simpl in Hs. simplify_eq.
  pose proof (elem_of_ranked Standby m pool sr Hm) as [Hs1 _]. rewrite Hsl in Hs1.
  destruct Hs1 as [Hss Hsp]; [left|].
  rewrite <-Hwp, <-Hsp. split_and!; [done|done|zlia| | |done].
  - intros a Ha. apply sort_by_last in Hw as [_ Hw]; [|apply _].
    change (voting_power pool a) with (rv_effective_stake (mkRankedValidator a (voting_power pool a))).
    apply rank_cmp_le, Hw, (elem_of_sort_by rank_cmp), (elem_of_ranked Active m pool _ Hm). done.
  - intros x Hx. apply sort_by_head in Hsl as [_ Hsl]; [|apply _].
    change (voting_power pool x) with (rv_effective_stake (mkRankedValidator x (voting_power pool x))).
    apply rank_cmp_le, Hsl, (elem_of_sort_by rank_cmp), (elem_of_ranked Standby m pool _ Hm). done.
Qed.

(** A round that breaks leaves no standby validator stronger than an active one. *)
Lemma rotate_round_None m pool a x :
  keyed m → rotate_round m pool = None → status_of m a = Some Active → status_of m x = Some Standby →
  voting_power pool x <= voting_power pool a.
Proof.
  intros Hm Hr Ha Hx. unfold rotate_round in Hr.
  set (ra := mkRankedValidator a (voting_power pool a)). set (rx := mkRankedValidator x (voting_power pool x)).
  assert (ra ∈ sort_by_stake (with_status Active m) pool) as Hina by (by apply elem_of_ranked).
  assert (rx ∈ sort_by_stake (with_status Standby m) pool) as Hinx by (by apply elem_of_ranked).
  destruct (last _) as [wr|] eqn:Hw; [|apply last_None in Hw; rewrite Hw in Hina; set_solver].
  destruct (sort_by_stake (with_status Standby m) pool) as [|sr l] eqn:Hs; [set_solver|]. simpl in Hr.
  destruct (_ <? _) eqn:Hlt; [done|].
  apply sort_by_last in Hw as [_ Hw]; [|apply _]. apply sort_by_head in Hs as [_ Hs]; [|apply _].
  assert (rv_effective_stake wr <= voting_power pool a).
  { apply (rank_cmp_le ra wr), Hw. by apply (elem_of_sort_by rank_cmp). }
  assert (voting_power pool x <= rv_effective_stake sr); [|zlia].
  apply (rank_cmp_le sr rx), Hs. apply (elem_of_sort_by rank_cmp).
  apply (elem_of_ranked Standby m pool rx Hm). done.
Qed.

(** What a round keeps and changes. *)
Lemma rotate_round_status m pool m' s w k :
  keyed m → rotate_round m pool = Some (m', (s, w)) →
  keyed m' ∧ same_infos m m' ∧
  status_of m' k = (if decide (k = s) then Some Active else if decide (k = w) then Some Standby
                    else status_of m k).
Proof.
  intros Hm Hr. destruct (rotate_round_Some _ _ _ _ _ Hm Hr) as (Hw & Hs & Hlt & _ & _ & ->).
  assert (s ≠ w) as Hne by (intros ->; congruence).
  split_and!; [by apply keyed_set_at, keyed_set_at|eapply same_infos_trans; apply same_infos_set_at|].
  rewrite !status_of_set_at. unfold status_of, set_status_at in *.
  destruct (decide (k = s)) as [->|].
  - rewrite lookup_alter_ne by done. by destruct (m !! s).
  - destruct (decide (k = w)) as [->|]; [|done]. by destruct (m !! w).
Qed.

(** The standby validators stronger than [b]: what the loop decreases, when [b]
    bounds the active powers from below. *)
Definition stronger pool (b : Z) m : gset bytes :=
  filter (λ x, b < voting_power pool x) (status_set Standby m).

Lemma elem_of_stronger pool b m x :
  x ∈ stronger pool b m ↔ b < voting_power pool x ∧ status_of m x = Some Standby.
Proof. unfold stronger. by rewrite elem_of_filter, elem_of_status_set. Qed.

(** The sets of a map in which two validators, one of each status, were swapped. *)
Lemma swap_sizes m m' s w :
  status_of m w = Some Active → status_of m s = Some Standby →
  (∀ k, status_of m' k = if decide (k = s) then Some Active else if decide (k = w) then Some Standby
                         else status_of m k) →
  size (status_set Active m') = size (status_set Active m) ∧
  size (status_set Standby m') = size (status_set Standby m) ∧
  status_set Jailed m' = status_set Jailed m.
Proof.
  intros Hw Hs Hk. assert (s ≠ w) by (intros ->; congruence).
  pose proof Hw as Hw'. pose proof Hs as Hs'. rewrite <-elem_of_status_set in Hw', Hs'.
  assert (status_set Active m' = {[s]} ∪ status_set Active m ∖ {[w]}) as ->.
  { apply set_eq. intros k. rewrite elem_of_union, elem_of_difference, !elem_of_singleton.
    rewrite !elem_of_status_set, Hk. repeat case_decide; subst; naive_solver congruence. }
  assert (status_set Standby m' = {[w]} ∪ status_set Standby m ∖ {[s]}) as ->.
  { apply set_eq. intros k. rewrite elem_of_union, elem_of_difference, !elem_of_singleton.
    rewrite !elem_of_status_set, Hk. repeat case_decide; subst; naive_solver congruence. }
  assert (s ∉ status_set Active m) by (rewrite elem_of_status_set; congruence).
  assert (w ∉ status_set Standby m) by (rewrite elem_of_status_set; congruence).
  assert (∀ (X : gset bytes) a b, a ∈ X → b ∉ X → size ({[b]} ∪ X ∖ {[a]}) = size X) as Hsz.
  { intros X a b Ha Hb. rewrite size_union by set_solver. rewrite size_singleton, size_difference by set_solver.
    rewrite size_singleton. assert (size X ≠ 0%nat); [|lia].
    intros HX%size_empty_iff. set_solver. }
  split_and!; [by apply Hsz|by apply Hsz|].
  apply set_eq. intros k. rewrite !elem_of_status_set, Hk. repeat case_decide; subst; naive_solver congruence.
Qed.

(** The loop stops, within one round more than there are strong standby validators. *)
Lemma rotate_loop_total pool fuel m b swaps :
  keyed m → (∀ a, status_of m a = Some Active → b <= voting_power pool a) →
  (size (stronger pool b m) < fuel)%nat →
  ∃ m' swaps', rotate_loop fuel m pool swaps = Some (m', swaps ++ swaps') ∧
    keyed m' ∧ same_infos m m' ∧ rotate_round m' pool = None ∧
    size (status_set Active m') = size (status_set Active m) ∧
    size (status_set Standby m') = size (status_set Standby m) ∧
    status_set Jailed m' = status_set Jailed m ∧
    Forall (λ sw, voting_power pool sw.2 < voting_power pool sw.1) swaps'.
Proof.
  revert m b swaps. induction fuel as [|fuel IH]; intros m b swaps Hm Hb Hf; [lia|]. simpl.
  destruct (rotate_round m pool) as [[m1 [s w]]|] eqn:Hr.
  2: { exists m, []. rewrite app_nil_r. split_and!; try done. }
  destruct (rotate_round_Some _ _ _ _ _ Hm Hr) as (Hw & Hs & Hlt & Hmin & _ & _).
  destruct (rotate_round_status _ _ _ _ _ w Hm Hr) as (Hm1 & Hi1 & _).
  assert (∀ k, status_of m1 k = if decide (k = s) then Some Active else if decide (k = w)
            then Some Standby else status_of m k) as Hst
    by (intros k; by apply (rotate_round_status _ _ _ _ _ k Hm Hr)).
  destruct (swap_sizes m m1 s w Hw Hs Hst) as (HA & HS & HJ).
  destruct (IH m1 (voting_power pool w) (swaps ++ [(s, w)])) as (m' & sw' & Hl & Hm' & Hi' & Hn & HA' & HS' & HJ' & HF);
    [done| | |].
  - intros a. rewrite Hst. repeat case_decide; [subst; lia|done|apply Hmin].
  - apply Nat.lt_le_trans with (size (stronger pool b m)); [|lia]. apply subset_size.
    specialize (Hb w Hw). split.
    + intros x. rewrite !elem_of_stronger, Hst. intros [Hx Hxs].
      repeat case_decide; try done; [subst; lia|]. split; [lia|done].
    + intros Hsub. specialize (Hsub s). rewrite !elem_of_stronger, Hst in Hsub.
      rewrite decide_True in Hsub by done. destruct Hsub as [_ [=]]. split; [lia|done].
  - exists m', ((s, w) :: sw'). rewrite Hl, <-app_assoc. split_and!; try done; try congruence.
    by constructor.
Qed.

(** Setting the status of a list of registered validators. *)
Lemma fold_set_status st (l : list RankedValidator) m :
  (∀ r, r ∈ l → is_Some (m !! rv_pubkey r)) → keyed m →
  let m' := fold_left (λ m r, set_status_at st (rv_pubkey r) m) l m in
  keyed m' ∧ same_infos m m' ∧
  ∀ k, status_of m' k = if decide (k ∈ rv_pubkey <$> l) then Some st else status_of m k.
Proof.
  revert m. induction l as [|r l IH]; intros m Hl Hm; simpl.
  { by split_and!. }
  destruct (IH (set_status_at st (rv_pubkey r) m)) as (Hk & Hi & Hst).
  - intros r' Hr'. unfold set_status_at. rewrite lookup_alter_is_Some. apply Hl. by right.
  - by apply keyed_set_at.
  - split_and!; [done|by eapply same_infos_trans; [apply same_infos_set_at|]|].
    intros k. rewrite Hst, status_of_set_at. destruct (Hl r) as [v Hv]; [by left|].
    repeat case_decide; subst; rewrite ?Hv; set_solver.
Qed.

(** The keys of a ranking, in order, without repetition. *)
Lemma ranked_keys st m pool :
  keyed m → rv_pubkey <$> sort_by_stake (with_status st m) pool ≡ₚ elements (status_set st m).
Proof.
  intros Hm. unfold sort_by_stake. rewrite sort_by_perm, <-list_fmap_compose.
  rewrite <-with_status_keys by done. done.
Qed.

(** The promotions below the cap take the strongest standby validators. *)
Lemma fill_active_spec m pool cap :
  keyed m →
  let m' := fill_active m pool cap in
  let A := Z.of_nat (size (status_set Active m)) in
  let S := Z.of_nat (size (status_set Standby m)) in
  keyed m' ∧ same_infos m m' ∧ status_set Jailed m' = status_set Jailed m ∧
  Z.of_nat (size (status_set Active m')) = Z.max A (Z.min cap (A + S)) ∧
  (∀ k, status_of m k = Some Active → status_of m' k = Some Active) ∧
  (∀ a x, status_of m a = Some Standby → status_of m' a = Some Active → status_of m' x = Some Standby →
          status_of m x = Some Standby ∧ voting_power pool x <= voting_power pool a).
Proof.
  intros Hm m' A S. subst m'. unfold fill_active. rewrite length_with_status by done. fold A.
  destruct (A <? cap) eqn:Hcap.
  2: { split_and!; try done; [zlia|]. intros. congruence. }
  set (L := sort_by_stake (with_status Standby m) pool). set (n := Z.to_nat (cap - A)).
  assert (∀ r, r ∈ L → status_of m (rv_pubkey r) = Some Standby) as HL'
    by (intros r Hr; by apply (elem_of_ranked Standby m pool r Hm) in Hr as [? _]).
  pose proof (ranked_keys Standby m pool Hm) as Hkeys. fold L in Hkeys.
  destruct (fold_set_status Active (take n L) m) as (Hk & Hi & Hst); [|done|].
  { intros r Hr. apply (subseteq_take n L), HL' in Hr. unfold status_of in Hr.
    destruct (m !! rv_pubkey r); [by eexists|done]. }
  set (m' := fold_left _ _ m) in *. set (T := rv_pubkey <$> take n L) in *.
  assert (NoDup (rv_pubkey <$> L)) as Hnd by (rewrite Hkeys; apply NoDup_elements).
  assert (∀ k, k ∈ T → status_of m k = Some Standby) as HT.
  { intros k (r & -> & Hr)%list_elem_of_fmap. apply HL'. by apply (subseteq_take n L). }
  split_and!; [done|done| | | |].
  - apply set_eq. intros k. rewrite !elem_of_status_set, Hst. case_decide as HkT; [|done].
    apply HT in HkT. split; congruence.
  - assert (status_set Active m' = list_to_set T ∪ status_set Active m) as ->.
    { apply set_eq. intros k. rewrite elem_of_union, elem_of_list_to_set, !elem_of_status_set, Hst.
      case_decide; naive_solver. }
    rewrite size_union.
    2: { intros k. rewrite elem_of_list_to_set, elem_of_status_set. intros ?%HT. congruence. }
    rewrite size_list_to_set.
    2: { subst T. rewrite fmap_take. by eapply sublist_NoDup, sublist_take. }
    subst T. rewrite length_fmap, length_take. fold A.
    assert (length L = size (status_set Standby m)) as ->; [|unfold n, S, A in *; zlia].
    rewrite <-(length_fmap rv_pubkey), Hkeys. done.
  - intros k Hka. rewrite Hst. by case_decide.
  - intros a x Ha Ha' Hx'. rewrite Hst in Ha', Hx'.
    destruct (decide (a ∈ T)) as [HaT|]; [|congruence].
    destruct (decide (x ∈ T)) as [HxT|HxT]; [congruence|]. split; [done|].
    apply list_elem_of_fmap in HaT as (ra & -> & Hra).
    assert (mkRankedValidator x (voting_power pool x) ∈ L) as HxL by (by apply elem_of_ranked).
    rewrite <-(take_drop n L) in HxL. apply elem_of_app in HxL as [HxL|HxL].
    { exfalso. apply HxT, list_elem_of_fmap. by exists (mkRankedValidator x (voting_power pool x)). }
    pose proof Hra as Hra'. apply (subseteq_take n L), (elem_of_ranked Standby m pool ra Hm) in Hra' as [_ <-].
    apply (rank_cmp_le ra (mkRankedValidator x (voting_power pool x))).
    refine (StronglySorted_app_1_elem_of (λ x y, rank_cmp x y ≠ Gt) (take n L) (drop n L) _ _ _ Hra HxL).
    rewrite take_drop. apply sort_by_sorted. apply _.
Qed.

(** The powers of the active validators have a lower bound. *)
Lemma active_powers_bounded pool m :
  ∃ b, ∀ a, status_of m a = Some Active → b <= voting_power pool a.
Proof.
  assert (∃ b, ∀ a, a ∈ elements (status_set Active m) → b <= voting_power pool a) as [b Hb].
  { induction (elements _) as [|k l [b IH]]; [exists 0; set_solver|].
    exists (Z.min b (voting_power pool k)). intros a [->|Ha]%elem_of_cons; [lia|]. specialize (IH a Ha). lia. }
  exists b. intros a Ha. apply Hb. by rewrite elem_of_elements, elem_of_status_set.
Qed.

Lemma status_set_subset_dom st m : status_set st m ⊆ dom m.
Proof. unfold status_set. apply dom_filter_subseteq. Qed.

(** Who is neither jailed nor unknown stays so. *)
Lemma electable_same m m' k st :
  same_infos m m' → status_set Jailed m' = status_set Jailed m → status_of m' k = Some st → st ≠ Jailed →
  status_of m k = Some Active ∨ status_of m k = Some Standby.
Proof.
  intros Hi HJ Hk Hst. assert (status_of m k ≠ Some Jailed) as HnJ.
  { rewrite <-elem_of_status_set, <-HJ, elem_of_status_set. congruence. }
  specialize (Hi k). unfold status_of in *. destruct (m !! k) as [v|], (m' !! k) as [v'|]; try done; simpl in *.
  destruct (vi_status v); naive_solver.
Qed.

(** The rotation returns, and elects the strongest. *)
Lemma rotate_spec m pool cap :
  keyed m →
  ∃ m' swaps, rotate m pool cap = Some (m', swaps) ∧ keyed m' ∧ same_infos m m' ∧
    status_set Jailed m' = status_set Jailed m ∧
    Z.of_nat (size (status_set Active m')) =
      Z.max (Z.of_nat (size (status_set Active m)))
        (Z.min cap (Z.of_nat (size (status_set Active m)) + Z.of_nat (size (status_set Standby m)))) ∧
    (∀ a x, status_of m' a = Some Active → status_of m' x = Some Standby →
            voting_power pool x <= voting_power pool a) ∧
    Forall (λ sw, voting_power pool sw.2 < voting_power pool sw.1) swaps.
Proof.
  intros Hm. unfold rotate. destruct (active_powers_bounded pool m) as [b Hb].
  destruct (rotate_loop_total pool (S (size m)) m b [] Hm Hb)
    as (m1 & sw & Hl & Hm1 & Hi1 & Hn & HA & HS & HJ & HF).
  { apply Nat.lt_succ_r. rewrite <-size_dom. apply subseteq_size.
    etrans; [|apply status_set_subset_dom]. intros x Hx. by apply elem_of_filter in Hx as [_ ?]. }
  rewrite Hl. simpl. eexists _, _. split; [done|].
  destruct (fill_active_spec m1 pool cap Hm1) as (Hm2 & Hi2 & HJ2 & HA2 & Hkeep & Hnew).
  split_and!; [done|by eapply same_infos_trans|congruence|by rewrite HA2, HA, HS| |done].
  intros a x Ha Hx.
  destruct (electable_same m1 _ a Active Hi2 HJ2 Ha) as [Ha1|Ha1]; [done| |by apply (Hnew a x)].
  destruct (electable_same m1 _ x Standby Hi2 HJ2 Hx) as [Hx1|Hx1]; [done| |exact (rotate_round_None m1 pool a x Hm1 Hn Ha1 Hx1)].
  apply Hkeep in Hx1. congruence.
Qed.
End RotationLemmas.

(** ** The order of the hash map is irrelevant *)

Section OrderIndependence.
Context {P : Type} {VP : VotingPower P} {HO1 HO2 : HashOrder}
  {HL1 : HashOrderLaws HO1} {HL2 : HashOrderLaws HO2}.
Implicit Types (m : gmap bytes ValidatorInfo) (pool : P).

Lemma sort_with_status_order st m pool :
  sort_by_stake (with_status (HO := HO1) st m) pool = sort_by_stake (with_status (HO := HO2) st m) pool.
Proof.
  unfold sort_by_stake. apply (sort_by_unique rank_cmp).
  - intros x y _ _. unfold rank_cmp, cmp_lex, cmp_then, cmp_desc, cmp_on.
    destruct (_ ?= _) eqn:E; try done. apply Z.compare_eq_iff in E. intros Hk%(cmp_eq bytes_cmp).
    destruct x, y; simpl in *; congruence.
  - unfold with_status. by rewrite !hash_values_perm.
Qed.

Lemma length_with_status_order st m :
  length (with_status (HO := HO1) st m) = length (with_status (HO := HO2) st m).
Proof. unfold with_status. by rewrite !hash_values_perm. Qed.

Lemma rotate_loop_order fuel m pool swaps :
  rotate_loop (HO := HO1) fuel m pool swaps = rotate_loop (HO := HO2) fuel m pool swaps.
Proof.
  revert m swaps. induction fuel as [|fuel IH]; intros m swaps; simpl; [done|].
  assert (rotate_round (HO := HO1) m pool = rotate_round (HO := HO2) m pool) as ->
    by (unfold rotate_round; by rewrite !sort_with_status_order).
  destruct (rotate_round m pool) as [[??]|]; [apply IH|done].
Qed.

Lemma rotate_order m pool cap : rotate (HO := HO1) m pool cap = rotate (HO := HO2) m pool cap.
Proof.
  unfold rotate. rewrite rotate_loop_order. destruct (rotate_loop _ _ _ _) as [[m1 sw]|]; [|done]. simpl.
  unfold fill_active. by rewrite length_with_status_order, sort_with_status_order.
Qed.
End OrderIndependence.


(** ** Runs of the manager *)

Inductive validator_set_cmd (P : Type) :=
| VsRegister (pubkey : bytes) (initial_stake commission_rate current_height : Z)
| VsDeregister (pubkey : bytes)
| VsUpdateStake (pubkey : bytes) (new_stake : Z)
| VsJail (pubkey : bytes)
| VsUnjail (pubkey : bytes)
| VsRotate (pool : P).
Arguments VsRegister {P}.
Arguments VsDeregister {P}.
Arguments VsUpdateStake {P}.
Arguments VsJail {P}.
Arguments VsUnjail {P}.
Arguments VsRotate {P}.

Definition validator_set_step {P} {VP : VotingPower P} {HO : HashOrder} {OC : OverflowChecks}
    (s : ValidatorSetManager) (c : validator_set_cmd P) : may_panic ValidatorSetManager :=
  match c with
  | VsRegister k st cr h => Some (ValidatorSetManager_register_validator k st cr h s).1
  | VsDeregister k => Some (ValidatorSetManager_deregister_validator k s).1
  | VsUpdateStake k st => Some (ValidatorSetManager_update_stake k st s).1
  | VsJail k => Some (ValidatorSetManager_jail k s).1
  | VsUnjail k => Some (ValidatorSetManager_unjail k s).1
  | VsRotate pool => fst <$> ValidatorSetManager_epoch_rotation pool s
  end.
Definition validator_set_exec {P} {VP : VotingPower P} {HO : HashOrder} {OC : OverflowChecks}
    (s : ValidatorSetManager) (cs : list (validator_set_cmd P)) : may_panic ValidatorSetManager :=
  fold_may_panic validator_set_step s cs.

Definition is_rotation {P} (c : validator_set_cmd P) : bool :=
  match c with VsRotate _ => true | _ => false end.

(** The invariant: keys agree, and the active validators fit under the cap. *)
Record ValidatorSet_wf (s : ValidatorSetManager) : Prop := {
  vs_keyed : keyed (vs_validators s);
  vs_capped : Z.of_nat (size (status_set Active (vs_validators s))) <= Z.max 0 (active_set_cap (vs_config s));
}.

Section ManagerLemmas.
Context {P : Type} {VP : VotingPower P} {HO : HashOrder} {HL : HashOrderLaws HO} {OC : OverflowChecks}.
Implicit Types (m : gmap bytes ValidatorInfo) (pool : P).

(** Writing one validator changes only its own membership. *)
Lemma status_set_insert st k v m :
  status_set st (<[k := v]> m) =
  if decide (vi_status v = st) then {[k]} ∪ status_set st m else status_set st m ∖ {[k]}.
Proof.
  apply set_eq. intros k'. rewrite elem_of_status_set. unfold status_of.
  destruct (decide (k' = k)) as [->|Hk].
  - rewrite lookup_insert_eq. simpl. case_decide; [set_solver|]. set_solver.
  - rewrite lookup_insert_ne by done. fold (status_of m k'). rewrite <-elem_of_status_set.
    case_decide; set_solver.
Qed.

Lemma size_status_set_insert_le k v m :
  (vi_status v = Active → status_of m k = Some Active) →
  (size (status_set Active (<[k := v]> m)) <= size (status_set Active m))%nat.
Proof.
  intros Hv. apply subseteq_size. rewrite status_set_insert. case_decide as Hst; [|set_solver].
  specialize (Hv Hst). rewrite <-elem_of_status_set in Hv. set_solver.
Qed.

Lemma keyed_insert k v m : vi_pubkey v = k → keyed m → keyed (<[k := v]> m).
Proof. intros. by apply map_Forall_insert_2. Qed.

Lemma ValidatorSet_wf_replace k v v' s :
  ValidatorSet_wf s → vs_validators s !! k = Some v → vi_pubkey v' = vi_pubkey v →
  (vi_status v' = Active → vi_status v = Active) →
  ValidatorSet_wf (set_validators (<[k := v']> (vs_validators s)) s).
Proof.
  intros [Hk Hc] Hv Hpk Hst. split; simpl.
  - apply keyed_insert; [|done]. rewrite Hpk. by apply (Hk k v).
  - etrans; [|exact Hc]. apply inj_le, size_status_set_insert_le. intros H%Hst. unfold status_of.
    rewrite Hv. simpl. by rewrite H.
Qed.

Lemma validator_set_step_wf s c s' :
  ValidatorSet_wf s → validator_set_step s c = Some s' → ValidatorSet_wf s' ∧ vs_config s' = vs_config s.
Proof.
  intros Hs. pose proof Hs as [Hk Hc].
  assert (ValidatorSet_wf (set_validators (vs_validators s) s) ∧
          vs_config (set_validators (vs_validators s) s) = vs_config s) as Hid by (by destruct s).
  destruct c as [k st cr h|k|k st|k|k|pool]; simpl.
  - intros [= <-]. unfold ValidatorSetManager_register_validator.
    destruct (vs_validators s !! k) eqn:Hl; [done|]. destruct (st <? _); [done|]. simpl. split; [|done].
    unfold ValidatorSetManager_active_count. rewrite length_with_status by done.
    split; simpl; [by apply keyed_insert|]. rewrite status_set_insert. simpl.
    destruct (_ <? _) eqn:E; [rewrite decide_True by done|rewrite decide_False by done].
    + rewrite size_union, size_singleton; [zlia|].
      apply disjoint_singleton_l. rewrite elem_of_status_set. unfold status_of. by rewrite Hl.
    + etrans; [|exact Hc]. apply inj_le, subseteq_size. set_solver.
  - intros [= <-]. unfold ValidatorSetManager_deregister_validator.
    destruct (vs_validators s !! k) eqn:Hl; [|done]. simpl. split; [|done]. split; simpl.
    + by apply map_Forall_delete.
    + etrans; [|exact Hc]. apply inj_le, subseteq_size. intros k'. rewrite !elem_of_status_set.
      unfold status_of. destruct (decide (k' = k)) as [->|]; [by rewrite lookup_delete_eq|].
      by rewrite lookup_delete_ne.
  - intros [= <-]. unfold ValidatorSetManager_update_stake. destruct (_ !! k) as [v|] eqn:Hl; [|done].
    simpl. split; [|done]. by apply (ValidatorSet_wf_replace k v).
  - intros [= <-]. unfold ValidatorSetManager_jail, jail. destruct (_ !! k) as [v|] eqn:Hl; [|done].
    simpl. split; [|done]. by apply (ValidatorSet_wf_replace k v).
  - intros [= <-]. unfold ValidatorSetManager_unjail, unjail. destruct (_ !! k) as [v|] eqn:Hl; [|done].
    destruct (negb _); [done|]. simpl. split; [|done]. by apply (ValidatorSet_wf_replace k v).
  - unfold ValidatorSetManager_epoch_rotation.
    destruct (rotate_spec (vs_validators s) pool (active_set_cap (vs_config s)) Hk)
      as (m' & sw & -> & Hm' & _ & _ & HA & _). simpl.
    destruct (u64_add _ _); simpl; [|done]. intros [= <-]. split; [|done]. split; simpl; [done|]. lia.
Qed.

(** A step panics only when the epoch counter overflows. *)
Lemma validator_set_step_total s c :
  ValidatorSet_wf s → 0 <= vs_current_epoch s < u64_max →
  ∃ s', validator_set_step s c = Some s' ∧
    vs_current_epoch s' = vs_current_epoch s + (if is_rotation c then 1 else 0).
Proof.
  intros [Hk _] He. destruct c as [k st cr h|k|k st|k|k|pool]; simpl.
  1-5: eexists; split; [done|]; rewrite Z.add_0_r.
  - unfold ValidatorSetManager_register_validator. by repeat case_match.
  - unfold ValidatorSetManager_deregister_validator. by repeat case_match.
  - unfold ValidatorSetManager_update_stake. by repeat case_match.
  - unfold ValidatorSetManager_jail. by destruct (jail _ _).
  - unfold ValidatorSetManager_unjail. by destruct (unjail _ _).
  - unfold ValidatorSetManager_epoch_rotation.
    destruct (rotate_spec (vs_validators s) pool (active_set_cap (vs_config s)) Hk) as (m' & sw & -> & _).
    simpl. unfold u64_add. rewrite arith_u_ok by zlia. simpl. eexists. split; [done|]. done.
Qed.

Lemma validator_set_exec_spec cs s :
  ValidatorSet_wf s → 0 <= vs_current_epoch s → vs_current_epoch s + Z.of_nat (length cs) <= u64_max →
  ∃ s', validator_set_exec s cs = Some s' ∧ ValidatorSet_wf s' ∧ vs_config s' = vs_config s ∧
    vs_current_epoch s' = vs_current_epoch s + Z.of_nat (length (filter is_rotation cs)).
Proof.
  unfold validator_set_exec. revert s. induction cs as [|c cs IH]; intros s Hs He Hle; simpl.
  { exists s. split_and!; try done. simpl. lia. }
  simpl in Hle. destruct (validator_set_step_total s c Hs) as (s1 & Hstep & He1); [lia|].
  destruct (validator_set_step_wf s c s1 Hs Hstep) as [Hs1 Hc1]. rewrite Hstep. simpl.
  destruct (IH s1) as (s' & Hs' & Hw' & Hc' & He'); [done|destruct (is_rotation c); lia..|].
  exists s'. split_and!; [done|done|congruence|]. rewrite He', He1, filter_cons.
  destruct (is_rotation c); simpl; lia.
Qed.

(** ** The proposer *)

(** The active validators in key order with their powers: contiguous ranges of
    slots, each as long as its owner's power. *)
Definition power_ranges m pool : list (bytes * Z) :=
  sort_by (cmp_on fst bytes_cmp)
    ((λ k, (k, voting_power pool k)) <$> elements (status_set Active m)).

Lemma proposer_loop_spec L slot c fallback :
  Forall (λ kp, 0 <= kp.2) L → 0 <= c → c + zsum L.*2 < U64 → c <= slot < c + zsum L.*2 →
  ∃ k p, (k, p) ∈ L ∧ 0 < p ∧ proposer_loop slot c L fallback = Some (Some k).
Proof.
  revert c. induction L as [|[k p] L IH]; intros c Hnn Hc Hsum Hslot; csimpl in *; [simpl in *; lia|].
  apply Forall_cons in Hnn as [Hp Hnn]. simpl in *.
  assert (0 <= zsum L.*2) by (by apply zsum_nonneg, Forall_fmap).
  unfold u64_add. rewrite arith_u_ok by zlia. simpl. destruct (slot <? c + p) eqn:E.
  - exists k, p. split_and!; [left|zlia|done].
  - destruct (IH (c + p)) as (k' & p' & Hin & Hp' & ->); [done|lia|lia|zlia|].
    exists k', p'. split_and!; [by right|done|done].
Qed.

(** Validator [k] owns the slots of its range, and no other. *)
Lemma proposer_loop_owner l1 k p l2 slot c fallback :
  let L := l1 ++ (k, p) :: l2 in
  NoDup L.*1 → Forall (λ kp, 0 <= kp.2) L → 0 <= c → c + zsum L.*2 < U64 → c <= slot < c + zsum L.*2 →
  proposer_loop slot c L fallback = Some (Some k) ↔ c + zsum l1.*2 <= slot < c + zsum l1.*2 + p.
Proof.
  revert c. induction l1 as [|[k1 p1] l1 IH]; intros c L Hnd Hnn Hc Hsum Hslot; subst L; csimpl in *;
    apply NoDup_cons in Hnd as [Hk Hnd]; apply Forall_cons in Hnn as [Hp Hnn]; simpl in *;
    match type of Hnn with Forall _ ?l => assert (0 <= zsum l.*2) by (by apply zsum_nonneg, Forall_fmap) end;
    unfold u64_add; rewrite arith_u_ok by zlia; simpl.
  - destruct (slot <? c + p) eqn:E; [split; [zlia|done]|].
    destruct (proposer_loop_spec l2 slot (c + p) fallback) as (k' & p' & Hin & _ & ->); [done|lia|lia|zlia|].
    split; [|zlia]. intros [= ->]. destruct Hk. apply list_elem_of_fmap. by exists (k, p').
  - assert (0 <= zsum l1.*2).
    { apply zsum_nonneg, Forall_fmap. by apply Forall_app in Hnn as [? _]. }
    destruct (slot <? c + p1) eqn:E.
    + split; [|zlia]. intros [= ->]. destruct Hk. rewrite fmap_app. csimpl. set_solver.
    + rewrite IH by (done || lia || zlia). lia.
Qed.

Lemma power_ranges_keys m pool : (power_ranges m pool).*1 ≡ₚ elements (status_set Active m).
Proof.
  unfold power_ranges. rewrite sort_by_perm, <-list_fmap_compose.
  unfold compose. simpl. by rewrite list_fmap_id.
Qed.

Lemma elem_of_power_ranges m pool k p :
  (k, p) ∈ power_ranges m pool ↔ status_of m k = Some Active ∧ p = voting_power pool k.
Proof.
  unfold power_ranges. rewrite elem_of_sort_by, list_elem_of_fmap. setoid_rewrite elem_of_elements.
  setoid_rewrite elem_of_status_set. naive_solver.
Qed.

(** [get_proposer] runs its loop on the ranges, in whatever order the map yields them. *)
Lemma get_proposer_eq s pool h :
  keyed (vs_validators s) →
  let L := power_ranges (vs_validators s) pool in
  Forall (λ kp, 0 <= kp.2) L → zsum L.*2 < U64 →
  ValidatorSetManager_get_proposer s h pool =
    if zsum L.*2 =? 0 then Some None else proposer_loop (h mod zsum L.*2) 0 L (fst <$> last L).
Proof.
  intros Hk L Hnn Hsum. unfold ValidatorSetManager_get_proposer. set (f := λ v, (vi_pubkey v, _)).
  assert (sort_by (cmp_on fst bytes_cmp) (f <$> with_status Active (vs_validators s)) = L) as HL'.
  { unfold L, power_ranges. apply (sort_by_unique _).
    - intros x y (v & -> & _)%list_elem_of_fmap (v' & -> & _)%list_elem_of_fmap.
      unfold cmp_on. intros Hxy%(cmp_eq bytes_cmp). simpl in Hxy. unfold f. by rewrite Hxy.
    - rewrite <-with_status_keys by done. by rewrite <-list_fmap_compose. }
  rewrite <-HL' in Hnn, Hsum |- *. clear HL'.
  destruct (f <$> with_status Active (vs_validators s)) as [|a l] eqn:E; [done|].
  rewrite u64_sum_ok by (done || by apply Forall_fmap). simpl. destruct (_ =? 0) eqn:E0; [done|]. unfold rem_or_panic. by rewrite E0.
Qed.
End ManagerLemmas.

(** * Properties *)

(** C24: an epoch rotation always returns, and elects the strongest.  It changes
    nothing but statuses, leaves the jailed validators alone, fills the active set
    up to the cap and never shrinks it; afterwards no standby validator has more
    power than an active one; every swap it reports strictly gains power; and the
    result does not depend on the order in which the hash map is iterated. *)
Theorem rotate_elects_strongest {P : Type} {VP : VotingPower P} {HO HO' : HashOrder}
    {HL : HashOrderLaws HO} {HL' : HashOrderLaws HO'}
    (m : gmap bytes ValidatorInfo) (pool : P) (cap : Z) :
  keyed m →
  rotate (HO := HO') m pool cap = rotate (HO := HO) m pool cap ∧
  ∃ m' swaps, rotate (HO := HO) m pool cap = Some (m', swaps) ∧ keyed m' ∧ same_infos m m' ∧
    status_set Jailed m' = status_set Jailed m ∧
    Z.of_nat (size (status_set Active m')) =
      Z.max (Z.of_nat (size (status_set Active m)))
        (Z.min cap (Z.of_nat (size (status_set Active m)) + Z.of_nat (size (status_set Standby m)))) ∧
    (∀ a x, status_of m' a = Some Active → status_of m' x = Some Standby →
            voting_power pool x <= voting_power pool a) ∧
    Forall (λ sw, voting_power pool sw.2 < voting_power pool sw.1) swaps.
Proof. intros Hm. split; [apply rotate_order|by apply rotate_spec]. Qed.

(** Three validators over the pool of Staking.v: the strongest on standby. *)
Definition demo_validators : gmap bytes ValidatorInfo :=
  {[ key32 1 := mkValidatorInfo (key32 1) 1000 500 Standby 10000 0;
     key32 2 := mkValidatorInfo (key32 2) 1000 500 Active 10000 0;
     key32 3 := mkValidatorInfo (key32 3) 1000 500 Active 10000 0 ]}.
Definition demo_set : ValidatorSetManager :=
  mkValidatorSetState demo_validators (mkValidatorSetConfig 2 100 1) 0.

#[local] Instance demo_voting_power : VotingPower StakingPool :=
  StakingPool_voting_power (HO := forward_order).
#[local] Instance demo_voting_power_laws : VotingPowerLaws StakingPool :=
  StakingPool_voting_power_laws (OC := debug_build) (HO := forward_order).

Lemma demo_keyed : keyed demo_validators.
Proof. unfold demo_validators. repeat (apply map_Forall_insert_2; [done|]). apply map_Forall_empty. Qed.

Lemma rotate_elects_strongest_witness :
  snd <$> rotate (HO := forward_order) demo_validators demo_run.1 2 = Some [(key32 1, key32 2)] ∧
  rotate (HO := backward_order) demo_validators demo_run.1 2 =
    rotate (HO := forward_order) demo_validators demo_run.1 2.
Proof.
  split; [vm_compute; reflexivity|].
  exact (proj1 (rotate_elects_strongest (HO := forward_order) (HO' := backward_order)
    demo_validators demo_run.1 2 demo_keyed)).
Defined.

(** C25: registering, deregistering, jailing, unjailing and rotating in any order
    keep the active set within the cap and every validator under its own key; no
    operation panics and the rotation's loop never runs away, as long as the epoch
    counter fits; the epoch is the number of rotations. *)
Theorem active_cap_invariant {P : Type} {VP : VotingPower P} {HO : HashOrder} {HL : HashOrderLaws HO}
    {OC : OverflowChecks} (config : ValidatorSetConfig) (cs : list (validator_set_cmd P)) :
  Z.of_nat (length cs) <= u64_max →
  ∃ s, validator_set_exec (ValidatorSetManager_with_config config) cs = Some s ∧
    vs_config s = config ∧ keyed (vs_validators s) ∧
    ValidatorSetManager_active_count s <= Z.max 0 (active_set_cap config) ∧
    vs_current_epoch s = Z.of_nat (length (filter is_rotation cs)).
Proof.
  intros Hcs. destruct (validator_set_exec_spec cs (ValidatorSetManager_with_config config))
    as (s & Hs & [Hk Hc] & Hcfg & He); [|done|done|].
  { split; [apply map_Forall_empty|]. simpl. unfold status_set. rewrite map_filter_empty, dom_empty_L, size_empty. lia. }
  exists s. simpl in *. split_and!; try done.
  unfold ValidatorSetManager_active_count. rewrite length_with_status, <-Hcfg by done. done.
Qed.

Definition demo_cmds : list (validator_set_cmd StakingPool) :=
  [VsRegister (key32 2) 500 0 1; VsRegister (key32 3) 7 0 1; VsRegister (key32 1) 900 0 2;
   VsRotate demo_run.1; VsJail (key32 1); VsRotate demo_run.1; VsUnjail (key32 1); VsDeregister (key32 3)].
Lemma active_cap_invariant_witness :
  ∃ s, validator_set_exec (OC := debug_build) (HO := forward_order)
         (ValidatorSetManager_with_config (mkValidatorSetConfig 2 100 1)) demo_cmds = Some s ∧
    vs_config s = mkValidatorSetConfig 2 100 1 ∧ keyed (vs_validators s) ∧
    ValidatorSetManager_active_count (HO := forward_order) s <= 2 ∧ vs_current_epoch s = 2.
Proof.
  exact (active_cap_invariant (OC := debug_build) (HO := forward_order)
    (mkValidatorSetConfig 2 100 1) demo_cmds ltac:(vm_compute; discriminate)).
Defined.

(** C26: the proposer schedule is fair, while the powers of the active validators add up to
    less than 2^64 (they are added unchecked: a greater sum panics a debug build and wraps
    in a release build) in a set filed by key and a pool that satisfies its invariant.
    Over every cycle of as many heights as the active validators have power, each active validator proposes at exactly as many
    heights as its power; at every height there is one proposer, active and of
    positive power, and [get_proposer] neither panics nor falls back to the last
    validator; with no power at all nobody proposes. *)
Theorem proposer_weighted {P : Type} {VP : VotingPower P} {VL : VotingPowerLaws P} {HO : HashOrder}
    {HL : HashOrderLaws HO} {OC : OverflowChecks} (s : ValidatorSetManager) (pool : P) :
  keyed (vs_validators s) → power_pool_ok pool →
  let total := zsum (power_ranges (vs_validators s) pool).*2 in
  total < U64 →
  (total = 0 → ∀ h, ValidatorSetManager_get_proposer s h pool = Some None) ∧
  (0 < total → ∀ h, ∃ k, ValidatorSetManager_get_proposer s h pool = Some (Some k) ∧
     status_of (vs_validators s) k = Some Active ∧ 0 < voting_power pool k) ∧
  (0 < total → ∀ k c, status_of (vs_validators s) k = Some Active →
     length (filter (λ h, ValidatorSetManager_get_proposer s h pool = Some (Some k))
       (seqZ (c * total) total)) = Z.to_nat (voting_power pool k)).
Proof.
  intros Hk Hp total Htotal. set (L := power_ranges (vs_validators s) pool) in *.
  assert (Forall (λ kp, 0 <= kp.2) L) as Hnn.
  { apply Forall_forall. intros [k p] [_ ->]%elem_of_power_ranges. by apply voting_power_u64. }
  assert (∀ h, ValidatorSetManager_get_proposer s h pool =
    if total =? 0 then Some None else proposer_loop (h mod total) 0 L (fst <$> last L)) as Hget
    by (intros h; by apply get_proposer_eq).
  split_and!.
  - intros H0 h. rewrite Hget. by rewrite H0.
  - intros H0 h. rewrite Hget, (proj2 (Z.eqb_neq _ _)) by lia. pose proof (Z.mod_pos_bound h total H0).
    destruct (proposer_loop_spec L (h mod total) 0 (fst <$> last L)) as (k & p & Hin & Hpos & ->); [done|lia..|].
    apply elem_of_power_ranges in Hin as [? ->]. by exists k.
  - intros H0 k c Hka.
    destruct (list_elem_of_split L (k, voting_power pool k)) as (l1 & l2 & HL12); [by apply elem_of_power_ranges|].
    assert (NoDup L.*1) as Hnd by (unfold L; rewrite power_ranges_keys; apply NoDup_elements).
    assert (total = zsum l1.*2 + voting_power pool k + zsum l2.*2) as Htot.
    { unfold total. rewrite HL12, fmap_app, zsum_app. csimpl. simpl. lia. }
    rewrite HL12 in Hnn. pose proof Hnn as [Hn1 [Hn2 Hn3]%Forall_cons]%Forall_app. simpl in Hn2.
    pose proof (zsum_nonneg l1.*2 (proj2 (Forall_fmap _ _ _) Hn1)).
    pose proof (zsum_nonneg l2.*2 (proj2 (Forall_fmap _ _ _) Hn3)).
    apply (length_filter_seqZ _ _ _ (zsum l1.*2)); [lia|lia|lia|]. intros h Hh.
    assert (h mod total = h - c * total) as Hmod by (symmetry; apply (Z.mod_unique_pos _ _ c); lia).
    rewrite Hget, (proj2 (Z.eqb_neq _ _)), HL12 by lia.
    rewrite proposer_loop_owner; rewrite <-?HL12; [lia|done|by rewrite HL12|lia|done|].
    change (zsum L.*2) with total. pose proof (Z.mod_pos_bound h total H0). lia.
Qed.

Lemma proposer_weighted_witness :
  power_ranges demo_validators demo_run.1 = [(key32 2, 0); (key32 3, 10)] ∧
  ∃ k, ValidatorSetManager_get_proposer (OC := debug_build) (HO := forward_order) demo_set 1000 demo_run.1
    = Some (Some k) ∧ status_of demo_validators k = Some Active ∧ 0 < voting_power demo_run.1 k.
Proof.
  split; [vm_compute; reflexivity|].
  refine (proj1 (proj2 (proposer_weighted (OC := debug_build) (HO := forward_order) demo_set demo_run.1
    demo_keyed demo_wf _)) _ 1000); vm_compute; reflexivity.
Defined.
