(* ===== verification/Slashing.v ===== *)
(** * Slashing (runtime/slashing)

    The evidence pool, deduplicated by a 32-byte hash, and the engine that turns
    pending evidence into slashes: the offender's recorded stake is cut, its stake in
    the staking pool is withdrawn if it can be, the treasury is credited and the
    offender jailed.  The engine calls the validator set (ValidatorSet.v) and the
    staking pool (Staking.v). *)
From S2P Require Import Prelude Staking ValidatorSet.
Open Scope Z_scope.

(** [serde_json::to_vec] of a byte vector. *)
Class JsonBytes := json_bytes : bytes → bytes.

(** ** types.rs *)

Inductive SlashingOffense := DoubleSign | Downtime | InvalidBlock.

(** [self.offense as u8] *)
Definition SlashingOffense_as_u8 (o : SlashingOffense) : Byte.byte :=
  match o with DoubleSign => x00 | Downtime => x01 | InvalidBlock => x02 end.

Record SlashEvent := mkSlashEvent {
  ev_offender : bytes;
  ev_offense : SlashingOffense;
  ev_slash_amount : Z;
  ev_height : Z;
  ev_evidence_hash : bytes;
}.

Record SlashingConfig := mkSlashingConfig {
  double_sign_slash_bps : Z;
  downtime_slash_bps : Z;
  invalid_block_slash_bps : Z;
  downtime_threshold : Z;
}.
Definition SlashingConfig_default : SlashingConfig := mkSlashingConfig 500 100 1000 100.

Definition SlashingConfig_slash_bps (c : SlashingConfig) (offense : SlashingOffense) : Z :=
  match offense with
  | DoubleSign => double_sign_slash_bps c
  | Downtime => downtime_slash_bps c
  | InvalidBlock => invalid_block_slash_bps c
  end.

Record EvidenceRecord := mkEvidenceRecord {
  er_offense : SlashingOffense;
  er_offender : bytes;
  er_height : Z;
  er_data : bytes;
  er_processed : bool;
}.

(** One round of the folding in [hash]: [out[i % 32] ^= b], then
    [out[(i + 1) % 32] += b * 31], wrapping. *)
Definition hash_mix (out : bytes) (i : nat) (b : Byte.byte) : bytes :=
  let out := alter (λ o, Z_byte (Z.lxor (byte_Z o) (byte_Z b))) (i mod 32)%nat out in
  alter (λ o, Z_byte (byte_Z o + byte_Z b * 31)) ((i + 1) mod 32)%nat out.

Fixpoint hash_fold (i : nat) (json out : bytes) : bytes :=
  match json with
  | [] => out
  | b :: json => hash_fold (S i) json (hash_mix out i b)
  end.

Definition EvidenceRecord_hash {J : JsonBytes} (e : EvidenceRecord) : bytes :=
  let bytes := er_offender e ++ le_bytes 8 (er_height e) ++ er_data e ++
               [SlashingOffense_as_u8 (er_offense e)] in
  hash_fold 0 (json_bytes bytes) zero32.

Inductive SlashingError :=
| SlashingError_ValidatorNotFound (k : bytes)
| SlashingError_DuplicateEvidence
| SlashingError_InvalidEvidence (msg : string)
| SlashingError_AlreadyJailed
| SlashingError_ValidatorSetError (msg : string).

(** ** evidence.rs *)

Abbreviation EvidencePool := (gmap bytes EvidenceRecord).

Definition EvidencePool_new : EvidencePool := ∅.

Definition EvidencePool_submit_evidence {J : JsonBytes} (evidence : EvidenceRecord) (p : EvidencePool) :
    EvidencePool * result SlashingError bytes :=
  match er_data evidence with
  | [] => (p, Err (SlashingError_InvalidEvidence "evidence data must not be empty"))
  | _ =>
    let hash := EvidenceRecord_hash evidence in
    match p !! hash with
    | Some _ => (p, Err SlashingError_DuplicateEvidence)
    | None => (<[hash := evidence]> p, Ok hash)
    end
  end.

Definition EvidencePool_get_pending_evidence {HO : HashOrder} (p : EvidencePool) : list EvidenceRecord :=
  filter (λ e, er_processed e = false) (hash_values p).

Definition set_processed (e : EvidenceRecord) : EvidenceRecord :=
  mkEvidenceRecord (er_offense e) (er_offender e) (er_height e) (er_data e) true.

Definition EvidencePool_mark_processed (hash : bytes) (p : EvidencePool) : EvidencePool * bool :=
  match p !! hash with
  | Some record => (<[hash := set_processed record]> p, true)
  | None => (p, false)
  end.

Definition EvidencePool_get (p : EvidencePool) (hash : bytes) : option EvidenceRecord := p !! hash.
Definition EvidencePool_len (p : EvidencePool) : nat := size p.
Definition EvidencePool_is_empty (p : EvidencePool) : bool := bool_decide (p = ∅).

(** ** engine.rs *)

Record SlashingEngine := mkSlashingEngine {
  se_config : SlashingConfig;
  se_evidence_pool : EvidencePool;
  se_slash_history : gmap bytes (list SlashEvent);
  se_treasury : Z;
}.

Definition SlashingEngine_with_config (config : SlashingConfig) : SlashingEngine :=
  mkSlashingEngine config EvidencePool_new ∅ 0.
Definition SlashingEngine_new : SlashingEngine := SlashingEngine_with_config SlashingConfig_default.

Definition set_evidence_pool (p : EvidencePool) (s : SlashingEngine) : SlashingEngine :=
  mkSlashingEngine (se_config s) p (se_slash_history s) (se_treasury s).

Definition SlashingEngine_submit_evidence {J : JsonBytes} (evidence : EvidenceRecord) (s : SlashingEngine) :
    SlashingEngine * result SlashingError bytes :=
  let '(p, r) := EvidencePool_submit_evidence evidence (se_evidence_pool s) in
  (set_evidence_pool p s, r).

(** What the engine mutates: itself and the two components it borrows. *)
Definition slash_world : Type := SlashingEngine * ValidatorSetManager * StakingPool.

Section Engine.
Context {J : JsonBytes} {OC : OverflowChecks}.

Definition slash_amount_of (config : SlashingConfig) (offense : SlashingOffense) (stake : Z) : Z :=
  as_u64 (stake * SlashingConfig_slash_bps config offense / 10000).

Definition process_single_evidence (evidence : EvidenceRecord) (w : slash_world) :
    may_panic (slash_world * option SlashEvent) :=
  let '(s, validator_set, staking_pool) := w in
  match ValidatorSetManager_get_validator validator_set (er_offender evidence) with
  | None => Some (w, None)
  | Some validator =>
    let slash_amount := slash_amount_of (se_config s) (er_offense evidence) (vi_stake validator) in
    if slash_amount =? 0 then Some (w, None)
    else
      let new_stake := u64_saturating_sub (vi_stake validator) slash_amount in
      match ValidatorSetManager_update_stake (er_offender evidence) new_stake validator_set with
      | (validator_set, Err _) => Some ((s, validator_set, staking_pool), None)
      | (validator_set, Ok _) =>
        '(staking_pool, _) ← StakingPool_unstake staking_pool (er_offender evidence) slash_amount;
        let treasury := u64_saturating_add (se_treasury s) slash_amount in
        let '(validator_set, _) := ValidatorSetManager_jail (er_offender evidence) validator_set in
        let event := mkSlashEvent (er_offender evidence) (er_offense evidence) slash_amount
                       (er_height evidence) (EvidenceRecord_hash evidence) in
        let history := <[er_offender evidence :=
          default [] (se_slash_history s !! er_offender evidence) ++ [event]]> (se_slash_history s) in
        Some ((mkSlashingEngine (se_config s) (se_evidence_pool s) history treasury,
               validator_set, staking_pool), Some event)
      end
  end.

(** The loop of [process_all_evidence]. *)
Definition process_evidence_step (we : slash_world * list SlashEvent) (evidence : EvidenceRecord) :
    may_panic (slash_world * list SlashEvent) :=
  let '(w, events) := we in
  '(w, event) ← process_single_evidence evidence w;
  let '(s, validator_set, staking_pool) := w in
  let p := (EvidencePool_mark_processed (EvidenceRecord_hash evidence) (se_evidence_pool s)).1 in
  Some ((set_evidence_pool p s, validator_set, staking_pool), events ++ option_list event).

Definition SlashingEngine_process_all_evidence {HO : HashOrder} (w : slash_world) :
    may_panic (slash_world * list SlashEvent) :=
  fold_may_panic process_evidence_step (w, [])
    (EvidencePool_get_pending_evidence (se_evidence_pool w.1.1)).

(** [b"direct_slash"] *)
Definition direct_slash : bytes :=
  [x64; x69; x72; x65; x63; x74; x5f; x73; x6c; x61; x73; x68].

Definition SlashingEngine_slash_validator (pubkey : bytes) (offense : SlashingOffense) (height : Z)
    (w : slash_world) : may_panic (slash_world * result SlashingError SlashEvent) :=
  '(w, event) ← process_single_evidence (mkEvidenceRecord offense pubkey height direct_slash false) w;
  Some (w, match event with
           | Some event => Ok event
           | None => Err (SlashingError_ValidatorNotFound pubkey)
           end).

Definition SlashingEngine_get_slash_history (s : SlashingEngine) (pubkey : bytes) : list SlashEvent :=
  default [] (se_slash_history s !! pubkey).
End Engine.

(** * Lemmas *)

#[local] Arguments EvidencePool_mark_processed : simpl never.

(** The rates are proper fractions. *)
Definition SlashingConfig_wf (c : SlashingConfig) : Prop :=
  ∀ o, 0 <= SlashingConfig_slash_bps c o <= 10000.

(** The worlds the engine works in. *)
Record slash_world_wf {OC : OverflowChecks} {J : JsonBytes} (w : slash_world) : Prop := {
  sw_config : SlashingConfig_wf (se_config w.1.1);
  sw_treasury : u64 (se_treasury w.1.1);
  sw_evidence : map_Forall (λ h e, EvidenceRecord_hash e = h) (se_evidence_pool w.1.1);
  sw_stakes : map_Forall (λ _ v, u64 (vi_stake v)) (vs_validators w.1.2);
  sw_pool : StakingPool_wf w.2;
}.

Section EngineLemmas.
Context {J : JsonBytes} {OC : OverflowChecks}.

Lemma slash_amount_eq c o stake :
  SlashingConfig_wf c → u64 stake →
  slash_amount_of c o stake = stake * SlashingConfig_slash_bps c o / 10000 ∧
  0 <= slash_amount_of c o stake <= stake.
Proof.
  intros Hc Hs. unfold slash_amount_of, as_u64. specialize (Hc o). set (b := SlashingConfig_slash_bps c o) in *.
  assert (0 <= stake * b / 10000 <= stake).
  { split; [apply Z.div_pos; zlia || nia|]. apply Z.div_le_upper_bound; [lia|]. unfold u64 in Hs. nia. }
  rewrite Z.mod_small by zlia. done.
Qed.

(** The validator set after a slash: the offender jailed, with its stake cut. *)
Definition slashed_info (v : ValidatorInfo) (amount : Z) : ValidatorInfo :=
  mkValidatorInfo (vi_pubkey v) (vi_stake v - amount) (vi_commission_rate v) Jailed
    (vi_performance_score v) (vi_join_height v).

Definition slash_event (e : EvidenceRecord) (amount : Z) : SlashEvent :=
  mkSlashEvent (er_offender e) (er_offense e) amount (er_height e) (EvidenceRecord_hash e).

(** Unstaking touches one staker's entries, no delegation. *)
Lemma unstake_frame p s a :
  StakingPool_wf p → u64 a →
  ∃ p' r, StakingPool_unstake p s a = Some (p', r) ∧ StakingPool_wf p' ∧
    st_delegations p' = st_delegations p ∧ st_current_epoch p' = st_current_epoch p ∧
    (∀ k, k ≠ s → st_entries p' !! k = st_entries p !! k) ∧
    st_total_staked p' = st_total_staked p - (if is_ok r then a else 0).
Proof.
  intros Hp Ha. pose proof (unstake_eq p s a Hp Ha) as Heq.
  destruct (StakingPool_unstake p s a) as [[p' r]|] eqn:Hu; [|done]. exists p', r.
  pose proof (unstake_wf _ _ _ _ _ Hp Ha Hu) as Hp'. apply (inj Some) in Heq.
  split_and!; [done|done|..];
    (destruct (a =? 0); [simplify_eq; simpl; try done; lia|]);
    (destruct (st_entries p !! s) as [l|]; [|simplify_eq; simpl; try done; lia]);
    simpl in Heq; destruct (_ <? a); simplify_eq/=; try done; try lia.
  intros k Hk. unfold store_entries. case_match; [by rewrite lookup_delete_ne|by rewrite lookup_insert_ne].
Qed.

(** Processing one piece of evidence, on every branch. *)
Lemma process_single_eq e s vs sp :
  slash_world_wf (s, vs, sp) →
  ∃ sp' r, StakingPool_unstake sp (er_offender e) 
             match vs_validators vs !! er_offender e with
             | Some v => slash_amount_of (se_config s) (er_offense e) (vi_stake v) | None => 0 end
             = Some (sp', r) ∧
  process_single_evidence e (s, vs, sp) = Some
    match vs_validators vs !! er_offender e with
    | None => ((s, vs, sp), None)
    | Some v =>
      let amount := slash_amount_of (se_config s) (er_offense e) (vi_stake v) in
      if amount =? 0 then ((s, vs, sp), None)
      else
        ((mkSlashingEngine (se_config s) (se_evidence_pool s)
            (<[er_offender e := SlashingEngine_get_slash_history s (er_offender e) ++ [slash_event e amount]]>
               (se_slash_history s))
            (Z.min u64_max (se_treasury s + amount)),
          set_validators (<[er_offender e := slashed_info v amount]> (vs_validators vs)) vs, sp'),
         Some (slash_event e amount))
    end.
Proof.
  intros [Hc Ht He Hs Hp]. simpl in *. unfold process_single_evidence, ValidatorSetManager_get_validator.
  destruct (vs_validators vs !! er_offender e) as [v|] eqn:Hv.
  2: { destruct (unstake_frame sp (er_offender e) 0 Hp) as (sp' & r & Hu & _); [zlia|]. by exists sp', r. }
  pose proof (Hs _ _ Hv) as Hvs. simpl in Hvs.
  destruct (slash_amount_eq (se_config s) (er_offense e) (vi_stake v) Hc Hvs) as [_ Ha].
  set (a := slash_amount_of _ _ _) in *.
  destruct (unstake_frame sp (er_offender e) a Hp) as (sp' & r & Hu & _); [zlia|]. exists sp', r.
  split; [done|]. destruct (a =? 0); [done|].
  unfold ValidatorSetManager_update_stake. rewrite Hv, Hu. simpl.
  unfold ValidatorSetManager_jail, jail. simpl. rewrite lookup_insert_eq, insert_insert_eq.
  unfold slashed_info, u64_saturating_sub, set_status. simpl.
  rewrite Z.max_r by lia. done.
Qed.

(** The sum of all recorded stakes. *)
Definition recorded_stake (vs : ValidatorSetManager) : Z := map_zsum vi_stake (vs_validators vs).
Definition events_total (evs : list SlashEvent) : Z := zsum (ev_slash_amount <$> evs).

(** What any number of slashes does to the world. *)
Record slashes (w w' : slash_world) (offenders : list bytes) (evs : list SlashEvent) : Prop := {
  sl_wf : slash_world_wf w';
  sl_config : se_config w'.1.1 = se_config w.1.1;
  sl_delegations : st_delegations w'.2 = st_delegations w.2;
  sl_epoch : st_current_epoch w'.2 = st_current_epoch w.2;
  sl_bystanders k : k ∉ offenders →
    st_entries w'.2 !! k = st_entries w.2 !! k ∧ vs_validators w'.1.2 !! k = vs_validators w.1.2 !! k;
  sl_registered : dom (vs_validators w'.1.2) = dom (vs_validators w.1.2);
  sl_stays_jailed k : status_of (vs_validators w.1.2) k = Some Jailed →
    status_of (vs_validators w'.1.2) k = Some Jailed;
  sl_jailed : Forall (λ ev, status_of (vs_validators w'.1.2) (ev_offender ev) = Some Jailed) evs;
  sl_amounts : Forall (λ ev, 0 < ev_slash_amount ev) evs;
  sl_recorded : recorded_stake w'.1.2 + events_total evs = recorded_stake w.1.2;
  sl_treasury : se_treasury w'.1.1 = Z.min u64_max (se_treasury w.1.1 + events_total evs);
  sl_history k : SlashingEngine_get_slash_history w'.1.1 k =
    SlashingEngine_get_slash_history w.1.1 k ++ filter (λ ev, ev_offender ev = k) evs;
  sl_withdrawn : st_total_staked w.2 - events_total evs <= st_total_staked w'.2 <= st_total_staked w.2;
}.

Lemma slashes_refl w offenders : slash_world_wf w → slashes w w offenders [].
Proof.
  intros Hw. split; try done.
  - unfold events_total. simpl. lia.
  - unfold events_total. simpl. destruct (sw_treasury w Hw). unfold u64_max. lia.
  - intros k. by rewrite app_nil_r.
  - unfold events_total. simpl. lia.
Qed.

Lemma slashes_trans w1 w2 w3 offs1 offs2 evs1 evs2 :
  slashes w1 w2 offs1 evs1 → slashes w2 w3 offs2 evs2 → slashes w1 w3 (offs1 ++ offs2) (evs1 ++ evs2).
Proof.
  intros H1 H2.
  assert (events_total (evs1 ++ evs2) = events_total evs1 + events_total evs2) as Hev
    by (unfold events_total; by rewrite fmap_app, zsum_app).
  assert (0 <= events_total evs2).
  { apply zsum_nonneg, Forall_fmap. eapply Forall_impl; [apply (sl_amounts _ _ _ _ H2)|]. simpl. lia. }
  destruct H1 as [W1 C1 D1 E1 B1 R1 SJ1 J1 A1 S1 T1 H1 U1], H2 as [W2 C2 D2 E2 B2 R2 SJ2 J2 A2 S2 T2 H2 U2].
  split; try congruence; rewrite ?Hev.
  - intros k [Hk1 Hk2]%not_elem_of_app. destruct (B1 k Hk1), (B2 k Hk2). split; congruence.
  - auto.
  - apply Forall_app. split; [|done]. eapply Forall_impl; [exact J1|]. intros ev. apply SJ2.
  - by apply Forall_app.
  - lia.
  - rewrite T2, T1. lia.
  - intros k. by rewrite H2, H1, filter_app, app_assoc.
  - lia.
Qed.

(** One slash. *)
Lemma process_single_slashes e w :
  slash_world_wf w →
  ∃ w' ev, process_single_evidence e w = Some (w', ev) ∧ slashes w w' [er_offender e] (option_list ev) ∧
    se_evidence_pool w'.1.1 = se_evidence_pool w.1.1 ∧
    ev = (v ← vs_validators w.1.2 !! er_offender e;
          let amount := vi_stake v * SlashingConfig_slash_bps (se_config w.1.1) (er_offense e) / 10000 in
          if amount =? 0 then None else Some (slash_event e amount)).
Proof.
  destruct w as [[s vs] sp]. intros Hw. pose proof (process_single_eq e s vs sp Hw) as (sp' & r & Hu & Heq).
  rewrite Heq. pose proof Hw as [Hc Ht He Hs Hp]. simpl in *.
  destruct (vs_validators vs !! er_offender e) as [v|] eqn:Hv.
  2: { do 2 eexists. split_and!; [done|by apply slashes_refl|done|done]. }
  pose proof (Hs _ _ Hv) as Hvs. simpl in Hvs.
  destruct (slash_amount_eq (se_config s) (er_offense e) (vi_stake v) Hc Hvs) as [Hae Ha].
  simpl. rewrite <-Hae. clear Hae. set (a := slash_amount_of _ _ _) in *.
  destruct (a =? 0) eqn:Ha0; (do 2 eexists; split_and!; [done| |done|done]); [by apply slashes_refl|].
  destruct (unstake_frame sp (er_offender e) a Hp) as (sp1 & r1 & Hu1 & Hwf & HD & HE & HB & HT); [zlia|].
  rewrite Hu in Hu1. simplify_eq. split; simpl; try done.
  - split; simpl; try done; [zlia|]. apply map_Forall_insert_2; [|done]. simpl. zlia.
  - intros k Hk. assert (k ≠ er_offender e) by set_solver.
    split; [by apply HB|by rewrite lookup_insert_ne].
  - rewrite dom_insert_L. apply elem_of_dom_2 in Hv. set_solver.
  - intros k. unfold status_of. destruct (decide (k = er_offender e)) as [->|];
      [by rewrite lookup_insert_eq|by rewrite lookup_insert_ne].
  - repeat constructor. simpl. unfold status_of. by rewrite lookup_insert_eq.
  - repeat constructor. simpl. zlia.
  - unfold recorded_stake, events_total. simpl. rewrite map_zsum_insert, Hv. simpl. lia.
  - unfold events_total. simpl. f_equal. lia.
  - intros k. unfold SlashingEngine_get_slash_history. simpl.
    destruct (decide (k = er_offender e)) as [->|Hk].
    + rewrite lookup_insert_eq. by rewrite filter_cons_True.
    + rewrite lookup_insert_ne by done. rewrite filter_cons_False by (simpl; congruence). by rewrite app_nil_r.
  - unfold events_total. simpl. rewrite HT. destruct (is_ok r1); lia.
Qed.

(** Marking evidence changes neither the hash nor the accounts. *)
Lemma mark_processed_lookup h p k :
  (EvidencePool_mark_processed h p).1 !! k =
  (if decide (k = h) then set_processed <$> p !! k else p !! k).
Proof.
  unfold EvidencePool_mark_processed. destruct (p !! h) eqn:Hh; simpl; case_decide; subst;
    rewrite ?lookup_insert_eq, ?lookup_insert_ne, ?Hh by done; done.
Qed.

Lemma slashes_mark w w' offs evs h :
  slashes w w' offs evs →
  slashes w (set_evidence_pool (EvidencePool_mark_processed h (se_evidence_pool w'.1.1)).1 w'.1.1, w'.1.2, w'.2)
    offs evs.
Proof.
  intros [[Wc Wt We Ws Wp] ?]. split; simpl; try done. split; simpl; try done.
  intros k e. rewrite mark_processed_lookup. case_decide; [|apply We].
  intros (e0 & He0 & ->)%fmap_Some. apply (We _ _ He0).
Qed.

(** The loop over a list of evidence. *)
Lemma process_loop_spec l w evs0 :
  slash_world_wf w →
  ∃ w' evs, fold_may_panic process_evidence_step (w, evs0) l = Some (w', evs0 ++ evs) ∧
    slashes w w' (er_offender <$> l) evs.
Proof.
  revert w evs0. induction l as [|e l IH]; intros w evs0 Hw; csimpl.
  { exists w, []. rewrite app_nil_r. split; [done|by apply slashes_refl]. }
  destruct (process_single_slashes e w Hw) as (w1 & ev & Hev & Hsl & _ & _).
  destruct w as [[s vs] sp], w1 as [[s1 vs1] sp1]. rewrite Hev. simpl.
  apply (slashes_mark _ _ _ _ (EvidenceRecord_hash e)) in Hsl. simpl in Hsl.
  destruct (IH _ (evs0 ++ option_list ev) (sl_wf _ _ _ _ Hsl)) as (w' & evs & Hl & Hsl').
  exists w', (option_list ev ++ evs). split; [etrans; [exact Hl|by rewrite app_assoc]|].
  by apply (slashes_trans _ _ _ [er_offender e] (er_offender <$> l)) with (1 := Hsl).
Qed.

(** What the loop does to the evidence, whatever the rest of the world is: it marks
    every record of the list, and every event carries the hash of its record. *)
Lemma process_single_evidence_pool e w w' ev :
  process_single_evidence e w = Some (w', ev) →
  se_evidence_pool w'.1.1 = se_evidence_pool w.1.1 ∧
  (ev = None ∨ ∃ x, ev = Some x ∧ ev_evidence_hash x = EvidenceRecord_hash e).
Proof.
  destruct w as [[s vs] sp]. unfold process_single_evidence, ValidatorSetManager_get_validator.
  destruct (vs_validators vs !! er_offender e) as [v|] eqn:Hv; [|intros [= <- <-]; eauto].
  destruct (_ =? 0); [intros [= <- <-]; eauto|].
  unfold ValidatorSetManager_update_stake. rewrite Hv. simpl.
  destruct (StakingPool_unstake _ _ _) as [[sp' r]|]; [|done]. simpl.
  destruct (ValidatorSetManager_jail _ _) as [vs' r']. intros [= <- <-]. simpl. eauto.
Qed.

Lemma process_loop_evidence l w evs0 w' evs :
  fold_may_panic process_evidence_step (w, evs0) l = Some (w', evs) →
  (∀ k, se_evidence_pool w'.1.1 !! k =
     (if decide (k ∈ EvidenceRecord_hash <$> l) then set_processed <$> se_evidence_pool w.1.1 !! k
      else se_evidence_pool w.1.1 !! k)) ∧
  ∃ evs', evs = evs0 ++ evs' ∧ (ev_evidence_hash <$> evs') `sublist_of` (EvidenceRecord_hash <$> l).
Proof.
  revert w evs0. induction l as [|e l IH]; intros w evs0 Hl; csimpl in *.
  { simplify_eq. split; [|exists []; by rewrite app_nil_r].
    done. }
  apply bind_Some in Hl as ([w2 evs2] & Hstep & Hl). unfold process_evidence_step in Hstep.
  apply bind_Some in Hstep as ([w1 ev] & Hev & Hstep). destruct w1 as [[s1 vs1] sp1]. simplify_eq.
  apply process_single_evidence_pool in Hev as [Hp Hev]. simpl in Hp.
  destruct (IH _ _ Hl) as (Hpool & evs' & -> & Hsub). split.
  - intros k. rewrite Hpool. simpl. rewrite mark_processed_lookup, Hp.
    assert (set_processed <$> (set_processed <$> se_evidence_pool w.1.1 !! k) =
            set_processed <$> se_evidence_pool w.1.1 !! k) as Hidem by (by destruct (_ !! k)).
    pose proof (elem_of_cons (EvidenceRecord_hash <$> l) k (EvidenceRecord_hash e)) as Hin.
    repeat case_decide; try done; naive_solver.
  - exists (option_list ev ++ evs'). rewrite app_assoc. split; [done|]. rewrite fmap_app.
    destruct Hev as [->|(x & -> & Hx)]; simpl; [by apply sublist_cons|].
    rewrite Hx. by apply sublist_skip.
Qed.

(** The pending evidence of a pool filed by hash. *)
Lemma pending_hashes {HO : HashOrder} {HL : HashOrderLaws HO} (p : EvidencePool) :
  map_Forall (λ h e, EvidenceRecord_hash e = h) p →
  NoDup (EvidenceRecord_hash <$> EvidencePool_get_pending_evidence p) ∧
  ∀ h, h ∈ EvidenceRecord_hash <$> EvidencePool_get_pending_evidence p ↔
       ∃ e, p !! h = Some e ∧ er_processed e = false.
Proof.
  intros Hp. unfold EvidencePool_get_pending_evidence.
  assert (∀ h e, (h, e) ∈ hash_iter p → EvidenceRecord_hash e = h) as Hk
    by (intros h e Hin%elem_of_hash_iter; by apply Hp).
  assert (EvidenceRecord_hash <$> hash_values p = (hash_iter p).*1) as Hv.
  { unfold hash_values. rewrite <-list_fmap_compose. apply list_fmap_ext.
    intros i [h e] Hi%list_elem_of_lookup_2. by apply Hk. }
  split.
  - eapply sublist_NoDup; [|apply fmap_sublist, sublist_filter]. rewrite Hv. apply hash_iter_nodup.
  - intros h. rewrite list_elem_of_fmap. setoid_rewrite list_elem_of_filter. split.
    + intros (e & -> & He & [k Hin]%elem_of_hash_values). exists e. rewrite (Hp _ _ Hin). done.
    + intros (e & He & Hpr). exists e. split; [by rewrite (Hp _ _ He)|]. split; [done|].
      apply elem_of_hash_values. eauto.
Qed.
End EngineLemmas.

(** ** Runs of the engine *)

(** The engine's own history: submissions, and rounds of processing in which the
    rest of the system hands over whatever validator set and staking pool it has. *)
Inductive slash_cmd :=
| SlashSubmit (evidence : EvidenceRecord)
| SlashProcess (validator_set : ValidatorSetManager) (staking_pool : StakingPool).

Definition slash_step {J : JsonBytes} {OC : OverflowChecks} {HO : HashOrder}
    (se : SlashingEngine * list SlashEvent) (c : slash_cmd) :
    may_panic (SlashingEngine * list SlashEvent) :=
  let '(s, log) := se in
  match c with
  | SlashSubmit e => Some ((SlashingEngine_submit_evidence e s).1, log)
  | SlashProcess vs sp =>
    '(w, events) ← SlashingEngine_process_all_evidence (s, vs, sp);
    Some (w.1.1, log ++ events)
  end.

(** Each piece of evidence is filed under its hash; what was punished is processed,
    once. *)
Record slash_log_wf {J : JsonBytes} (se : SlashingEngine * list SlashEvent) : Prop := {
  sg_keyed : map_Forall (λ h e, EvidenceRecord_hash e = h) (se_evidence_pool se.1);
  sg_done : Forall (λ ev, ∃ e, se_evidence_pool se.1 !! ev_evidence_hash ev = Some e ∧ er_processed e = true) se.2;
  sg_once : NoDup (ev_evidence_hash <$> se.2);
}.

Section RunLemmas.
Context {J : JsonBytes} {OC : OverflowChecks} {HO : HashOrder} {HL : HashOrderLaws HO}.

Lemma submit_evidence_inv e s :
  (SlashingEngine_submit_evidence e s).1 = s ∨
  (se_evidence_pool s !! EvidenceRecord_hash e = None ∧
   (SlashingEngine_submit_evidence e s).1 =
     set_evidence_pool (<[EvidenceRecord_hash e := e]> (se_evidence_pool s)) s).
Proof.
  unfold SlashingEngine_submit_evidence, EvidencePool_submit_evidence.
  destruct (er_data e) as [|b l]; [left; by destruct s|].
  destruct (se_evidence_pool s !! EvidenceRecord_hash e) eqn:He; [left; by destruct s|by right].
Qed.

(** After a round nothing is pending. *)
Lemma process_all_evidence_pool w w' evs :
  map_Forall (λ h e, EvidenceRecord_hash e = h) (se_evidence_pool w.1.1) →
  SlashingEngine_process_all_evidence w = Some (w', evs) →
  map_Forall (λ h e, EvidenceRecord_hash e = h) (se_evidence_pool w'.1.1) ∧
  (∀ h e, se_evidence_pool w.1.1 !! h = Some e → se_evidence_pool w'.1.1 !! h = Some (set_processed e)) ∧
  EvidencePool_get_pending_evidence (se_evidence_pool w'.1.1) = [] ∧
  NoDup (ev_evidence_hash <$> evs) ∧
  (∀ h, h ∈ ev_evidence_hash <$> evs → ∃ e, se_evidence_pool w.1.1 !! h = Some e ∧ er_processed e = false).
Proof.
  intros Hk Hp. unfold SlashingEngine_process_all_evidence in Hp.
  destruct (pending_hashes _ Hk) as [Hnd Hpend].
  apply process_loop_evidence in Hp as (Hpool & evs' & -> & Hsub). simpl.
  assert (∀ h e, se_evidence_pool w.1.1 !! h = Some e →
    se_evidence_pool w'.1.1 !! h = Some (set_processed e)) as Hpr.
  { intros h e He. rewrite Hpool, He. case_decide as Hh; [done|]. simpl. f_equal.
    destruct e as [o k ht d [|]]; [done|]. destruct Hh. apply Hpend. eauto. }
  assert (∀ h e, se_evidence_pool w'.1.1 !! h = Some e →
    ∃ e0, se_evidence_pool w.1.1 !! h = Some e0 ∧ e = set_processed e0) as Hinv.
  { intros h e He. destruct (se_evidence_pool w.1.1 !! h) as [e0|] eqn:He0.
    - apply Hpr in He0. exists e0. split; congruence.
    - rewrite Hpool, He0 in He. by case_decide. }
  split_and!; [|done| |by eapply sublist_NoDup|].
  - intros h e (e0 & He0 & ->)%Hinv. apply (Hk _ _ He0).
  - unfold EvidencePool_get_pending_evidence. apply filter_none.
    intros e [h He]%elem_of_hash_values. by apply Hinv in He as (e0 & _ & ->).
  - intros h Hh. apply Hpend. by eapply (elem_of_submseteq _ _ _ Hh), sublist_submseteq.
Qed.

Lemma slash_step_wf se c se' : slash_log_wf se → slash_step se c = Some se' → slash_log_wf se'.
Proof.
  destruct se as [s log]. intros [Hk Hd Ho] Hs. simpl in *. destruct c as [e|vs sp]; simpl in Hs.
  - injection Hs as <-. destruct (submit_evidence_inv e s) as [->|[Hn ->]]; [by split|].
    split; simpl; [by apply map_Forall_insert_2| |done].
    eapply Forall_impl; [exact Hd|]. intros ev (e' & He' & Hp). exists e'. split; [|done].
    rewrite lookup_insert_ne; [done|]. congruence.
  - apply bind_Some in Hs as ([w' evs] & Hp & Hs). injection Hs as <-.
    apply process_all_evidence_pool in Hp as (Hk' & Hpr & _ & Hnd & Hev); [|done]. simpl in *.
    split; simpl; [done| |].
    + apply Forall_app. split.
      * eapply Forall_impl; [exact Hd|]. intros ev (e & He & _). apply Hpr in He. eauto.
      * apply Forall_forall. intros ev Hin. destruct (Hev (ev_evidence_hash ev)) as (e & He & _).
        { apply list_elem_of_fmap. eauto. }
        apply Hpr in He. eauto.
    + rewrite fmap_app. apply NoDup_app. split_and!; [done| |done].
      intros h (ev & -> & Hin)%list_elem_of_fmap Hh. apply Hev in Hh as (e & He & Hf).
      rewrite Forall_forall in Hd. destruct (Hd _ Hin) as (e' & He' & Ht). congruence.
Qed.
End RunLemmas.

(** * Properties *)

(** C27: slashing never touches a delegator.  From any well-formed world a round of
    processing returns without a panic, in whatever order the hash map yields the
    evidence; it leaves every delegation, and the stake and the validator record of
    everyone it has no evidence against, as they were; offenders it slashed are
    jailed; the treasury and the history grow by exactly the events returned; the
    recorded stakes lose exactly what the events say; and nothing is left pending. *)
Theorem slashing_spares_delegators {J : JsonBytes} {OC : OverflowChecks} {HO : HashOrder}
    {HL : HashOrderLaws HO} (w : slash_world) :
  slash_world_wf w →
  ∃ w' evs, SlashingEngine_process_all_evidence w = Some (w', evs) ∧
    st_delegations w'.2 = st_delegations w.2 ∧
    (∀ k, k ∉ er_offender <$> EvidencePool_get_pending_evidence (se_evidence_pool w.1.1) →
       st_entries w'.2 !! k = st_entries w.2 !! k ∧
       vs_validators w'.1.2 !! k = vs_validators w.1.2 !! k) ∧
    Forall (λ ev, status_of (vs_validators w'.1.2) (ev_offender ev) = Some Jailed) evs ∧
    se_treasury w'.1.1 = Z.min u64_max (se_treasury w.1.1 + events_total evs) ∧
    recorded_stake w'.1.2 = recorded_stake w.1.2 - events_total evs ∧
    (∀ k, SlashingEngine_get_slash_history w'.1.1 k =
       SlashingEngine_get_slash_history w.1.1 k ++ filter (λ ev, ev_offender ev = k) evs) ∧
    EvidencePool_get_pending_evidence (se_evidence_pool w'.1.1) = [] ∧
    slash_world_wf w'.
Proof.
  intros Hw. destruct (process_loop_spec
    (EvidencePool_get_pending_evidence (se_evidence_pool w.1.1)) w [] Hw) as (w' & evs & Hl & Hsl).
  exists w', evs. split; [exact Hl|].
  destruct (process_all_evidence_pool w w' evs (sw_evidence w Hw) Hl) as (_ & _ & Hpend & _).
  pose proof (sl_recorded _ _ _ _ Hsl).
  split_and!; try apply Hsl; [lia|done].
Qed.

(** [serde_json]'s rendering of a byte vector, for evaluating the definitions: a
    stand-in that keeps the bytes. *)
Definition toy_json : JsonBytes := λ b, b.
Definition demo_evidence (k : Z) (o : SlashingOffense) : EvidenceRecord :=
  mkEvidenceRecord o (key32 k) 42 [x01; x02] false.
Definition demo_engine : SlashingEngine :=
  (SlashingEngine_submit_evidence (J := toy_json) (demo_evidence 3 DoubleSign)
    (SlashingEngine_submit_evidence (J := toy_json) (demo_evidence 1 InvalidBlock) SlashingEngine_new).1).1.
Definition demo_slash_world : slash_world := (demo_engine, demo_set, demo_run.1).

Lemma demo_engine_evidence :
  map_Forall (λ h e, EvidenceRecord_hash (J := toy_json) e = h) (se_evidence_pool demo_engine).
Proof.
  assert (slash_log_wf (J := toy_json) (demo_engine, [])) as [Hk _ _]; [|exact Hk].
  eapply (slash_step_wf (J := toy_json) (OC := debug_build) (HO := forward_order) (_, []) (SlashSubmit _));
    [|reflexivity].
  eapply (slash_step_wf (J := toy_json) (OC := debug_build) (HO := forward_order) (_, []) (SlashSubmit _));
    [|reflexivity].
  split; [apply map_Forall_empty|done|constructor].
Qed.
Lemma demo_slash_world_wf : slash_world_wf (J := toy_json) (OC := debug_build) demo_slash_world.
Proof.
  split; [by intros []|done|apply demo_engine_evidence| |apply demo_wf].
  simpl. unfold demo_validators. repeat (apply map_Forall_insert_2; [done|]). apply map_Forall_empty.
Qed.

Lemma slashing_spares_delegators_witness :
  ∃ w' evs, SlashingEngine_process_all_evidence (J := toy_json) (OC := debug_build) (HO := forward_order)
      demo_slash_world = Some (w', evs) ∧ st_delegations w'.2 = st_delegations demo_run.1.
Proof.
  destruct (slashing_spares_delegators (J := toy_json) (OC := debug_build) (HO := forward_order)
    demo_slash_world demo_slash_world_wf) as (w' & evs & Hw' & Hd & _). exists w', evs. exact (conj Hw' Hd).
Defined.

(** C28: the amount of a slash, on every branch.  A direct slash of an unknown
    validator is refused and changes nothing, and so is, with the same error, the
    slash of a known one whose share rounds to zero.  Otherwise it takes
    [stake * bps / 10000], rounded down and at most the stake, off the recorded
    stake, jails the validator and credits the treasury with it; but the staking
    pool gives the amount up only if the validator has that much unlocked, and keeps
    all of it otherwise. *)
Theorem slash_validator_exact {J : JsonBytes} {OC : OverflowChecks}
    (s : SlashingEngine) (vs : ValidatorSetManager) (sp : StakingPool) (k : bytes)
    (o : SlashingOffense) (height : Z) :
  slash_world_wf (s, vs, sp) →
  match vs_validators vs !! k with
  | None => SlashingEngine_slash_validator k o height (s, vs, sp) =
      Some ((s, vs, sp), Err (SlashingError_ValidatorNotFound k))
  | Some v =>
    let amount := vi_stake v * SlashingConfig_slash_bps (se_config s) o / 10000 in
    0 <= amount <= vi_stake v ∧
    if amount =? 0 then
      SlashingEngine_slash_validator k o height (s, vs, sp) =
        Some ((s, vs, sp), Err (SlashingError_ValidatorNotFound k))
    else ∃ s' sp' ev,
      SlashingEngine_slash_validator k o height (s, vs, sp) =
        Some ((s', set_validators (<[k := slashed_info v amount]> (vs_validators vs)) vs, sp'), Ok ev) ∧
      ev_offender ev = k ∧ ev_slash_amount ev = amount ∧ ev_height ev = height ∧
      se_treasury s' = Z.min u64_max (se_treasury s + amount) ∧
      st_total_staked sp' = st_total_staked sp -
        (if amount <=? unlocked_sum (st_current_epoch sp) (default [] (st_entries sp !! k))
         then amount else 0)
  end.
Proof.
  intros Hw. unfold SlashingEngine_slash_validator.
  set (e := mkEvidenceRecord o k height direct_slash false).
  destruct (process_single_eq e s vs sp Hw) as (sp' & r & Hu & ->). simpl in *.
  destruct (vs_validators vs !! k) as [v|] eqn:Hv; [|done].
  destruct (slash_amount_eq (se_config s) o (vi_stake v)) as [Hae Ha];
    [apply Hw|apply (sw_stakes _ Hw _ _ Hv)|].
  rewrite <-Hae. clear Hae. split; [done|]. set (a := slash_amount_of _ _ _) in *.
  destruct (a =? 0) eqn:Ha0; [done|]. simpl. do 3 eexists. split_and!; try done.
  pose proof (sw_stakes _ Hw _ _ Hv) as Hvs. simpl in Hvs.
  rewrite unstake_eq in Hu by (apply Hw || zlia). rewrite Ha0 in Hu.
  destruct (st_entries sp !! k) as [l|] eqn:Hl; simpl in *.
  - destruct (_ <? a) eqn:E; simplify_eq/=.
    + rewrite (proj2 (Z.leb_gt _ _)) by zlia. lia.
    + by rewrite (proj2 (Z.leb_le _ _)) by zlia.
  - simplify_eq. rewrite (proj2 (Z.leb_gt _ _)); [lia|]. unfold unlocked_sum. simpl. zlia.
Qed.

Lemma slash_validator_exact_witness :
  ∃ s' sp' ev,
    SlashingEngine_slash_validator (J := toy_json) (OC := debug_build) (key32 3) DoubleSign 7 demo_slash_world =
      Some ((s', set_validators (<[key32 3 := slashed_info (mkValidatorInfo (key32 3) 1000 500 Active 10000 0) 50]>
        demo_validators) demo_set, sp'), Ok ev) ∧
    ev_slash_amount ev = 50 ∧ se_treasury s' = 50 ∧ st_total_staked sp' = st_total_staked demo_run.1.
Proof.
  pose proof (slash_validator_exact (J := toy_json) (OC := debug_build) demo_engine demo_set demo_run.1
    (key32 3) DoubleSign 7 demo_slash_world_wf) as H.
  replace (vs_validators demo_set !! key32 3) with (Some (mkValidatorInfo (key32 3) 1000 500 Active 10000 0)) in H
    by (vm_compute; reflexivity).
  destruct H as [_ (s' & sp' & ev & H1 & _ & H2 & _ & H3 & H4)].
  exists s', sp', ev. split_and!; [exact H1|exact H2| |].
  - rewrite H3. vm_compute. reflexivity.
  - rewrite H4. vm_compute. reflexivity.
Defined.

(** C29: no piece of evidence is punished twice.  Over any history of submissions
    and rounds of processing, whatever validator sets and staking pools the rounds
    are given, the slash events carry pairwise different evidence hashes, and
    evidence once punished can be resubmitted only to be refused as a duplicate. *)
Theorem no_double_jeopardy {J : JsonBytes} {OC : OverflowChecks} {HO : HashOrder}
    {HL : HashOrderLaws HO} (config : SlashingConfig) (cs : list slash_cmd)
    (s : SlashingEngine) (log : list SlashEvent) :
  fold_may_panic slash_step (SlashingEngine_with_config config, []) cs = Some (s, log) →
  NoDup (ev_evidence_hash <$> log) ∧
  (∀ e, er_data e ≠ [] → EvidenceRecord_hash e ∈ ev_evidence_hash <$> log →
     SlashingEngine_submit_evidence e s = (s, Err SlashingError_DuplicateEvidence)).
Proof.
  intros Hrun.
  assert (slash_log_wf (s, log)) as [Hk Hd Ho].
  { assert (slash_log_wf (SlashingEngine_with_config config, [])) as H0
      by (split; simpl; [apply map_Forall_empty|done|constructor]).
    revert Hrun H0. generalize (SlashingEngine_with_config config, @nil SlashEvent).
    induction cs as [|c cs IH]; intros se Hrun H0; simpl in *; [by simplify_eq|].
    apply bind_Some in Hrun as (se' & Hstep & Hrun). eapply IH; [exact Hrun|]. by eapply slash_step_wf. }
  split; [done|]. simpl in *. intros e Hdata (ev & Hev & Hin)%list_elem_of_fmap.
  rewrite Forall_forall in Hd. destruct (Hd _ Hin) as (e' & He' & _).
  unfold SlashingEngine_submit_evidence, EvidencePool_submit_evidence. rewrite Hev, He'.
  destruct (er_data e); [done|]. by destruct s.
Qed.

Definition demo_slash_cmds : list slash_cmd :=
  [SlashSubmit (demo_evidence 1 DoubleSign); SlashProcess demo_set demo_run.1;
   SlashSubmit (demo_evidence 1 DoubleSign); SlashProcess demo_set demo_run.1].
Definition demo_slash_run : option (SlashingEngine * list SlashEvent) :=
  fold_may_panic (slash_step (J := toy_json) (OC := debug_build) (HO := forward_order))
    (SlashingEngine_with_config SlashingConfig_default, []) demo_slash_cmds.
Lemma demo_slash_run_eq :
  demo_slash_run = Some ((default (SlashingEngine_new, []) demo_slash_run).1,
                         (default (SlashingEngine_new, []) demo_slash_run).2).
Proof. apply default_pair_eq. vm_compute. reflexivity. Qed.
Lemma no_double_jeopardy_witness :
  length (default (SlashingEngine_new, []) demo_slash_run).2 = 1%nat ∧
  NoDup (ev_evidence_hash <$> (default (SlashingEngine_new, []) demo_slash_run).2).
Proof.
  split; [vm_compute; reflexivity|].
  exact (proj1 (no_double_jeopardy (J := toy_json) (OC := debug_build) (HO := forward_order)
    SlashingConfig_default demo_slash_cmds _ _ demo_slash_run_eq)).
Defined.
