(* ===== verification/Storage.v ===== *)
(** * Tiered storage (runtime/storage)

    Three tiers behind one interface: a RAM cache in least-recently-used order (the
    [lru] crate, a parameter), and two directories of files named by the SHA-256 of
    the key.  A write goes to the warm directory and the cache; a read falls through
    the tiers and promotes what it finds; an entry the cache evicts is written to the
    warm directory; archiving moves a file to the cold directory.

    The file system is explicit: a map from paths to contents, and the faults its next
    operations will meet. *)
From S2P Require Import Prelude Crypto Block State.
Open Scope Z_scope.

(** ** The [lru] crate *)

(** [LruCache<Vec<u8>, StorageValue>], by the methods the source calls.  Keys and
    values are byte vectors ([StorageKey] and [StorageValue] wrap one). *)
Class Lru (L : Type) := {
  lru_new : Z → L;
  lru_get : bytes → L → option bytes * L;
  lru_put : bytes → bytes → L → L;
  lru_contains : bytes → L → bool;
  lru_len : L → nat;
  lru_pop_lru : L → option (bytes * bytes) * L;
  lru_pop : bytes → L → option bytes * L;
}.

(** An association list, searched and with a key removed. *)
Fixpoint assoc {V} (k : bytes) (l : list (bytes * V)) : option V :=
  match l with
  | [] => None
  | (k', v) :: l => if decide (k = k') then Some v else assoc k l
  end.
Definition assoc_remove {V} (k : bytes) (l : list (bytes * V)) : list (bytes * V) :=
  filter (λ kv, kv.1 ≠ k) l.

(** The documented behaviour: a cache is a list of entries, most recently used first,
    and a capacity, below which nothing is evicted. *)
Class LruLaws (L : Type) {LRU : Lru L} := {
  lru_entries : L → list (bytes * bytes);
  lru_cap : L → Z;
  lru_new_spec c : 0 < c → lru_entries (lru_new c) = [] ∧ lru_cap (lru_new c) = c;
  lru_get_spec k l :
    (lru_get k l).1 = assoc k (lru_entries l) ∧ lru_cap (lru_get k l).2 = lru_cap l ∧
    lru_entries (lru_get k l).2 =
      match assoc k (lru_entries l) with
      | Some v => (k, v) :: assoc_remove k (lru_entries l)
      | None => lru_entries l
      end;
  lru_put_spec k v l :
    is_Some (assoc k (lru_entries l)) ∨ Z.of_nat (length (lru_entries l)) < lru_cap l →
    lru_entries (lru_put k v l) = (k, v) :: assoc_remove k (lru_entries l) ∧
    lru_cap (lru_put k v l) = lru_cap l;
  lru_contains_spec k l : lru_contains k l = bool_decide (is_Some (assoc k (lru_entries l)));
  lru_len_spec l : lru_len l = length (lru_entries l);
  lru_pop_lru_spec l :
    (lru_pop_lru l).1 = last (lru_entries l) ∧ lru_cap (lru_pop_lru l).2 = lru_cap l ∧
    lru_entries (lru_pop_lru l).2 = take (length (lru_entries l) - 1) (lru_entries l);
  lru_pop_spec k l :
    (lru_pop k l).1 = assoc k (lru_entries l) ∧ lru_cap (lru_pop k l).2 = lru_cap l ∧
    lru_entries (lru_pop k l).2 = assoc_remove k (lru_entries l);
}.

(** ** The file system *)

(** A file under a base directory: its shard directory and its name in it. *)
Abbreviation path := (string * (string * string))%type (only parsing).

Inductive io_error := IoNotFound | IoOther (msg : string).

(** What the next operation meets: a failed write may leave the file changed. *)
Inductive io_fault := NoFault | Fault (msg : string) (leftover : option bytes).

Record Disk := mkDisk {
  d_files : gmap path bytes;
  d_faults : list io_fault;
}.

Definition next_fault (d : Disk) : io_fault * Disk :=
  match d_faults d with
  | [] => (NoFault, d)
  | f :: fs => (f, mkDisk (d_files d) fs)
  end.

(** [fs::read], [fs::write], [fs::remove_file] and [Path::exists]. *)
Definition fs_read (p : path) (d : Disk) : Disk * result io_error bytes :=
  let '(f, d) := next_fault d in
  match f with
  | Fault msg _ => (d, Err (IoOther msg))
  | NoFault => (d, match d_files d !! p with Some data => Ok data | None => Err IoNotFound end)
  end.
Definition fs_write (p : path) (data : bytes) (d : Disk) : Disk * result io_error unit :=
  let '(f, d) := next_fault d in
  match f with
  | NoFault => (mkDisk (<[p := data]> (d_files d)) (d_faults d), Ok tt)
  | Fault msg None => (d, Err (IoOther msg))
  | Fault msg (Some leftover) => (mkDisk (<[p := leftover]> (d_files d)) (d_faults d), Err (IoOther msg))
  end.
Definition fs_remove_file (p : path) (d : Disk) : Disk * result io_error unit :=
  let '(f, d) := next_fault d in
  match f with
  | Fault msg _ => (d, Err (IoOther msg))
  | NoFault =>
    match d_files d !! p with
    | Some _ => (mkDisk (delete p (d_files d)) (d_faults d), Ok tt)
    | None => (d, Err IoNotFound)
    end
  end.
Definition fs_exists (p : path) (d : Disk) : Disk * bool :=
  let '(f, d) := next_fault d in
  match f with
  | Fault _ _ => (d, false)
  | NoFault => (d, bool_decide (is_Some (d_files d !! p)))
  end.
Definition fs_create_dir_all (base_dir : string) (d : Disk) : Disk * result io_error unit :=
  let '(f, d) := next_fault d in
  match f with
  | Fault msg _ => (d, Err (IoOther msg))
  | NoFault => (d, Ok tt)
  end.

(** ** types.rs *)

Record StorageConfig := mkStorageConfig {
  lru_capacity : Z;
  nvme_path : string;
  archive_path : string;
  max_ram_bytes : Z;
}.
Definition StorageConfig_default : StorageConfig :=
  mkStorageConfig 10000 "/tmp/trv1-warm" "/tmp/trv1-cold" (512 * 1024 * 1024).

Inductive StorageTier := Hot | Warm | Cold.

Record StorageStats := mkStorageStats {
  hot_entries : Z;
  hot_hits : Z;
  hot_misses : Z;
  warm_hits : Z;
  warm_misses : Z;
  cold_hits : Z;
  cold_misses : Z;
  promotions : Z;
  evictions : Z;
}.
Definition StorageStats_default : StorageStats := mkStorageStats 0 0 0 0 0 0 0 0 0.

Inductive StorageError :=
| StorageError_Io (e : io_error)
| StorageError_Serialization (msg : string)
| StorageError_NotFound
| StorageError_Config (msg : string).

(** The counters, and [+= 1] on one of them. *)
Inductive counter :=
| HotHits | HotMisses | WarmHits | WarmMisses | ColdHits | ColdMisses | Promotions | Evictions.

Definition bump {OC : OverflowChecks} (c : counter) (s : StorageStats) : may_panic StorageStats :=
  let 'mkStorageStats n hh hm wh wm ch cm p e := s in
  match c with
  | HotHits => x ← u64_add hh 1; Some (mkStorageStats n x hm wh wm ch cm p e)
  | HotMisses => x ← u64_add hm 1; Some (mkStorageStats n hh x wh wm ch cm p e)
  | WarmHits => x ← u64_add wh 1; Some (mkStorageStats n hh hm x wm ch cm p e)
  | WarmMisses => x ← u64_add wm 1; Some (mkStorageStats n hh hm wh x ch cm p e)
  | ColdHits => x ← u64_add ch 1; Some (mkStorageStats n hh hm wh wm x cm p e)
  | ColdMisses => x ← u64_add cm 1; Some (mkStorageStats n hh hm wh wm ch x p e)
  | Promotions => x ← u64_add p 1; Some (mkStorageStats n hh hm wh wm ch cm x e)
  | Evictions => x ← u64_add e 1; Some (mkStorageStats n hh hm wh wm ch cm p x)
  end.

(** ** lru_cache.rs *)

Record HotCache (L : Type) := mkHotCache {
  hc_inner : L;
  hc_capacity : Z;
}.
Arguments mkHotCache {L}.
Arguments hc_inner {L}.
Arguments hc_capacity {L}.

Section HotCache.
Context {L : Type} {LRU : Lru L}.

(** A zero capacity panics. *)
Definition HotCache_new (capacity : Z) : may_panic (HotCache L) :=
  if capacity =? 0 then None else Some (mkHotCache (lru_new capacity) capacity).

Definition HotCache_get (key : bytes) (c : HotCache L) : HotCache L * option bytes :=
  let '(v, inner) := lru_get key (hc_inner c) in (mkHotCache inner (hc_capacity c), v).

(** The eviction callback, when set, acts on the world [W] outside the cache. *)
Definition HotCache_put {W} (callback : option (bytes → bytes → W → may_panic W))
    (key value : bytes) (c : HotCache L) (w : W) : may_panic (HotCache L * W) :=
  let cache := hc_inner c in
  if lru_contains key cache then
    Some (mkHotCache (lru_put key value cache) (hc_capacity c), w)
  else
    '(cache, w) ←
      (if hc_capacity c <=? Z.of_nat (lru_len cache) then
         let '(evicted, cache) := lru_pop_lru cache in
         match evicted, callback with
         | Some (evicted_key, evicted_val), Some callback =>
           w ← callback evicted_key evicted_val w; Some (cache, w)
         | _, _ => Some (cache, w)
         end
       else Some (cache, w));
    Some (mkHotCache (lru_put key value cache) (hc_capacity c), w).

Definition HotCache_remove (key : bytes) (c : HotCache L) : HotCache L * option bytes :=
  let '(v, inner) := lru_pop key (hc_inner c) in (mkHotCache inner (hc_capacity c), v).

Definition HotCache_contains (key : bytes) (c : HotCache L) : bool := lru_contains key (hc_inner c).
Definition HotCache_len (c : HotCache L) : nat := lru_len (hc_inner c).
Definition HotCache_is_empty (c : HotCache L) : bool := bool_decide (lru_len (hc_inner c) = 0%nat).
End HotCache.

(** ** nvme.rs and archive.rs *)

Section Stores.
Context {C : Crypto} {S : Serde}.

(** [hash_key] *)
Definition WarmStore_hash_key (key : bytes) : string := hex_encode (sha256 key).
Definition ColdArchive_hash_key (key : bytes) : string := hex_encode (sha256 key).

(** [key_path]: the first two characters are the shard.  That it also creates the
    shard directory, ignoring errors, shows only in whether a later write fails. *)
Definition WarmStore_key_path (base_dir : string) (key : bytes) : path :=
  let hash := WarmStore_hash_key key in
  (base_dir, (String.substring 0 2 hash, String.substring 2 (String.length hash - 2) hash)).
Definition ColdArchive_key_path (base_dir : string) (key : bytes) : path :=
  let hash := ColdArchive_hash_key key in
  (base_dir, (String.substring 0 2 hash, String.substring 2 (String.length hash - 2) hash)).

Definition WarmStore_new (p : string) (d : Disk) : Disk * result io_error string :=
  let '(d, r) := fs_create_dir_all p d in
  (d, match r with Ok _ => Ok p | Err e => Err e end).

Definition WarmStore_get (base_dir : string) (key : bytes) (d : Disk) :
    Disk * result io_error (option bytes) :=
  let '(d, r) := fs_read (WarmStore_key_path base_dir key) d in
  (d, match r with
      | Ok data => Ok (Some data)
      | Err IoNotFound => Ok None
      | Err e => Err e
      end).

Definition WarmStore_put (base_dir : string) (key value : bytes) (d : Disk) : Disk * result io_error unit :=
  fs_write (WarmStore_key_path base_dir key) value d.

Definition WarmStore_remove (base_dir : string) (key : bytes) (d : Disk) :
    Disk * result io_error (option bytes) :=
  let p := WarmStore_key_path base_dir key in
  let '(d, r) := fs_read p d in
  match r with
  | Ok data =>
    let '(d, r) := fs_remove_file p d in
    (d, match r with Ok _ => Ok (Some data) | Err e => Err e end)
  | Err IoNotFound => (d, Ok None)
  | Err e => (d, Err e)
  end.

Definition WarmStore_contains (base_dir : string) (key : bytes) (d : Disk) : Disk * bool :=
  fs_exists (WarmStore_key_path base_dir key) d.

Definition ColdArchive_new (p : string) (d : Disk) : Disk * result io_error string :=
  let '(d, r) := fs_create_dir_all p d in
  (d, match r with Ok _ => Ok p | Err e => Err e end).

Definition ColdArchive_archive (base_dir : string) (key value : bytes) (d : Disk) :
    Disk * result io_error unit :=
  fs_write (ColdArchive_key_path base_dir key) value d.

Definition ColdArchive_retrieve (base_dir : string) (key : bytes) (d : Disk) :
    Disk * result io_error (option bytes) :=
  let '(d, r) := fs_read (ColdArchive_key_path base_dir key) d in
  (d, match r with
      | Ok data => Ok (Some data)
      | Err IoNotFound => Ok None
      | Err e => Err e
      end).

Definition ColdArchive_remove (base_dir : string) (key : bytes) (d : Disk) :
    Disk * result io_error (option bytes) :=
  let p := ColdArchive_key_path base_dir key in
  let '(d, r) := fs_read p d in
  match r with
  | Ok data =>
    let '(d, r) := fs_remove_file p d in
    (d, match r with Ok _ => Ok (Some data) | Err e => Err e end)
  | Err IoNotFound => (d, Ok None)
  | Err e => (d, Err e)
  end.

Definition ColdArchive_contains (base_dir : string) (key : bytes) (d : Disk) : Disk * bool :=
  fs_exists (ColdArchive_key_path base_dir key) d.
End Stores.

(** ** tiered.rs *)

Record TieredStorage (L : Type) := mkTieredStorage {
  ts_hot : HotCache L;
  ts_warm : string;
  ts_cold : string;
  ts_stats : StorageStats;
}.
Arguments mkTieredStorage {L}.
Arguments ts_hot {L}.
Arguments ts_warm {L}.
Arguments ts_cold {L}.
Arguments ts_stats {L}.

(** Computations on the storage and the disk that may panic or return an error. *)
Definition storage_m (L A : Type) : Type :=
  TieredStorage L * Disk → may_panic ((TieredStorage L * Disk) * result StorageError A).

Definition st_ret {L A} (a : A) : storage_m L A := λ w, Some (w, Ok a).
Definition st_bind {L A B} (m : storage_m L A) (f : A → storage_m L B) : storage_m L B := λ w,
  '(w, r) ← m w;
  match r with
  | Ok a => f a w
  | Err e => Some (w, Err e)
  end.

Declare Scope storage_scope.
Delimit Scope storage_scope with storage.
Notation "x <- m ;; k" := (st_bind m (λ x, k))
  (at level 100, m at next level, right associativity) : storage_scope.
Notation "m ;; k" := (st_bind m (λ _, k)) (at level 100, right associativity) : storage_scope.

Section Tiered.
Context {OC : OverflowChecks} {C : Crypto} {S : Serde} {L : Type} {LRU : Lru L}.
Implicit Types (key value : bytes).
#[local] Open Scope storage_scope.

(** [self.stats.write().c += 1] *)
Definition st_bump (c : counter) : storage_m L unit := λ '(t, d),
  stats ← bump c (ts_stats t);
  Some ((mkTieredStorage (ts_hot t) (ts_warm t) (ts_cold t) stats, d), Ok tt).

(** A call of the warm or the cold store, its error converted by [?]. *)
Definition st_io {A} (store : TieredStorage L → string) (f : string → Disk → Disk * result io_error A) :
    storage_m L A := λ '(t, d),
  let '(d, r) := f (store t) d in
  Some ((t, d), match r with Ok a => Ok a | Err e => Err (StorageError_Io e) end).

Definition st_hot_op {A} (f : HotCache L → HotCache L * A) : storage_m L A := λ '(t, d),
  let '(hot, a) := f (ts_hot t) in
  Some ((mkTieredStorage hot (ts_warm t) (ts_cold t) (ts_stats t), d), Ok a).

(** The closure [new] registers: write the evicted entry to the warm store, log an
    error, count the eviction. *)
Definition eviction_callback (warm : string) (key value : bytes) (w : Disk * StorageStats) :
    may_panic (Disk * StorageStats) :=
  let '(d, stats) := w in
  let '(d, _) := WarmStore_put warm key value d in
  stats ← bump Evictions stats;
  Some (d, stats).

(** [self.hot.put] *)
Definition st_hot_put (key value : bytes) : storage_m L unit := λ '(t, d),
  '(hot, (d, stats)) ←
    HotCache_put (Some (eviction_callback (ts_warm t))) key value (ts_hot t) (d, ts_stats t);
  Some ((mkTieredStorage hot (ts_warm t) (ts_cold t) stats, d), Ok tt).

Definition TieredStorage_new (config : StorageConfig) (d : Disk) :
    may_panic (Disk * result StorageError (TieredStorage L)) :=
  hot ← HotCache_new (lru_capacity config);
  let '(d, warm) := WarmStore_new (nvme_path config) d in
  match warm with
  | Err e => Some (d, Err (StorageError_Io e))
  | Ok warm =>
    let '(d, cold) := ColdArchive_new (archive_path config) d in
    Some (d, match cold with
             | Err e => Err (StorageError_Io e)
             | Ok cold => Ok (mkTieredStorage hot warm cold StorageStats_default)
             end)
  end.

(** The cold part of [get]. *)
Definition TieredStorage_get_cold (key : bytes) : storage_m L (option bytes) :=
  cold <- st_io ts_cold (λ base, ColdArchive_retrieve base key) ;;
  match cold with
  | Some val =>
    st_bump ColdHits ;;
    st_hot_put key val ;;
    st_bump Promotions ;;
    st_ret (Some val)
  | None => st_bump ColdMisses ;; st_ret None
  end.

Definition TieredStorage_get (key : bytes) : storage_m L (option bytes) :=
  hot <- st_hot_op (HotCache_get key) ;;
  match hot with
  | Some val => st_bump HotHits ;; st_ret (Some val)
  | None =>
    st_bump HotMisses ;;
    warm <- st_io ts_warm (λ base, WarmStore_get base key) ;;
    match warm with
    | Some val =>
      st_bump WarmHits ;;
      st_hot_put key val ;;
      st_bump Promotions ;;
      st_ret (Some val)
    | None => st_bump WarmMisses ;; TieredStorage_get_cold key
    end
  end.

Definition TieredStorage_put (key value : bytes) : storage_m L unit :=
  st_io ts_warm (λ base, WarmStore_put base key value) ;;
  st_hot_put key value ;;
  st_ret tt.

(** [a.or(b)] *)
Definition option_or {A} (a b : option A) : option A :=
  match a with Some _ => a | None => b end.

Definition TieredStorage_remove (key : bytes) : storage_m L (option bytes) :=
  hot_val <- st_hot_op (HotCache_remove key) ;;
  warm_val <- st_io ts_warm (λ base, WarmStore_remove base key) ;;
  cold_val <- st_io ts_cold (λ base, ColdArchive_remove base key) ;;
  st_ret (option_or (option_or hot_val warm_val) cold_val).

Definition TieredStorage_archive_key (key : bytes) : storage_m L bool :=
  warm_val <- st_io ts_warm (λ base, WarmStore_remove base key) ;;
  match warm_val with
  | Some val =>
    st_io ts_cold (λ base, ColdArchive_archive base key val) ;;
    st_ret true
  | None => st_ret false
  end.

Fixpoint archive_keys_loop (keys : list bytes) (count : Z) : storage_m L Z :=
  match keys with
  | [] => st_ret count
  | key :: keys =>
    st_hot_op (HotCache_remove key) ;;
    archived <- TieredStorage_archive_key key ;;
    if archived : bool then λ w, count ← u64_add count 1; archive_keys_loop keys count w
    else archive_keys_loop keys count
  end.
Definition TieredStorage_archive_keys (keys : list bytes) : storage_m L Z := archive_keys_loop keys 0.

Definition TieredStorage_locate (key : bytes) (w : TieredStorage L * Disk) : Disk * option StorageTier :=
  let '(t, d) := w in
  if HotCache_contains key (ts_hot t) then (d, Some Hot)
  else
    let '(d, in_warm) := WarmStore_contains (ts_warm t) key d in
    if in_warm : bool then (d, Some Warm)
    else
      let '(d, in_cold) := ColdArchive_contains (ts_cold t) key d in
      (d, if in_cold : bool then Some Cold else None).

Definition TieredStorage_stats (t : TieredStorage L) : StorageStats :=
  let 'mkStorageStats _ hh hm wh wm ch cm p e := ts_stats t in
  mkStorageStats (Z.of_nat (HotCache_len (ts_hot t))) hh hm wh wm ch cm p e.
End Tiered.

(** ** A concrete cache *)

(** The list itself, with its capacity, for evaluating the definitions. *)
Definition toy_cache : Type := Z * list (bytes * bytes).
#[export] Instance toy_lru : Lru toy_cache := {|
  lru_new c := (c, []);
  lru_get k l := (assoc k l.2, match assoc k l.2 with
                               | Some v => (l.1, (k, v) :: assoc_remove k l.2)
                               | None => l
                               end);
  lru_put k v l := (l.1, take (Z.to_nat (Z.max (Z.of_nat (length l.2)) l.1)) ((k, v) :: assoc_remove k l.2));
  lru_contains k l := bool_decide (is_Some (assoc k l.2));
  lru_len l := length l.2;
  lru_pop_lru l := (last l.2, (l.1, take (length l.2 - 1) l.2));
  lru_pop k l := (assoc k l.2, (l.1, assoc_remove k l.2));
|}.

(** * Specification *)

(** The storage as a map, and the operations its clients see; [SRestart] drops the
    process and opens the same directories again. *)
Inductive storage_op :=
| SGet (key : bytes)
| SPut (key value : bytes)
| SRemove (key : bytes)
| SArchive (keys : list bytes)
| SRestart.

Definition storage_op_keys (o : storage_op) : list bytes :=
  match o with
  | SGet k | SPut k _ | SRemove k => [k]
  | SArchive ks => ks
  | SRestart => []
  end.

(** The map after an operation, and the value a read or a removal answers. *)
Definition map_step (m : gmap bytes bytes) (o : storage_op) : gmap bytes bytes * option (option bytes) :=
  match o with
  | SGet k => (m, Some (m !! k))
  | SPut k v => (<[k := v]> m, None)
  | SRemove k => (delete k m, Some (m !! k))
  | SArchive _ | SRestart => (m, None)
  end.
Fixpoint map_run (m : gmap bytes bytes) (os : list storage_op) :
    gmap bytes bytes * list (option (option bytes)) :=
  match os with
  | [] => (m, [])
  | o :: os =>
    let '(m, a) := map_step m o in
    let '(m, l) := map_run m os in (m, a :: l)
  end.

Section Exec.
Context {OC : OverflowChecks} {C : Crypto} {S : Serde} {L : Type} {LRU : Lru L}.

Definition st_restart : storage_m L unit := λ '(t, d),
  '(d, r) ← TieredStorage_new (mkStorageConfig (hc_capacity (ts_hot t)) (ts_warm t) (ts_cold t) 0) d;
  Some (match r with
        | Ok t => ((t, d), Ok tt)
        | Err e => ((t, d), Err e)
        end).

Definition storage_step (o : storage_op) : storage_m L (option (option bytes)) :=
  match o with
  | SGet k => st_bind (TieredStorage_get k) (λ v, st_ret (Some v))
  | SPut k v => st_bind (TieredStorage_put k v) (λ _, st_ret None)
  | SRemove k => st_bind (TieredStorage_remove k) (λ v, st_ret (Some v))
  | SArchive ks => st_bind (TieredStorage_archive_keys ks) (λ _, st_ret None)
  | SRestart => st_bind st_restart (λ _, st_ret None)
  end.

(** A run stops at the first error. *)
Fixpoint storage_run (os : list storage_op) : storage_m L (list (option (option bytes))) :=
  match os with
  | [] => st_ret []
  | o :: os => st_bind (storage_step o) (λ a, st_bind (storage_run os) (λ l, st_ret (a :: l)))
  end.
End Exec.

(** * Lemmas *)

(** ** Association lists *)

Lemma assoc_elem {V} k (v : V) l : assoc k l = Some v → (k, v) ∈ l.
Proof.
  induction l as [|[k' v'] l IH]; simpl; [done|]. case_decide; [|right; auto].
  intros [= ->]. subst. left.
Qed.

Lemma assoc_None {V} k (l : list (bytes * V)) : assoc k l = None → k ∉ l.*1.
Proof.
  induction l as [|[k' v'] l IH]; simpl; [set_solver|]. case_decide; [done|]. csimpl. set_solver.
Qed.

Lemma elem_of_assoc_remove {V} k (kv : bytes * V) l : kv ∈ assoc_remove k l ↔ kv.1 ≠ k ∧ kv ∈ l.
Proof. unfold assoc_remove. by rewrite list_elem_of_filter. Qed.

Lemma length_assoc_remove {V} k (l : list (bytes * V)) :
  (length (assoc_remove k l) <= length l)%nat ∧
  (is_Some (assoc k l) → (S (length (assoc_remove k l)) <= length l)%nat).
Proof.
  unfold assoc_remove. induction l as [|[k' v'] l [IH1 IH2]]; simpl.
  { split; [lia|]. by intros [? [=]]. }
  rewrite filter_cons. case_decide; case_decide; simpl in *; subst; try done; split; try lia; intros; try lia.
  by apply le_n_S, IH2.
Qed.

Lemma assoc_remove_None {V} k (l : list (bytes * V)) : ¬ is_Some (assoc k l) → assoc_remove k l = l.
Proof.
  unfold assoc_remove. intros Hk. apply filter_all. intros [k' v'] Hin Heq. simpl in Heq. subst k'. apply Hk. clear Hk.
  induction l as [|[k2 v2] l IH]; simpl in *; [set_solver|]. case_decide; [by eexists|].
  apply elem_of_cons in Hin as [[=]|Hin]; [done|auto].
Qed.

#[export] Instance toy_lru_laws : LruLaws toy_cache.
Proof.
  refine {| lru_entries l := snd l; lru_cap l := fst l |}; simpl; try done.
  - intros k l. by destruct (assoc k l.2).
  - intros k v l Hl. split; [|done]. rewrite take_ge; [done|]. simpl.
    pose proof (length_assoc_remove k l.2) as [H1 H2]. destruct Hl as [Hl|Hl]; [specialize (H2 Hl)|]; lia.
Defined.

(** ** Files *)

Lemma substring_full s : String.substring 0 (String.length s) s = s.
Proof. induction s as [|a s IH]; simpl; [done|]. by rewrite IH. Qed.

Lemma shard_inj s1 s2 :
  String.substring 0 2 s1 = String.substring 0 2 s2 →
  String.substring 2 (String.length s1 - 2) s1 = String.substring 2 (String.length s2 - 2) s2 → s1 = s2.
Proof.
  assert (∀ s, (String.substring 0 2 s ++ String.substring 2 (String.length s - 2) s)%string = s) as Hs.
  { intros [|a [|b s]]; [done|done|]. simpl. rewrite Nat.sub_0_r, substring_full. by destruct s. }
  intros H1 H2. by rewrite <-(Hs s1), <-(Hs s2), H1, H2.
Qed.

Section Files.
Context {C : Crypto} {S : Serde} {SL : SerdeLaws S}.

Lemma key_path_inj base base' k k' :
  WarmStore_key_path base k = WarmStore_key_path base' k' → base = base' ∧ sha256 k = sha256 k'.
Proof.
  intros [= -> H1 H2]. split; [done|]. pose proof (shard_inj _ _ H1 H2) as Hh.
  by apply hex_encode_inj in Hh.
Qed.

Lemma WarmStore_get_ok base k f :
  WarmStore_get base k (mkDisk f []) = (mkDisk f [], Ok (f !! WarmStore_key_path base k)).
Proof. unfold WarmStore_get, fs_read. simpl. by destruct (f !! _). Qed.

Lemma WarmStore_remove_ok base k f :
  WarmStore_remove base k (mkDisk f []) =
  (mkDisk (delete (WarmStore_key_path base k) f) [], Ok (f !! WarmStore_key_path base k)).
Proof.
  unfold WarmStore_remove, fs_read, fs_remove_file. simpl. destruct (f !! _) eqn:Hf; simpl.
  - done.
  - by rewrite delete_id.
Qed.
End Files.

(** ** The counters *)

Definition stats_le (n : Z) (s : StorageStats) : Prop :=
  Forall (λ x, 0 <= x <= n)
    [hot_hits s; hot_misses s; warm_hits s; warm_misses s; cold_hits s; cold_misses s;
     promotions s; evictions s].

Lemma bump_ok {OC : OverflowChecks} c s n :
  stats_le n s → n < u64_max → ∃ s', bump c s = Some s' ∧ stats_le (n + 1) s'.
Proof.
  destruct s. unfold stats_le. simpl. intros Hs Hn. rewrite !Forall_cons in Hs.
  destruct c; simpl; unfold u64_add; rewrite arith_u_ok by zlia; eexists; (split; [done|]);
    rewrite !Forall_cons, Forall_nil; simpl; repeat split; lia.
Qed.

(** ** The refinement *)

Section Refinement.
Context {OC : OverflowChecks} {C : Crypto} {S : Serde} {SL : SerdeLaws S} {L : Type} {LRU : Lru L}
  {LL : LruLaws L} (K : gset bytes) (HK : ∀ k k', k ∈ K → k' ∈ K → sha256 k = sha256 k' → k = k')
  (cap : Z).

Definition cached_ok (m : gmap bytes bytes) (kv : bytes * bytes) : Prop :=
  kv.1 ∈ K ∧ m !! kv.1 = Some kv.2.

(** The storage represents the map [m]: on disk, the warm file of a key or else its
    cold file holds the key's value; the cache is a part of the map that fits its
    capacity.  With a [stale] key, what the cache holds for that key is unknown. *)
Record represents_but (stale : option bytes) (m : gmap bytes bytes) (n : Z)
    (w : TieredStorage L * Disk) : Prop := {
  rp_faults : d_faults w.2 = [];
  rp_bases : ts_warm w.1 ≠ ts_cold w.1;
  rp_dom : dom m ⊆ K;
  rp_disk k : k ∈ K → m !! k =
    option_or (d_files w.2 !! WarmStore_key_path (ts_warm w.1) k)
              (d_files w.2 !! WarmStore_key_path (ts_cold w.1) k);
  rp_hot : Forall (cached_ok m)
    (match stale with
     | None => lru_entries (hc_inner (ts_hot w.1))
     | Some k => assoc_remove k (lru_entries (hc_inner (ts_hot w.1)))
     end);
  rp_cap : 0 < hc_capacity (ts_hot w.1) ∧ lru_cap (hc_inner (ts_hot w.1)) = hc_capacity (ts_hot w.1);
  rp_capacity : hc_capacity (ts_hot w.1) = cap;
  rp_fits : Z.of_nat (length (lru_entries (hc_inner (ts_hot w.1)))) <= hc_capacity (ts_hot w.1);
  rp_stats : stats_le n (ts_stats w.1);
}.
Definition represents : gmap bytes bytes → Z → TieredStorage L * Disk → Prop := represents_but None.

(** [m] returns a value, without a panic or an error, and ends as [Q] says. *)
Definition returns {A} (m : storage_m L A) (w : TieredStorage L * Disk)
    (Q : TieredStorage L * Disk → A → Prop) : Prop :=
  ∃ w' a, m w = Some (w', Ok a) ∧ Q w' a.

Lemma returns_ret {A} (a : A) w (Q : _ → A → Prop) : Q w a → returns (st_ret a) w Q.
Proof. intros HQ. by exists w, a. Qed.
Lemma returns_bind {A B} (m : storage_m L A) (f : A → storage_m L B) w (Q : _ → B → Prop) :
  returns m w (λ w' a, returns (f a) w' Q) → returns (st_bind m f) w Q.
Proof.
  intros (w' & a & Hm & w'' & b & Hf & HQ). exists w'', b. split; [|done]. unfold st_bind. by rewrite Hm.
Qed.
Lemma returns_mono {A} (m : storage_m L A) w (Q Q' : _ → A → Prop) :
  returns m w Q → (∀ w' a, Q w' a → Q' w' a) → returns m w Q'.
Proof. intros (w' & a & Hm & HQ) H. exists w', a. auto. Qed.

Lemma stats_le_mono n n' s : stats_le n s → n <= n' → stats_le n' s.
Proof. intros Hs Hn. eapply Forall_impl; [exact Hs|]. simpl. lia. Qed.
Lemma represents_mono m n n' w : represents m n w → n <= n' → represents m n' w.
Proof. intros [] Hn. split; try done. by eapply stats_le_mono. Qed.

(** The same disk under the same directories. *)
Definition same_disk (w w' : TieredStorage L * Disk) : Prop :=
  w'.2 = w.2 ∧ ts_warm w'.1 = ts_warm w.1 ∧ ts_cold w'.1 = ts_cold w.1.

Lemma returns_bump c m n w :
  represents m n w → n < u64_max →
  returns (st_bump c) w (λ w' _, represents m (n + 1) w' ∧ same_disk w w').
Proof.
  destruct w as [t d]. intros [] Hn. destruct (bump_ok c (ts_stats t) n) as (s' & Hs & Hle); [done..|].
  eexists _, tt. split; [unfold st_bump; by rewrite Hs|]. by split.
Qed.

(** The cached entries after one of them is used, replaced or dropped. *)
Lemma cached_ok_remove m k l : Forall (cached_ok m) l → Forall (cached_ok m) (assoc_remove k l).
Proof.
  intros Hl. rewrite Forall_forall in Hl. apply Forall_forall.
  intros kv [_ ?]%elem_of_assoc_remove. by apply Hl.
Qed.
Lemma represents_stale k m n w : represents m n w → represents_but (Some k) m n w.
Proof. intros []. split; try done. by apply cached_ok_remove. Qed.

Lemma returns_hot_get k m n w :
  represents m n w → k ∈ K →
  returns (st_hot_op (HotCache_get k)) w
    (λ w' v, represents m n w' ∧ (v = None ∨ v = m !! k)).
Proof.
  destruct w as [t d]. intros [] Hk. simpl in *. pose proof (lru_get_spec k (hc_inner (ts_hot t))) as (Hv & Hc & He).
  unfold returns, st_hot_op, HotCache_get. destruct (lru_get k _) as [v inner]. simpl in *. subst v.
  do 2 eexists. split; [done|].
  destruct (assoc k _) as [v|] eqn:Ha; [|split; [|by left]; split; simpl; rewrite ?He, ?Hc; done].
  pose proof (assoc_elem _ _ _ Ha) as Hin. pose proof (proj1 (Forall_forall _ _) rp_hot0 _ Hin) as [HkK Hmk].
  split; [|by right]. split; simpl; rewrite ?He, ?Hc; try done.
  - constructor; [by split|by apply cached_ok_remove].
  - pose proof (proj2 (length_assoc_remove k (lru_entries (hc_inner (ts_hot t))))). rewrite Ha in H.
    simpl. specialize (H ltac:(by eexists)). lia.
Qed.

Lemma returns_hot_remove k m n w :
  represents m n w →
  returns (st_hot_op (HotCache_remove k)) w
    (λ w' v, represents m n w' ∧ same_disk w w' ∧
             (v = None ∨ v = m !! k) ∧ assoc k (lru_entries (hc_inner (ts_hot w'.1))) = None).
Proof.
  destruct w as [t d]. intros []. simpl in *. pose proof (lru_pop_spec k (hc_inner (ts_hot t))) as (Hv & Hc & He).
  unfold returns, st_hot_op, HotCache_remove. destruct (lru_pop k _) as [v inner]. simpl in *. subst v.
  do 2 eexists. split; [done|]. simpl. split_and!; try done.
  - split; simpl; rewrite ?He, ?Hc; try done.
    + by apply cached_ok_remove.
    + pose proof (proj1 (length_assoc_remove k (lru_entries (hc_inner (ts_hot t))))). lia.
  - destruct (assoc k _) as [v|] eqn:Ha; [right|by left].
    rewrite Forall_forall in rp_hot0. apply assoc_elem, rp_hot0 in Ha as [_ Ha]. symmetry. exact Ha.
  - rewrite He. destruct (assoc k (assoc_remove _ _)) as [v|] eqn:Ha; [|done].
    by apply assoc_elem, elem_of_assoc_remove in Ha as [? _].
Qed.

(** Putting a mapped key into the cache keeps the representation, whatever it evicts:
    the evicted entry goes to its warm file, where it is not stale. *)
Lemma returns_hot_put k v m n w :
  represents_but (Some k) m n w → k ∈ K → m !! k = Some v → n < u64_max →
  returns (st_hot_put k v) w (λ w' _, represents m (n + 1) w').
Proof using HK SL LL.
  destruct w as [t [f fs]]. intros [] Hk Hv Hn. simpl in *. subst fs.
  assert (cached_ok m (k, v)) as Hkv by (by split). destruct rp_cap0 as [Hpos Hcap].
  unfold returns, st_hot_put, HotCache_put. rewrite lru_contains_spec, lru_len_spec.
  set (inner := hc_inner (ts_hot t)) in *.
  pose proof (length_assoc_remove k (lru_entries inner)) as [Hlen1 Hlen2].
  destruct (bool_decide _) eqn:Hin; [|destruct (_ <=? _) eqn:Hfull].
  - apply bool_decide_eq_true in Hin. destruct (lru_put_spec k v inner) as [He Hc]; [by left|].
    do 2 eexists. split; [done|]. split; simpl; try done; rewrite ?He, ?Hc; try done.
    + by constructor.
    + specialize (Hlen2 Hin). simpl. lia.
    + eapply stats_le_mono; [done|lia].
  - apply bool_decide_eq_false in Hin. rewrite assoc_remove_None in rp_hot0 by done.
    destruct (lru_pop_lru_spec inner) as (Hlast & Hc & He). destruct (lru_pop_lru inner) as [evicted cache].
    simpl in *. subst evicted. destruct (last (lru_entries inner)) as [[ek ev]|] eqn:Hl.
    2: { apply last_None in Hl. rewrite Hl in Hfull. simpl in Hfull. zlia. }
    destruct (bump_ok Evictions (ts_stats t) n) as (stats & Hb & Hst); [done..|]. simpl. rewrite Hb. simpl.
    apply last_Some in Hl as [l' Hl]. rewrite Hl, length_app in He. simpl in He.
    replace (length l' + 1 - 1)%nat with (length l') in He by lia. rewrite take_app_length in He.
    rewrite Hl, length_app in rp_fits0. simpl in rp_fits0.
    rewrite Hl in rp_hot0. apply Forall_app in rp_hot0 as [Hl' [[Hek Hev] _]%Forall_cons]. simpl in *.
    destruct (lru_put_spec k v cache) as [He' Hc']; [right; rewrite He, Hc; lia|].
    do 2 eexists. split; [done|]. split; simpl; try done; rewrite ?He', ?Hc', ?He, ?Hc; try done.
    + intros k' Hk'. destruct (decide (k' = ek)) as [->|Hne]; [by rewrite lookup_insert_eq|].
      rewrite !lookup_insert_ne by (intros [? ?]%key_path_inj; by try (apply Hne, HK)). by apply rp_disk0.
    + constructor; [done|by apply cached_ok_remove].
    + pose proof (proj1 (length_assoc_remove k l')). simpl. lia.
  - apply bool_decide_eq_false in Hin. destruct (lru_put_spec k v inner) as [He Hc]; [right; zlia|].
    do 2 eexists. split; [done|]. split; simpl; try done; rewrite ?He, ?Hc; try done.
    + by constructor.
    + simpl. zlia.
    + eapply stats_le_mono; [done|lia].
Qed.

(** The disk reads the operations make. *)
Lemma returns_warm_get k m n w :
  represents m n w →
  returns (st_io ts_warm (λ base, WarmStore_get base k)) w
    (λ w' v, w' = w ∧ v = d_files w.2 !! WarmStore_key_path (ts_warm w.1) k).
Proof.
  destruct w as [t [f fs]]. intros []. simpl in *. subst fs. unfold returns, st_io.
  rewrite WarmStore_get_ok. simpl. by do 2 eexists.
Qed.
Lemma returns_cold_get k m n w :
  represents m n w →
  returns (st_io ts_cold (λ base, ColdArchive_retrieve base k)) w
    (λ w' v, w' = w ∧ v = d_files w.2 !! WarmStore_key_path (ts_cold w.1) k).
Proof.
  destruct w as [t [f fs]]. intros []. simpl in *. subst fs. unfold returns, st_io.
  change (ColdArchive_retrieve ?b k) with (WarmStore_get b k). rewrite WarmStore_get_ok. simpl.
  by do 2 eexists.
Qed.

(** ** The operations *)

(** Run the first computation of a sequence by its lemma. *)
Ltac ret_step tac := apply returns_bind; eapply returns_mono; [tac|]; cbn beta.
Ltac ret_done := apply returns_ret; split; [eapply represents_mono; [done|lia]|done].

(** A value found on disk: count the hit, promote it, count the promotion. *)
Lemma promote_refines c k v m n w :
  represents m n w → k ∈ K → m !! k = Some v → n + 3 <= u64_max →
  returns (st_bind (st_bump c) (λ _, st_bind (st_hot_put k v) (λ _, st_bind (st_bump Promotions)
    (λ _, st_ret (Some v))))) w (λ w' r, represents m (n + 3) w' ∧ r = m !! k).
Proof using HK SL LL.
  intros Hw Hk Hv Hn.
  ret_step ltac:(eapply returns_bump; [done|lia]). intros w1 _ [H1 _].
  ret_step ltac:(eapply returns_hot_put; [by apply represents_stale|done..|lia]). intros w2 _ H2.
  ret_step ltac:(eapply returns_bump; [done|lia]). intros w3 _ [H3 _]. ret_done.
Qed.

Lemma get_refines k m n w :
  represents m n w → k ∈ K → n + 5 <= u64_max →
  returns (TieredStorage_get k) w (λ w' v, represents m (n + 5) w' ∧ v = m !! k).
Proof using HK SL LL.
  intros Hw Hk Hn. unfold TieredStorage_get.
  ret_step ltac:(by apply returns_hot_get). intros w1 v [H1 Hv]. destruct v as [v|].
  { destruct Hv as [[=]|Hv]. ret_step ltac:(eapply returns_bump; [done|lia]). intros w2 _ [H2 _]. ret_done. }
  ret_step ltac:(eapply (returns_bump HotMisses); [done|lia]). intros w2 _ [H2 _].
  ret_step ltac:(by eapply returns_warm_get). intros ? ? [E ->]. rewrite E. clear E.
  pose proof (rp_disk _ _ _ _ H2 k Hk) as Hm.
  destruct (d_files w2.2 !! WarmStore_key_path (ts_warm w2.1) k) as [v|]; simpl in Hm.
  { eapply returns_mono; [eapply promote_refines; [exact H2|done|done|lia]|]. intros w3 r [H3 ->].
    split; [|done]. eapply represents_mono; [done|lia]. }
  ret_step ltac:(eapply (returns_bump WarmMisses); [done|lia]). intros w3 _ [H3 (Hd & _ & Hc)].
  unfold TieredStorage_get_cold.
  ret_step ltac:(by eapply returns_cold_get). intros ? ? [E ->]. rewrite E, Hd, Hc, <-Hm. clear E.
  destruct (m !! k) as [v|] eqn:Hv'.
  { eapply returns_mono; [eapply promote_refines; [exact H3|done|done|lia]|]. intros w4 r [H4 ->].
    split; [|done]. eapply represents_mono; [done|lia]. }
  ret_step ltac:(eapply (returns_bump ColdMisses); [done|lia]). intros w4 _ [H4 _]. ret_done.
Qed.

(** Changing the file of one key: the paths of the other keys are elsewhere. *)
Lemma key_path_ne base base' k k' :
  k ∈ K → k' ∈ K → k ≠ k' → WarmStore_key_path base k ≠ WarmStore_key_path base' k'.
Proof using HK SL. intros Hk Hk' Hne [_ Hs]%key_path_inj. by apply Hne, HK. Qed.

(** Writing to the warm directory first: what the cache holds for the key is stale
    until the cache is written too. *)
Lemma put_refines k v m n w :
  represents m n w → k ∈ K → n + 5 <= u64_max →
  returns (TieredStorage_put k v) w (λ w' _, represents (<[k := v]> m) (n + 5) w').
Proof using HK SL LL.
  intros Hw Hk Hn. unfold TieredStorage_put. destruct w as [t [f fs]]. destruct Hw. simpl in *. subst fs.
  set (w1 := (t, mkDisk (<[WarmStore_key_path (ts_warm t) k := v]> f) [])).
  assert (represents_but (Some k) (<[k := v]> m) n w1) as H1.
  { split; simpl; try done.
    - rewrite dom_insert_L. set_solver.
    - intros k' Hk'. destruct (decide (k' = k)) as [->|Hne]; [by rewrite !lookup_insert_eq|].
      rewrite !lookup_insert_ne; [by apply rp_disk0|by apply key_path_ne|by apply key_path_ne|done].
    - rewrite Forall_forall in rp_hot0. apply Forall_forall. intros kv [Hne Hin]%elem_of_assoc_remove.
      destruct (rp_hot0 _ Hin). split; [done|]. by rewrite lookup_insert_ne. }
  apply returns_bind. exists w1, tt. split; [done|].
  ret_step ltac:(eapply returns_hot_put; [exact H1|done|apply lookup_insert_eq|lia]). intros w2 _ H2.
  apply returns_ret. eapply represents_mono; [done|lia].
Qed.

Lemma remove_refines k m n w :
  represents m n w → k ∈ K →
  returns (TieredStorage_remove k) w (λ w' r, represents (delete k m) n w' ∧ r = m !! k).
Proof using HK SL LL.
  intros Hw Hk. unfold TieredStorage_remove. pose proof (rp_disk _ _ _ _ Hw k Hk) as Hmk.
  ret_step ltac:(by eapply returns_hot_remove). intros [t [f fs]] v [H1 ((Hd & Hwb & Hcb) & Hv & Ha)].
  simpl in *. rewrite <-Hd, <-Hwb, <-Hcb in Hmk. simpl in Hmk. destruct H1. simpl in *. subst fs.
  set (f1 := delete (WarmStore_key_path (ts_warm t) k) f).
  set (f2 := delete (WarmStore_key_path (ts_cold t) k) f1).
  apply returns_bind. exists (t, mkDisk f1 []), (f !! WarmStore_key_path (ts_warm t) k).
  split; [unfold st_io; by rewrite WarmStore_remove_ok|].
  apply returns_bind. exists (t, mkDisk f2 []), (f1 !! WarmStore_key_path (ts_cold t) k).
  split; [unfold st_io; change (ColdArchive_remove ?b k) with (WarmStore_remove b k);
          by rewrite WarmStore_remove_ok|].
  assert (f1 !! WarmStore_key_path (ts_cold t) k = f !! WarmStore_key_path (ts_cold t) k) as Hf1.
  { apply lookup_delete_ne. by intros [? _]%key_path_inj. }
  apply returns_ret. split.
  - split; simpl; try done.
    + rewrite dom_delete_L. set_solver.
    + intros k' Hk'. subst f2 f1. destruct (decide (k' = k)) as [->|Hne].
      * rewrite lookup_delete_eq, (lookup_delete_eq _ (WarmStore_key_path (ts_cold t) k)).
        rewrite lookup_delete_ne, lookup_delete_eq; [done|]. intros [E _]%key_path_inj. by symmetry in E.
      * rewrite !lookup_delete_ne by first [congruence|by apply key_path_ne]. by apply rp_disk0.
    + rewrite Forall_forall in rp_hot0. apply Forall_forall. intros [k' v'] Hin.
      destruct (rp_hot0 _ Hin) as [? Hm']. split; [done|]. simpl in *. rewrite lookup_delete_ne; [done|].
      intros <-. apply assoc_None in Ha. set_solver.
  - rewrite Hf1. destruct Hv as [Hv|Hv]; subst v; simpl; [done|]. rewrite Hmk. by destruct (f !! _), (f !! _).
Qed.

Lemma archive_key_refines k m n w :
  represents m n w → k ∈ K →
  returns (TieredStorage_archive_key k) w (λ w' _, represents m n w').
Proof using HK SL LL.
  intros Hw Hk. unfold TieredStorage_archive_key. destruct w as [t [f fs]]. pose proof Hw as []. simpl in *. subst fs.
  set (pw := WarmStore_key_path (ts_warm t) k). set (pc := WarmStore_key_path (ts_cold t) k).
  assert (pw ≠ pc) as Hpc by (by intros [? _]%key_path_inj).
  apply returns_bind. exists (t, mkDisk (delete pw f) []), (f !! pw).
  split; [unfold st_io; by rewrite WarmStore_remove_ok|].
  destruct (f !! pw) as [v|] eqn:Hf.
  - apply returns_bind. exists (t, mkDisk (<[pc := v]> (delete pw f)) []), tt. split; [done|].
    apply returns_ret. split; simpl; try done.
    intros k' Hk'. rewrite rp_disk0 by done. destruct (decide (k' = k)) as [->|Hne].
    + fold pw pc. rewrite Hf, lookup_insert_eq, lookup_insert_ne, lookup_delete_eq by done. done.
    + rewrite !lookup_insert_ne, !lookup_delete_ne by (apply not_eq_sym; by apply key_path_ne). done.
  - apply returns_ret. split; simpl; try done. intros k' Hk'. rewrite rp_disk0, delete_id by done. done.
Qed.

Lemma archive_keys_refines ks count m n w :
  represents m n w → Forall (λ k, k ∈ K) ks → 0 <= count → count + Z.of_nat (length ks) <= u64_max →
  returns (archive_keys_loop ks count) w (λ w' _, represents m n w').
Proof using HK SL LL.
  intros Hw Hks. revert count w Hw. induction Hks as [|k ks Hk Hks IH]; intros count w Hw Hc Hle; simpl in *.
  { by apply returns_ret. }
  ret_step ltac:(by eapply returns_hot_remove). intros w1 _ [H1 _].
  ret_step ltac:(by eapply archive_key_refines). intros w2 archived H2.
  destruct archived; [|apply IH; [done|done|lia]].
  unfold u64_add. rewrite arith_u_ok by zlia. simpl. apply IH; [done|lia|lia].
Qed.

Lemma restart_refines m n w :
  represents m n w → 0 <= n → returns st_restart w (λ w' _, represents m n w').
Proof using LL.
  destruct w as [t [f fs]]. intros [] Hn. simpl in *. subst fs. destruct rp_cap0 as [Hpos Hcap].
  destruct (lru_new_spec (hc_capacity (ts_hot t)) Hpos) as [He Hc].
  exists (mkTieredStorage (mkHotCache (lru_new (hc_capacity (ts_hot t))) (hc_capacity (ts_hot t)))
    (ts_warm t) (ts_cold t) StorageStats_default, mkDisk f []), tt.
  split; [unfold st_restart, TieredStorage_new, HotCache_new; simpl; by rewrite (proj2 (Z.eqb_neq _ _)) by lia|].
  split; simpl; rewrite ?He, ?Hc; try done; simpl; try lia.
  unfold stats_le. simpl. repeat constructor; lia.
Qed.

Lemma step_refines o m n w :
  represents m n w → Forall (λ k, k ∈ K) (storage_op_keys o) → 0 <= n → n + 5 <= u64_max →
  Z.of_nat (length (storage_op_keys o)) <= u64_max →
  returns (storage_step o) w (λ w' a, represents (map_step m o).1 (n + 5) w' ∧ a = (map_step m o).2).
Proof using HK SL LL.
  intros Hw Hk H0 Hn Hl. destruct o as [k|k v|k|ks|]; simpl in *.
  - rewrite Forall_singleton in Hk. ret_step ltac:(by apply (get_refines k m n)). intros w' v [H1 ->]. ret_done.
  - rewrite Forall_singleton in Hk. ret_step ltac:(by apply (put_refines k v m n)). intros w' _ H1. ret_done.
  - rewrite Forall_singleton in Hk. ret_step ltac:(by apply (remove_refines k m n)). intros w' v [H1 ->]. ret_done.
  - ret_step ltac:(eapply (archive_keys_refines ks 0); [exact Hw|done|done|lia]). intros w' _ H1. ret_done.
  - ret_step ltac:(by apply (restart_refines m n)). intros w' _ H1. ret_done.
Qed.

Lemma run_refines os m n w :
  represents m n w → Forall (λ o, Forall (λ k, k ∈ K) (storage_op_keys o)) os →
  Forall (λ o, Z.of_nat (length (storage_op_keys o)) <= u64_max) os →
  0 <= n → n + 5 * Z.of_nat (length os) <= u64_max →
  returns (storage_run os) w (λ w' l, represents (map_run m os).1 (n + 5 * Z.of_nat (length os)) w' ∧
    l = (map_run m os).2).
Proof using HK SL LL.
  intros Hw Hk Hl. revert m n w Hw. induction os as [|o os IH]; intros m n w Hw H0 Hn; simpl length in *.
  { apply returns_ret. split; [|done]. eapply represents_mono; [done|lia]. }
  apply Forall_cons in Hk as [Hko Hk], Hl as [Hlo Hl]. simpl storage_run. simpl map_run.
  ret_step ltac:(eapply (step_refines o m n); [done..|lia|done]). intros w1 a [H1 ->].
  destruct (map_step m o) as [m1 a]. simpl in H1.
  ret_step ltac:(eapply (IH Hk Hl m1 (n + 5)); [done|lia|lia]). intros w2 l [H2 ->].
  destruct (map_run m1 os) as [m2 l]. apply returns_ret. split; [|done].
  eapply represents_mono; [done|lia].
Qed.
End Refinement.

(** * Properties *)

(** C11: the tiered storage refines a map.  Opened on an empty disk and run without
    disk faults over keys whose file names do not collide, any sequence of reads,
    writes, removals, archivings and restarts returns, without a panic or an error,
    the answers a plain map gives: whatever is cached, evicted or moved between the
    tiers, a read yields the last value written, and nothing is lost by a restart.
    The cache never holds more entries than its capacity. *)
Theorem storage_refines_map {OC : OverflowChecks} {C : Crypto} {S : Serde} {SL : SerdeLaws S}
    {L : Type} {LRU : Lru L} {LL : LruLaws L} (config : StorageConfig) (K : gset bytes)
    (os : list storage_op) :
  0 < lru_capacity config → nvme_path config ≠ archive_path config →
  (∀ k k', k ∈ K → k' ∈ K → sha256 k = sha256 k' → k = k') →
  Forall (λ o, Forall (λ k, k ∈ K) (storage_op_keys o)) os →
  Forall (λ o, Z.of_nat (length (storage_op_keys o)) <= u64_max) os →
  5 * Z.of_nat (length os) <= u64_max →
  ∃ (t : TieredStorage L) w',
    TieredStorage_new config (mkDisk ∅ []) = Some (mkDisk ∅ [], Ok t) ∧
    storage_run os (t, mkDisk ∅ []) = Some (w', Ok (map_run ∅ os).2) ∧
    Z.of_nat (HotCache_len (ts_hot w'.1)) <= lru_capacity config.
Proof.
  intros Hcap Hne HK Hk Hl Hn. destruct (lru_new_spec (lru_capacity config) Hcap) as [He Hc].
  set (t := mkTieredStorage (mkHotCache (lru_new (lru_capacity config)) (lru_capacity config))
    (nvme_path config) (archive_path config) StorageStats_default).
  assert (represents K (lru_capacity config) ∅ 0 (t, mkDisk ∅ [])) as H0.
  { split; simpl; rewrite ?He, ?Hc; try done; simpl; try lia.
    unfold stats_le. simpl. repeat constructor; lia. }
  exists t. destruct (run_refines K HK _ os ∅ 0 _ H0 Hk Hl) as (w' & l & Hrun & Hw' & ->); [lia..|].
  exists w'. split; [|split; [exact Hrun|]].
  - unfold TieredStorage_new, HotCache_new. by rewrite (proj2 (Z.eqb_neq _ _)) by lia.
  - unfold HotCache_len. rewrite lru_len_spec. pose proof (rp_fits _ _ _ _ _ _ Hw') as Hfit.
    by rewrite (rp_capacity _ _ _ _ _ _ Hw') in Hfit.
Qed.

(** A run over two keys with room for one in the cache: the second write evicts. *)
Definition demo_config : StorageConfig := mkStorageConfig 1 "warm" "cold" 0.
Definition demo_keys : gset bytes := {[ key32 1; key32 2 ]}.
Definition demo_storage_ops : list storage_op :=
  [SPut (key32 1) [x01]; SPut (key32 2) [x02]; SPut (key32 1) [x03]; SArchive [key32 1]; SRestart;
   SGet (key32 1); SPut (key32 1) [x04]; SGet (key32 2); SGet (key32 1); SRemove (key32 1); SGet (key32 1)].

Lemma demo_keys_injective (k k' : bytes) :
  k ∈ demo_keys → k' ∈ demo_keys → sha256 (Crypto := toy_crypto) k = sha256 (Crypto := toy_crypto) k' → k = k'.
Proof.
  unfold demo_keys. rewrite !elem_of_union, !elem_of_singleton.
  intros [->| ->] [->| ->] H; try reflexivity; exfalso; revert H;
    apply (bool_decide_eq_false_1 _); vm_compute; reflexivity.
Qed.

Lemma storage_refines_map_witness :
  (map_run ∅ demo_storage_ops).2 =
    [None; None; None; None; None; Some (Some [x03]); None; Some (Some [x02]); Some (Some [x04]);
     Some (Some [x04]); Some None] ∧
  ∃ (t : TieredStorage toy_cache) w',
    TieredStorage_new demo_config (mkDisk ∅ []) = Some (mkDisk ∅ [], Ok t) ∧
    storage_run (OC := debug_build) (C := toy_crypto) (S := toy_serde) demo_storage_ops (t, mkDisk ∅ []) =
      Some (w', Ok (map_run ∅ demo_storage_ops).2) ∧
    Z.of_nat (HotCache_len (ts_hot w'.1)) <= 1.
Proof.
  split; [vm_compute; reflexivity|].
  refine (storage_refines_map (OC := debug_build) (C := toy_crypto) (S := toy_serde) demo_config demo_keys
    demo_storage_ops eq_refl _ demo_keys_injective _ _ _).
  - discriminate.
  - unfold demo_storage_ops, demo_keys. repeat constructor; simpl; set_solver.
  - repeat constructor; vm_compute; discriminate.
  - vm_compute. discriminate.
Defined.

(** Archiving is not crash safe: the warm file is removed before the cold one is
    written.  When that write fails, an uncached key that only the warm directory held
    is in no tier afterwards: the error is reported, the value is lost. *)
Theorem archive_fault_loses_key {OC : OverflowChecks} {C : Crypto} {S : Serde} {SL : SerdeLaws S}
    {L : Type} {LRU : Lru L} {LL : LruLaws L} (t : TieredStorage L) (f : gmap path bytes)
    (k v : bytes) (msg : string) :
  ts_warm t ≠ ts_cold t → HotCache_contains k (ts_hot t) = false →
  f !! WarmStore_key_path (ts_warm t) k = Some v → f !! ColdArchive_key_path (ts_cold t) k = None →
  TieredStorage_locate k (t, mkDisk f []) = (mkDisk f [], Some Warm) ∧
  ∃ f', TieredStorage_archive_key k (t, mkDisk f [NoFault; NoFault; Fault msg None]) =
      Some ((t, mkDisk f' []), Err (StorageError_Io (IoOther msg))) ∧
    TieredStorage_locate k (t, mkDisk f' []) = (mkDisk f' [], None).
Proof.
  intros Hne Hhot Hw Hc. unfold TieredStorage_locate. rewrite Hhot.
  unfold WarmStore_contains, ColdArchive_contains, fs_exists. simpl. rewrite Hw. split; [done|].
  exists (delete (WarmStore_key_path (ts_warm t) k) f). split.
  - unfold TieredStorage_archive_key, st_bind, st_io, WarmStore_remove, fs_read, fs_remove_file. simpl.
    by rewrite Hw.
  - rewrite lookup_delete_eq. simpl. rewrite lookup_delete_ne, Hc; [done|].
    change (ColdArchive_key_path (ts_cold t) k) with (WarmStore_key_path (ts_cold t) k).
    by intros [? _]%key_path_inj.
Qed.

Definition demo_storage : TieredStorage toy_cache :=
  mkTieredStorage (mkHotCache (1, []) 1) "warm" "cold" StorageStats_default.
Definition demo_files : gmap path bytes :=
  {[ WarmStore_key_path (C := toy_crypto) (S := toy_serde) "warm" (key32 1) := [x07] ]}.
Lemma archive_fault_loses_key_witness :
  ∃ f', TieredStorage_archive_key (C := toy_crypto) (S := toy_serde) (key32 1)
      (demo_storage, mkDisk demo_files [NoFault; NoFault; Fault "disk full" None]) =
      Some ((demo_storage, mkDisk f' []), Err (StorageError_Io (IoOther "disk full"))) ∧
    TieredStorage_locate (C := toy_crypto) (S := toy_serde) (key32 1) (demo_storage, mkDisk f' []) =
      (mkDisk f' [], None).
Proof.
  refine (proj2 (archive_fault_loses_key (OC := debug_build) (C := toy_crypto) (S := toy_serde) demo_storage
    demo_files (key32 1) [x07] "disk full" _ _ _ _)); [discriminate|vm_compute; reflexivity..].
Defined.
