(* ===== verification/Network.v ===== *)
(** * The peer-to-peer network (consensus/net)

    The codec of the messages, the peers with their reputation, and the task that
    drives the libp2p swarm: what it forwards to the node, what it publishes, and how
    it scores peers.  libp2p itself is outside: a swarm's events come in as data, and
    what is handed to [publish] is a log. *)
From S2P Require Import Prelude Crypto Block Vote State.
Open Scope Z_scope.

(** ** codec.rs *)

Inductive CodecError :=
| CodecError_Serialize (msg : string).

Record NetworkMessage := mkNetworkMessage {
  nm_sender : bytes;
  nm_message : ConsensusMessage;
}.

(** [bincode::serialize] and [deserialize]. *)
Class NetCodec := {
  bincode_network : NetworkMessage → result string bytes;
  bincode_parse_network : bytes → result string NetworkMessage;
  bincode_consensus : ConsensusMessage → result string bytes;
  bincode_parse_consensus : bytes → result string ConsensusMessage;
  bincode_tx : Transaction → result string bytes;
  bincode_parse_tx : bytes → result string Transaction;
}.
Class NetCodecLaws (N : NetCodec) := {
  parse_network m b : bincode_network m = Ok b → bincode_parse_network b = Ok m;
  parse_consensus m b : bincode_consensus m = Ok b → bincode_parse_consensus b = Ok m;
  parse_tx t b : bincode_tx t = Ok b → bincode_parse_tx b = Ok t;
}.

(** The [?] of a [bincode] error. *)
Definition codec_result {T} (r : result string T) : result CodecError T :=
  match r with Ok t => Ok t | Err e => Err (CodecError_Serialize e) end.

Section Codec.
Context {N : NetCodec}.
Definition NetworkMessage_encode (m : NetworkMessage) : result CodecError bytes := codec_result (bincode_network m).
Definition NetworkMessage_decode (data : bytes) : result CodecError NetworkMessage :=
  codec_result (bincode_parse_network data).
Definition encode_consensus_message (msg : ConsensusMessage) : result CodecError bytes :=
  codec_result (bincode_consensus msg).
Definition decode_consensus_message (data : bytes) : result CodecError ConsensusMessage :=
  codec_result (bincode_parse_consensus data).
Definition encode_transaction (tx : Transaction) : result CodecError bytes := codec_result (bincode_tx tx).
Definition decode_transaction (data : bytes) : result CodecError Transaction := codec_result (bincode_parse_tx data).
End Codec.

(** ** peer.rs *)

(** A [PeerId], by its bytes. *)
Definition PeerId := bytes.

Record PeerInfo := mkPeerInfo {
  pi_peer_id : PeerId;
  pi_address : option string;
  pi_last_seen : Z;
  pi_score : Z;
}.

Record PeerManager := mkPeerManager {
  pm_peers : gmap bytes PeerInfo;
  pm_ban_threshold : Z;
}.

Definition i64_saturating_add (a b : Z) : Z := Z.max (- I63) (Z.min (I63 - 1) (a + b)).

Definition PeerManager_new (ban_threshold : Z) : PeerManager := mkPeerManager ∅ ban_threshold.

Definition PeerManager_add_peer (peer_id : PeerId) (address : option string) (now : Z) (pm : PeerManager) :
    PeerManager :=
  let info := match pm_peers pm !! peer_id with
              | Some info =>
                mkPeerInfo (pi_peer_id info)
                  (match address with Some addr => Some addr | None => pi_address info end)
                  now (pi_score info)
              | None => mkPeerInfo peer_id address now 0
              end in
  mkPeerManager (<[peer_id := info]> (pm_peers pm)) (pm_ban_threshold pm).

Definition PeerManager_remove_peer (peer_id : PeerId) (pm : PeerManager) : PeerManager * option PeerInfo :=
  (mkPeerManager (delete peer_id (pm_peers pm)) (pm_ban_threshold pm), pm_peers pm !! peer_id).

Definition PeerManager_adjust_score (peer_id : PeerId) (delta : Z) (pm : PeerManager) : PeerManager * option Z :=
  match pm_peers pm !! peer_id with
  | Some info =>
    let score := i64_saturating_add (pi_score info) delta in
    let info := mkPeerInfo (pi_peer_id info) (pi_address info) (pi_last_seen info) score in
    (mkPeerManager (<[peer_id := info]> (pm_peers pm)) (pm_ban_threshold pm), Some score)
  | None => (pm, None)
  end.

Definition PeerManager_is_banned (peer_id : PeerId) (pm : PeerManager) : bool :=
  match pm_peers pm !! peer_id with
  | Some info => pi_score info <? pm_ban_threshold pm
  | None => false
  end.

Definition PeerManager_get_peer (peer_id : PeerId) (pm : PeerManager) : option PeerInfo := pm_peers pm !! peer_id.
Definition PeerManager_peer_count (pm : PeerManager) : nat := size (pm_peers pm).

Section Peers.
Context {HO : HashOrder}.
Definition PeerManager_connected_peers (pm : PeerManager) : list PeerId := hash_keys (pm_peers pm).
Definition PeerManager_prune_stale (cutoff : Z) (pm : PeerManager) : PeerManager * list PeerId :=
  let stale := (filter (λ e : bytes * PeerInfo, pi_last_seen e.2 < cutoff) (hash_iter (pm_peers pm))).*1 in
  (mkPeerManager (fold_left (λ peers id, delete id peers) stale (pm_peers pm)) (pm_ban_threshold pm), stale).
End Peers.

(** ** network.rs *)

Definition CONSENSUS_TOPIC : string := "trv1-consensus".
Definition TRANSACTION_TOPIC : string := "trv1-transactions".

(** The default ban threshold of [NetworkConfig]. *)
Definition default_peer_ban_threshold : Z := -100.

(** What the task owns: the peers, the two queues towards the node, and what it has
    handed to the swarm, by topic. *)
Record NetworkRunner := mkNetworkRunner {
  nr_peer_manager : PeerManager;
  nr_messages : list NetworkMessage;
  nr_transactions : list Transaction;
  nr_published : list (string * bytes);
}.

Definition set_peer_manager x r := mkNetworkRunner x (nr_messages r) (nr_transactions r) (nr_published r).
Definition push_message m r :=
  mkNetworkRunner (nr_peer_manager r) (nr_messages r ++ [m]) (nr_transactions r) (nr_published r).
Definition push_transaction tx r :=
  mkNetworkRunner (nr_peer_manager r) (nr_messages r) (nr_transactions r ++ [tx]) (nr_published r).
Definition publish topic data r :=
  mkNetworkRunner (nr_peer_manager r) (nr_messages r) (nr_transactions r) (nr_published r ++ [(topic, data)]).

Definition ConsensusNetwork_new (peer_ban_threshold : Z) : NetworkRunner :=
  mkNetworkRunner (PeerManager_new peer_ban_threshold) [] [] [].

(** The events the task waits for: of the swarm, and of the node's handle.  The hash of
    an identity topic is its name. *)
Inductive runner_event :=
| GossipMessage (propagation_source : PeerId) (topic : string) (data : bytes)
| ConnectionEstablished (peer_id : PeerId) (now : Z)
| ConnectionClosed (peer_id : PeerId)
| OtherSwarmEvent
| BroadcastMessage (msg : ConsensusMessage)
| BroadcastTransaction (tx : Transaction).

Section Runner.
Context {N : NetCodec}.

Definition penalize (peer : PeerId) (r : NetworkRunner) : NetworkRunner :=
  set_peer_manager (PeerManager_adjust_score peer (-10) (nr_peer_manager r)).1 r.

Definition on_gossip_message (source : PeerId) (topic : string) (data : bytes) (r : NetworkRunner) : NetworkRunner :=
  if String.eqb topic CONSENSUS_TOPIC then
    match decode_consensus_message data with
    | Ok consensus_msg => push_message (mkNetworkMessage source consensus_msg) r
    | Err _ => penalize source r
    end
  else if String.eqb topic TRANSACTION_TOPIC then
    match decode_transaction data with
    | Ok tx => push_transaction tx r
    | Err _ => penalize source r
    end
  else r.

Definition runner_step (r : NetworkRunner) (e : runner_event) : NetworkRunner :=
  match e with
  | GossipMessage source topic data => on_gossip_message source topic data r
  | ConnectionEstablished peer_id now => set_peer_manager (PeerManager_add_peer peer_id None now (nr_peer_manager r)) r
  | ConnectionClosed peer_id => set_peer_manager (PeerManager_remove_peer peer_id (nr_peer_manager r)).1 r
  | OtherSwarmEvent => r
  | BroadcastMessage msg =>
    match encode_consensus_message msg with
    | Ok data => publish CONSENSUS_TOPIC data r
    | Err _ => r
    end
  | BroadcastTransaction tx =>
    match encode_transaction tx with
    | Ok data => publish TRANSACTION_TOPIC data r
    | Err _ => r
    end
  end.

Definition runner_run (r : NetworkRunner) (es : list runner_event) : NetworkRunner := fold_left runner_step es r.
End Runner.
Arguments runner_run : simpl never.

(** ** Specification *)

(** The invariant of the peers: each under its own id, with a score of the machine's
    width. *)
Definition peers_wf (pm : PeerManager) : Prop :=
  map_Forall (λ k info, pi_peer_id info = k ∧ - I63 <= pi_score info < I63) (pm_peers pm).

(** The messages of a run, in order, with who handed them on; and the transactions. *)
Definition delivered {N : NetCodec} (es : list runner_event) : list NetworkMessage :=
  omap (λ e, match e with
             | GossipMessage source topic data =>
               if String.eqb topic CONSENSUS_TOPIC then
                 match decode_consensus_message data with
                 | Ok m => Some (mkNetworkMessage source m)
                 | Err _ => None
                 end
               else None
             | _ => None
             end) es.
Definition delivered_transactions {N : NetCodec} (es : list runner_event) : list Transaction :=
  omap (λ e, match e with
             | GossipMessage _ topic data =>
               if String.eqb topic TRANSACTION_TOPIC then
                 match decode_transaction data with Ok tx => Some tx | Err _ => None end
               else None
             | _ => None
             end) es.

(** What a task publishes for its node. *)
Definition encoded {N : NetCodec} (e : runner_event) : option (string * bytes) :=
  match e with
  | BroadcastMessage msg => match encode_consensus_message msg with Ok d => Some (CONSENSUS_TOPIC, d) | Err _ => None end
  | BroadcastTransaction tx => match encode_transaction tx with Ok d => Some (TRANSACTION_TOPIC, d) | Err _ => None end
  | _ => None
  end.

(** The messages and transactions a node asks to broadcast, as a peer would see them. *)
Definition sent_messages (source : PeerId) (es : list runner_event) : list NetworkMessage :=
  omap (λ e, match e with BroadcastMessage m => Some (mkNetworkMessage source m) | _ => None end) es.
Definition sent_transactions (es : list runner_event) : list Transaction :=
  omap (λ e, match e with BroadcastTransaction t => Some t | _ => None end) es.
Definition encodable {N : NetCodec} (e : runner_event) : Prop :=
  match e with BroadcastMessage _ | BroadcastTransaction _ => is_Some (encoded e) | _ => False end.

(** A swarm that hands to one task what another has published. *)
Definition gossiped_from (source : PeerId) (r : NetworkRunner) : list runner_event :=
  (λ p, GossipMessage source p.1 p.2) <$> nr_published r.

(** * Lemmas *)

Section RunnerLemmas.
Context {N : NetCodec}.

Lemma runner_run_cons r e es : runner_run r (e :: es) = runner_run (runner_step r e) es.
Proof. reflexivity. Qed.
Lemma runner_run_app r es es' : runner_run r (es ++ es') = runner_run (runner_run r es) es'.
Proof. apply fold_left_app. Qed.

Lemma i64_saturating_range a b : - I63 <= i64_saturating_add a b < I63.
Proof. unfold i64_saturating_add. lia. Qed.

Lemma adjust_score_wf peer d pm : peers_wf pm → peers_wf (PeerManager_adjust_score peer d pm).1.
Proof.
  intros Hpm. unfold PeerManager_adjust_score. destruct (pm_peers pm !! peer) as [info|] eqn:Hi; [|done].
  apply map_Forall_insert_2; [|done]. simpl. split; [by apply (Hpm peer)|apply i64_saturating_range].
Qed.

Lemma penalize_wf peer r : peers_wf (nr_peer_manager r) → peers_wf (nr_peer_manager (penalize peer r)).
Proof. apply adjust_score_wf. Qed.

Lemma runner_step_wf r e : peers_wf (nr_peer_manager r) → peers_wf (nr_peer_manager (runner_step r e)).
Proof.
  intros Hr. destruct e as [src t d|p now|p| |m|tx]; simpl.
  - unfold on_gossip_message. repeat case_match; simpl; try done; by apply penalize_wf.
  - unfold PeerManager_add_peer. apply map_Forall_insert_2; [|done].
    destruct (pm_peers (nr_peer_manager r) !! p) as [info|] eqn:Hi; simpl; [by apply (Hr p)|split; [done|lia]].
  - by apply map_Forall_delete.
  - done.
  - by case_match.
  - by case_match.
Qed.

(** What a run delivers depends on nothing but the data. *)
Lemma runner_run_delivered r es :
  nr_messages (runner_run r es) = nr_messages r ++ delivered es ∧
  nr_transactions (runner_run r es) = nr_transactions r ++ delivered_transactions es ∧
  (peers_wf (nr_peer_manager r) → peers_wf (nr_peer_manager (runner_run r es))).
Proof.
  revert r. induction es as [|e es IH]; intros r; [by rewrite !app_nil_r|].
  destruct (IH (runner_step r e)) as (Hm & Ht & Hwf).
  rewrite runner_run_cons,  Hm, Ht.
  split; [|split; [|by intros Hr; apply Hwf, runner_step_wf]].
  - destruct e as [src t d|p now|p| |m|tx]; simpl; try done; [|by case_match..].
    unfold on_gossip_message. destruct (String.eqb t CONSENSUS_TOPIC).
    + destruct (decode_consensus_message d); simpl; [by rewrite <-app_assoc|done].
    + destruct (String.eqb t TRANSACTION_TOPIC); [|done]. by destruct (decode_transaction d).
  - destruct e as [src t d|p now|p| |m|tx]; simpl; try done; [|by case_match..].
    unfold on_gossip_message. destruct (String.eqb_spec t CONSENSUS_TOPIC) as [->|].
    + by destruct (decode_consensus_message d).
    + destruct (String.eqb t TRANSACTION_TOPIC); [|done].
      destruct (decode_transaction d); simpl; [by rewrite <-app_assoc|done].
Qed.

Lemma runner_run_published r es : nr_published (runner_run r es) = nr_published r ++ omap encoded es.
Proof.
  revert r. induction es as [|e es IH]; intros r; [by rewrite app_nil_r|].
  rewrite runner_run_cons,  IH.
  destruct e as [src t d|p now|p| |m|tx]; simpl; try done.
  - unfold on_gossip_message. by repeat case_match.
  - destruct (encode_consensus_message m); simpl; [by rewrite <-app_assoc|done].
  - destruct (encode_transaction tx); simpl; [by rewrite <-app_assoc|done].
Qed.

(** Undecodable messages of one peer: its score falls by ten for each. *)
Lemma garbage_score peer data r info n :
  (∃ e, bincode_parse_consensus data = Err e) →
  pm_peers (nr_peer_manager r) !! peer = Some info → - I63 <= pi_score info <= 0 →
  let r' := runner_run r (replicate n (GossipMessage peer CONSENSUS_TOPIC data)) in
  pm_ban_threshold (nr_peer_manager r') = pm_ban_threshold (nr_peer_manager r) ∧
  pm_peers (nr_peer_manager r') !! peer = Some (mkPeerInfo (pi_peer_id info) (pi_address info)
    (pi_last_seen info) (Z.max (- I63) (pi_score info - 10 * Z.of_nat n))).
Proof.
  intros Hd. cbv zeta. revert r info. induction n as [|n IH]; intros r info Hi Hs; cbn [replicate].
  { split; [done|]. change (runner_run r []) with r. rewrite Hi. f_equal. destruct info; simpl in *. f_equal. lia. }
  assert (on_gossip_message peer CONSENSUS_TOPIC data r = penalize peer r) as Hstep.
  { unfold on_gossip_message, decode_consensus_message. simpl. by destruct Hd as [e ->]. }
  rewrite runner_run_cons. cbn [runner_step]. rewrite Hstep.
  unfold penalize, PeerManager_adjust_score. rewrite Hi. cbn [fst]. set (info1 := mkPeerInfo _ _ _ _).
  destruct (IH (set_peer_manager (mkPeerManager (<[peer:=info1]> (pm_peers (nr_peer_manager r)))
    (pm_ban_threshold (nr_peer_manager r))) r) info1) as [Ht Hp].
  - simpl. apply lookup_insert_eq.
  - simpl. unfold i64_saturating_add. lia.
  - split; [exact Ht|]. rewrite Hp. unfold info1, i64_saturating_add. simpl. do 2 f_equal. lia.
Qed.

Context {NL : NetCodecLaws N}.

(** Handing on what was published for an event delivers it. *)
Lemma gossip_encoded source b es :
  Forall encodable es →
  let b' := runner_run b ((λ p, GossipMessage source p.1 p.2) <$> omap encoded es) in
  nr_messages b' = nr_messages b ++ sent_messages source es ∧
  nr_transactions b' = nr_transactions b ++ sent_transactions es ∧
  nr_peer_manager b' = nr_peer_manager b.
Proof.
  intros Hes. revert b. cbv zeta. induction Hes as [|e es He Hes IH]; intros b; [by rewrite !app_nil_r|].
  destruct e as [| | | |m|t]; try done; destruct He as [p Hp]; unfold sent_messages, sent_transactions;
    csimpl; simpl in Hp; unfold encode_consensus_message, encode_transaction, codec_result in *.
  - destruct (bincode_consensus m) as [d|] eqn:E; [|done]. apply parse_consensus in E. csimpl.
    rewrite runner_run_cons. destruct (IH (push_message (mkNetworkMessage source m) b)) as (Hm & Ht & Hpm).
    assert (runner_step b (GossipMessage source CONSENSUS_TOPIC d) = push_message (mkNetworkMessage source m) b) as ->.
    { simpl. unfold on_gossip_message, decode_consensus_message. simpl. by rewrite E. }
    rewrite Hm, Ht, Hpm. simpl. by rewrite <-app_assoc.
  - destruct (bincode_tx t) as [d|] eqn:E; [|done]. apply parse_tx in E. csimpl.
    rewrite runner_run_cons. destruct (IH (push_transaction t b)) as (Hm & Ht & Hpm).
    assert (runner_step b (GossipMessage source TRANSACTION_TOPIC d) = push_transaction t b) as ->.
    { simpl. unfold on_gossip_message, decode_transaction. simpl. by rewrite E. }
    rewrite Hm, Ht, Hpm. simpl. by rewrite <-app_assoc.
Qed.
End RunnerLemmas.

(** ** A concrete codec, of the messages it knows *)

Definition toy_codec : NetCodec := {|
  bincode_network _ := Err "unknown";
  bincode_parse_network _ := Err "unknown";
  bincode_consensus m :=
    match m with CommitBlock h hash => Ok (positive_bytes (encode (h, hash))) | _ => Err "unknown" end;
  bincode_parse_consensus b :=
    match decode (bytes_positive b) with
    | Some (h, hash) => Ok (CommitBlock h hash)
    | None => Err "unexpected end"
    end;
  bincode_tx t := Ok (positive_bytes (encode (tx_from t, tx_to t, tx_amount t, tx_nonce t, tx_signature t, tx_data t)));
  bincode_parse_tx b :=
    match decode (bytes_positive b) with
    | Some (f, t, a, n, s, d) => Ok (mkTransaction f t a n s d)
    | None => Err "unexpected end"
    end;
|}.
#[export] Instance toy_codec_laws : NetCodecLaws toy_codec.
Proof.
  split; [done| |].
  - intros [] b; simpl; try done. intros [= <-]. by rewrite bytes_positive_bytes, decode_encode.
  - intros [] b [= <-]. simpl. by rewrite bytes_positive_bytes, decode_encode.
Qed.

(** * Properties *)

(** C36: what a node broadcasts, its peers receive.  The messages and transactions one
    task publishes, handed in order to another, are decoded there to exactly those
    messages, in the same order and with the peer they came from, and to exactly those
    transactions; no peer is penalised for them, and whatever else arrives, every peer
    stays under its own id with a score of the machine's width. *)
Theorem broadcasts_arrive {N : NetCodec} {NL : NetCodecLaws N} (a b : NetworkRunner) (source : PeerId)
    (es noise : list runner_event) :
  Forall encodable es → nr_published a = [] → peers_wf (nr_peer_manager b) →
  let b' := runner_run b (gossiped_from source (runner_run a es)) in
  nr_messages b' = nr_messages b ++ sent_messages source es ∧
  nr_transactions b' = nr_transactions b ++ sent_transactions es ∧
  nr_peer_manager b' = nr_peer_manager b ∧ peers_wf (nr_peer_manager (runner_run b' noise)).
Proof.
  intros Hes Ha Hb. unfold gossiped_from. rewrite runner_run_published, Ha. cbv zeta. cbn [app].
  destruct (gossip_encoded source b es Hes) as (-> & -> & Hp). split_and!; [done|done|done|].
  apply runner_run_delivered. by rewrite Hp.
Qed.

Definition demo_broadcasts : list runner_event :=
  [BroadcastMessage (CommitBlock 7 (key32 9));
   BroadcastTransaction (mkTransaction (key32 1) (key32 2) 5 0 [x01] [])].
Lemma broadcasts_arrive_witness :
  let a := runner_run (N := toy_codec) (ConsensusNetwork_new default_peer_ban_threshold) demo_broadcasts in
  let b := runner_run (N := toy_codec) (ConsensusNetwork_new default_peer_ban_threshold) (gossiped_from (key32 3) a) in
  nr_messages b = [mkNetworkMessage (key32 3) (CommitBlock 7 (key32 9))].
Proof.
  refine (proj1 (broadcasts_arrive (N := toy_codec) (ConsensusNetwork_new default_peer_ban_threshold)
    (ConsensusNetwork_new default_peer_ban_threshold) (key32 3) demo_broadcasts [] _ eq_refl _)).
  - repeat constructor; vm_compute; eexists; reflexivity.
  - apply map_Forall_empty.
Defined.

(** Bans are not enforced.  A peer that sends [n] undecodable messages has a score of
    -10 [n], down to the smallest [i64], and counts as banned as soon as that is below the
    threshold - after eleven, with the default of -100.  But nothing asks: its next
    message is delivered like any other, and a new connection clears the score. *)
Theorem banned_peers_are_heard {N : NetCodec} {NL : NetCodecLaws N} (r : NetworkRunner) (peer : PeerId)
    (now : Z) (garbage data : bytes) (msg : ConsensusMessage) (e : string) (n : nat) :
  bincode_parse_consensus garbage = Err e → bincode_consensus msg = Ok data →
  pm_peers (nr_peer_manager r) !! peer = None → pm_ban_threshold (nr_peer_manager r) <= 0 →
  let bad := runner_run r (ConnectionEstablished peer now :: replicate n (GossipMessage peer CONSENSUS_TOPIC garbage)) in
  (PeerManager_is_banned peer (nr_peer_manager bad) = true ↔
    Z.max (- I63) (-10 * Z.of_nat n) < pm_ban_threshold (nr_peer_manager r)) ∧
  nr_messages (runner_step bad (GossipMessage peer CONSENSUS_TOPIC data)) =
    nr_messages bad ++ [mkNetworkMessage peer msg] ∧
  PeerManager_is_banned peer (nr_peer_manager
    (runner_run bad [ConnectionClosed peer; ConnectionEstablished peer now])) = false.
Proof.
  intros Hg Hd Hnew Hthr. cbv zeta. rewrite runner_run_cons. set (r1 := runner_step r _).
  destruct (garbage_score peer garbage r1 (mkPeerInfo peer None now 0) n) as [Ht Hp].
  - by eexists.
  - subst r1. simpl. unfold PeerManager_add_peer. rewrite Hnew. apply lookup_insert_eq.
  - simpl. lia.
  - set (bad := runner_run r1 _) in *. simpl in Hp. split_and!.
    + unfold PeerManager_is_banned. rewrite Hp, Ht. simpl. rewrite Z.ltb_lt. by destruct n.
    + simpl. unfold on_gossip_message, decode_consensus_message. simpl. by rewrite (parse_consensus _ _ Hd).
    + rewrite !runner_run_cons. change (runner_run ?r []) with r. unfold PeerManager_is_banned, runner_step. simpl.
      unfold PeerManager_add_peer. simpl. rewrite lookup_delete_eq, lookup_insert_eq. simpl.
      rewrite Ht. subst r1. simpl. unfold PeerManager_add_peer. simpl. apply Z.ltb_ge. lia.
Qed.

Definition demo_bad : NetworkRunner :=
  runner_run (N := toy_codec) (ConsensusNetwork_new default_peer_ban_threshold)
    (ConnectionEstablished (key32 3) 1 :: replicate 11 (GossipMessage (key32 3) CONSENSUS_TOPIC [x00])).
Lemma banned_peers_are_heard_witness :
  PeerManager_is_banned (key32 3) (nr_peer_manager demo_bad) = true ∧
  nr_messages (runner_step (N := toy_codec) demo_bad (GossipMessage (key32 3) CONSENSUS_TOPIC
    (positive_bytes (encode (7, key32 9))))) = nr_messages demo_bad ++ [mkNetworkMessage (key32 3) (CommitBlock 7 (key32 9))].
Proof.
  destruct (banned_peers_are_heard (N := toy_codec) (ConsensusNetwork_new default_peer_ban_threshold) (key32 3) 1
    [x00] (positive_bytes (encode (7, key32 9))) (CommitBlock 7 (key32 9)) "unexpected end" 11)
    as (Hban & Hmsg & _); [vm_compute; reflexivity|reflexivity|reflexivity|vm_compute; discriminate|].
  split; [|exact Hmsg]. apply Hban. vm_compute. reflexivity.
Defined.
