(* ===== verification/Genesis.v ===== *)
(** * Genesis (genesis)

    The configuration a chain starts from: its validation, its hash, its file and the
    builder.  [serde_json]'s rendering and parsing are parameters; a file is its
    contents; [Utc::now()] is an argument. *)
From S2P Require Import Prelude Crypto Block State.
From stdpp Require Import pretty.
Open Scope Z_scope.

(** ** types.rs *)

Record GenesisValidator := mkGenesisValidator {
  gv_pubkey : bytes;
  gv_initial_stake : Z;
  gv_commission_rate : Z;
}.

Record GenesisAccount := mkGenesisAccount {
  ga_pubkey : bytes;
  ga_balance : Z;
}.

Record ChainParams := mkChainParams {
  cp_chain_id : string;
  cp_epoch_length : Z;
  cp_block_time_ms : Z;
  cp_max_validators : Z;
  cp_base_fee_floor : Z;
  cp_fee_launch_burn_bps : Z;
  cp_fee_launch_validator_bps : Z;
  cp_fee_launch_treasury_bps : Z;
  cp_fee_launch_developer_bps : Z;
  cp_fee_maturity_burn_bps : Z;
  cp_fee_maturity_validator_bps : Z;
  cp_fee_maturity_treasury_bps : Z;
  cp_fee_maturity_developer_bps : Z;
  cp_fee_transition_epochs : Z;
  cp_slash_double_sign_bps : Z;
  cp_slash_downtime_bps : Z;
  cp_staking_base_apy : Z;
}.

(** [ChainParams::default()] with another [chain_id]. *)
Definition ChainParams_with_id (chain_id : string) : ChainParams :=
  mkChainParams chain_id 100 2000 200 1 1000 0 4500 4500 2500 2500 2500 2500 1825 5000 100 500.
Definition ChainParams_default : ChainParams := ChainParams_with_id "trv1-devnet".

Inductive GenesisError :=
| GenesisError_NoValidators
| GenesisError_ZeroStake (index : Z)
| GenesisError_InvalidCommission (index : Z)
| GenesisError_InvalidFeeSplit (total : Z)
| GenesisError_ZeroEpochLength
| GenesisError_ZeroBlockTime
| GenesisError_ZeroMaxValidators
| GenesisError_Io (msg : string)
| GenesisError_Json (msg : string)
| GenesisError_DuplicateValidator (index : Z).

(** ** config.rs *)

(** The time is a number of nanoseconds. *)
Record GenesisConfig := mkGenesisConfig {
  gc_chain_id : string;
  gc_genesis_time : Z;
  gc_chain_params : ChainParams;
  gc_validators : list GenesisValidator;
  gc_accounts : list GenesisAccount;
  gc_genesis_hash : bytes;
}.

(** All of it but the hash. *)
Record CanonicalGenesis := mkCanonicalGenesis {
  cg_chain_id : string;
  cg_genesis_time : Z;
  cg_chain_params : ChainParams;
  cg_validators : list GenesisValidator;
  cg_accounts : list GenesisAccount;
}.

(** [to_string] of the canonical form, which does not fail; [to_string_pretty] of the
    configuration and [from_str]. *)
Class GenesisJson := {
  json_canonical : CanonicalGenesis → bytes;
  json_genesis : GenesisConfig → result string bytes;
  json_parse_genesis : bytes → result string GenesisConfig;
}.
Class GenesisJsonLaws (J : GenesisJson) := {
  json_canonical_inj : Inj (=) (=) json_canonical;
  json_parse_genesis_print c text : json_genesis c = Ok text → json_parse_genesis text = Ok c;
}.

(** The modules [hex_serde] and [hex_bytes]: how the JSON writes and reads the 32 bytes of
    a key and of a hash, between a string and the serializer. *)
Section Hex.
Context {S : Serde}.
Definition hex_serde_serialize (b : bytes) : string := hex_encode b.
Definition hex_serde_deserialize (s : string) : result string bytes :=
  match hex_decode s with
  | Err e => Err e
  | Ok b => if negb (length b =? 32)%nat then Err ("expected 32 bytes, got " +:+ pretty (length b)) else Ok b
  end.
Definition hex_bytes_serialize (b : bytes) : string := hex_encode b.
Definition hex_bytes_deserialize (s : string) : result string bytes :=
  match hex_decode s with
  | Err e => Err e
  | Ok b => if negb (length b =? 32)%nat then Err ("expected 32 bytes, got " +:+ pretty (length b)) else Ok b
  end.
End Hex.

Section Genesis.
Context {OC : OverflowChecks} {C : Crypto} {J : GenesisJson}.

Definition ChainParams_validate_fee_split (p : ChainParams) : may_panic bool :=
  l ← u64_add (cp_fee_launch_burn_bps p) (cp_fee_launch_validator_bps p);
  l ← u64_add l (cp_fee_launch_treasury_bps p);
  launch_sum ← u64_add l (cp_fee_launch_developer_bps p);
  m ← u64_add (cp_fee_maturity_burn_bps p) (cp_fee_maturity_validator_bps p);
  m ← u64_add m (cp_fee_maturity_treasury_bps p);
  maturity_sum ← u64_add m (cp_fee_maturity_developer_bps p);
  Some ((launch_sum =? 10000) && (maturity_sum =? 10000)).

Definition canonical (c : GenesisConfig) : CanonicalGenesis :=
  mkCanonicalGenesis (gc_chain_id c) (gc_genesis_time c) (gc_chain_params c) (gc_validators c)
    (gc_accounts c).

Definition GenesisConfig_compute_genesis_hash (c : GenesisConfig) : bytes :=
  sha256 (json_canonical (canonical c)).

Definition with_hash (h : bytes) (c : GenesisConfig) : GenesisConfig :=
  mkGenesisConfig (gc_chain_id c) (gc_genesis_time c) (gc_chain_params c) (gc_validators c)
    (gc_accounts c) h.

(** [contents] is what reading the file returned. *)
Definition GenesisConfig_from_file (contents : result string bytes) : result GenesisError GenesisConfig :=
  match contents with
  | Err e => Err (GenesisError_Io e)
  | Ok contents =>
    match json_parse_genesis contents with
    | Err e => Err (GenesisError_Json e)
    | Ok config => Ok (with_hash (GenesisConfig_compute_genesis_hash config) config)
    end
  end.

(** [write] is the outcome of writing a text to the file. *)
Definition GenesisConfig_to_file (write : bytes → result string unit) (c : GenesisConfig) :
    result GenesisError unit :=
  match json_genesis c with
  | Err e => Err (GenesisError_Json e)
  | Ok json => match write json with Ok _ => Ok tt | Err e => Err (GenesisError_Io e) end
  end.

(** The loop over the validators, from index [i]. *)
Fixpoint validate_validators (i : Z) (seen : gset bytes) (validators : list GenesisValidator) :
    result GenesisError unit :=
  match validators with
  | [] => Ok tt
  | v :: validators =>
    if bool_decide (gv_pubkey v ∈ seen) then Err (GenesisError_DuplicateValidator i)
    else
      let seen := {[gv_pubkey v]} ∪ seen in
      if gv_initial_stake v =? 0 then Err (GenesisError_ZeroStake i)
      else if 10000 <? gv_commission_rate v then Err (GenesisError_InvalidCommission i)
      else validate_validators (i + 1) seen validators
  end.

Definition GenesisConfig_validate (c : GenesisConfig) : may_panic (result GenesisError unit) :=
  if bool_decide (gc_validators c = []) then Some (Err GenesisError_NoValidators)
  else
    match validate_validators 0 ∅ (gc_validators c) with
    | Err e => Some (Err e)
    | Ok _ =>
      let p := gc_chain_params c in
      if cp_epoch_length p =? 0 then Some (Err GenesisError_ZeroEpochLength)
      else if cp_block_time_ms p =? 0 then Some (Err GenesisError_ZeroBlockTime)
      else if cp_max_validators p =? 0 then Some (Err GenesisError_ZeroMaxValidators)
      else
        l ← u64_add (cp_fee_launch_burn_bps p) (cp_fee_launch_validator_bps p);
        l ← u64_add l (cp_fee_launch_treasury_bps p);
        launch_total ← u64_add l (cp_fee_launch_developer_bps p);
        if negb (launch_total =? 10000) then Some (Err (GenesisError_InvalidFeeSplit launch_total))
        else
          m ← u64_add (cp_fee_maturity_burn_bps p) (cp_fee_maturity_validator_bps p);
          m ← u64_add m (cp_fee_maturity_treasury_bps p);
          maturity_total ← u64_add m (cp_fee_maturity_developer_bps p);
          if negb (maturity_total =? 10000) then Some (Err (GenesisError_InvalidFeeSplit maturity_total))
          else Some (Ok tt)
    end.

(** A key whose first byte is [i] and the others zero. *)
Definition testnet_key (i : Z) : bytes := Z_byte i :: replicate 31 x00.

Definition GenesisConfig_default_testnet (now : Z) : GenesisConfig :=
  let config := mkGenesisConfig "trv1-testnet-1" now (ChainParams_with_id "trv1-testnet-1")
    ((λ i, mkGenesisValidator (testnet_key i) 10000000 500) <$> [1; 2; 3; 4])
    ((λ i, mkGenesisAccount (testnet_key i) 100000000) <$> [1; 2; 3; 4]) zero32 in
  with_hash (GenesisConfig_compute_genesis_hash config) config.

(** ** builder.rs *)

Record GenesisBuilder := mkGenesisBuilder {
  gb_chain_id : string;
  gb_genesis_time : Z;
  gb_chain_params : ChainParams;
  gb_validators : list GenesisValidator;
  gb_accounts : list GenesisAccount;
}.

Definition GenesisBuilder_new (chain_id : string) (now : Z) : GenesisBuilder :=
  mkGenesisBuilder chain_id now (ChainParams_with_id chain_id) [] [].
Definition GenesisBuilder_with_genesis_time (time : Z) (b : GenesisBuilder) : GenesisBuilder :=
  mkGenesisBuilder (gb_chain_id b) time (gb_chain_params b) (gb_validators b) (gb_accounts b).
Definition GenesisBuilder_with_validator (pubkey : bytes) (stake commission_rate : Z) (b : GenesisBuilder) :
    GenesisBuilder :=
  mkGenesisBuilder (gb_chain_id b) (gb_genesis_time b) (gb_chain_params b)
    (gb_validators b ++ [mkGenesisValidator pubkey stake commission_rate]) (gb_accounts b).
Definition GenesisBuilder_with_account (pubkey : bytes) (balance : Z) (b : GenesisBuilder) : GenesisBuilder :=
  mkGenesisBuilder (gb_chain_id b) (gb_genesis_time b) (gb_chain_params b) (gb_validators b)
    (gb_accounts b ++ [mkGenesisAccount pubkey balance]).
Definition GenesisBuilder_with_params (params : ChainParams) (b : GenesisBuilder) : GenesisBuilder :=
  mkGenesisBuilder (gb_chain_id b) (gb_genesis_time b) params (gb_validators b) (gb_accounts b).

Definition GenesisBuilder_build (b : GenesisBuilder) : may_panic (result GenesisError GenesisConfig) :=
  let config := mkGenesisConfig (gb_chain_id b) (gb_genesis_time b) (gb_chain_params b)
    (gb_validators b) (gb_accounts b) zero32 in
  r ← GenesisConfig_validate config;
  match r with
  | Err e => Some (Err e)
  | Ok _ => Some (Ok (with_hash (GenesisConfig_compute_genesis_hash config) config))
  end.
End Genesis.

(** ** Specification *)

Definition split_sum (a b c d : Z) : Prop := a + b + c + d = 10000.

(** What a valid genesis is. *)
Record genesis_wf (c : GenesisConfig) : Prop := {
  gw_nonempty : gc_validators c ≠ [];
  gw_distinct : NoDup (gv_pubkey <$> gc_validators c);
  gw_validators : Forall (λ v, gv_initial_stake v ≠ 0 ∧ gv_commission_rate v <= 10000) (gc_validators c);
  gw_epoch : cp_epoch_length (gc_chain_params c) ≠ 0;
  gw_block_time : cp_block_time_ms (gc_chain_params c) ≠ 0;
  gw_max : cp_max_validators (gc_chain_params c) ≠ 0;
  gw_launch : split_sum (cp_fee_launch_burn_bps (gc_chain_params c))
    (cp_fee_launch_validator_bps (gc_chain_params c)) (cp_fee_launch_treasury_bps (gc_chain_params c))
    (cp_fee_launch_developer_bps (gc_chain_params c));
  gw_maturity : split_sum (cp_fee_maturity_burn_bps (gc_chain_params c))
    (cp_fee_maturity_validator_bps (gc_chain_params c)) (cp_fee_maturity_treasury_bps (gc_chain_params c))
    (cp_fee_maturity_developer_bps (gc_chain_params c));
}.

(** Four [u64]s whose sum does not overflow. *)
Definition sum_fits (a b c d : Z) : Prop := 0 <= a ∧ 0 <= b ∧ 0 <= c ∧ 0 <= d ∧ a + b + c + d < U64.
(** The ratios, which are added up unchecked, do not overflow: see [ratios_unchecked]. *)
Definition ratios_fit (p : ChainParams) : Prop :=
  sum_fits (cp_fee_launch_burn_bps p) (cp_fee_launch_validator_bps p) (cp_fee_launch_treasury_bps p)
    (cp_fee_launch_developer_bps p) ∧
  sum_fits (cp_fee_maturity_burn_bps p) (cp_fee_maturity_validator_bps p) (cp_fee_maturity_treasury_bps p)
    (cp_fee_maturity_developer_bps p).

(** * Lemmas *)

Lemma validate_validators_ok i seen vs :
  validate_validators i seen vs = Ok tt ↔
  NoDup (gv_pubkey <$> vs) ∧ Forall (λ v, gv_pubkey v ∉ seen) vs ∧
  Forall (λ v, gv_initial_stake v ≠ 0 ∧ gv_commission_rate v <= 10000) vs.
Proof.
  revert i seen. induction vs as [|v vs IH]; intros i seen; csimpl.
  { split; [intros _; split_and!; constructor|done]. }
  rewrite NoDup_cons, !Forall_cons, list_elem_of_fmap.
  destruct (bool_decide _) eqn:Hs; [apply bool_decide_eq_true in Hs|apply bool_decide_eq_false in Hs].
  { naive_solver. }
  destruct (_ =? 0) eqn:H0; [split; [done|]; intros (_ & _ & [? _] & _); zlia|].
  destruct (_ <? _) eqn:H1; [split; [done|]; intros (_ & _ & [_ ?] & _); zlia|].
  rewrite IH, !Forall_forall. split.
  - intros (Hnd & Hf & Hv). split_and!; [|done|done| |zlia|zlia|done].
    + intros (v' & Hv' & Hin). specialize (Hf v' Hin). set_solver.
    + intros v' Hin. specialize (Hf v' Hin). set_solver.
  - intros ([Hn Hnd] & [_ Hf] & _ & Hv). split_and!; [done| |done].
    intros v' Hin. specialize (Hf v' Hin). rewrite elem_of_union, elem_of_singleton.
    intros [Heq|?]; [|done]. apply Hn. by exists v'.
Qed.

(** A string is read if and only if it is the hexadecimal form of 32 bytes, and keys and
    hashes are read back as they were written. *)
Lemma hex_serde_exact {S : Serde} {SL : SerdeLaws S} :
  (∀ b, length b = 32%nat → hex_serde_deserialize (hex_serde_serialize b) = Ok b ∧
    hex_bytes_deserialize (hex_bytes_serialize b) = Ok b) ∧
  (∀ s b, hex_serde_deserialize s = Ok b ↔ hex_decode s = Ok b ∧ length b = 32%nat) ∧
  (∀ s, hex_bytes_deserialize s = hex_serde_deserialize s).
Proof.
  split; [|split; [|done]].
  - intros b Hb. unfold hex_serde_deserialize, hex_bytes_deserialize, hex_serde_serialize, hex_bytes_serialize.
    by rewrite hex_decode_encode, Hb.
  - intros s b. unfold hex_serde_deserialize. destruct (hex_decode s) as [b'|e]; [|by split; [|intros [? _]]].
    destruct (Nat.eqb_spec (length b') 32) as [Hl|Hl]; simpl.
    + split; [by intros [= <-]|by intros [[= <-] _]].
    + split; [done|by intros [[= <-] ?]].
Qed.

Section GenesisLemmas.
Context {OC : OverflowChecks} {C : Crypto} {J : GenesisJson}.

(** The sum of four ratios, exactly. *)
Lemma ratio_sum_ok {A} (a b c d : Z) (k : Z → may_panic A) :
  sum_fits a b c d →
  (x ← u64_add a b; y ← u64_add x c; z ← u64_add y d; k z) = k (a + b + c + d).
Proof. intros (? & ? & ? & ? & ?). unfold u64_add. by do 3 (rewrite arith_u_ok by lia; simpl). Qed.

(** [validate] decides validity, and does not panic. *)
Lemma validate_genesis_iff c :
  ratios_fit (gc_chain_params c) →
  ∃ r, GenesisConfig_validate c = Some r ∧ (r = Ok tt ↔ genesis_wf c).
Proof.
  intros [Hlaunch Hmaturity].
  unfold GenesisConfig_validate. destruct (bool_decide _) eqn:Hn.
  { apply bool_decide_eq_true in Hn. eexists. split; [done|]. split; [done|]. by intros []. }
  apply bool_decide_eq_false in Hn.
  pose proof (validate_validators_ok 0 ∅ (gc_validators c)) as Hv.
  destruct (validate_validators _ _ _) as [[]|e].
  2: { eexists. split; [done|]. split; [done|]. intros [_ Hd Hvs _ _ _ _ _].
       discriminate (proj2 Hv). split_and!; [done| |done]. apply Forall_forall. set_solver. }
  destruct (proj1 Hv eq_refl) as (Hd & _ & Hvs). clear Hv.
  destruct (cp_epoch_length _ =? 0) eqn:H1; [eexists; split; [done|]; split; [done|]; intros []; zlia|].
  destruct (cp_block_time_ms _ =? 0) eqn:H2; [eexists; split; [done|]; split; [done|]; intros []; zlia|].
  destruct (cp_max_validators _ =? 0) eqn:H3; [eexists; split; [done|]; split; [done|]; intros []; zlia|].
  rewrite ratio_sum_ok by done.
  destruct (negb (cp_fee_launch_burn_bps _ + _ + _ + _ =? _)) eqn:H4; [eexists; split; [done|]; split; [done|]; intros []; unfold split_sum in *; zlia|].
  rewrite ratio_sum_ok by done.
  destruct (negb (cp_fee_maturity_burn_bps _ + _ + _ + _ =? _)) eqn:H5; [eexists; split; [done|]; split; [done|]; intros []; unfold split_sum in *; zlia|].
  eexists. split; [done|]. split; [|done]. intros _. split; unfold split_sum; try done; zlia.
Qed.
End GenesisLemmas.

(** ** A concrete rendering, for evaluating the definitions *)

#[export] Instance GenesisValidator_eq_dec : EqDecision GenesisValidator.
Proof. solve_decision. Defined.
#[export] Instance GenesisValidator_countable : Countable GenesisValidator.
Proof.
  refine (inj_countable' (λ v, (gv_pubkey v, gv_initial_stake v, gv_commission_rate v))
    (λ '(a, b, c), mkGenesisValidator a b c) _). by intros [].
Defined.
#[export] Instance GenesisAccount_eq_dec : EqDecision GenesisAccount.
Proof. solve_decision. Defined.
#[export] Instance GenesisAccount_countable : Countable GenesisAccount.
Proof. refine (inj_countable' (λ v, (ga_pubkey v, ga_balance v)) (λ '(a, b), mkGenesisAccount a b) _). by intros []. Defined.
#[export] Instance ChainParams_eq_dec : EqDecision ChainParams.
Proof. solve_decision. Defined.
#[export] Instance ChainParams_countable : Countable ChainParams.
Proof.
  refine (inj_countable' (λ p, (cp_chain_id p,
      [cp_epoch_length p; cp_block_time_ms p; cp_max_validators p; cp_base_fee_floor p;
       cp_fee_launch_burn_bps p; cp_fee_launch_validator_bps p; cp_fee_launch_treasury_bps p;
       cp_fee_launch_developer_bps p; cp_fee_maturity_burn_bps p; cp_fee_maturity_validator_bps p;
       cp_fee_maturity_treasury_bps p; cp_fee_maturity_developer_bps p; cp_fee_transition_epochs p;
       cp_slash_double_sign_bps p; cp_slash_downtime_bps p; cp_staking_base_apy p]))
    (λ '(i, l), let n k := nth k l 0 in
      mkChainParams i (n 0%nat) (n 1%nat) (n 2%nat) (n 3%nat) (n 4%nat) (n 5%nat) (n 6%nat) (n 7%nat)
        (n 8%nat) (n 9%nat) (n 10%nat) (n 11%nat) (n 12%nat) (n 13%nat) (n 14%nat) (n 15%nat)) _).
  by intros [].
Defined.
Definition canonical_tuple (c : CanonicalGenesis) :=
  (cg_chain_id c, cg_genesis_time c, cg_chain_params c, cg_validators c, cg_accounts c).
Definition config_tuple (c : GenesisConfig) := (canonical_tuple (canonical c), gc_genesis_hash c).
Definition toy_genesis_json : GenesisJson := {|
  json_canonical c := positive_bytes (encode (canonical_tuple c));
  json_genesis c := Ok (positive_bytes (encode (config_tuple c)));
  json_parse_genesis b :=
    match decode (bytes_positive b) with
    | Some (i, t, p, v, a, h) => Ok (mkGenesisConfig i t p v a h)
    | None => Err "expected a configuration"
    end;
|}.
#[export] Instance toy_genesis_json_laws : GenesisJsonLaws toy_genesis_json.
Proof.
  split.
  - intros [] [] Heq. simpl in Heq. by apply positive_bytes_inj, encode_inj in Heq as [= -> -> -> -> ->].
  - intros [] text [= <-]. simpl. by rewrite bytes_positive_bytes, decode_encode.
Qed.

(** Ratios of which one is the greatest [u64]: a debug build panics, and a release build
    takes their sum for 10000. *)
Definition overflowing_genesis : GenesisConfig :=
  let p := ChainParams_with_id "overflow" in
  mkGenesisConfig "overflow" 0
    (mkChainParams (cp_chain_id p) (cp_epoch_length p) (cp_block_time_ms p) (cp_max_validators p)
      (cp_base_fee_floor p) u64_max 10001 0 0 (cp_fee_maturity_burn_bps p) (cp_fee_maturity_validator_bps p)
      (cp_fee_maturity_treasury_bps p) (cp_fee_maturity_developer_bps p) (cp_fee_transition_epochs p)
      (cp_slash_double_sign_bps p) (cp_slash_downtime_bps p) (cp_staking_base_apy p))
    [mkGenesisValidator (key32 1) 1 0] [] zero32.
Lemma ratios_unchecked :
  GenesisConfig_validate (OC := debug_build) overflowing_genesis = None ∧
  GenesisConfig_validate (OC := release_build) overflowing_genesis = Some (Ok tt).
Proof. split; vm_compute; reflexivity. Qed.

(** * Properties *)

(** C37: the builder builds exactly the valid configurations, and the file keeps them.
    When the four fee ratios at launch, and the four at maturity, add up to less than 2^64
    - [validate] adds them unchecked, and a greater sum panics a debug build and wraps in a
    release build - [build] succeeds if and only if the parts are a valid genesis, without
    a panic;
    what it returns carries the hash of its contents; written to a file and read back
    it is the same configuration, while a file with any other hash in it is read with
    the hash of its contents; and two configurations with the same hash have the same
    contents, unless what was hashed for them is a collision of SHA-256. *)
Theorem genesis_build_and_reload {OC : OverflowChecks} {C : Crypto} {J : GenesisJson}
    {JL : GenesisJsonLaws J} (b : GenesisBuilder) :
  ratios_fit (gb_chain_params b) →
  ∃ r, GenesisBuilder_build b = Some r ∧
    (is_ok r = true ↔
      genesis_wf (mkGenesisConfig (gb_chain_id b) (gb_genesis_time b) (gb_chain_params b)
        (gb_validators b) (gb_accounts b) zero32)) ∧
    ∀ c, r = Ok c →
      gc_genesis_hash c = GenesisConfig_compute_genesis_hash c ∧
      (∀ text h, json_genesis (with_hash h c) = Ok text → GenesisConfig_from_file (Ok text) = Ok c) ∧
      (∀ c', GenesisConfig_compute_genesis_hash c' = gc_genesis_hash c →
        canonical c' = canonical c ∨
        sha256_collision [json_canonical (canonical c')] [json_canonical (canonical c)]).
Proof.
  intros Hr. unfold GenesisBuilder_build.
  set (c0 := mkGenesisConfig (gb_chain_id b) _ _ _ _ _).
  destruct (validate_genesis_iff c0 Hr) as (r & -> & Hiff). simpl.
  destruct r as [[]|e]; (eexists; split; [done|]); split.
  - rewrite <-Hiff. done.
  - intros c [= <-]. split; [done|]. split.
    + intros text h Ht. unfold GenesisConfig_from_file. by rewrite (json_parse_genesis_print _ _ Ht).
    + intros c' Hh. unfold GenesisConfig_compute_genesis_hash in Hh.
      eapply sha256_inj_or in Hh as [Hh|?]; [|by right|left|left].
      left. by apply json_canonical_inj in Hh.
  - rewrite <-Hiff. split; done.
  - done.
Qed.

Definition demo_builder : GenesisBuilder :=
  GenesisBuilder_with_account (key32 1) 500
    (GenesisBuilder_with_validator (key32 2) 700 300
      (GenesisBuilder_with_validator (key32 1) 1000000 500 (GenesisBuilder_new "demo" 0))).
Lemma genesis_build_and_reload_witness :
  ∃ r, GenesisBuilder_build (OC := debug_build) (C := toy_crypto) (J := toy_genesis_json) demo_builder = Some r ∧
    (is_ok r = true ↔
      genesis_wf (mkGenesisConfig "demo" 0 (ChainParams_with_id "demo") (gb_validators demo_builder)
        (gb_accounts demo_builder) zero32)).
Proof.
  destruct (genesis_build_and_reload (OC := debug_build) (C := toy_crypto) (J := toy_genesis_json) demo_builder)
    as (r & Hr & Hiff & _).
  - unfold ratios_fit. repeat constructor; simpl; lia.
  - exists r. exact (conj Hr Hiff).
Defined.
