(* ===== verification/Rpc.v ===== *)
(** * The JSON-RPC interface (rpc)

    The state the node shares with its RPC server, and the handlers that read it or
    submit a transaction to the mempool.  The server loop, and the locks around each
    field, are not modelled: a handler is one atomic step. *)
From S2P Require Import Prelude Crypto Block State Mempool.
From stdpp Require Import pretty.
Open Scope Z_scope.

(** ** types.rs *)

Record BlockResponse := mkBlockResponse {
  br_height : Z;
  br_timestamp : Z;
  br_parent_hash : string;
  br_proposer : string;
  br_tx_count : Z;
  br_block_hash : string;
}.
Record ValidatorResponse := mkValidatorResponse {
  vr_pubkey : string;
  vr_stake : Z;
  vr_commission_rate : Z;
  vr_status : string;
  vr_performance_score : Z;
}.
Record StakingInfoResponse := mkStakingInfoResponse {
  si_pubkey : string;
  si_total_staked : Z;
  si_voting_power : Z;
}.
Record FeeInfoResponse := mkFeeInfoResponse {
  fi_base_fee : Z;
  fi_target_gas_per_block : Z;
  fi_max_gas_per_block : Z;
}.
Record HealthResponse := mkHealthResponse {
  hr_status : string;
  hr_current_height : Z;
  hr_validator_count : Z;
  hr_version : string;
}.
Record SubmitTransactionRequest := mkSubmitTransactionRequest {
  sr_from : string;
  sr_to : string;
  sr_amount : Z;
  sr_nonce : Z;
  sr_signature : string;
  sr_data : string;
}.
Record SubmitTransactionResponse := mkSubmitTransactionResponse {
  sp_tx_hash : string;
  sp_accepted : bool;
}.
Record AccountResponse := mkAccountResponse {
  ar_pubkey : string;
  ar_balance : Z;
  ar_nonce : Z;
}.

(** [ErrorObjectOwned]: a code and a message. *)
Record RpcError := mkRpcError {
  re_code : Z;
  re_message : string;
}.

(** The [Display] of the mempool's errors, which a rejection quotes. *)
Definition MempoolError_to_string (e : MempoolError) : string :=
  match e with
  | MempoolError_DuplicateTransaction => "duplicate transaction"
  | MempoolError_PoolFull => "mempool is full"
  | MempoolError_InvalidSignature => "invalid signature"
  | MempoolError_NonceTooLow expected got =>
    "nonce too low: expected " +:+ pretty expected +:+ ", got " +:+ pretty got
  | MempoolError_InsufficientBalance => "insufficient balance"
  | MempoolError_InvalidTransaction msg => "invalid transaction: " +:+ msg
  end.

(** ** server.rs *)

(** The sender's end of a bounded channel: what is queued, and how much fits. *)
Record TxChannel := mkTxChannel {
  ch_queue : list Transaction;
  ch_capacity : Z;
}.
(** [try_send], its error dropped. *)
Definition try_send (tx : Transaction) (ch : TxChannel) : TxChannel :=
  if Z.of_nat (length (ch_queue ch)) <? ch_capacity ch then mkTxChannel (ch_queue ch ++ [tx]) (ch_capacity ch)
  else ch.

Record RpcState := mkRpcState {
  rpc_current_height : Z;
  rpc_validator_count : Z;
  rpc_base_fee : Z;
  rpc_mempool : TransactionPool;
  rpc_state_db : gmap bytes AccountState;
  rpc_block_store : list BlockResponse;
  rpc_genesis_validators : list ValidatorResponse;
  rpc_tx_gossip : option TxChannel;
}.

Definition RpcState_new (mempool : TransactionPool) (state_db : gmap bytes AccountState)
    (genesis_validators : list ValidatorResponse) : RpcState :=
  mkRpcState 0 (Z.of_nat (length genesis_validators)) 1 mempool state_db [] genesis_validators None.

Definition RpcState_with_tx_gossip (tx : TxChannel) (s : RpcState) : RpcState :=
  mkRpcState (rpc_current_height s) (rpc_validator_count s) (rpc_base_fee s) (rpc_mempool s)
    (rpc_state_db s) (rpc_block_store s) (rpc_genesis_validators s) (Some tx).

Definition RpcState_new_mock : RpcState :=
  RpcState_new (TransactionPool_new MempoolConfig_default) StateDB_new [].

Definition set_mempool (p : TransactionPool) (s : RpcState) : RpcState :=
  mkRpcState (rpc_current_height s) (rpc_validator_count s) (rpc_base_fee s) p
    (rpc_state_db s) (rpc_block_store s) (rpc_genesis_validators s) (rpc_tx_gossip s).
Definition set_tx_gossip (ch : option TxChannel) (s : RpcState) : RpcState :=
  mkRpcState (rpc_current_height s) (rpc_validator_count s) (rpc_base_fee s) (rpc_mempool s)
    (rpc_state_db s) (rpc_block_store s) (rpc_genesis_validators s) ch.

(** ["0".repeat(64)] *)
Definition zeros64 : string := String.string_of_list_byte (replicate 64 x30).

Section Handlers.
Context {OC : OverflowChecks} {C : Crypto} {S : Serde}.
Implicit Types (s : RpcState).

Definition RpcImpl_get_block (height : Z) s : result RpcError BlockResponse :=
  match rpc_block_store s !! Z.to_nat height with
  | Some block => Ok block
  | None =>
    if rpc_current_height s <? height then
      Err (mkRpcError (-32001) ("block at height " +:+ pretty height +:+ " not yet committed (current: "
        +:+ pretty (rpc_current_height s) +:+ ")"))
    else Ok (mkBlockResponse height 0 zeros64 zeros64 0 zeros64)
  end.

Definition RpcImpl_get_latest_block s : result RpcError BlockResponse :=
  match last (rpc_block_store s) with
  | Some block => Ok block
  | None => Ok (mkBlockResponse (rpc_current_height s) 0 zeros64 zeros64 0 zeros64)
  end.

Definition RpcImpl_get_validators s : result RpcError (list ValidatorResponse) :=
  Ok (rpc_genesis_validators s).

Definition RpcImpl_get_staking_info (pubkey : string) : result RpcError StakingInfoResponse :=
  Ok (mkStakingInfoResponse pubkey 0 0).

Definition RpcImpl_get_fee_info s : result RpcError FeeInfoResponse :=
  Ok (mkFeeInfoResponse (rpc_base_fee s) 15000000 30000000).

(** [version] is the package's. *)
Definition RpcImpl_health (version : string) s : result RpcError HealthResponse :=
  Ok (mkHealthResponse "ok" (rpc_current_height s) (rpc_validator_count s) version).

(** A 32-byte field in hexadecimal. *)
Definition decode_key (field hex : string) : result RpcError bytes :=
  match hex_decode hex with
  | Err e => Err (mkRpcError (-32602) ("invalid '" +:+ field +:+ "' hex: " +:+ e))
  | Ok key =>
    if (length key =? 32)%nat then Ok key
    else Err (mkRpcError (-32602) ("'" +:+ field +:+ "' must be 32 bytes"))
  end.
Definition decode_field (field hex : string) : result RpcError bytes :=
  match hex_decode hex with
  | Err e => Err (mkRpcError (-32602) ("invalid '" +:+ field +:+ "' hex: " +:+ e))
  | Ok data => Ok data
  end.

Definition RpcImpl_submit_transaction (req : SubmitTransactionRequest) s :
    may_panic (RpcState * result RpcError SubmitTransactionResponse) :=
  match decode_key "from" (sr_from req) with
  | Err e => Some (s, Err e)
  | Ok from =>
    match decode_key "to" (sr_to req) with
    | Err e => Some (s, Err e)
    | Ok to =>
      match decode_field "signature" (sr_signature req) with
      | Err e => Some (s, Err e)
      | Ok signature =>
        match decode_field "data" (sr_data req) with
        | Err e => Some (s, Err e)
        | Ok data =>
          let tx := mkTransaction from to (sr_amount req) (sr_nonce req) signature data in
          let tx_hash := hex_encode (compute_tx_hash tx) in
          '(p, r) ← TransactionPool_add_transaction tx (rpc_mempool s);
          let s := set_mempool p s in
          match r with
          | Ok _ => Some (set_tx_gossip (try_send tx <$> rpc_tx_gossip s) s,
                          Ok (mkSubmitTransactionResponse tx_hash true))
          | Err e => Some (s, Err (mkRpcError (-32000) ("transaction rejected: " +:+ MempoolError_to_string e)))
          end
        end
      end
    end
  end.

Definition RpcImpl_get_account (pubkey : string) s : result RpcError AccountResponse :=
  match hex_decode pubkey with
  | Err e => Err (mkRpcError (-32602) ("invalid pubkey hex: " +:+ e))
  | Ok key =>
    if (length key =? 32)%nat then
      match StateDB_get_account key (rpc_state_db s) with
      | Some acct => Ok (mkAccountResponse pubkey (balance acct) (nonce acct))
      | None => Ok (mkAccountResponse pubkey 0 0)
      end
    else Err (mkRpcError (-32602) "pubkey must be 32 bytes")
  end.
End Handlers.

(** ** Specification *)

(** A transaction as a client submits it. *)
Definition request_of {S : Serde} (tx : Transaction) : SubmitTransactionRequest :=
  mkSubmitTransactionRequest (hex_encode (tx_from tx)) (hex_encode (tx_to tx)) (tx_amount tx) (tx_nonce tx)
    (hex_encode (tx_signature tx)) (hex_encode (tx_data tx)).

(** The channel after a transaction has been accepted: queued, or dropped when full. *)
Definition gossiped (tx : Transaction) (before after : option TxChannel) : Prop :=
  match before with
  | None => after = None
  | Some ch =>
    ∃ ch', after = Some ch' ∧ ch_capacity ch' = ch_capacity ch ∧
      ch_queue ch' = (if decide (Z.of_nat (length (ch_queue ch)) < ch_capacity ch)
                      then ch_queue ch ++ [tx] else ch_queue ch)
  end.

(** * Lemmas *)

Section RpcLemmas.
Context {OC : OverflowChecks} {C : Crypto} {S : Serde} {SL : SerdeLaws S}.

Lemma decode_key_encode field k : length k = 32%nat → decode_key field (hex_encode k) = Ok k.
Proof. intros Hk. unfold decode_key. by rewrite hex_decode_encode, Hk. Qed.

Lemma decode_field_encode field d : decode_field field (hex_encode d) = Ok d.
Proof. unfold decode_field. by rewrite hex_decode_encode. Qed.

Lemma try_send_gossiped tx ch : gossiped tx ch (try_send tx <$> ch).
Proof.
  destruct ch as [ch|]; [|done]. simpl. eexists. split; [done|]. unfold try_send.
  destruct (_ <? _) eqn:E; simpl; (split; [done|]).
  - by rewrite decide_True by zlia.
  - by rewrite decide_False by zlia.
Qed.

Lemma submit_encoded tx s :
  length (tx_from tx) = 32%nat → length (tx_to tx) = 32%nat →
  RpcImpl_submit_transaction (request_of tx) s =
    '(p, r) ← TransactionPool_add_transaction tx (rpc_mempool s);
    let s := set_mempool p s in
    match r with
    | Ok _ => Some (set_tx_gossip (try_send tx <$> rpc_tx_gossip s) s,
                    Ok (mkSubmitTransactionResponse (hex_encode (compute_tx_hash tx)) true))
    | Err e => Some (s, Err (mkRpcError (-32000) ("transaction rejected: " +:+ MempoolError_to_string e)))
    end.
Proof.
  intros Hf Ht. unfold RpcImpl_submit_transaction. simpl.
  rewrite !decode_key_encode, !decode_field_encode by done. by destruct tx.
Qed.

(** A submission only touches the mempool and the queue of the network. *)
Lemma submit_keeps_ledger req s s' r :
  RpcImpl_submit_transaction req s = Some (s', r) →
  rpc_state_db s' = rpc_state_db s ∧ rpc_block_store s' = rpc_block_store s.
Proof.
  unfold RpcImpl_submit_transaction. repeat (case_match; [|intros; by simplify_eq]).
  intros ([p' r'] & _ & Hr)%bind_Some. by destruct r'; simplify_eq.
Qed.
Lemma submit_keeps_head req s s' r :
  RpcImpl_submit_transaction req s = Some (s', r) →
  rpc_current_height s' = rpc_current_height s ∧ rpc_base_fee s' = rpc_base_fee s.
Proof.
  unfold RpcImpl_submit_transaction. repeat (case_match; [|intros; by simplify_eq]).
  intros ([p' r'] & _ & Hr)%bind_Some. by destruct r'; simplify_eq.
Qed.
End RpcLemmas.

(** * Properties *)

(** C40: submitting a transaction.  A client's transaction, with its fields in
    hexadecimal, is answered with success exactly when the mempool accepts it; then it
    is pending, the answer carries the hash the pool knows it by, and it is queued for
    the network unless the queue is full, when it is silently not gossiped.  When it is
    rejected nothing is pending or queued that was not before.  The accounts, the
    height and the stored blocks never change. *)
Theorem submit_transaction_exact {OC : OverflowChecks} {C : Crypto} {S : Serde} {SL : SerdeLaws S}
    (tx : Transaction) (s : RpcState) :
  TransactionPool_wf (rpc_mempool s) → max_size (pool_config (rpc_mempool s)) < U64 →
  length (tx_from tx) = 32%nat → length (tx_to tx) = 32%nat →
  ∃ s' r, RpcImpl_submit_transaction (request_of tx) s = Some (s', r) ∧
    TransactionPool_wf (rpc_mempool s') ∧ (is_ok r = true ↔ add_guards tx (rpc_mempool s)) ∧
    rpc_state_db s' = rpc_state_db s ∧ rpc_block_store s' = rpc_block_store s ∧
    rpc_current_height s' = rpc_current_height s ∧
    match r with
    | Ok resp =>
      resp = mkSubmitTransactionResponse (hex_encode (compute_tx_hash tx)) true ∧
      (all_pending (rpc_mempool s') ≡ₚ
        PendingTransaction_new tx (pool_total_count (rpc_mempool s)) :: all_pending (rpc_mempool s)) ∧
      TransactionPool_contains (compute_tx_hash tx) (rpc_mempool s') = true ∧
      gossiped tx (rpc_tx_gossip s) (rpc_tx_gossip s')
    | Err e =>
      re_code e = -32000 ∧ (all_pending (rpc_mempool s') ≡ₚ all_pending (rpc_mempool s)) ∧
      rpc_tx_gossip s' = rpc_tx_gossip s
    end.
Proof.
  intros Hwf Hmax Hf Ht. rewrite submit_encoded by done.
  destruct (add_transaction_eq tx (rpc_mempool s) Hwf Hmax) as (p & r & -> & Hcase). simpl.
  destruct Hcase as [(Hg & -> & ->)|(Hg & Hr & Hp & _ & Hwf')].
  - eexists _, _. split; [done|]. simpl. split; [by apply add_result_wf|]. split_and!; try done.
    + apply add_result_pending.
    + unfold TransactionPool_contains, add_result. simpl. apply bool_decide_eq_true. set_solver.
    + apply try_send_gossiped.
  - destruct r as [|e]; [done|]. eexists _, _. split; [done|]. by split_and!.
Qed.

Definition demo_rpc : RpcState :=
  RpcState_with_tx_gossip (mkTxChannel [] 256) (set_mempool demo_mempool RpcState_new_mock).
Lemma submit_transaction_exact_witness :
  ∃ s' r, RpcImpl_submit_transaction (OC := debug_build) (C := toy_crypto) (S := toy_serde)
      (request_of (S := toy_serde) (demo_signed 2 30 0)) demo_rpc = Some (s', r) ∧
    TransactionPool_wf (C := toy_crypto) (S := toy_serde) (rpc_mempool s').
Proof.
  destruct (submit_transaction_exact (OC := debug_build) (C := toy_crypto) (S := toy_serde)
    (demo_signed 2 30 0) demo_rpc demo_mempool_wf) as (s' & r & Hs & Hwf & _).
  - vm_compute. reflexivity.
  - vm_compute. reflexivity.
  - vm_compute. reflexivity.
  - exists s', r. exact (conj Hs Hwf).
Defined.
