(* ===== verification/Node.v ===== *)
(** * The validator node (validator/src/main.rs)

    How the binary composes the components: starting from a genesis file, and then
    one event at a time - a message of a peer, a timeout, a gossiped transaction, an
    RPC submission.  [Node] is the state the event loop works on, [node_boot] the
    start, [node_step] one round of the loop.  What is handed to the network, and the
    timers that are spawned, are logs in the state; the clock is an oracle.  A round
    of the loop is one atomic step: the RPC server's threads interleave between the
    rounds. *)
From S2P Require Import Prelude Crypto Block Vote StateMachine State Mempool.
From S2P Require Import Staking Fees ValidatorSet Genesis Rpc.
From stdpp Require Import pretty.
Open Scope Z_scope.

(** [now_secs], as a function of how often it has been called. *)
Class Clock := clock : nat → Z.

(** ** Helpers *)

Definition hex_digit (n : Z) : Byte.byte := Z_byte (if n <? 10 then 48 + n else 87 + n).
Definition to_hex (b : bytes) : string :=
  String.string_of_list_byte (concat ((λ x, [hex_digit (byte_Z x / 16); hex_digit (byte_Z x mod 16)]) <$> b)).

(** [str::trim] of a UTF-8 text: the encodings of the white space characters are cut
    off at its start and its end. *)
Definition white_space : list bytes :=
  [[x09]; [x0a]; [x0b]; [x0c]; [x0d]; [x20]; [xc2; x85]; [xc2; xa0]; [xe1; x9a; x80]]
  ++ ((λ b, [xe2; x80; b]) <$> [x80; x81; x82; x83; x84; x85; x86; x87; x88; x89; x8a; xa8; xa9; xaf])
  ++ [[xe2; x81; x9f]; [xe3; x80; x80]].
Fixpoint strip_prefix (p s : bytes) : option bytes :=
  match p, s with
  | [], _ => Some s
  | x :: p, y :: s => if Byte.eqb x y then strip_prefix p s else None
  | _ :: _, [] => None
  end.
Fixpoint trim_start (fuel : nat) (ws : list bytes) (s : bytes) : bytes :=
  match fuel, omap (λ w, strip_prefix w s) ws with
  | S fuel, s' :: _ => trim_start fuel ws s'
  | _, _ => s
  end.
Definition str_trim (s : bytes) : bytes :=
  let s := trim_start (length s) white_space s in
  reverse (trim_start (length s) (reverse <$> white_space) (reverse s)).

Section Helpers.
Context {OC : OverflowChecks} {C : Crypto} {B : Bincode} {HO : HashOrder} {S : Serde}.

(** Of what reading the file returned. *)
Definition load_signing_key (contents : result string bytes) : result string bytes :=
  match contents with
  | Err e => Err e
  | Ok contents =>
    match hex_decode (String.string_of_list_byte (str_trim contents)) with
    | Err e => Err e
    | Ok key =>
      if (length key =? 32)%nat then Ok key else Err "signing key must be exactly 32 bytes"
    end
  end.

(** [now] is what the clock says. *)
Definition build_block (now : Z) (height : Height) (parent_hash : BlockHash) (proposer : ValidatorId)
    (transactions : list Transaction) (state_db : StateDB) : may_panic Block :=
  tx_merkle_root ← Block_compute_tx_merkle_root transactions;
  let state_root := StateDB_compute_state_root state_db in
  Some (mkBlock (mkBlockHeader height now parent_hash proposer state_root tx_merkle_root) transactions).

Definition compute_block_hash (block : Block) : BlockHash := Block_hash block.

Definition proposal_message (height : Height) (round : Round) (block_hash : BlockHash) : bytes :=
  String.list_byte_of_string
    ("propose:" +:+ pretty height +:+ ":" +:+ pretty round +:+ ":" +:+ to_hex block_hash).
Definition sign_proposal (height : Height) (round : Round) (block_hash : BlockHash)
    (signing_key : bytes) : Proposal :=
  mkProposal height round block_hash (ed_verifying_key signing_key)
    (ed_sign signing_key (proposal_message height round block_hash)) None.

Definition sign_vote (vote_type : VoteType) (height : Height) (round : Round)
    (block_hash : option BlockHash) (signing_key : bytes) : Vote :=
  Vote_new vote_type height round block_hash signing_key.

(** One message of the loop of [process_bft_output]: what to broadcast, and the timers
    to spawn with their durations. *)
Definition process_message (signing_key : option bytes) (timeout_config : TimeoutConfig)
    (acc : list ConsensusMessage * list (TimeoutEvent * Z)) (msg : ConsensusMessage) :
    may_panic (list ConsensusMessage * list (TimeoutEvent * Z)) :=
  let '(to_broadcast, timers) := acc in
  match msg with
  | CastVote vote_template =>
    match signing_key with
    | Some sk =>
      let signed := sign_vote (v_vote_type vote_template) (v_height vote_template)
        (v_round vote_template) (v_block_hash vote_template) sk in
      Some (to_broadcast ++ [CastVote signed], timers)
    | None => Some (to_broadcast, timers)
    end
  | ScheduleTimeout te =>
    duration_ms ← TimeoutConfig_timeout_for timeout_config (te_step te) (te_round te);
    Some (to_broadcast, timers ++ [(te, duration_ms)])
  | CommitBlock _ _ | ProposeBlock _ _ => Some (to_broadcast ++ [msg], timers)
  end.
Definition process_bft_output (signing_key : option bytes) (timeout_config : TimeoutConfig)
    (msgs : list ConsensusMessage) : may_panic (list ConsensusMessage * list (TimeoutEvent * Z)) :=
  fold_may_panic (process_message signing_key timeout_config) ([], []) msgs.
End Helpers.

(** ** The state of [main] *)

(** What stays fixed once the node has started. *)
Record NodeEnv := mkNodeEnv {
  ne_genesis : GenesisConfig;
  ne_signing_key : option bytes;
  ne_timeout_config : TimeoutConfig;
}.

Record Node := mkNode {
  nd_bft : BftStateMachine;
  nd_rpc : RpcState;
  nd_fee_market : FeeMarket;
  nd_staking_pool : StakingPool;
  nd_validator_set : ValidatorSetManager;
  nd_last_block_hash : BlockHash;
  nd_sent : list ConsensusMessage;
  nd_gossiped : list Transaction;
  nd_timers : list (TimeoutEvent * Z);
  nd_clock_reads : nat;
}.

(** Assignments and effects. *)
Definition set_bft x nd := mkNode x (nd_rpc nd) (nd_fee_market nd) (nd_staking_pool nd) (nd_validator_set nd)
  (nd_last_block_hash nd) (nd_sent nd) (nd_gossiped nd) (nd_timers nd) (nd_clock_reads nd).
Definition set_rpc x nd := mkNode (nd_bft nd) x (nd_fee_market nd) (nd_staking_pool nd) (nd_validator_set nd)
  (nd_last_block_hash nd) (nd_sent nd) (nd_gossiped nd) (nd_timers nd) (nd_clock_reads nd).
Definition set_validator_set x nd := mkNode (nd_bft nd) (nd_rpc nd) (nd_fee_market nd) (nd_staking_pool nd) x
  (nd_last_block_hash nd) (nd_sent nd) (nd_gossiped nd) (nd_timers nd) (nd_clock_reads nd).
Definition broadcast (msgs : list ConsensusMessage) nd := mkNode (nd_bft nd) (nd_rpc nd) (nd_fee_market nd)
  (nd_staking_pool nd) (nd_validator_set nd) (nd_last_block_hash nd) (nd_sent nd ++ msgs) (nd_gossiped nd)
  (nd_timers nd) (nd_clock_reads nd).
Definition gossip_transaction (tx : Transaction) nd := mkNode (nd_bft nd) (nd_rpc nd) (nd_fee_market nd)
  (nd_staking_pool nd) (nd_validator_set nd) (nd_last_block_hash nd) (nd_sent nd) (nd_gossiped nd ++ [tx])
  (nd_timers nd) (nd_clock_reads nd).
Definition spawn_timers (ts : list (TimeoutEvent * Z)) nd := mkNode (nd_bft nd) (nd_rpc nd) (nd_fee_market nd)
  (nd_staking_pool nd) (nd_validator_set nd) (nd_last_block_hash nd) (nd_sent nd) (nd_gossiped nd)
  (nd_timers nd ++ ts) (nd_clock_reads nd).
Definition tick nd := mkNode (nd_bft nd) (nd_rpc nd) (nd_fee_market nd) (nd_staking_pool nd)
  (nd_validator_set nd) (nd_last_block_hash nd) (nd_sent nd) (nd_gossiped nd) (nd_timers nd)
  (S (nd_clock_reads nd)).

Definition nd_mempool (nd : Node) : TransactionPool := rpc_mempool (nd_rpc nd).
Definition nd_state_db (nd : Node) : StateDB := rpc_state_db (nd_rpc nd).

Section Node.
Context {OC : OverflowChecks} {C : Crypto} {B : Bincode} {HO : HashOrder} {S : Serde} {K : Clock}.

(** [process_bft_output], whose timers are spawned. *)
Definition node_output (env : NodeEnv) (msgs : list ConsensusMessage) (nd : Node) :
    may_panic (list ConsensusMessage * Node) :=
  '(broadcasts, timers) ← process_bft_output (ne_signing_key env) (ne_timeout_config env) msgs;
  Some (broadcasts, spawn_timers timers nd).

(** The epoch handling at the end of [apply_commit]; the rewards are computed, summed
    for the log and dropped. *)
Definition epoch_boundary (env : NodeEnv) (height : Height) (nd : Node) : may_panic Node :=
  let epoch_length := cp_epoch_length (gc_chain_params (ne_genesis env)) in
  if (0 <? epoch_length) && (0 <? height) && (height mod epoch_length =? 0) then
    '(validator_set, _) ← ValidatorSetManager_epoch_rotation (nd_staking_pool nd) (nd_validator_set nd);
    rewards ← StakingPool_distribute_epoch_rewards (nd_staking_pool nd);
    _ ← u64_sum rewards.*2;
    Some (set_validator_set validator_set nd)
  else Some nd.

(** The transactions a commit executes, and the proposer's key in hexadecimal. *)
Definition committed_transactions (committed_block : option Block) (mempool : TransactionPool) :
    list Transaction * string :=
  match committed_block with
  | Some block => (blk_transactions block, to_hex (bh_proposer (blk_header block)))
  | None => (TransactionPool_get_pending_ordered 100 mempool, EmptyString)
  end.

Definition apply_commit (env : NodeEnv) (height : Height) (block_hash : BlockHash)
    (committed_block : option Block) (nd : Node) : may_panic Node :=
  let rpc := nd_rpc nd in
  let '(txs, proposer_hex) := committed_transactions committed_block (rpc_mempool rpc) in
  '(db, _) ← StateDB_apply_block txs (rpc_state_db rpc);
  let committed_hashes := Transaction_hash <$> txs in
  mempool ← TransactionPool_remove_committed committed_hashes (rpc_mempool rpc);
  gas_used ← u64_mul (Z.of_nat (length txs)) 21000;
  fm ← FeeMarket_update_base_fee gas_used (nd_fee_market nd);
  let stored := mkBlockResponse height (clock (nd_clock_reads nd)) (to_hex (nd_last_block_hash nd))
    proposer_hex (Z.of_nat (length txs)) (to_hex block_hash) in
  let rpc := mkRpcState height (rpc_validator_count rpc) (FeeMarket_current_base_fee fm) mempool db
    (rpc_block_store rpc ++ [stored]) (rpc_genesis_validators rpc) (rpc_tx_gossip rpc) in
  epoch_boundary env height
    (tick (mkNode (nd_bft nd) rpc fm (nd_staking_pool nd) (nd_validator_set nd) block_hash
      (nd_sent nd) (nd_gossiped nd) (nd_timers nd) (nd_clock_reads nd))).

(** The result of the node's own [on_proposal] is dropped, its vote with it. *)
Definition propose_block (signing_key : bytes) (height : Height) (round : Round)
    (parent_hash : BlockHash) (nd : Node) : may_panic Node :=
  let txs := TransactionPool_get_pending_ordered 100 (nd_mempool nd) in
  let proposer_id := ed_verifying_key signing_key in
  block ← build_block (clock (nd_clock_reads nd)) height parent_hash proposer_id txs (nd_state_db nd);
  let nd := tick nd in
  let block_hash := compute_block_hash block in
  let proposal := sign_proposal height round block_hash signing_key in
  '(bft, _) ← BftStateMachine_on_proposal proposal (Some block) (nd_bft nd);
  Some (broadcast [ProposeBlock proposal (Some block)] (set_bft bft nd)).

(** [if bft.is_proposer() { if let Some(ref sk) = signing_key { propose_block(..) } }],
    under a further condition. *)
Definition propose_if_proposer (env : NodeEnv) (cond : bool) (height : Height) (round : Round) (nd : Node) :
    may_panic Node :=
  is_proposer ← BftStateMachine_is_proposer (nd_bft nd);
  if is_proposer && cond then
    match ne_signing_key env with
    | Some sk => propose_block sk height round (nd_last_block_hash nd) nd
    | None => Some nd
    end
  else Some nd.

(** A commit in the event loop: apply the block, advance the height, propose if it is
    this node's turn, and broadcast. *)
Definition commit_and_advance (env : NodeEnv) (height : Height) (block_hash : BlockHash) (nd : Node) :
    may_panic Node :=
  let committed_block := BftStateMachine_get_committed_block (nd_bft nd) block_hash in
  nd ← apply_commit env height block_hash committed_block nd;
  next_height ← u64_add height 1;
  let '(bft, advance_msgs) := BftStateMachine_advance_height next_height (nd_bft nd) in
  '(broadcasts, nd) ← node_output env advance_msgs (set_bft bft nd);
  nd ← propose_if_proposer env true next_height 0 nd;
  Some (broadcast broadcasts nd).

(** The loop over the messages to broadcast. *)
Definition handle_broadcast (env : NodeEnv) (nd : Node) (msg : ConsensusMessage) : may_panic Node :=
  match msg with
  | CommitBlock height block_hash => commit_and_advance env height block_hash nd
  | _ => Some (broadcast [msg] nd)
  end.

(** A message of the network. *)
Definition on_net_message (env : NodeEnv) (msg : ConsensusMessage) (nd : Node) : may_panic Node :=
  '(nd, bft_outputs) ←
    match msg with
    | ProposeBlock proposal block =>
      '(bft, out) ← BftStateMachine_on_proposal proposal block (nd_bft nd);
      Some (set_bft bft nd, out)
    | CastVote vote =>
      let '(bft, out) := match v_vote_type vote with
                         | Prevote => BftStateMachine_on_prevote vote (nd_bft nd)
                         | Precommit => BftStateMachine_on_precommit vote (nd_bft nd)
                         end in
      Some (set_bft bft nd, out)
    | CommitBlock height block_hash =>
      nd ← commit_and_advance env height block_hash nd;
      Some (nd, [])
    | ScheduleTimeout _ => Some (nd, [])
    end;
  '(broadcasts, nd) ← node_output env bft_outputs nd;
  fold_may_panic (handle_broadcast env) nd broadcasts.

(** A timeout that has fired. *)
Definition on_timeout_event (env : NodeEnv) (event : TimeoutEvent) (nd : Node) : may_panic Node :=
  '(bft, bft_outputs) ← BftStateMachine_on_timeout event (nd_bft nd);
  '(broadcasts, nd) ← node_output env bft_outputs (set_bft bft nd);
  nd ← propose_if_proposer env (bool_decide (te_step event = TimeoutPrecommit))
         (sm_height (nd_bft nd)) (sm_round (nd_bft nd)) nd;
  fold_may_panic (handle_broadcast env) nd broadcasts.

(** A transaction gossiped by a peer. *)
Definition on_net_transaction (tx : Transaction) (nd : Node) : may_panic Node :=
  '(mempool, _) ← TransactionPool_add_transaction tx (nd_mempool nd);
  Some (set_rpc (set_mempool mempool (nd_rpc nd)) nd).

(** A transaction the RPC server has queued for the network. *)
Definition on_gossip_ready (nd : Node) : may_panic Node :=
  match rpc_tx_gossip (nd_rpc nd) with
  | Some (mkTxChannel (tx :: queue) capacity) =>
    Some (gossip_transaction tx (set_rpc (set_tx_gossip (Some (mkTxChannel queue capacity)) (nd_rpc nd)) nd))
  | _ => Some nd
  end.

(** A submission to the RPC server. *)
Definition on_rpc_submit (req : SubmitTransactionRequest) (nd : Node) : may_panic Node :=
  '(rpc, _) ← RpcImpl_submit_transaction req (nd_rpc nd);
  Some (set_rpc rpc nd).

Inductive node_event :=
| NetMessage (msg : ConsensusMessage)
| TimeoutFired (event : TimeoutEvent)
| NetTransaction (tx : Transaction)
| RpcSubmit (req : SubmitTransactionRequest)
| GossipReady.

Definition node_step (env : NodeEnv) (nd : Node) (e : node_event) : may_panic Node :=
  match e with
  | NetMessage msg => on_net_message env msg nd
  | TimeoutFired event => on_timeout_event env event nd
  | NetTransaction tx => on_net_transaction tx nd
  | RpcSubmit req => on_rpc_submit req nd
  | GossipReady => on_gossip_ready nd
  end.

Definition node_run (env : NodeEnv) (nd : Node) (es : list node_event) : may_panic Node :=
  fold_may_panic (node_step env) nd es.

(** ** The start of [main] *)

Context {J : GenesisJson}.

(** The genesis file, or the default test network. *)
Definition load_genesis (contents : result string bytes) (now : Z) : GenesisConfig :=
  match GenesisConfig_from_file contents with
  | Ok genesis => genesis
  | Err _ => GenesisConfig_default_testnet now
  end.

(** The genesis validators are staked and registered; what fails is only logged. *)
Definition register_genesis_validator (s : StakingPool * ValidatorSetManager) (gv : GenesisValidator) :
    may_panic (StakingPool * ValidatorSetManager) :=
  '(pool, _) ← StakingPool_stake s.1 (gv_pubkey gv) (gv_initial_stake gv) Delegator;
  Some (pool, (ValidatorSetManager_register_validator (gv_pubkey gv) (gv_initial_stake gv)
                 (gv_commission_rate gv) 0 s.2).1).

Definition genesis_validator_response (gv : GenesisValidator) : ValidatorResponse :=
  mkValidatorResponse (to_hex (gv_pubkey gv)) (gv_initial_stake gv) (gv_commission_rate gv) "Active" 10000.

Definition genesis_accounts_db (accounts : list GenesisAccount) : StateDB :=
  fold_left (λ db acct, StateDB_set_account (ga_pubkey acct) (AccountState_new (ga_balance acct)) db)
    accounts StateDB_new.

(** The state file, if it exists, or the genesis accounts. *)
Definition initial_state_db (genesis : GenesisConfig) (state_file : option (result string bytes)) : StateDB :=
  match state_file with
  | Some data =>
    match StateDB_load_from_file data with
    | Ok loaded => loaded
    | Err _ => genesis_accounts_db (gc_accounts genesis)
    end
  | None => genesis_accounts_db (gc_accounts genesis)
  end.

(** Keys that are no point of the curve are left out. *)
Definition bft_validators (genesis : GenesisConfig) : list ValidatorId :=
  filter (λ k, ed_key_ok k = true) (gv_pubkey <$> gc_validators genesis).

(** Without a key the node observes. *)
Definition load_validator_key (validator_key : option (result string bytes)) : result string (option bytes) :=
  match validator_key with
  | Some contents =>
    match load_signing_key contents with Ok sk => Ok (Some sk) | Err e => Err e end
  | None => Ok None
  end.

Definition our_validator_index (signing_key : option bytes) (validators : list ValidatorId) : option Z :=
  signing_key ≫= λ sk, Z.of_nat ∘ fst <$> list_find (λ v, v = ed_verifying_key sk) validators.

(** The initialisation of the components; [Err] when the process exits.  The total
    supply is computed for the log. *)
Definition node_init (genesis : GenesisConfig) (state_file : option (result string bytes))
    (validator_key : option (result string bytes)) : may_panic (result string (NodeEnv * Node)) :=
  valid ← GenesisConfig_validate genesis;
  match valid with
  | Err _ => Some (Err "Genesis validation failed")
  | Ok _ =>
    let params := gc_chain_params genesis in
    market ← FeeMarket_new FeeConfig_default (cp_base_fee_floor params);
    match market with
    | Err _ => Some (Err "fee market")
    | Ok fee_market =>
      let config := mkValidatorSetConfig (cp_max_validators params) (cp_epoch_length params) 1000000 in
      '(staking_pool, validator_set) ← fold_may_panic register_genesis_validator
        (StakingPool_new, ValidatorSetManager_with_config config) (gc_validators genesis);
      let rpc := RpcState_with_tx_gossip (mkTxChannel [] 256)
        (RpcState_new (TransactionPool_new MempoolConfig_default) (initial_state_db genesis state_file)
          (genesis_validator_response <$> gc_validators genesis)) in
      _ ← StateDB_total_supply (rpc_state_db rpc);
      match load_validator_key validator_key with
      | Err _ => Some (Err "failed to load validator key")
      | Ok signing_key =>
        let validators := bft_validators genesis in
        let bft := BftStateMachine_new 0 validators (our_validator_index signing_key validators)
          TimeoutConfig_default in
        let rpc := mkRpcState 0 (Z.of_nat (length validators)) (FeeMarket_current_base_fee fee_market)
          (rpc_mempool rpc) (rpc_state_db rpc) (rpc_block_store rpc) (rpc_genesis_validators rpc)
          (rpc_tx_gossip rpc) in
        Some (Ok (mkNodeEnv genesis signing_key TimeoutConfig_default,
          mkNode bft rpc fee_market staking_pool validator_set zero32 [] [] [] 0))
      end
    end
  end.

(** The first round: its timeout, this node's proposal if it is its turn, and what is
    to be broadcast. *)
Definition node_start (env : NodeEnv) (nd : Node) : may_panic Node :=
  let '(bft, initial_msgs) := BftStateMachine_start_round 0 (nd_bft nd) in
  '(broadcasts, nd) ← node_output env initial_msgs (set_bft bft nd);
  nd ← propose_if_proposer env true 0 0 nd;
  Some (broadcast broadcasts nd).

(** All of [main] up to the event loop. *)
Definition node_boot (genesis : GenesisConfig) (state_file : option (result string bytes))
    (validator_key : option (result string bytes)) : may_panic (result string (NodeEnv * Node)) :=
  started ← node_init genesis state_file validator_key;
  match started with
  | Err e => Some (Err e)
  | Ok (env, nd) => nd ← node_start env nd; Some (Ok (env, nd))
  end.

(** What is written to the state file at the shutdown. *)
Definition node_shutdown (write : bytes → result string unit) (nd : Node) : result StateError unit :=
  StateDB_save_to_file write (nd_state_db nd).
End Node.
