(* ===== verification/NodeSafety.v ===== *)
(** * The node never panics (validator/src/main.rs)

    The invariant of the node's state - every component's own invariant, and room left
    in the counters - is established by the start and kept by every round of the event
    loop, for inputs of any peers and clients. *)
From S2P Require Import Prelude Crypto Block Vote StateMachine State Mempool.
From S2P Require Import Staking Fees ValidatorSet Genesis Rpc Node.
Open Scope Z_scope.

(** ** Specification *)

(** At most [L] transactions, with amounts of the machine's width. *)
Definition txs_ok (L : Z) (txs : list Transaction) : Prop :=
  Z.of_nat (length txs) <= L ∧ Forall (λ tx, u64 (tx_amount tx)) txs.

(** The consensus machine, with room for [room] more events. *)
Record bft_ok {C : Crypto} {B : Bincode} (L room : Z) (s : BftStateMachine) : Prop := {
  bo_wf : bft_wf s;
  bo_validators : sm_validators s ≠ [];
  bo_height : 0 <= sm_height s;
  bo_height_room : sm_height s + room <= U64 - U32;
  bo_round_room : sm_round s + room < U32;
  bo_blocks : map_Forall (λ _ b, txs_ok L (blk_transactions b)) (sm_proposed_blocks s);
}.

Record mempool_ok {C : Crypto} {S : Serde} (p : TransactionPool) : Prop := {
  mo_wf : TransactionPool_wf p;
  mo_size : max_size (pool_config p) < U64;
  mo_amounts : Forall (λ ptx, u64 (tx_amount (pt_tx ptx))) (all_pending p);
}.

(** The fee market, the staking pool and the validator set, with room for [room] more
    epochs. *)
Record economy_ok {OC : OverflowChecks} (room : Z) (nd : Node) : Prop := {
  eo_market : FeeMarket_wf (nd_fee_market nd);
  eo_staking : StakingPool_wf (nd_staking_pool nd);
  eo_set : ValidatorSet_wf (nd_validator_set nd);
  eo_epoch : 0 <= vs_current_epoch (nd_validator_set nd);
  eo_epoch_room : vs_current_epoch (nd_validator_set nd) + room <= u64_max;
}.

(** The invariant of the node: room for [room] more events that carry blocks of at
    most [L] transactions, and a supply of exactly [total]. *)
Record Node_wf {OC : OverflowChecks} {C : Crypto} {B : Bincode} {S : Serde}
    (L total room : Z) (nd : Node) : Prop := {
  nw_bft : bft_ok L room (nd_bft nd);
  nw_mempool : mempool_ok (nd_mempool nd);
  nw_db : StateDB_wf (room * L) (nd_state_db nd);
  nw_supply : supply (nd_state_db nd) = total;
  nw_economy : economy_ok room nd;
}.

(** What a peer or a client can send: values of the machine's width, blocks of at most
    [L] transactions, heights away from the end of [u64]. *)
Definition message_ok (L : Z) (msg : ConsensusMessage) : Prop :=
  match msg with
  | ProposeBlock _ (Some b) => txs_ok L (blk_transactions b)
  | CommitBlock h _ => 0 <= h <= U64 - 2 * U32
  | _ => True
  end.
Definition node_event_ok (L : Z) (e : node_event) : Prop :=
  match e with
  | NetMessage msg => message_ok L msg
  | NetTransaction tx => u64 (tx_amount tx)
  | RpcSubmit req => u64 (sr_amount req)
  | TimeoutFired _ | GossipReady => True
  end.

(** What a handler of the machine answers: at most one message. *)
Definition answer_ok (s : BftStateMachine) (out : list ConsensusMessage) : Prop :=
  out = [] ∨ (∃ v, out = [CastVote v]) ∨ (∃ hash, out = [CommitBlock (sm_height s) hash]) ∨
  (∃ te, out = [ScheduleTimeout te] ∧ te_round te = sm_round s).

(** * Lemmas *)

Section MachineLemmas.
Context {OC : OverflowChecks} {C : Crypto} {B : Bincode} {HO : HashOrder}.
Context (L : Z).
Implicit Types (s : BftStateMachine).

Lemma bft_ok_less room room' s : bft_ok L room s → room' <= room → bft_ok L room' s.
Proof. intros [] ?. split; done || lia. Qed.

Lemma proposer_index_total room s :
  bft_ok L room s → 0 <= room →
  BftStateMachine_proposer_index s (sm_height s) (sm_round s) =
    Some ((sm_height s + sm_round s) mod total_validators s) ∧ 0 < total_validators s.
Proof.
  intros [[Hr _ _ _ _ _ _] Hv Hh Hhr Hrr _] Hroom.
  assert (0 < total_validators s) as Hn.
  { unfold total_validators. destruct (sm_validators s); [done|simpl; lia]. }
  split; [|done]. unfold BftStateMachine_proposer_index. rewrite (proj2 (Z.eqb_neq _ _)) by lia.
  rewrite u64_add_ok by zlia. simpl. unfold rem_or_panic. by rewrite (proj2 (Z.eqb_neq _ _)) by lia.
Qed.

Lemma is_proposer_total room s :
  bft_ok L room s → 0 <= room → is_Some (BftStateMachine_is_proposer s).
Proof.
  intros Hs Hr. unfold BftStateMachine_is_proposer. destruct (sm_validator_index s); [|by eexists].
  destruct (proposer_index_total room s Hs Hr) as [-> _]. by eexists.
Qed.

Lemma on_proposal_total room p blk s :
  bft_ok L room s → 0 <= room → (∀ b, blk = Some b → txs_ok L (blk_transactions b)) →
  ∃ s' out, BftStateMachine_on_proposal p blk s = Some (s', out) ∧ bft_ok L room s' ∧ answer_ok s' out.
Proof.
  intros Hs Hroom Hblk. destruct (proposer_index_total room s Hs Hroom) as [Hi Hn].
  pose proof (Z.mod_pos_bound (sm_height s + sm_round s) _ Hn) as Hm.
  assert (is_Some (BftStateMachine_on_proposal p blk s)) as [[s' out] Hp].
  { unfold BftStateMachine_on_proposal. destruct (_ || _); [by eexists|]. destruct (negb _); [by eexists|].
    rewrite Hi. simpl. rewrite (proj2 (Z.leb_gt _ _)) by lia.
    destruct (lookup_lt_is_Some_2 (sm_validators s) (Z.to_nat ((sm_height s + sm_round s) mod total_validators s)))
      as [x ->]; [unfold total_validators in *; lia|]. simpl. repeat case_match; by eexists. }
  exists s', out. split; [done|]. pose proof Hs as [Hw Hv Hh Hhr Hrr Hb].
  pose proof (on_proposal_wf _ _ _ _ _ Hw Hp) as Hw'.
  apply on_proposal_inv in Hp as [[-> ->]|((_ & _ & _ & _ & _) & -> & ->)]; [split; [done|by left]|].
  split; [|right; left; by eexists].
  destruct blk as [b|]; (split; simpl in *; [done..|]); [|done].
  apply map_Forall_insert_2; [by apply Hblk|done].
Qed.

Lemma on_prevote_total room v s :
  bft_ok L room s →
  ∃ s' out, BftStateMachine_on_prevote v s = (s', out) ∧ bft_ok L room s' ∧ answer_ok s' out.
Proof.
  intros [Hw Hv Hh Hhr Hrr Hb]. destruct (BftStateMachine_on_prevote v s) as [s' out] eqn:Hp.
  exists s', out. split; [done|]. pose proof (on_prevote_wf v s Hw) as Hw'. rewrite Hp in Hw'.
  revert Hp. unfold BftStateMachine_on_prevote. simpl in Hw'.
  repeat case_match; intros; simplify_eq; (split; [by split|]);
    first [by left | right; left; by eexists | right; right; right; by eexists].
Qed.

Lemma on_precommit_total room v s :
  bft_ok L room s →
  ∃ s' out, BftStateMachine_on_precommit v s = (s', out) ∧ bft_ok L room s' ∧ answer_ok s' out.
Proof.
  intros [Hw Hv Hh Hhr Hrr Hb]. destruct (BftStateMachine_on_precommit v s) as [s' out] eqn:Hp.
  exists s', out. split; [done|]. pose proof (on_precommit_wf v s Hw) as Hw'. rewrite Hp in Hw'.
  revert Hp. unfold BftStateMachine_on_precommit. simpl in Hw'.
  repeat case_match; intros; simplify_eq; (split; [by split|]);
    first [by left | right; right; left; by eexists | right; right; right; by eexists].
Qed.

Lemma start_round_ok room r s :
  bft_ok L (room + 1) s → 0 <= room → sm_round s <= r <= sm_round s + 1 →
  bft_ok L room (BftStateMachine_start_round r s).1 ∧
  answer_ok (BftStateMachine_start_round r s).1 (BftStateMachine_start_round r s).2.
Proof.
  intros [Hw Hv Hh Hhr Hrr Hb] Hroom Hr. split; [|right; right; right; by eexists].
  split; [apply start_round_wf; [done|lia]|done|done|..]; simpl; lia || done.
Qed.

Lemma on_timeout_total room te s :
  bft_ok L (room + 1) s → 0 <= room →
  ∃ s' out, BftStateMachine_on_timeout te s = Some (s', out) ∧ bft_ok L room s' ∧ answer_ok s' out ∧
    ∀ h hash, out ≠ [CommitBlock h hash].
Proof.
  intros Hs Hroom. pose proof Hs as [Hw Hv Hh Hhr Hrr Hb]. pose proof (bft_round _ Hw).
  assert (bft_ok L room s) as Hs0 by (by apply (bft_ok_less (room + 1)); [|lia]).
  assert (∀ st, bft_wf (set_step st s)) as Hst.
  { intros st. destruct Hw as [? ? [] [] ? ? ?]. split; simpl; [done|done|by split|by split|done|done|done]. }
  assert (∀ st, bft_ok L room (set_step st s)) as Hok.
  { intros st. split; [apply Hst|done|done|simpl; lia|simpl; lia|done]. }
  unfold BftStateMachine_on_timeout. destruct (_ || _); [eexists _, _; split; [done|]; by split_and!; [|left|]|].
  destruct (te_step te); (destruct (bool_decide _); [|eexists _, _; split; [done|]; by split_and!; [|left|]]).
  - eexists _, _. split; [done|]. split; [apply Hok|]. split; [|done]. right; right; right. by eexists.
  - simpl. destruct (sm_validators s) as [|first rest]; [done|]. simpl.
    eexists _, _. split; [done|]. split; [apply Hok|]. split; [|done]. right; left. by eexists.
  - rewrite u32_add_ok by lia. simpl. destruct (start_round_ok room (sm_round s + 1) s) as [? ?]; [done..|lia|].
    eexists _, _. split; [done|]. by split_and!.
Qed.

Lemma advance_height_ok h room s :
  bft_ok L (room + 1) s → 0 <= room → 0 <= h → h + room <= U64 - U32 → room < U32 →
  bft_ok L room (BftStateMachine_advance_height h s).1 ∧
  answer_ok (BftStateMachine_advance_height h s).1 (BftStateMachine_advance_height h s).2.
Proof.
  intros [Hw Hv Hh Hhr Hrr Hb] Hroom Hh0 Hh1 Hr. split; [|right; right; right; by eexists].
  split; [by apply advance_height_wf|done|..]; simpl; [lia..|apply map_Forall_empty].
Qed.
End MachineLemmas.

Section MempoolLemmas.
Context {OC : OverflowChecks} {C : Crypto} {S : Serde} {HO : HashOrder} {HL : HashOrderLaws HO}.
Implicit Types (p : TransactionPool).

Lemma pool_add_ok tx p :
  mempool_ok p → u64 (tx_amount tx) →
  ∃ p' r, TransactionPool_add_transaction tx p = Some (p', r) ∧ mempool_ok p'.
Proof.
  intros [Hwf Hs Ha] Htx. destruct (add_transaction_eq tx p Hwf Hs) as (p' & r & Hadd & Hcase).
  exists p', r. split; [done|]. pose proof (add_transaction_config _ _ _ _ Hadd) as Hc.
  destruct Hcase as [(Hg & _ & ->)|(_ & _ & Hp & _ & Hwf')].
  - split; [by apply add_result_wf|done|]. rewrite add_result_pending. by constructor.
  - split; [done|by rewrite Hc|by rewrite Hp].
Qed.

Lemma pool_remove_ok hs p :
  mempool_ok p → ∃ p', TransactionPool_remove_committed hs p = Some p' ∧ mempool_ok p'.
Proof.
  intros [Hwf Hs Ha]. destruct (remove_committed_eq hs p Hwf Hs) as (p' & Hr & Hwf' & Hc & Hp).
  exists p'. split; [done|]. split; [done|by rewrite Hc|]. rewrite Hp.
  apply Forall_forall. intros x [Hx _]%elem_of_retain. rewrite Forall_forall in Ha. by apply Ha.
Qed.

(** At most a hundred transactions are taken for a block. *)
Lemma pending_txs_ok L p :
  mempool_ok p → 100 <= L → txs_ok L (TransactionPool_get_pending_ordered 100 p).
Proof.
  intros [Hwf _ Ha] HL100. unfold TransactionPool_get_pending_ordered. split.
  - rewrite length_fmap, length_take. lia.
  - apply Forall_fmap. apply Forall_take.
    assert (sort_by pending_cmp (concat (hash_values (pool_by_sender p))) ≡ₚ all_pending p) as ->; [|done].
    by rewrite sort_by_perm, concat_hash_values.
Qed.
End MempoolLemmas.

Section NodeLemmas.
Context {OC : OverflowChecks} {C : Crypto} {B : Bincode} {HO : HashOrder} {HL : HashOrderLaws HO}.
Context {S : Serde} {K : Clock}.
Context (L total : Z) (L_hundred : 100 <= L) (L_gas : L * 21000 < U64).
Context (env : NodeEnv) (env_timeouts : ne_timeout_config env = TimeoutConfig_default).
Abbreviation node_ok := (Node_wf L total).

Lemma node_wf_less room room' nd : node_ok room nd → 0 <= room' <= room → node_ok room' nd.
Proof.
  intros [Hb Hm [Ha Hs] Hsup [? ? ? ? ?]] Hr. split; [by apply (bft_ok_less L room); [|lia]|done| |done|].
  - split; [|done]. eapply map_Forall_impl; [done|]. simpl. nia.
  - split; done || lia.
Qed.

Lemma timeout_for_total step round :
  0 <= round < U32 → is_Some (TimeoutConfig_timeout_for TimeoutConfig_default step round).
Proof.
  intros Hr. unfold TimeoutConfig_timeout_for. simpl. unfold u64_mul, u64_add.
  rewrite arith_u_ok by lia. simpl. destruct step; simpl; rewrite arith_u_ok by lia; by eexists.
Qed.

(** What of an answer is broadcast: a signed vote, or the commit. *)
Definition broadcast_ok (s : BftStateMachine) (bs : list ConsensusMessage) : Prop :=
  bs = [] ∨ (∃ v, bs = [CastVote v]) ∨ (∃ hash, bs = [CommitBlock (sm_height s) hash]).

Lemma node_output_total s out nd :
  answer_ok s out → 0 <= sm_round s < U32 →
  ∃ bs ts, node_output env out nd = Some (bs, spawn_timers ts nd) ∧ broadcast_ok s bs ∧
    ∀ h hash, bs = [CommitBlock h hash] → out = [CommitBlock h hash].
Proof.
  intros Hout Hr. unfold node_output, process_bft_output. rewrite env_timeouts.
  destruct Hout as [->|[[v ->]|[[hash ->]|(te & -> & Hte)]]]; simpl.
  - eexists _, _. split; [done|]. by split; [left|].
  - destruct (ne_signing_key env) as [sk|]; simpl; eexists _, _; (split; [done|]);
      (split; [|done]); [right; left; by eexists|by left].
  - eexists _, _. split; [done|]. split; [|done]. right; right. by eexists.
  - destruct (timeout_for_total (te_step te) (te_round te)) as [d ->]; [lia|]. simpl.
    eexists _, _. split; [done|]. by split; [left|].
Qed.

Lemma set_bft_ok room s nd : node_ok room nd → bft_ok L room s → node_ok room (set_bft s nd).
Proof. intros [] ?. split; done || by destruct nw_economy0. Qed.

Lemma broadcast_node_ok room bs nd : node_ok room nd → node_ok room (broadcast bs nd).
Proof. intros [? ? ? ? []]. by split. Qed.
Lemma spawn_node_ok room ts nd : node_ok room nd → node_ok room (spawn_timers ts nd).
Proof. intros [? ? ? ? []]. by split. Qed.
Lemma tick_node_ok room nd : node_ok room nd → node_ok room (tick nd).
Proof. intros [? ? ? ? []]. by split. Qed.

Lemma merkle_root_total txs : is_Some (Block_compute_tx_merkle_root txs).
Proof.
  unfold Block_compute_tx_merkle_root. destruct txs as [|tx txs]; [by eexists|].
  apply merkle_loop_total. simpl. lia.
Qed.

(** Proposing panics nowhere, and changes only the machine and the clock. *)
Lemma propose_block_ok room sk h r parent nd :
  node_ok room nd → 0 <= room →
  ∃ nd', propose_block sk h r parent nd = Some nd' ∧ node_ok room nd'.
Proof.
  intros Hnd Hroom. unfold propose_block, build_block.
  set (txs := TransactionPool_get_pending_ordered 100 (nd_mempool nd)).
  destruct (merkle_root_total txs) as [root ->]. simpl. set (block := mkBlock _ _).
  destruct (on_proposal_total L room (sign_proposal h r (compute_block_hash block) sk) (Some block)
    (nd_bft nd)) as (s' & out & -> & Hs' & _); [apply Hnd|done| |].
  { intros b [= <-]. by apply pending_txs_ok; [apply Hnd|]. }
  simpl. eexists. split; [done|]. apply broadcast_node_ok, set_bft_ok; [|done]. by apply tick_node_ok.
Qed.

Lemma propose_if_proposer_ok room cond h r nd :
  node_ok room nd → 0 <= room →
  ∃ nd', propose_if_proposer env cond h r nd = Some nd' ∧ node_ok room nd'.
Proof.
  intros Hnd Hroom. unfold propose_if_proposer.
  destruct (is_proposer_total L room (nd_bft nd)) as [b ->]; [apply Hnd|done|]. simpl.
  destruct (b && cond); [|by eexists]. destruct (ne_signing_key env) as [sk|]; [|by eexists].
  by apply propose_block_ok.
Qed.

(** ** Commits *)

Lemma rewards_positive {E Q} `{Position E} (who : Q → PublicKey) (items : list (Q * list E)) :
  Forall (λ x, 0 <= x) (rewards_of who items).*2.
Proof.
  apply Forall_fmap, Forall_forall. intros r [Hr _]%list_elem_of_filter. simpl. lia.
Qed.

Lemma epoch_boundary_ok room h nd :
  economy_ok (room + 1) nd → 0 <= room →
  ∃ vs, epoch_boundary env h nd = Some (set_validator_set vs nd) ∧ economy_ok room (set_validator_set vs nd).
Proof.
  intros [Hf Hst Hvs He Her] Hroom. unfold epoch_boundary. destruct (_ && _).
  2: { exists (nd_validator_set nd). split; [by destruct nd|]. split; done || (simpl; lia). }
  destruct (validator_set_step_total (nd_validator_set nd) (VsRotate (nd_staking_pool nd)) Hvs)
    as (vs & Hstep & Hep); [lia|].
  destruct (validator_set_step_wf _ _ _ Hvs Hstep) as [Hvs' _]. simpl in Hstep, Hep.
  apply fmap_Some in Hstep as ([vs' swaps] & -> & ->). simpl.
  destruct (distribute_eq (nd_staking_pool nd) Hst) as [-> Hsum]. simpl.
  pose proof (wf_total_u64 _ Hst). rewrite u64_sum_ok; [simpl| |zlia].
  - exists vs'. split; [done|]. split; simpl in *; done || lia.
  - rewrite fmap_app. apply Forall_app. split; apply rewards_positive.
Qed.

Lemma apply_commit_ok room h hash blk nd :
  node_ok (room + 1) nd → 0 <= room →
  (∀ b, blk = Some b → txs_ok L (blk_transactions b)) →
  ∃ nd', apply_commit env h hash blk nd = Some nd' ∧ nd_bft nd' = nd_bft nd ∧
    nd_last_block_hash nd' = hash ∧ mempool_ok (nd_mempool nd') ∧
    StateDB_wf (room * L) (nd_state_db nd') ∧ supply (nd_state_db nd') = total ∧ economy_ok room nd'.
Proof.
  intros [Hb Hm Hdb Hsup Hec] Hroom Hblk. unfold apply_commit.
  assert (∃ txs proposer, committed_transactions blk (rpc_mempool (nd_rpc nd)) = (txs, proposer) ∧ txs_ok L txs)
    as (txs & proposer & -> & Hlen & Hamounts).
  { destruct blk as [b|]; (eexists _, _; split; [done|]); [by apply Hblk|by apply pending_txs_ok]. }
  assert (StateDB_wf (room * L + Z.of_nat (length txs)) (nd_state_db nd)) as Hdb'.
  { destruct Hdb as [Ha Hs]. split; [|done]. eapply map_Forall_impl; [done|]. simpl. nia. }
  destruct (apply_block_from (room * L) txs (nd_state_db nd) [] ltac:(nia) Hdb' Hamounts)
    as (db & rs & Hrun & _ & Hdbwf & Hsup' & _).
  unfold nd_state_db in *. unfold StateDB_apply_block. rewrite Hrun. simpl.
  destruct (pool_remove_ok (Transaction_hash <$> txs) _ Hm) as (pool & Hpool & Hpool').
  unfold nd_mempool in Hpool. rewrite Hpool. simpl.
  unfold u64_mul. rewrite arith_u_ok by nia. simpl.
  destruct (update_total (Z.of_nat (length txs) * 21000) (nd_fee_market nd)) as (fm & -> & Hfm & _);
    [apply Hec|zlia|]. simpl.
  set (nd1 := tick _). destruct (epoch_boundary_ok room h nd1) as (vs & -> & Hec');
    [by destruct Hec; split|done|].
  eexists. split; [done|]. split_and!; try done. simpl. lia.
Qed.

Lemma commit_and_advance_ok room h hash nd :
  node_ok (room + 1) nd → 0 <= room < U32 → 0 <= h → h + 1 + room <= U64 - U32 →
  ∃ nd', commit_and_advance env h hash nd = Some nd' ∧ node_ok room nd'.
Proof.
  intros Hnd Hroom Hh Hhr. unfold commit_and_advance, BftStateMachine_get_committed_block.
  destruct (apply_commit_ok room h hash (sm_proposed_blocks (nd_bft nd) !! hash) nd Hnd)
    as (nd1 & -> & Hbft & _ & Hm & Hdb & Hsup & Hec); [lia| |].
  { intros b Hb. by apply (bo_blocks _ _ _ (nw_bft _ _ _ _ Hnd) hash). }
  cbn [mbind option_bind]. rewrite u64_add_ok by zlia. cbn [mbind option_bind]. rewrite Hbft.
  destruct (advance_height_ok L (h + 1) room (nd_bft nd)) as [Hs Hout]; [apply Hnd|lia..|].
  destruct (BftStateMachine_advance_height (h + 1) (nd_bft nd)) as [s out]. simpl in Hs, Hout.
  destruct (node_output_total s out (set_bft s nd1) Hout) as (bs & ts & -> & _).
  { pose proof (bft_round _ (bo_wf _ _ _ Hs)). pose proof (bo_round_room _ _ _ Hs). lia. }
  cbn [mbind option_bind].
  assert (node_ok room (set_bft s nd1)) as Hnd1 by (split; done || by destruct Hec).
  destruct (propose_if_proposer_ok room true (h + 1) 0 (spawn_timers ts (set_bft s nd1)))
    as (nd2 & -> & Hnd2); [by apply spawn_node_ok|lia|].
  simpl. eexists. split; [done|]. by apply broadcast_node_ok.
Qed.

(** The broadcasts of one answer: at most one commit, at the machine's height. *)
Lemma handle_broadcasts_ok room s bs nd :
  node_ok (room + 1) nd → 0 <= room < U32 → broadcast_ok s bs →
  0 <= sm_height s → sm_height s + 1 + room <= U64 - U32 →
  ∃ nd', fold_may_panic (handle_broadcast env) nd bs = Some nd' ∧ node_ok room nd'.
Proof.
  intros Hnd Hroom [->|[[v ->]|[hash ->]]] Hh Hhr; simpl.
  - eexists. split; [done|]. by apply (node_wf_less (room + 1)); [|lia].
  - eexists. split; [done|]. apply broadcast_node_ok. by apply (node_wf_less (room + 1)); [|lia].
  - destruct (commit_and_advance_ok room (sm_height s) hash nd) as (nd' & -> & ?); [done..|].
    by exists nd'.
Qed.

Lemma bft_ok_room_round room s : bft_ok L (room + 1) s → 0 <= room → 0 <= sm_round s < U32 ∧ room < U32.
Proof. intros [Hw _ _ _ Hr _] ?. pose proof (bft_round _ Hw). lia. Qed.

(** The end of a round of the loop: an answer of the machine is broadcast. *)
Lemma answer_handled room out nd :
  node_ok (room + 1) nd → 0 <= room → answer_ok (nd_bft nd) out →
  ∃ nd', ('(broadcasts, nd) ← node_output env out nd;
          fold_may_panic (handle_broadcast env) nd broadcasts) = Some nd' ∧ node_ok room nd'.
Proof.
  intros Hnd Hroom Hout. pose proof (nw_bft _ _ _ _ Hnd) as Hb.
  destruct (bft_ok_room_round room _ Hb Hroom) as [Hr Hroom32].
  destruct (node_output_total _ _ nd Hout Hr) as (bs & ts & -> & Hbs & _). cbn [mbind option_bind].
  apply (handle_broadcasts_ok room (nd_bft nd)); [by apply spawn_node_ok|done|done|apply Hb|].
  pose proof (bo_height_room _ _ _ Hb). lia.
Qed.

Lemma on_net_message_ok room msg nd :
  node_ok (room + 1) nd → 0 <= room → message_ok L msg →
  ∃ nd', on_net_message env msg nd = Some nd' ∧ node_ok room nd'.
Proof.
  intros Hnd Hroom Hmsg. pose proof (nw_bft _ _ _ _ Hnd) as Hb. unfold on_net_message.
  destruct (bft_ok_room_round room _ Hb Hroom) as [Hr Hroom32].
  destruct msg as [p blk|v|h hash|te].
  - destruct (on_proposal_total L (room + 1) p blk (nd_bft nd)) as (s' & out & -> & Hs' & Hout);
      [done|lia|by intros b ->|].
    cbn [mbind option_bind]. apply answer_handled; [by apply set_bft_ok|done|done].
  - destruct (v_vote_type v).
    + destruct (on_prevote_total L (room + 1) v (nd_bft nd) Hb) as (s' & out & -> & Hs' & Hout).
      cbn [mbind option_bind]. apply answer_handled; [by apply set_bft_ok|done|done].
    + destruct (on_precommit_total L (room + 1) v (nd_bft nd) Hb) as (s' & out & -> & Hs' & Hout).
      cbn [mbind option_bind]. apply answer_handled; [by apply set_bft_ok|done|done].
  - simpl in Hmsg. destruct (commit_and_advance_ok room h hash nd) as (nd' & -> & Hnd'); [done|lia..|].
    simpl. eexists. split; [reflexivity|]. by apply spawn_node_ok.
  - cbn [mbind option_bind]. apply answer_handled; [done|done|by left].
Qed.

Lemma on_timeout_event_ok room te nd :
  node_ok (room + 1) nd → 0 <= room →
  ∃ nd', on_timeout_event env te nd = Some nd' ∧ node_ok room nd'.
Proof.
  intros Hnd Hroom. pose proof (nw_bft _ _ _ _ Hnd) as Hb. unfold on_timeout_event.
  destruct (on_timeout_total L room te (nd_bft nd) Hb Hroom) as (s' & out & -> & Hs' & Hout & Hnc).
  cbn [mbind option_bind]. pose proof (bft_round _ (bo_wf _ _ _ Hs')). pose proof (bo_round_room _ _ _ Hs').
  assert (node_ok room (set_bft s' nd)) as Hnd1.
  { apply set_bft_ok; [|done]. by apply (node_wf_less (room + 1)); [|lia]. }
  destruct (node_output_total s' out (set_bft s' nd) Hout) as (bs & ts & -> & Hbs & Hbc); [lia|].
  cbn [mbind option_bind]. set (nd1 := spawn_timers ts _).
  destruct (propose_if_proposer_ok room (bool_decide (te_step te = TimeoutPrecommit))
    (sm_height (nd_bft nd1)) (sm_round (nd_bft nd1)) nd1) as (nd2 & -> & Hnd2); [by apply spawn_node_ok|done|].
  cbn [mbind option_bind]. destruct Hbs as [->|[[v ->]|[hash ->]]]; simpl.
  - by eexists.
  - eexists. split; [done|]. by apply broadcast_node_ok.
  - by destruct (Hnc (sm_height s') hash); apply Hbc.
Qed.

Lemma set_mempool_ok room p nd :
  node_ok room nd → mempool_ok p → node_ok room (set_rpc (set_mempool p (nd_rpc nd)) nd).
Proof. intros [? ? ? ? []] ?. by split. Qed.
Lemma set_tx_gossip_ok room ch nd :
  node_ok room nd → node_ok room (set_rpc (set_tx_gossip ch (nd_rpc nd)) nd).
Proof. intros [? ? ? ? []]. by split. Qed.

Lemma rpc_submit_ok room req nd :
  node_ok room nd → u64 (sr_amount req) →
  ∃ nd', on_rpc_submit req nd = Some nd' ∧ node_ok room nd'.
Proof.
  intros Hnd Ha. unfold on_rpc_submit, RpcImpl_submit_transaction.
  assert (node_ok room (set_rpc (nd_rpc nd) nd)) as Hid by (by destruct nd).
  destruct (decode_key "from" _); [|by eexists]. destruct (decode_key "to" _); [|by eexists].
  destruct (decode_field "signature" _); [|by eexists]. destruct (decode_field "data" _); [|by eexists].
  set (tx := mkTransaction _ _ _ _ _ _).
  destruct (pool_add_ok tx (rpc_mempool (nd_rpc nd))) as (p & r & -> & Hp); [apply Hnd|done|]. simpl.
  destruct r as [[]|e]; simpl; (eexists; split; [done|]); [|by apply set_mempool_ok].
  apply (set_tx_gossip_ok room _ (set_rpc (set_mempool p (nd_rpc nd)) nd)). by apply set_mempool_ok.
Qed.

Lemma node_step_ok room e nd :
  node_ok (room + 1) nd → 0 <= room → node_event_ok L e →
  ∃ nd', node_step env nd e = Some nd' ∧ node_ok room nd'.
Proof.
  intros Hnd Hroom He. assert (node_ok room nd) as Hnd0 by (by apply (node_wf_less (room + 1)); [|lia]).
  destruct e as [msg|te|tx|req|]; simpl in *.
  - by apply on_net_message_ok.
  - by apply on_timeout_event_ok.
  - unfold on_net_transaction. destruct (pool_add_ok tx (nd_mempool nd)) as (p & r & -> & Hp); [apply Hnd|done|].
    simpl. eexists. split; [done|]. by apply set_mempool_ok.
  - by apply rpc_submit_ok.
  - unfold on_gossip_ready. destruct (rpc_tx_gossip (nd_rpc nd)) as [[[|tx q] c]|]; [by eexists| |by eexists].
    eexists. split; [done|]. pose proof (set_tx_gossip_ok room (Some (mkTxChannel q c)) nd Hnd0) as [? ? ? ? []].
    by split.
Qed.

Lemma node_run_ok room es nd :
  node_ok (room + Z.of_nat (length es)) nd → 0 <= room → Forall (node_event_ok L) es →
  ∃ nd', node_run env nd es = Some nd' ∧ node_ok room nd'.
Proof.
  unfold node_run. intros Hnd Hroom Hes. revert nd Hnd.
  induction Hes as [|e es He Hes IH]; intros nd Hnd; simpl.
  { exists nd. by rewrite Z.add_0_r in Hnd. }
  destruct (node_step_ok (room + Z.of_nat (length es)) e nd) as (nd1 & -> & Hnd1); [|lia|done|].
  { by replace (room + Z.of_nat (length es) + 1) with (room + Z.of_nat (length (e :: es))) by (simpl; lia). }
  by apply IH.
Qed.
End NodeLemmas.

(** The height after a committed one is computed unchecked. *)
Lemma greatest_height_panics {OC : OverflowChecks} {C : Crypto} {B : Bincode} {HO : HashOrder} {S : Serde} {K : Clock}
    env x nd : overflow_checks = true → node_step env nd (NetMessage (CommitBlock u64_max x)) = None.
Proof.
  intros Hc. cbn [node_step]. unfold on_net_message, commit_and_advance.
  assert (u64_add u64_max 1 = None) as ->; [|by destruct (apply_commit _ _ _ _ _)].
  unfold u64_add, arith_u. by rewrite Hc.
Qed.

(** ** The start *)

Section BootLemmas.
Context {OC : OverflowChecks} {C : Crypto} {B : Bincode} {HO : HashOrder} {HL : HashOrderLaws HO}.
Context {S : Serde} {K : Clock}.

(** Genesis validators whose stakes add up within [u64] are all staked. *)
Lemma register_validators_ok gvs pool vs :
  StakingPool_wf pool → st_current_epoch pool = 0 → ValidatorSet_wf vs → vs_current_epoch vs = 0 →
  Forall (λ v, u64 (gv_initial_stake v)) gvs →
  st_total_staked pool + zsum (gv_initial_stake <$> gvs) < U64 →
  ∃ pool' vs', fold_may_panic register_genesis_validator (pool, vs) gvs = Some (pool', vs') ∧
    StakingPool_wf pool' ∧ ValidatorSet_wf vs' ∧ vs_current_epoch vs' = 0.
Proof.
  intros Hp He Hvs Hve Hst. revert pool vs Hp He Hvs Hve. induction Hst as [|gv gvs Hs Hst IH];
    intros pool vs Hp He Hvs Hve Hsum; csimpl in *; [by exists pool, vs|].
  assert (0 <= zsum (gv_initial_stake <$> gvs)) as Hnn.
  { apply zsum_nonneg, Forall_fmap. eapply Forall_impl; [done|]. simpl. intros ? Hx. zlia. }
  destruct (staking_exec_total pool (OpStake (gv_pubkey gv) (gv_initial_stake gv) Delegator))
    as [[pool1 r] Hstake]; [done|done|rewrite He; done|].
  assert (r ≠ Err StakingError_Overflow) as Hr.
  { intros ->. simpl in Hstake. unfold StakingPool_stake in Hstake. destruct (_ =? 0); [done|].
    apply bind_Some in Hstake as (u & _ & Hstake). destruct (u64_checked_add _ _) eqn:Hc; [done|].
    simpl in Hc. unfold u64_checked_add in Hc. apply checked_None in Hc. pose proof (wf_total_u64 _ Hp). zlia. }
  pose proof (staking_exec_wf _ (OpStake _ _ _) _ _ Hp Hs Hstake Hr) as Hp1. simpl in Hstake.
  set (c := VsRegister (P := StakingPool) (gv_pubkey gv) (gv_initial_stake gv) (gv_commission_rate gv) 0).
  destruct (validator_set_step_wf vs c _ Hvs eq_refl) as [Hvs1 _].
  destruct (validator_set_step_total vs c Hvs) as (vs1' & [= <-] & Hve1); [rewrite Hve; done|].
  unfold register_genesis_validator at 2. cbn [fst snd]. rewrite Hstake. cbn [mbind option_bind].
  apply IH; [done| |done|simpl in Hve1; lia|].
  - destruct (stake_ok_inv _ _ _ _ _ _ Hstake Hr) as [(-> & _)|(u & _ & _ & _ & _ & ->)]; done.
  - destruct (stake_ok_inv _ _ _ _ _ _ Hstake Hr) as [(-> & ? & _)|(u & _ & _ & _ & _ & ->)]; simpl; lia.
Qed.

Lemma fee_market_starts floor :
  u64 floor → ∃ fm, FeeMarket_new FeeConfig_default floor = Some (Ok fm) ∧ FeeMarket_wf fm.
Proof.
  intros Hf. exists (mkFeeMarket FeeConfig_default (Z.max floor 1)). split; [reflexivity|].
  apply (FeeMarket_new_wf FeeConfig_default floor); done.
Qed.

Lemma bft_init_ok L room vals idx cfg :
  vals ≠ [] → 0 <= room < U32 → bft_ok L room (bft_init 0 vals idx cfg).
Proof.
  intros Hv Hr. split; simpl; [apply bft_init_wf|done|lia|lia|lia|apply map_Forall_empty].
Qed.

(** A genesis a node starts from: valid, of the machine's widths, its stakes within
    [u64], and at least one validator with a key of the curve. *)
Record genesis_ok (g : GenesisConfig) : Prop := {
  go_wf : genesis_wf g;
  go_ratios : ratios_fit (gc_chain_params g);
  go_floor : u64 (cp_base_fee_floor (gc_chain_params g));
  go_stakes : Forall (λ v, u64 (gv_initial_stake v)) (gc_validators g);
  go_total_stake : zsum (gv_initial_stake <$> gc_validators g) < U64;
  go_keys : bft_validators g ≠ [];
}.

Lemma node_boot_ok L room g state_file validator_key key :
  100 <= L → 0 <= room < U32 → genesis_ok g →
  load_validator_key validator_key = Ok key →
  StateDB_wf (room * L) (initial_state_db g state_file) →
  ∃ env nd, node_boot g state_file validator_key = Some (Ok (env, nd)) ∧
    ne_timeout_config env = TimeoutConfig_default ∧
    Node_wf L (supply (initial_state_db g state_file)) room nd.
Proof.
  intros HL100 Hroom Hg Hkey Hdb. unfold node_boot, node_init.
  destruct (validate_genesis_iff g (go_ratios _ Hg)) as (r & -> & Hiff).
  rewrite (proj2 Hiff (go_wf _ Hg)). cbn [mbind option_bind].
  destruct (fee_market_starts _ (go_floor _ Hg)) as (fm & -> & Hfm). cbn [mbind option_bind].
  destruct (register_validators_ok (gc_validators g) StakingPool_new
    (ValidatorSetManager_with_config (mkValidatorSetConfig (cp_max_validators (gc_chain_params g))
      (cp_epoch_length (gc_chain_params g)) 1000000)))
    as (pool & vs & -> & Hpool & Hvs & Hve); [apply StakingPool_new_wf|done| |done|apply Hg|apply Hg|].
  { split; [apply map_Forall_empty|]. simpl. unfold status_set.
    rewrite map_filter_empty, dom_empty_L, size_empty. lia. }
  cbn [mbind option_bind].
  simpl rpc_state_db. rewrite (total_supply_exact _ _ Hdb). cbn [mbind option_bind].
  rewrite Hkey. cbn [mbind option_bind]. unfold node_start.
  set (idx := our_validator_index key (bft_validators g)). set (nd0 := mkNode _ _ _ _ _ _ _ _ _ _).
  set (env := mkNodeEnv _ _ _).
  change (BftStateMachine_start_round 0 (nd_bft nd0)) with
    (bft_init 0 (bft_validators g) idx TimeoutConfig_default,
     [ScheduleTimeout (mkTimeoutEvent 0 0 TimeoutPropose)]).
  pose proof (bft_init_ok L room (bft_validators g) idx TimeoutConfig_default (go_keys _ Hg) Hroom) as Hb.
  set (s := bft_init _ _ _ _) in *. cbv iota.
  assert (Node_wf L (supply (initial_state_db g state_file)) room (set_bft s nd0)) as Hnd0.
  { split; [done| |done|done|].
    - split; [apply TransactionPool_new_wf|done|constructor].
    - split; [done|done|done|simpl; lia|simpl; unfold u64_max; lia]. }
  destruct (node_output_total env eq_refl s [ScheduleTimeout (mkTimeoutEvent 0 0 TimeoutPropose)] (set_bft s nd0))
    as (bs & ts & -> & _); [right; right; right; by eexists|done|].
  cbn [mbind option_bind].
  destruct (propose_if_proposer_ok L (supply (initial_state_db g state_file)) HL100 env room true 0 0
    (spawn_timers ts (set_bft s nd0))) as (nd2 & -> & Hnd2); [by apply spawn_node_ok|lia|].
  cbn [mbind option_bind]. exists env, (broadcast bs nd2). split_and!; [done|done|by apply broadcast_node_ok].
Qed.
End BootLemmas.

(** * Properties *)

(** C1: the node runs, within bounds. Take a valid genesis whose fee ratios at
    launch and at maturity add up to less than 2^64 each, as do its stakes, and with
    a validator key on the curve; and accounts, of that genesis or of a state file,
    that add up to less than 2^64, with room in the nonces for every transaction
    that can come; and no key file or a readable one. Then the node starts, and
    fewer than 2^32 events - messages of peers, timeouts, transactions, submissions,
    in any order - do not make it panic, in a debug and in a release build, as long
    as no bare commit names a height above 2^64 - 2^33 and no proposed block has
    more than [L] transactions, where [L] is at least 100 and [L * 21000] below
    2^64. The sum of all balances then stays that of the start, and the invariants
    of the mempool, the accounts, the fee market, the staking pool, the validator
    set and the consensus machine hold at the end. Heights do need a bound: a bare
    commit of the greatest one panics any debug build. *)
Theorem node_never_panics {OC : OverflowChecks} {C : Crypto} {B : Bincode} {HO : HashOrder}
    {HL : HashOrderLaws HO} {S : Serde} {K : Clock}
    (L : Z) (g : GenesisConfig) (state_file : option (result string bytes))
    (validator_key : option (result string bytes)) (key : option bytes) (es : list node_event) :
  100 <= L → L * 21000 < U64 → Z.of_nat (length es) < U32 → genesis_ok g →
  load_validator_key validator_key = Ok key →
  StateDB_wf (Z.of_nat (length es) * L) (initial_state_db g state_file) → Forall (node_event_ok L) es →
  ∃ env nd0 nd, node_boot g state_file validator_key = Some (Ok (env, nd0)) ∧
    node_run env nd0 es = Some nd ∧ Node_wf L (supply (initial_state_db g state_file)) 0 nd ∧
    (overflow_checks = true → ∀ x, node_step env nd (NetMessage (CommitBlock u64_max x)) = None).
Proof.
  intros HL100 HLg Hlen Hg Hkey Hdb Hes.
  destruct (node_boot_ok L (Z.of_nat (length es)) g state_file validator_key key)
    as (env & nd0 & Hboot & Henv & Hnd0); [done|lia|done..|].
  destruct (node_run_ok L _ HL100 HLg env Henv 0 es nd0 Hnd0 ltac:(done) Hes) as (nd & Hrun & Hnd).
  exists env, nd0, nd. split_and!; [done..|]. intros Hchecks x. by apply greatest_height_panics.
Qed.

Definition demo_genesis : GenesisConfig :=
  mkGenesisConfig "demo" 0 (ChainParams_with_id "demo")
    ((λ i, mkGenesisValidator (toy_key (key32 i)) 2000000 500) <$> [1; 2; 3; 4])
    [mkGenesisAccount (toy_key (key32 1)) 1000; mkGenesisAccount (toy_key (key32 2)) 50] zero32.
#[local] Instance demo_clock : Clock := λ n, 1700000000 + Z.of_nat n.
Definition demo_node_tx : Transaction := demo_signed 1 60 0.
Definition demo_node_events : list node_event :=
  [NetTransaction demo_node_tx; TimeoutFired (mkTimeoutEvent 0 0 TimeoutPropose);
   TimeoutFired (mkTimeoutEvent 0 0 TimeoutPrevote); TimeoutFired (mkTimeoutEvent 0 0 TimeoutPrecommit);
   NetMessage (CommitBlock 0 (key32 9)); GossipReady].
(** A node of that genesis after some events. *)
Definition demo_node (key_file : option (result string bytes)) (es : list node_event) : option (NodeEnv * Node) :=
  started ← node_boot (OC := debug_build) (C := toy_crypto) (B := toy_bincode) (HO := forward_order)
    (S := toy_serde) demo_genesis None key_file;
  match started with
  | Ok (env, nd) =>
    nd ← node_run (OC := debug_build) (C := toy_crypto) (B := toy_bincode) (HO := forward_order)
      (S := toy_serde) env nd es;
    Some (env, nd)
  | Err _ => None
  end.

Lemma demo_genesis_ok : genesis_ok (C := toy_crypto) demo_genesis.
Proof.
  split.
  - split; try (vm_compute; discriminate); try (vm_compute; reflexivity).
    + apply (bool_decide_unpack _). vm_compute. exact I.
    + repeat constructor; vm_compute; discriminate.
  - unfold ratios_fit. repeat constructor; simpl; lia.
  - vm_compute. split; [discriminate|reflexivity].
  - repeat constructor; vm_compute; discriminate || reflexivity.
  - vm_compute. reflexivity.
  - vm_compute. discriminate.
Qed.
Lemma demo_initial_db room :
  0 <= room < U32 → StateDB_wf (room * 100) (initial_state_db (S := toy_serde) (HO := forward_order) demo_genesis None).
Proof.
  intros Hr. split; [|vm_compute; reflexivity]. unfold initial_state_db, genesis_accounts_db. simpl.
  apply map_Forall_insert_2; [simpl; lia|]. apply map_Forall_insert_2; [simpl; lia|apply map_Forall_empty].
Qed.
Lemma demo_node_ok room key_file key es :
  0 <= room → room + Z.of_nat (length es) < U32 →
  load_validator_key (S := toy_serde) key_file = Ok key → Forall (node_event_ok 100) es →
  ∃ env nd, demo_node key_file es = Some (env, nd) ∧ ne_timeout_config env = TimeoutConfig_default ∧
    Node_wf (OC := debug_build) (C := toy_crypto) (B := toy_bincode) (S := toy_serde) 100
      (supply (initial_state_db (S := toy_serde) (HO := forward_order) demo_genesis None)) room nd.
Proof.
  intros Hroom Hlen Hkey Hes. unfold demo_node.
  destruct (node_boot_ok (OC := debug_build) (C := toy_crypto) (B := toy_bincode) (HO := forward_order)
    (S := toy_serde) 100 (room + Z.of_nat (length es)) demo_genesis None key_file key) as (env & nd & -> & Henv & Hnd);
    [lia|lia|apply demo_genesis_ok|done|apply demo_initial_db; lia|]. cbn [mbind option_bind].
  destruct (node_run_ok (OC := debug_build) (C := toy_crypto) (B := toy_bincode) (HO := forward_order)
    (S := toy_serde) 100 _ ltac:(lia) ltac:(lia) env Henv room es nd Hnd Hroom Hes) as (nd' & -> & Hnd').
  by exists env, nd'.
Qed.

Lemma node_never_panics_witness :
  ∃ env nd0 nd, node_boot (OC := debug_build) (C := toy_crypto) (B := toy_bincode) (HO := forward_order)
      (S := toy_serde) demo_genesis None None = Some (Ok (env, nd0)) ∧
    node_run (OC := debug_build) (C := toy_crypto) (B := toy_bincode) (HO := forward_order) (S := toy_serde)
      env nd0 demo_node_events = Some nd ∧ supply (nd_state_db nd) = 1050.
Proof.
  destruct (node_never_panics (OC := debug_build) (C := toy_crypto) (B := toy_bincode) (HO := forward_order)
    (S := toy_serde) 100 demo_genesis None None None demo_node_events)
    as (env & nd0 & nd & Hboot & Hrun & Hnd & _); [lia|lia|reflexivity|apply demo_genesis_ok|reflexivity| | |].
  - apply demo_initial_db. simpl. lia.
  - unfold demo_node_events. repeat constructor; vm_compute; discriminate || reflexivity.
  - exists env, nd0, nd. split; [exact Hboot|]. split; [exact Hrun|].
    rewrite (nw_supply _ _ _ _ Hnd). vm_compute. reflexivity.
Defined.
(** The transaction is in the accounts of the node at the end. *)
Example demo_node_runs :
  fmap (λ '(_, nd), (br_height <$> rpc_block_store (nd_rpc nd), balance <$> nd_state_db nd !! key32 9))
    (demo_node None demo_node_events) = Some ([0], Some 60).
Proof. vm_compute. reflexivity. Qed.
