(* ===== verification/NodeFaults.v ===== *)
(** * What the node does wrong (validator/src/main.rs)

    The consequences of how [main] wires the components together: a peer's bare
    [CommitBlock] is obeyed, committed transactions stay in the mempool, stale timers
    make a proposer propose twice, and the votes do not bind a block's transactions. *)
From S2P Require Import Prelude Crypto Block Vote StateMachine State Mempool.
From S2P Require Import Staking Fees ValidatorSet Genesis Rpc Node NodeSafety.
Open Scope Z_scope.

(** ** Specification *)

(** A transaction's JSON text is never its [bincode] encoding. *)
Definition encodings_differ {B : Bincode} {S : Serde} : Prop :=
  ∀ t t' : Transaction, json_transaction t ≠ bincode_transaction t'.

(** A precommit timeout of another height or round than the machine's. *)
Definition stale (te : TimeoutEvent) (s : BftStateMachine) : Prop :=
  te_step te = TimeoutPrecommit ∧ (te_height te ≠ sm_height s ∨ te_round te ≠ sm_round s).

(** * Lemmas *)

Section Commits.
Context {OC : OverflowChecks} {C : Crypto} {B : Bincode} {HO : HashOrder} {HL : HashOrderLaws HO}.
Context {S : Serde} {K : Clock}.
Context (env : NodeEnv).

Lemma epoch_boundary_inv h nd nd' :
  epoch_boundary env h nd = Some nd' → ∃ vs, nd' = set_validator_set vs nd.
Proof.
  unfold epoch_boundary. destruct (_ && _); [|intros [= <-]; exists (nd_validator_set nd); by destruct nd].
  intros ([vs swaps] & _ & (rewards & _ & (t & _ & [= <-])%bind_Some)%bind_Some)%bind_Some. by exists vs.
Qed.

(** What a commit does to the accounts, the pool and the stored blocks. *)
Lemma apply_commit_inv h hash blk nd nd' :
  apply_commit env h hash blk nd = Some nd' →
  let txs := (committed_transactions blk (nd_mempool nd)).1 in
  (∃ receipts, StateDB_apply_block txs (nd_state_db nd) = Some (nd_state_db nd', receipts)) ∧
  TransactionPool_remove_committed (Transaction_hash <$> txs) (nd_mempool nd) = Some (nd_mempool nd') ∧
  nd_bft nd' = nd_bft nd ∧ nd_last_block_hash nd' = hash ∧ nd_sent nd' = nd_sent nd ∧
  ∃ stored, rpc_block_store (nd_rpc nd') = rpc_block_store (nd_rpc nd) ++ [stored] ∧
    br_height stored = h ∧ br_block_hash stored = to_hex hash ∧ br_tx_count stored = Z.of_nat (length txs).
Proof.
  unfold apply_commit, nd_mempool, nd_state_db.
  destruct (committed_transactions blk (rpc_mempool (nd_rpc nd))) as [txs proposer]. simpl.
  intros ([db receipts] & Hdb & (pool & Hpool & (gas & _ & (fm & _ & (vs & ->)%epoch_boundary_inv)%bind_Some)
    %bind_Some)%bind_Some)%bind_Some.
  split_and!; [by eexists|done|done|done|done|]. simpl. by eexists.
Qed.

Lemma propose_block_inv sk h r parent nd nd' :
  propose_block sk h r parent nd = Some nd' →
  ∃ block out, build_block (clock (nd_clock_reads nd)) h parent (ed_verifying_key sk)
      (TransactionPool_get_pending_ordered 100 (nd_mempool nd)) (nd_state_db nd) = Some block ∧
    let p := sign_proposal h r (Block_hash block) sk in
    BftStateMachine_on_proposal p (Some block) (nd_bft nd) = Some (nd_bft nd', out) ∧
    nd' = broadcast [ProposeBlock p (Some block)] (set_bft (nd_bft nd') (tick nd)).
Proof.
  unfold propose_block. intros (block & Hblock & Hp)%bind_Some.
  apply bind_Some in Hp as ([s' out] & Hp & [= <-]). by exists block, out.
Qed.

(** A proposal keeps the machine at its height. *)
Lemma on_proposal_height p blk s s' out :
  BftStateMachine_on_proposal p blk s = Some (s', out) → sm_height s' = sm_height s ∧ sm_round s' = sm_round s.
Proof. by intros (? & ? & _)%on_proposal_moves. Qed.

Lemma propose_if_proposer_inv cond h r nd nd' :
  propose_if_proposer env cond h r nd = Some nd' →
  nd' = nd ∨ ∃ sk, ne_signing_key env = Some sk ∧ propose_block sk h r (nd_last_block_hash nd) nd = Some nd'.
Proof.
  unfold propose_if_proposer. intros (b & _ & Hp)%bind_Some.
  destruct (b && cond); [|left; by simplify_eq]. destruct (ne_signing_key env) as [sk|]; [|left; by simplify_eq].
  right. by exists sk.
Qed.

Lemma propose_if_proposer_keeps cond h r nd nd' :
  propose_if_proposer env cond h r nd = Some nd' →
  nd_rpc nd' = nd_rpc nd ∧ sm_height (nd_bft nd') = sm_height (nd_bft nd) ∧
  nd_last_block_hash nd' = nd_last_block_hash nd.
Proof.
  intros [->|(sk & _ & (block & out & _ & Hp & Hnd)%propose_block_inv)]%propose_if_proposer_inv; [done|].
  rewrite Hnd. simpl. by apply on_proposal_height in Hp as [? _].
Qed.

Lemma node_output_inv msgs nd bs nd' :
  node_output env msgs nd = Some (bs, nd') → ∃ ts, nd' = spawn_timers ts nd.
Proof. unfold node_output. intros ([bs' ts] & _ & [= <- <-])%bind_Some. by exists ts. Qed.

(** ** A peer's bare commit *)

Lemma commit_and_advance_inv h hash nd nd' :
  0 <= h < u64_max → commit_and_advance env h hash nd = Some nd' →
  let txs := (committed_transactions (sm_proposed_blocks (nd_bft nd) !! hash) (nd_mempool nd)).1 in
  sm_height (nd_bft nd') = h + 1 ∧ nd_last_block_hash nd' = hash ∧
  (∃ receipts, StateDB_apply_block txs (nd_state_db nd) = Some (nd_state_db nd', receipts)) ∧
  TransactionPool_remove_committed (Transaction_hash <$> txs) (nd_mempool nd) = Some (nd_mempool nd') ∧
  ∃ stored, rpc_block_store (nd_rpc nd') = rpc_block_store (nd_rpc nd) ++ [stored] ∧
    br_height stored = h ∧ br_block_hash stored = to_hex hash ∧ br_tx_count stored = Z.of_nat (length txs).
Proof.
  intros Hh (nd1 & Hc & Hrest)%bind_Some. apply apply_commit_inv in Hc as (Hdb & Hpool & Hbft & Hlast & _ & Hst).
  rewrite u64_add_ok in Hrest by zlia. cbn [mbind option_bind] in Hrest.
  destruct (BftStateMachine_advance_height (h + 1) (nd_bft nd1)) as [s out] eqn:Hadv.
  apply bind_Some in Hrest as ([bs nd2] & Ho & Hrest). apply node_output_inv in Ho as (ts & ->).
  apply bind_Some in Hrest as (nd3 & Hp & [= <-]). apply propose_if_proposer_keeps in Hp as (Hr & Hhh & Hl).
  unfold nd_state_db, nd_mempool in *. simpl in *. rewrite Hr. simpl.
  split_and!; [|by rewrite Hl|done|done|done]. rewrite Hhh.
  by injection Hadv as <- _.
Qed.
Lemma advance_height_timeout h s :
  BftStateMachine_advance_height h s =
    ((BftStateMachine_advance_height h s).1, [ScheduleTimeout (mkTimeoutEvent h 0 TimeoutPropose)]).
Proof. reflexivity. Qed.

Lemma node_output_timeout te nd bs nd' :
  node_output env [ScheduleTimeout te] nd = Some (bs, nd') → bs = [] ∧ ∃ ts, nd' = spawn_timers ts nd.
Proof.
  unfold node_output, process_bft_output. simpl. destruct (TimeoutConfig_timeout_for _ _ _); [|done].
  simpl. intros [= <- <-]. split; [done|]. by eexists.
Qed.

(** When the node is not the next proposer, a commit leaves the machine at the start of
    the next height and broadcasts nothing. *)
Lemma commit_not_proposer h hash nd nd' :
  0 <= h < u64_max → commit_and_advance env h hash nd = Some nd' →
  BftStateMachine_is_proposer (BftStateMachine_advance_height (h + 1) (nd_bft nd)).1 = Some false →
  nd_bft nd' = (BftStateMachine_advance_height (h + 1) (nd_bft nd)).1 ∧ nd_sent nd' = nd_sent nd.
Proof.
  intros Hh (nd1 & Hc & Hrest)%bind_Some. apply apply_commit_inv in Hc as (_ & _ & <- & _ & <- & _).
  rewrite u64_add_ok in Hrest by zlia. cbn [mbind option_bind] in Hrest. revert Hrest.
  rewrite advance_height_timeout. cbn [fst snd]. generalize (BftStateMachine_advance_height (h + 1) (nd_bft nd1)).1.
  intros s ([bs nd2] & Ho & Hrest)%bind_Some Hprop.
  apply node_output_timeout in Ho as (-> & ts & ->).
  unfold propose_if_proposer in Hrest. cbn [nd_bft spawn_timers set_bft] in Hrest. rewrite Hprop in Hrest.
  cbn [mbind option_bind andb] in Hrest. apply (inj Some) in Hrest as <-. cbn. by rewrite app_nil_r.
Qed.

Lemma commit_message_not_proposer h hash nd nd' :
  0 <= h < u64_max → node_step env nd (NetMessage (CommitBlock h hash)) = Some nd' →
  BftStateMachine_is_proposer (BftStateMachine_advance_height (h + 1) (nd_bft nd)).1 = Some false →
  nd_bft nd' = (BftStateMachine_advance_height (h + 1) (nd_bft nd)).1 ∧ nd_sent nd' = nd_sent nd.
Proof.
  intros Hh Hs Hp. simpl in Hs. unfold on_net_message in Hs.
  apply bind_Some in Hs as ([nd1 out] & (nd2 & Hc & [= <- <-])%bind_Some & Hs).
  destruct (commit_not_proposer h hash nd nd2 Hh Hc Hp) as [<- <-].
  unfold node_output in Hs. simpl in Hs. by injection Hs as <-.
Qed.

(** Back at the same height, the same proposers are expected. *)
Lemma readvanced_same h s :
  sm_height s = h → sm_round s = 0 →
  let s' := (BftStateMachine_advance_height h s).1 in
  BftStateMachine_is_proposer s' = BftStateMachine_is_proposer s ∧
  ∀ p p', proposal_ok p None s → proposal_ok p None (BftStateMachine_advance_height h (accept_proposal p' None s)).1.
Proof.
  intros Hh Hr. split.
  - unfold BftStateMachine_is_proposer, BftStateMachine_proposer_index, total_validators. simpl. by rewrite Hh, Hr.
  - intros p p' (Hph & Hpr & Hs & (i & Hi & Hlt & Hl) & _). split_and!; simpl; [congruence|congruence|done| |done].
    exists i. split; [|done]. revert Hi. unfold BftStateMachine_proposer_index, total_validators. simpl.
    by rewrite Hh, Hr.
Qed.

(** The prevote of a node that is not locked. *)
Lemma prevote_step p blk sk nd :
  proposal_ok p blk (nd_bft nd) → sm_locked_value (nd_bft nd) = None → ne_signing_key env = Some sk →
  node_step env nd (NetMessage (ProposeBlock p blk)) =
    Some (broadcast [CastVote (Vote_new Prevote (sm_height (nd_bft nd)) (sm_round (nd_bft nd))
                       (Some (p_block_hash p)) sk)]
      (spawn_timers [] (set_bft (accept_proposal p blk (nd_bft nd)) nd))).
Proof.
  intros Hok Hl Hsk. simpl. unfold on_net_message. rewrite on_proposal_accept by done.
  cbn [mbind option_bind]. unfold node_output, process_bft_output, prevote_for, prevote_hash.
  rewrite Hl, Hsk. destruct blk; reflexivity.
Qed.

(** The checks of a proposal see the header of its block only. *)
Lemma proposal_ok_any_body p hdr txs s :
  proposal_ok p None s → Block_hash (mkBlock hdr []) = p_block_hash p → proposal_ok p (Some (mkBlock hdr txs)) s.
Proof. intros (Hh & Hr & Hs & Hp & _) Hb. split_and!; try done. by intros b [= <-]. Qed.

(** ** Stale timers *)

Lemma on_proposal_keeps_turn p blk s s' out :
  BftStateMachine_on_proposal p blk s = Some (s', out) →
  sm_height s' = sm_height s ∧ sm_round s' = sm_round s ∧
  BftStateMachine_is_proposer s' = BftStateMachine_is_proposer s.
Proof. intros [[-> _]|(_ & -> & _)]%on_proposal_inv; [done|by destruct blk]. Qed.

(** The machine ignores a stale timeout; the event loop proposes all the same. *)
Lemma stale_timeout_step te sk nd nd' :
  stale te (nd_bft nd) → ne_signing_key env = Some sk → BftStateMachine_is_proposer (nd_bft nd) = Some true →
  node_step env nd (TimeoutFired te) = Some nd' →
  (∃ block, bh_timestamp (blk_header block) = clock (nd_clock_reads nd) ∧
    nd_sent nd' = nd_sent nd ++ [ProposeBlock (sign_proposal (sm_height (nd_bft nd)) (sm_round (nd_bft nd))
      (Block_hash block) sk) (Some block)]) ∧
  sm_height (nd_bft nd') = sm_height (nd_bft nd) ∧ sm_round (nd_bft nd') = sm_round (nd_bft nd) ∧
  BftStateMachine_is_proposer (nd_bft nd') = Some true ∧ nd_clock_reads nd' = Datatypes.S (nd_clock_reads nd).
Proof.
  intros [Hstep Hst] Hsk Hturn. simpl. unfold on_timeout_event, BftStateMachine_on_timeout.
  assert (negb (te_height te =? sm_height (nd_bft nd)) || negb (te_round te =? sm_round (nd_bft nd)) = true) as ->.
  { destruct Hst; [destruct (te_height te =? _) eqn:E|destruct (te_round te =? _) eqn:E]; rewrite ?orb_true_r; zlia || done. }
  cbn [mbind option_bind]. unfold node_output, process_bft_output. cbn [fold_may_panic mbind option_bind].
  unfold propose_if_proposer. cbn [nd_bft spawn_timers set_bft]. rewrite Hturn, bool_decide_eq_true_2 by done.
  cbn [mbind option_bind andb]. rewrite Hsk. intros (nd1 & Hp & [= <-])%bind_Some.
  apply propose_block_inv in Hp as (block & out & Hblock & Hon & ->). simpl in *.
  apply on_proposal_keeps_turn in Hon as (-> & -> & ->). split_and!; try done.
  exists block. split; [|done]. unfold build_block in Hblock.
  by apply bind_Some in Hblock as (root & _ & [= <-]).
Qed.
End Commits.

(** ** The mempool *)

Section Pool.
Context {OC : OverflowChecks} {C : Crypto} {B : Bincode} {HO : HashOrder} {HL : HashOrderLaws HO} {S : Serde}.

(** Removing by hashes none of which is a pending transaction's removes nothing. *)
Lemma remove_strangers hs p p' :
  mempool_ok p → TransactionPool_remove_committed hs p = Some p' →
  (∀ ptx, ptx ∈ all_pending p → compute_tx_hash (pt_tx ptx) ∉ hs) →
  (all_pending p' ≡ₚ all_pending p) ∧ pool_known_hashes p' = pool_known_hashes p ∧
  pool_total_count p' = pool_total_count p.
Proof.
  intros [Hwf Hs _] Hr Hno. destruct (remove_committed_eq hs p Hwf Hs) as (p1 & Hr1 & Hwf1 & _ & Hp).
  rewrite Hr in Hr1. injection Hr1 as <-.
  assert (all_pending p' ≡ₚ all_pending p) as Hpp.
  { rewrite Hp. unfold retain_uncommitted. rewrite filter_all; [done|]. intros x Hx.
    rewrite elem_of_list_to_set. by apply Hno. }
  split; [done|]. split.
  - apply set_eq. intros h. by rewrite (pool_hashes _ Hwf1), (pool_hashes _ Hwf), Hpp.
  - by rewrite (pool_total _ Hwf1), (pool_total _ Hwf), Hpp.
Qed.

(** The pool's hash of a pending transaction is a block's hash of a transaction only
    by a collision. *)
Lemma pool_hash_not_committed txs p :
  encodings_differ →
  (∀ ptx, ptx ∈ all_pending p → compute_tx_hash (pt_tx ptx) ∉ Transaction_hash <$> txs) ∨
  sha256_collision ((json_transaction ∘ pt_tx) <$> all_pending p) (bincode_transaction <$> txs).
Proof.
  intros Hd. destruct (decide (Exists (λ ptx, compute_tx_hash (pt_tx ptx) ∈ Transaction_hash <$> txs) (all_pending p)))
    as [(ptx & Hin & (tx & Hh & Htx)%list_elem_of_fmap)%Exists_exists|Hno].
  - right. exists (json_transaction (pt_tx ptx)), (bincode_transaction tx). split_and!; [|by apply list_elem_of_fmap_2|by apply Hd|done].
    by apply (list_elem_of_fmap_2 (json_transaction ∘ pt_tx)).
  - left. intros ptx Hin Hh. apply Hno, Exists_exists. by exists ptx.
Qed.
End Pool.

(** * Properties *)

(** A bare commit is obeyed.  One message [CommitBlock] from any peer, with any
    hash and with no vote behind it, is executed at once: the transactions of the
    cached block, or else up to a hundred of the node's own mempool, are applied to
    the accounts, the hash becomes the last block's, a block with the peer's height
    is stored, and the machine moves to the height after it, forwards or backwards. *)
Theorem forged_commit_obeyed {OC : OverflowChecks} {C : Crypto} {B : Bincode} {HO : HashOrder}
    {HL : HashOrderLaws HO} {S : Serde} {K : Clock} (L total room : Z) (env : NodeEnv) (nd : Node)
    (h : Height) (hash : BlockHash) :
  100 <= L → L * 21000 < U64 → ne_timeout_config env = TimeoutConfig_default →
  Node_wf L total (room + 1) nd → 0 <= room → 0 <= h <= U64 - 2 * U32 →
  ∃ nd', node_step env nd (NetMessage (CommitBlock h hash)) = Some nd' ∧
    let txs := (committed_transactions (sm_proposed_blocks (nd_bft nd) !! hash) (nd_mempool nd)).1 in
    sm_height (nd_bft nd') = h + 1 ∧ nd_last_block_hash nd' = hash ∧
    (∃ receipts, StateDB_apply_block txs (nd_state_db nd) = Some (nd_state_db nd', receipts)) ∧
    ∃ stored, rpc_block_store (nd_rpc nd') = rpc_block_store (nd_rpc nd) ++ [stored] ∧
      br_height stored = h ∧ br_block_hash stored = to_hex hash ∧ br_tx_count stored = Z.of_nat (length txs).
Proof.
  intros HL1 HL2 Henv Hnd Hroom Hh.
  pose proof (bft_ok_room_round L room _ (nw_bft _ _ _ _ Hnd) Hroom) as [_ Hr32].
  destruct (commit_and_advance_ok L total HL1 HL2 env Henv room h hash nd Hnd) as (nd' & Hc & Hnd'); [lia..|].
  pose proof (commit_and_advance_inv env h hash nd nd' ltac:(unfold u64_max; lia) Hc) as (Hh' & Hl & Hdb & _ & Hst).
  exists (spawn_timers [] nd'). split; [|by split_and!]. simpl. unfold on_net_message. rewrite Hc. reflexivity.
Qed.

Lemma forged_commit_obeyed_witness :
  ∃ env nd nd', demo_node None [NetTransaction demo_node_tx] = Some (env, nd) ∧
    node_step (OC := debug_build) (C := toy_crypto) (B := toy_bincode) (HO := forward_order) (S := toy_serde)
      (K := demo_clock) env nd (NetMessage (CommitBlock 7 (key32 9))) = Some nd' ∧
    sm_height (nd_bft nd') = 8 ∧ nd_last_block_hash nd' = key32 9.
Proof.
  destruct (demo_node_ok 1 None None [NetTransaction demo_node_tx]) as (env & nd & Hboot & Henv & Hnd);
    [lia|simpl; lia|reflexivity|repeat constructor; vm_compute; discriminate || reflexivity|].
  destruct (forged_commit_obeyed (OC := debug_build) (C := toy_crypto) (B := toy_bincode) (HO := forward_order)
    (S := toy_serde) (K := demo_clock) 100 _ 0 env nd 7 (key32 9) ltac:(lia) ltac:(lia) Henv Hnd
    ltac:(lia) ltac:(lia)) as (nd' & Hstep & Hh & Hl & _).
  exists env, nd, nd'. exact (conj Hboot (conj Hstep (conj Hh Hl))).
Defined.

(** C19: a bare commit makes an honest node sign twice.  A validator that is asked to prevote
    for one proposal, is sent a bare commit of the height before, and is then shown
    another proposal for the same height and round, signs and broadcasts two prevotes
    for two blocks: the double vote that is punished by slashing. *)
Theorem forged_commit_forces_double_vote {OC : OverflowChecks} {C : Crypto} {CL : CryptoLaws C} {B : Bincode}
    {HO : HashOrder} {HL : HashOrderLaws HO} {S : Serde} {K : Clock} (L total : Z) (env : NodeEnv)
    (nd : Node) (sk : bytes) (p1 p2 : Proposal) (hash : BlockHash) :
  100 <= L → L * 21000 < U64 → ne_timeout_config env = TimeoutConfig_default →
  Node_wf L total 3 nd → ne_signing_key env = Some sk →
  1 <= sm_height (nd_bft nd) <= U64 - 2 * U32 → sm_round (nd_bft nd) = 0 →
  sm_locked_value (nd_bft nd) = None → BftStateMachine_is_proposer (nd_bft nd) = Some false →
  proposal_ok p1 None (nd_bft nd) → proposal_ok p2 None (nd_bft nd) → p_block_hash p1 ≠ p_block_hash p2 →
  ∃ nd' v1 v2, node_run env nd [NetMessage (ProposeBlock p1 None);
      NetMessage (CommitBlock (sm_height (nd_bft nd) - 1) hash); NetMessage (ProposeBlock p2 None)] = Some nd' ∧
    nd_sent nd' = nd_sent nd ++ [CastVote v1; CastVote v2] ∧
    v_validator v1 = ed_verifying_key sk ∧ v_validator v2 = ed_verifying_key sk ∧
    Vote_verify v1 = true ∧ Vote_verify v2 = true ∧ v_vote_type v1 = v_vote_type v2 ∧
    v_height v1 = v_height v2 ∧ v_round v1 = v_round v2 ∧ v_block_hash v1 ≠ v_block_hash v2.
Proof.
  intros HL1 HL2 Henv Hnd Hsk Hh Hr0 Hlock Hprop Hok1 Hok2 Hne. set (h := sm_height (nd_bft nd)) in *.
  destruct (node_run_ok L total HL1 HL2 env Henv 0 [NetMessage (ProposeBlock p1 None);
      NetMessage (CommitBlock (h - 1) hash); NetMessage (ProposeBlock p2 None)] nd Hnd ltac:(done)) as (nd' & Hrun & _).
  { repeat constructor; simpl; lia. }
  pose proof Hrun as Hrun'. unfold node_run in Hrun'. cbn [fold_may_panic] in Hrun'.
  rewrite (prevote_step env p1 None sk nd Hok1 Hlock Hsk) in Hrun'. cbn [mbind option_bind] in Hrun'.
  apply bind_Some in Hrun' as (nd2 & Hc & Hrun'). destruct (readvanced_same h (nd_bft nd) eq_refl Hr0) as [Hpr Hre].
  apply commit_message_not_proposer in Hc as [Hb2 Hsent2]; [|unfold u64_max; lia|].
  2: { replace (h - 1 + 1) with h by lia. rewrite <-Hprop, <-Hpr. reflexivity. }
  replace (h - 1 + 1) with h in Hb2 by lia.
  rewrite (prevote_step env p2 None sk nd2) in Hrun'; [|rewrite Hb2; by apply (Hre p2 p1)|by rewrite Hb2|done].
  cbn [mbind option_bind] in Hrun'. injection Hrun' as <-.
  eexists _, _, _. split; [exact Hrun|]. simpl. rewrite Hsent2, Hb2. simpl. rewrite <-app_assoc.
  split; [reflexivity|]. unfold Vote_verify. simpl. rewrite Hr0.
  split_and!; try done; try apply ed_verify_sign. congruence.
Qed.

(** The first of four validators, after the commit of height 0; the second proposes. *)
Definition demo_key_file : option (result string bytes) := Some (Ok (key32 1)).
Definition demo_proposal_for (hash : BlockHash) : Proposal :=
  mkProposal 1 0 hash (toy_key (key32 2)) [] None.
Definition demo_facts (x : NodeEnv * Node) :=
  let s := nd_bft x.2 in
  (ne_signing_key x.1, (sm_height s, sm_round s, sm_step s, sm_locked_value s),
   BftStateMachine_is_proposer (OC := debug_build) s, sm_validators s).
Lemma demo_proposal_ok hash (s : BftStateMachine) :
  sm_height s = 1 → sm_round s = 0 → sm_step s = StepPropose →
  sm_validators s = (λ i, toy_key (key32 i)) <$> [1; 2; 3; 4] →
  proposal_ok (OC := debug_build) (C := toy_crypto) (B := toy_bincode) (demo_proposal_for hash) None s.
Proof.
  intros Hh Hr Hs Hv. split_and!; [done|done|done| |done]. exists 1.
  unfold BftStateMachine_proposer_index, total_validators. rewrite Hh, Hr, Hv.
  split; [reflexivity|]. split; [reflexivity|]. vm_compute. reflexivity.
Qed.
Lemma demo_node_facts env nd :
  demo_node demo_key_file [NetMessage (CommitBlock 0 (key32 9))] = Some (env, nd) →
  ne_signing_key env = Some (key32 1) ∧ sm_height (nd_bft nd) = 1 ∧ sm_round (nd_bft nd) = 0 ∧
  sm_step (nd_bft nd) = StepPropose ∧ sm_locked_value (nd_bft nd) = None ∧
  BftStateMachine_is_proposer (OC := debug_build) (nd_bft nd) = Some false ∧
  sm_validators (nd_bft nd) = (λ i, toy_key (key32 i)) <$> [1; 2; 3; 4].
Proof.
  intros Hboot.
  assert (Some (demo_facts (env, nd)) = Some (Some (key32 1), (1, 0, StepPropose, None), Some false,
    (λ i, toy_key (key32 i)) <$> [1; 2; 3; 4])) as Hfacts.
  { change (Some (demo_facts (env, nd))) with (demo_facts <$> Some (env, nd)). rewrite <-Hboot.
    vm_compute. reflexivity. }
  unfold demo_facts in Hfacts. cbn [fst snd] in Hfacts. apply (inj Some) in Hfacts.
  apply pair_eq in Hfacts as [Hfacts Hv]. apply pair_eq in Hfacts as [Hfacts Hp].
  apply pair_eq in Hfacts as [Hk Hf]. injection Hf as Hh Hr Hs Hl. by split_and!.
Qed.
Lemma forged_commit_forces_double_vote_witness :
  ∃ env nd nd' v1 v2, demo_node demo_key_file [NetMessage (CommitBlock 0 (key32 9))] = Some (env, nd) ∧
    node_run (OC := debug_build) (C := toy_crypto) (B := toy_bincode) (HO := forward_order) (S := toy_serde)
      (K := demo_clock) env nd [NetMessage (ProposeBlock (demo_proposal_for (key32 70)) None);
        NetMessage (CommitBlock (sm_height (nd_bft nd) - 1) (key32 9));
        NetMessage (ProposeBlock (demo_proposal_for (key32 71)) None)] = Some nd' ∧
    nd_sent nd' = nd_sent nd ++ [CastVote v1; CastVote v2] ∧ v_block_hash v1 ≠ v_block_hash v2.
Proof.
  destruct (demo_node_ok 3 demo_key_file (Some (key32 1)) [NetMessage (CommitBlock 0 (key32 9))])
    as (env & nd & Hboot & Henv & Hnd); [lia|simpl; lia|vm_compute; reflexivity| |].
  { repeat constructor; vm_compute; discriminate. }
  destruct (demo_node_facts env nd Hboot) as (Hk & Hh & Hr & Hs & Hl & Hp & Hv).
  assert (1 <= sm_height (nd_bft nd) <= U64 - 2 * U32) as Hh1 by (rewrite Hh; lia).
  pose proof (demo_proposal_ok (key32 70) _ Hh Hr Hs Hv) as Hok1.
  pose proof (demo_proposal_ok (key32 71) _ Hh Hr Hs Hv) as Hok2.
  assert (p_block_hash (demo_proposal_for (key32 70)) ≠ p_block_hash (demo_proposal_for (key32 71))) as Hne0
    by (vm_compute; discriminate).
  pose proof (forged_commit_forces_double_vote (OC := debug_build) (C := toy_crypto) (B := toy_bincode)
    (HO := forward_order) (S := toy_serde) (K := demo_clock) 100 _ env nd (key32 1)
    (demo_proposal_for (key32 70)) (demo_proposal_for (key32 71)) (key32 9) ltac:(lia) ltac:(lia) Henv Hnd Hk
    Hh1 Hr Hl Hp Hok1 Hok2 Hne0) as Hthm.
  destruct Hthm as (nd' & v1 & v2 & Hrun & Hsent & _ & _ & _ & _ & _ & _ & _ & Hne).
  exists env, nd, nd', v1, v2. exact (conj Hboot (conj Hrun (conj Hsent Hne))).
Defined.

(** C22: committed transactions are never removed from the mempool.  The commit removes
    the transactions with the hashes of their [bincode] encodings, but the pool files
    them under the hash of their JSON text: after any commit the pool holds exactly
    the same transactions, to be proposed again in every later block - unless one of
    those texts collides with one of those encodings. *)
Theorem committed_transactions_stay_pending {OC : OverflowChecks} {C : Crypto} {B : Bincode} {HO : HashOrder}
    {HL : HashOrderLaws HO} {S : Serde} {K : Clock} (env : NodeEnv) (nd nd' : Node) (h : Height)
    (hash : BlockHash) (committed_block : option Block) :
  encodings_differ → mempool_ok (nd_mempool nd) → apply_commit env h hash committed_block nd = Some nd' →
  let txs := (committed_transactions committed_block (nd_mempool nd)).1 in
  ((all_pending (nd_mempool nd') ≡ₚ all_pending (nd_mempool nd)) ∧
   pool_known_hashes (nd_mempool nd') = pool_known_hashes (nd_mempool nd) ∧
   TransactionPool_pending_count (nd_mempool nd') = TransactionPool_pending_count (nd_mempool nd)) ∨
  sha256_collision ((json_transaction ∘ pt_tx) <$> all_pending (nd_mempool nd)) (bincode_transaction <$> txs).
Proof.
  intros Hd Hm (_ & Hr & _)%apply_commit_inv. cbv zeta.
  destruct (pool_hash_not_committed (committed_transactions committed_block (nd_mempool nd)).1
    (nd_mempool nd) Hd) as [Hno|Hc]; [left|by right].
  by apply (remove_strangers _ _ _ Hm Hr).
Qed.

(** An encoding of transactions that is no JSON text. *)
Definition tagged_bincode : Bincode := {|
  bincode_transaction tx := x00 :: bincode_transaction (Bincode := toy_bincode) tx;
  bincode_header h := bincode_header (Bincode := toy_bincode) h;
|}.
Lemma committed_transactions_stay_pending_witness :
  ∃ env nd nd', demo_node None [NetTransaction demo_node_tx] = Some (env, nd) ∧
    apply_commit (OC := debug_build) (C := toy_crypto) (B := tagged_bincode) (HO := forward_order)
      (S := toy_serde) (K := demo_clock) env 1 (key32 9) None nd = Some nd' ∧
    ((all_pending (nd_mempool nd') ≡ₚ all_pending (nd_mempool nd)) ∨
     sha256_collision (C := toy_crypto) ((json_transaction (Serde := toy_serde) ∘ pt_tx) <$> all_pending (nd_mempool nd))
       (bincode_transaction (Bincode := tagged_bincode) <$>
         (committed_transactions (HO := forward_order) None (nd_mempool nd)).1)).
Proof.
  destruct (demo_node_ok 1 None None [NetTransaction demo_node_tx]) as (env & nd & Hboot & Henv & Hnd);
    [lia|simpl; lia|reflexivity|repeat constructor; vm_compute; discriminate || reflexivity|].
  assert (is_Some (x ← demo_node None [NetTransaction demo_node_tx];
    apply_commit (OC := debug_build) (C := toy_crypto) (B := tagged_bincode) (HO := forward_order)
      (S := toy_serde) (K := demo_clock) x.1 1 (key32 9) None x.2)) as [nd' Hc].
  { apply (bool_decide_unpack _). vm_compute. exact I. }
  rewrite Hboot in Hc. cbn [mbind option_bind fst snd] in Hc.
  exists env, nd, nd'. split; [exact Hboot|]. split; [exact Hc|].
  destruct (committed_transactions_stay_pending (OC := debug_build) (C := toy_crypto) (B := tagged_bincode)
    (HO := forward_order) (S := toy_serde) (K := demo_clock) env nd nd' 1 (key32 9) None
    ltac:(intros t t'; discriminate) (nw_mempool _ _ _ _ Hnd) Hc) as [(Hp & _)|Hcol];
    [left; exact Hp|right; exact Hcol].
Defined.
(** The committed transaction is still there, and has been executed. *)
Example demo_stays_pending :
  fmap (λ '(_, nd), (pt_tx <$> all_pending (nd_mempool nd), balance <$> nd_state_db nd !! key32 9))
    (demo_node None [NetTransaction demo_node_tx; NetMessage (CommitBlock 0 (key32 9))])
  = Some ([demo_node_tx], Some 60).
Proof. vm_compute. reflexivity. Qed.

(** A proposer proposes twice.  The event loop proposes on every precommit timeout
    at which it is this node's turn, also when the timeout belongs to an earlier
    round or height and the machine ignores it - and timers are never cancelled.  Two
    stale timeouts make it sign and broadcast two proposals for the same height and
    round, for two blocks that differ in their time, so that their hashes differ or
    collide. *)
Theorem stale_timeouts_propose_twice {OC : OverflowChecks} {C : Crypto} {B : Bincode} {BL : BincodeLaws B}
    {HO : HashOrder} {HL : HashOrderLaws HO} {S : Serde} {K : Clock} (L total : Z) (env : NodeEnv)
    (nd : Node) (sk : bytes) (te1 te2 : TimeoutEvent) :
  100 <= L → L * 21000 < U64 → ne_timeout_config env = TimeoutConfig_default →
  Node_wf L total 2 nd → ne_signing_key env = Some sk →
  BftStateMachine_is_proposer (nd_bft nd) = Some true → stale te1 (nd_bft nd) → stale te2 (nd_bft nd) →
  clock (nd_clock_reads nd) ≠ clock (Datatypes.S (nd_clock_reads nd)) →
  ∃ nd' p1 b1 p2 b2, node_run env nd [TimeoutFired te1; TimeoutFired te2] = Some nd' ∧
    nd_sent nd' = nd_sent nd ++ [ProposeBlock p1 (Some b1); ProposeBlock p2 (Some b2)] ∧
    p_proposer p1 = ed_verifying_key sk ∧ p_proposer p2 = ed_verifying_key sk ∧
    p_height p1 = p_height p2 ∧ p_round p1 = p_round p2 ∧ b1 ≠ b2 ∧
    (p_block_hash p1 ≠ p_block_hash p2 ∨
     sha256_collision [bincode_header (blk_header b1)] [bincode_header (blk_header b2)]).
Proof.
  intros HL1 HL2 Henv Hnd Hsk Hturn Hst1 [Hst2 Hst2'] Hclock.
  destruct (node_run_ok L total HL1 HL2 env Henv 0 [TimeoutFired te1; TimeoutFired te2] nd Hnd ltac:(done))
    as (nd' & Hrun & _); [by repeat constructor|].
  pose proof Hrun as Hrun'. unfold node_run in Hrun'. cbn [fold_may_panic] in Hrun'.
  apply bind_Some in Hrun' as (nd1 & H1 & Hrun'). apply bind_Some in Hrun' as (nd2 & H2 & [= <-]).
  destruct (stale_timeout_step env te1 sk nd nd1 Hst1 Hsk Hturn H1) as ((b1 & Ht1 & Hs1) & Hh & Hr & Hturn1 & Hc).
  assert (stale te2 (nd_bft nd1)) as Hst by (split; [done|by rewrite Hh, Hr]).
  destruct (stale_timeout_step env te2 sk nd1 nd2 Hst Hsk Hturn1 H2) as ((b2 & Ht2 & Hs2) & _).
  rewrite Hc in Ht2. assert (blk_header b1 ≠ blk_header b2) as Hne by congruence.
  exists nd2, (sign_proposal (sm_height (nd_bft nd)) (sm_round (nd_bft nd)) (Block_hash b1) sk), b1,
    (sign_proposal (sm_height (nd_bft nd1)) (sm_round (nd_bft nd1)) (Block_hash b2) sk), b2.
  split; [exact Hrun|]. rewrite Hs2, Hs1, <-app_assoc. simpl. split_and!; try done; [congruence|].
  destruct (decide (Block_hash b1 = Block_hash b2)) as [Heq|]; [right|by left].
  eexists _, _. split; [by left|]. split; [by left|]. split; [|exact Heq].
  intros Hb. by apply bincode_header_inj in Hb.
Qed.

(** The first of four validators, whose turn it is at height 4 again. *)
Definition demo_turn : list node_event := [NetMessage (CommitBlock 3 (key32 9))].
Definition demo_stale : TimeoutEvent := mkTimeoutEvent 3 0 TimeoutPrecommit.
Lemma stale_timeouts_propose_twice_witness :
  ∃ env nd nd' p1 b1 p2 b2, demo_node demo_key_file demo_turn = Some (env, nd) ∧
    node_run (OC := debug_build) (C := toy_crypto) (B := toy_bincode) (HO := forward_order) (S := toy_serde)
      (K := demo_clock) env nd [TimeoutFired demo_stale; TimeoutFired demo_stale] = Some nd' ∧
    nd_sent nd' = nd_sent nd ++ [ProposeBlock p1 (Some b1); ProposeBlock p2 (Some b2)] ∧ b1 ≠ b2.
Proof.
  destruct (demo_node_ok 2 demo_key_file (Some (key32 1)) demo_turn)
    as (env & nd & Hboot & Henv & Hnd); [lia|simpl; lia|vm_compute; reflexivity| |].
  { repeat constructor; vm_compute; discriminate. }
  assert (Some (ne_signing_key env, (sm_height (nd_bft nd), sm_round (nd_bft nd)),
    BftStateMachine_is_proposer (OC := debug_build) (nd_bft nd), nd_clock_reads nd)
    = Some (Some (key32 1), (4, 0), Some true, 3%nat)) as Hfacts.
  { change (Some (ne_signing_key env, (sm_height (nd_bft nd), sm_round (nd_bft nd)),
      BftStateMachine_is_proposer (OC := debug_build) (nd_bft nd), nd_clock_reads nd)) with
      ((λ x : NodeEnv * Node, (ne_signing_key x.1, (sm_height (nd_bft x.2), sm_round (nd_bft x.2)),
        BftStateMachine_is_proposer (OC := debug_build) (nd_bft x.2), nd_clock_reads x.2)) <$> Some (env, nd)).
    rewrite <-Hboot. vm_compute. reflexivity. }
  apply (inj Some) in Hfacts. apply pair_eq in Hfacts as [Hfacts Hc]. apply pair_eq in Hfacts as [Hfacts Hp].
  apply pair_eq in Hfacts as [Hk Hf]. injection Hf as Hh Hr.
  assert (stale demo_stale (nd_bft nd)) as Hst by (split; [reflexivity|left; rewrite Hh; discriminate]).
  assert (clock (Clock := demo_clock) (nd_clock_reads nd) ≠ clock (Clock := demo_clock) (Datatypes.S (nd_clock_reads nd)))
    as Hcl by (rewrite Hc; vm_compute; discriminate).
  pose proof (stale_timeouts_propose_twice (OC := debug_build) (C := toy_crypto) (B := toy_bincode)
    (HO := forward_order) (S := toy_serde) (K := demo_clock) 100 _ env nd (key32 1) demo_stale demo_stale
    ltac:(lia) ltac:(lia) Henv Hnd Hk Hp Hst Hst Hcl) as (nd' & p1 & b1 & p2 & b2 & Hrun & Hsent & _ & _ & _ & _ & Hne & _).
  exists env, nd, nd', p1, b1, p2, b2. exact (conj Hboot (conj Hrun (conj Hsent Hne))).
Defined.

(** C21: the votes do not bind the transactions.  The hash that is proposed, voted for and
    committed is that of the header, and no one compares the Merkle root in the header
    with the body.  Whatever transactions the proposer puts behind the header, an honest
    validator answers the proposal with the very same prevote, and on the commit of the
    hash executes those transactions: validators who agree on the block have the
    accounts that the proposer chose for each of them. *)
Theorem block_body_unbound {OC : OverflowChecks} {C : Crypto} {B : Bincode}
    {HO : HashOrder} {HL : HashOrderLaws HO} {S : Serde} {K : Clock} (L total : Z) (env : NodeEnv)
    (nd : Node) (sk : bytes) (p : Proposal) (hdr : BlockHeader) :
  100 <= L → L * 21000 < U64 → ne_timeout_config env = TimeoutConfig_default →
  Node_wf L total 2 nd → ne_signing_key env = Some sk →
  sm_locked_value (nd_bft nd) = None → proposal_ok p None (nd_bft nd) →
  Block_hash (mkBlock hdr []) = p_block_hash p →
  ∃ prevote, v_block_hash prevote = Some (p_block_hash p) ∧ v_validator prevote = ed_verifying_key sk ∧
    ∀ txs, txs_ok L txs →
      ∃ nd1 nd2 receipts, node_step env nd (NetMessage (ProposeBlock p (Some (mkBlock hdr txs)))) = Some nd1 ∧
        nd_sent nd1 = nd_sent nd ++ [CastVote prevote] ∧
        commit_and_advance env (sm_height (nd_bft nd)) (p_block_hash p) nd1 = Some nd2 ∧
        nd_last_block_hash nd2 = p_block_hash p ∧
        StateDB_apply_block txs (nd_state_db nd) = Some (nd_state_db nd2, receipts).
Proof.
  intros HL1 HL2 Henv Hnd Hsk Hlock Hok Hhash.
  pose proof (bo_height _ _ _ (nw_bft _ _ _ _ Hnd)) as Hh0. pose proof (bo_height_room _ _ _ (nw_bft _ _ _ _ Hnd)) as Hh.
  eexists (Vote_new Prevote _ _ (Some (p_block_hash p)) sk). split; [reflexivity|]. split; [reflexivity|].
  intros txs Htxs. pose proof (proposal_ok_any_body p hdr txs _ Hok Hhash) as Hok'.
  destruct (node_step_ok L total HL1 HL2 env Henv 1 (NetMessage (ProposeBlock p (Some (mkBlock hdr txs)))) nd)
    as (nd1 & Hstep & Hnd1); [done|lia|done|].
  pose proof (prevote_step env p (Some (mkBlock hdr txs)) sk nd Hok' Hlock Hsk) as Hstep'.
  rewrite Hstep in Hstep'. apply (inj Some) in Hstep'.
  destruct (commit_and_advance_ok L total HL1 HL2 env Henv 0 (sm_height (nd_bft nd)) (p_block_hash p) nd1)
    as (nd2 & Hc & _); [done|lia..|].
  pose proof (commit_and_advance_inv env (sm_height (nd_bft nd)) (p_block_hash p) nd1 nd2 ltac:(zlia) Hc)
    as (_ & Hl & (rs & Hdb) & _).
  rewrite Hstep' in Hdb. cbn [nd_bft broadcast spawn_timers set_bft accept_proposal] in Hdb.
  exists nd1, nd2, rs. split; [exact Hstep|]. split; [by rewrite Hstep'|]. split; [exact Hc|]. split; [exact Hl|].
  revert Hdb. unfold nd_mempool, nd_state_db. simpl. by rewrite lookup_insert_eq.
Qed.

(** The second of four validators proposes; the first is shown one header, with and
    without a transfer behind it. *)
Definition unbound_header : BlockHeader := mkBlockHeader 1 1000 (key32 9) (toy_key (key32 2)) zero32 zero32.
Definition unbound_proposal : Proposal :=
  demo_proposal_for (Block_hash (C := toy_crypto) (B := toy_bincode) (mkBlock unbound_header [])).
Definition unbound_run (txs : list Transaction) : list node_event :=
  [NetMessage (CommitBlock 0 (key32 9)); NetMessage (ProposeBlock unbound_proposal (Some (mkBlock unbound_header txs)));
   NetMessage (CommitBlock 1 (p_block_hash unbound_proposal))].
Lemma block_body_unbound_witness :
  ∃ env nd nd1 nd2 nd1' nd2' v, demo_node demo_key_file [NetMessage (CommitBlock 0 (key32 9))] = Some (env, nd) ∧
    let step := node_step (OC := debug_build) (C := toy_crypto) (B := toy_bincode) (HO := forward_order)
      (S := toy_serde) (K := demo_clock) env nd in
    let block txs := NetMessage (ProposeBlock unbound_proposal (Some (mkBlock unbound_header txs))) in
    let commit := commit_and_advance (OC := debug_build) (C := toy_crypto) (B := toy_bincode) (HO := forward_order)
      (S := toy_serde) (K := demo_clock) env (sm_height (nd_bft nd)) (p_block_hash unbound_proposal) in
    step (block []) = Some nd1 ∧ commit nd1 = Some nd2 ∧
    step (block [demo_node_tx]) = Some nd1' ∧ commit nd1' = Some nd2' ∧
    nd_sent nd1 = nd_sent nd ++ [CastVote v] ∧ nd_sent nd1' = nd_sent nd ++ [CastVote v] ∧
    nd_last_block_hash nd2 = nd_last_block_hash nd2'.
Proof.
  destruct (demo_node_ok 2 demo_key_file (Some (key32 1)) [NetMessage (CommitBlock 0 (key32 9))])
    as (env & nd & Hboot & Henv & Hnd); [lia|simpl; lia|vm_compute; reflexivity| |].
  { repeat constructor; vm_compute; discriminate. }
  destruct (demo_node_facts env nd Hboot) as (Hk & Hh & Hr & Hs & Hl & _ & Hv).
  pose proof (demo_proposal_ok (p_block_hash unbound_proposal) _ Hh Hr Hs Hv) as Hok.
  destruct (block_body_unbound (OC := debug_build) (C := toy_crypto) (B := toy_bincode)
    (HO := forward_order) (S := toy_serde) (K := demo_clock) 100 _ env nd (key32 1) unbound_proposal unbound_header
    ltac:(lia) ltac:(lia) Henv Hnd Hk Hl Hok eq_refl) as (v & _ & _ & Hall).
  destruct (Hall []) as (nd1 & nd2 & _ & Hst & Hsent & Hc & Hlast & _).
  { split; [simpl; lia|by apply Forall_nil_2]. }
  destruct (Hall [demo_node_tx]) as (nd1' & nd2' & _ & Hst' & Hsent' & Hc' & Hlast' & _).
  { split; [simpl; lia|repeat constructor; vm_compute; discriminate || reflexivity]. }
  exists env, nd, nd1, nd2, nd1', nd2', v. split; [exact Hboot|].
  refine (conj Hst (conj Hc (conj Hst' (conj Hc' (conj Hsent (conj Hsent' _)))))).
  exact (eq_trans Hlast (eq_sym Hlast')).
Defined.
(** The same votes and the same last block, and different balances. *)
Example demo_body_unbound :
  (λ txs, (λ '(_, nd), (nd_sent nd, nd_last_block_hash nd, balance <$> nd_state_db nd !! key32 9)) <$>
    demo_node demo_key_file (unbound_run txs)) <$> [[]; [demo_node_tx]] =
  (λ amount, (λ '(_, nd), (nd_sent nd, p_block_hash unbound_proposal, amount)) <$>
    demo_node demo_key_file (unbound_run [])) <$> [None; Some 60].
Proof. vm_compute. reflexivity. Qed.
