(* ===== verification/NodeAgreement.v ===== *)
(** * Agreement of whole nodes (validator/src/main.rs)

    The event loop refines the consensus machine: what a node does is a run of its
    machine over events it was given, the votes it sends are votes the machine asked
    for, the blocks it stores are commits of the machine or bare commits of peers.
    With the agreement of the machines (Agreement.v) this gives the agreement of nodes:
    while no peer sends bare commits, they store the same block at every height. *)
From S2P Require Import Prelude Crypto Block Vote StateMachine Agreement State Mempool.
From S2P Require Import Staking Fees ValidatorSet Genesis Rpc Node NodeSafety NodeFaults.
Open Scope Z_scope.

(** ** Specification *)

Definition votes_of (msgs : list ConsensusMessage) : list Vote :=
  omap (λ m, match m with CastVote v => Some v | _ => None end) msgs.

(** Every new height is one more than the machine's. *)
Fixpoint by_one {OC : OverflowChecks} {C : Crypto} {B : Bincode} {HO : HashOrder}
    (s : BftStateMachine) (es : list bft_event) : Prop :=
  match es with
  | [] => True
  | e :: es =>
    match e with EvAdvanceHeight h => u64_add (sm_height s) 1 = Some h | _ => True end ∧
    ∀ s' out, bft_exec s e = Some (s', out) → by_one s' es
  end.

(** No peer sends a bare commit. *)
Definition no_bare_commit (es : list node_event) : Prop := ∀ h x, NetMessage (CommitBlock h x) ∉ es.

#[local] Arguments BftStateMachine_advance_height : simpl never.

Lemma advance_exec_inv {OC : OverflowChecks} {C : Crypto} {B : Bincode} {HO : HashOrder} h s s' out :
  bft_exec s (EvAdvanceHeight h) = Some (s', out) →
  s' = (BftStateMachine_advance_height h s).1 ∧ out = [ScheduleTimeout (mkTimeoutEvent h 0 TimeoutPropose)].
Proof.
  cbn [bft_exec]. intros H. rewrite advance_height_timeout in H. apply (inj Some), pair_eq in H as [H1 H2].
  exact (conj (eq_sym H1) (eq_sym H2)).
Qed.
Lemma advance_height_height h s :
  sm_height (BftStateMachine_advance_height h s).1 = h ∧
  sm_validators (BftStateMachine_advance_height h s).1 = sm_validators s.
Proof. done. Qed.

Lemma bft_run_nil {OC : OverflowChecks} {C : Crypto} {B : Bincode} {HO : HashOrder} s :
  bft_run s [] = Some (s, []).
Proof. reflexivity. Qed.

Section Refinement.
Context {OC : OverflowChecks} {C : Crypto} {B : Bincode} {HO : HashOrder} {S : Serde} {K : Clock}.
Context (env : NodeEnv) (rcv : list node_event).

(** The votes the machine asks for, signed by the node. *)
Definition signed_votes (outs : list ConsensusMessage) : list Vote :=
  match ne_signing_key env with
  | Some sk => (λ v, sign_vote (v_vote_type v) (v_height v) (v_round v) (v_block_hash v) sk) <$> votes_of outs
  | None => []
  end.

(** Where the events of the machine come from. *)
Definition event_from (e : bft_event) : Prop :=
  match e with
  | EvProposal p b => NetMessage (ProposeBlock p b) ∈ rcv ∨
      ∃ sk h r blk, ne_signing_key env = Some sk ∧ p = sign_proposal h r (Block_hash blk) sk ∧ b = Some blk
  | EvPrevote v => NetMessage (CastVote v) ∈ rcv ∧ v_vote_type v = Prevote
  | EvPrecommit v => NetMessage (CastVote v) ∈ rcv ∧ v_vote_type v = Precommit
  | EvTimeout te => TimeoutFired te ∈ rcv
  | EvAdvanceHeight _ => True
  end.

(** A block is stored for a commit of the machine, or for a bare one of a peer. *)
Definition block_from (outs : list ConsensusMessage) (b : BlockResponse) : Prop :=
  ∃ x, br_block_hash b = to_hex x ∧
    (CommitBlock (br_height b) x ∈ outs ∨ NetMessage (CommitBlock (br_height b) x) ∈ rcv).

(** What a node sends: its own proposals, which name no [valid_round], and its votes. *)
Definition own_message (m : ConsensusMessage) : Prop :=
  match m with
  | ProposeBlock p _ => p_valid_round p = None
  | CastVote v => ∃ sk, ne_signing_key env = Some sk ∧ v_validator v = ed_verifying_key sk
  | _ => False
  end.
(** The node has sent more: own messages, whose votes satisfy [Q]. *)
Definition sends (Q : list Vote → Prop) (nd nd' : Node) : Prop :=
  ∃ ms, nd_sent nd' = nd_sent nd ++ ms ∧ Forall own_message ms ∧ Q (votes_of ms).

Record simulates (nd nd' : Node) (es : list bft_event) (outs : list ConsensusMessage) : Prop := {
  si_run : bft_run (nd_bft nd) es = Some (nd_bft nd', outs);
  si_events : Forall event_from es;
  si_sent : sends (λ ws, ws `sublist_of` signed_votes outs) nd nd';
  si_blocks : ∃ bs, rpc_block_store (nd_rpc nd') = rpc_block_store (nd_rpc nd) ++ bs ∧ Forall (block_from outs) bs;
  si_by_one : no_bare_commit rcv → by_one (nd_bft nd) es;
}.

(** * Lemmas *)

Lemma votes_of_app l1 l2 : votes_of (l1 ++ l2) = votes_of l1 ++ votes_of l2.
Proof. unfold votes_of. by rewrite omap_app. Qed.
Lemma signed_votes_app l1 l2 : signed_votes (l1 ++ l2) = signed_votes l1 ++ signed_votes l2.
Proof. unfold signed_votes. destruct (ne_signing_key env); [by rewrite votes_of_app, fmap_app|done]. Qed.

Lemma bft_run_app s es1 es2 s' outs :
  bft_run s (es1 ++ es2) = Some (s', outs) ↔
  ∃ s1 outs1 outs2, bft_run s es1 = Some (s1, outs1) ∧ bft_run s1 es2 = Some (s', outs2) ∧ outs = outs1 ++ outs2.
Proof.
  revert s s' outs. induction es1 as [|e es1 IH]; intros s s' outs; simpl.
  { split; [intros; by exists s, [], outs|]. by intros (?&?&?&[= <- <-]&?&->). }
  split.
  - intros ([s1 out] & He & Hrest)%bind_Some. apply bind_Some in Hrest as ([s2 outs'] & Hrun & [= -> <-]).
    apply IH in Hrun as (s3 & o1 & o2 & H1 & H2 & ->).
    exists s3, (out ++ o1), o2. rewrite He. simpl. rewrite H1. simpl. by rewrite app_assoc.
  - intros (s1 & o1 & o2 & ([s3 out] & He & Hrest)%bind_Some & H2 & ->).
    apply bind_Some in Hrest as ([s4 o3] & H1 & [= -> <-]). rewrite He. simpl.
    assert (bft_run s3 (es1 ++ es2) = Some (s', o3 ++ o2)) as ->; [|simpl; by rewrite app_assoc].
    apply IH. by exists s1, o3, o2.
Qed.

Lemma by_one_app s es1 es2 s1 outs1 :
  by_one s es1 → bft_run s es1 = Some (s1, outs1) → by_one s1 es2 → by_one s (es1 ++ es2).
Proof.
  revert s outs1. induction es1 as [|e es1 IH]; intros s outs1 Hb Hrun H2; simpl in *; [by simplify_eq|].
  destruct Hb as [He Hb]. split; [done|]. intros s' out Hx. rewrite Hx in Hrun. simpl in Hrun.
  apply bind_Some in Hrun as ([s3 o3] & Hrun & [= -> <-]). by eapply IH; [eapply Hb| |].
Qed.

Lemma block_from_mono outs outs' b : outs ⊆ outs' → block_from outs b → block_from outs' b.
Proof. intros Hs (x & Hx & Hc). exists x. set_solver. Qed.

Lemma sends_refl (Q : list Vote → Prop) nd nd' : nd_sent nd' = nd_sent nd → Q [] → sends Q nd nd'.
Proof. intros H HQ. exists []. rewrite app_nil_r. split; [done|]. split; [apply Forall_nil_2|done]. Qed.
Lemma sends_trans (Q1 Q2 Q : list Vote → Prop) nd1 nd2 nd3 :
  sends Q1 nd1 nd2 → sends Q2 nd2 nd3 → (∀ ws1 ws2, Q1 ws1 → Q2 ws2 → Q (ws1 ++ ws2)) → sends Q nd1 nd3.
Proof.
  intros (ms1 & H1 & O1 & W1) (ms2 & H2 & O2 & W2) HQ. exists (ms1 ++ ms2). rewrite votes_of_app.
  split; [by rewrite H2, H1, app_assoc|]. split; [by apply Forall_app|]. by apply HQ.
Qed.
Lemma sends_mono (Q Q' : list Vote → Prop) nd nd' : sends Q nd nd' → (∀ ws, Q ws → Q' ws) → sends Q' nd nd'.
Proof. intros (ms & H & O & W) HQ. exists ms. auto. Qed.
(** What is sent after a silence. *)
Lemma sends_silent Q nd nd1 nd' : sends (λ ws, ws = []) nd nd1 → sends Q nd1 nd' → sends Q nd nd'.
Proof. intros H1 H2. eapply sends_trans; [exact H1|exact H2|]. by intros ? ? ->. Qed.

Lemma simulates_refl nd nd' :
  nd_bft nd' = nd_bft nd → nd_sent nd' = nd_sent nd →
  rpc_block_store (nd_rpc nd') = rpc_block_store (nd_rpc nd) → simulates nd nd' [] [].
Proof.
  intros H1 H2 H3. split.
  - by rewrite H1.
  - apply Forall_nil_2.
  - apply sends_refl; [done|]. apply sublist_nil_l.
  - exists []. rewrite app_nil_r. split; [done|]. apply Forall_nil_2.
  - done.
Qed.

Lemma simulates_trans nd1 nd2 nd3 es1 es2 outs1 outs2 :
  simulates nd1 nd2 es1 outs1 → simulates nd2 nd3 es2 outs2 →
  simulates nd1 nd3 (es1 ++ es2) (outs1 ++ outs2).
Proof.
  intros [R1 E1 V1 (bs1 & B1 & F1) O1] [R2 E2 V2 (bs2 & B2 & F2) O2]. split.
  - apply bft_run_app. by exists (nd_bft nd2), outs1, outs2.
  - by apply Forall_app.
  - eapply sends_trans; [exact V1|exact V2|]. intros ws1 ws2 W1 W2. rewrite signed_votes_app. by apply sublist_app.
  - exists (bs1 ++ bs2). rewrite B2, B1, app_assoc. split; [done|]. apply Forall_app. split.
    + eapply Forall_impl; [exact F1|]. intros b. apply block_from_mono. set_solver.
    + eapply Forall_impl; [exact F2|]. intros b. apply block_from_mono. set_solver.
  - intros Hn. eapply by_one_app; eauto.
Qed.

(** What a handler of the machine answers. *)
Lemma bft_exec_answer s e s' out :
  stays_at_height e = true → bft_exec s e = Some (s', out) →
  sm_height s' = sm_height s ∧ sm_validators s' = sm_validators s ∧
  (out = [] ∨ (∃ te, out = [ScheduleTimeout te]) ∨ (∃ v, out = [CastVote v] ∧ v_height v = sm_height s) ∨
   ∃ x, out = [CommitBlock (sm_height s) x]).
Proof.
  intros Hst He. destruct e as [p blk|v|v|te|]; [..|done]; simpl in He.
  - apply on_proposal_inv in He as [[-> ->]|(_ & -> & ->)]; [by auto|].
    split; [by destruct blk|]. split; [by destruct blk|]. right. right. left. by eexists.
  - injection He as He. revert He. unfold BftStateMachine_on_prevote.
    repeat case_match; intros; simplify_eq; (split; [done|]; split; [done|]); eauto 8.
  - injection He as He. revert He. unfold BftStateMachine_on_precommit.
    repeat case_match; intros; simplify_eq; (split; [done|]; split; [done|]); eauto 8.
  - revert He. unfold BftStateMachine_on_timeout. destruct (_ || _); [intros; simplify_eq; by auto|].
    destruct (te_step te); (destruct (bool_decide _); [|intros; simplify_eq; by auto]).
    + intros; simplify_eq. split; [done|]. split; [done|]. eauto.
    + intros (first & _ & ?)%bind_Some. simplify_eq. split; [done|]. split; [done|]. eauto 8.
    + intros (nr & _ & Heq)%bind_Some. unfold BftStateMachine_start_round in Heq. simplify_eq.
      split; [done|]. split; [done|]. eauto.
Qed.

Lemma propose_sim cond h r nd nd' :
  propose_if_proposer env cond h r nd = Some nd' →
  ∃ es outs, simulates nd nd' es outs ∧ (length es <= 1)%nat ∧ sm_height (nd_bft nd') = sm_height (nd_bft nd) ∧
    sends (λ ws, ws = []) nd nd' ∧
    rpc_block_store (nd_rpc nd') = rpc_block_store (nd_rpc nd).
Proof.
  intros [->|(sk & Hsk & Hp)]%propose_if_proposer_inv.
  { exists [], []. split; [by apply simulates_refl|]. split; [simpl; lia|]. split; [done|].
    split; [by apply sends_refl|done]. }
  apply propose_block_inv in Hp as (blk & out & _ & Hp & Hnd).
  set (p := sign_proposal h r (Block_hash blk) sk) in *.
  assert (sends (λ ws, ws = []) nd nd') as Hsends.
  { rewrite Hnd. exists [ProposeBlock p (Some blk)]. split; [done|]. split; [|done].
    apply Forall_cons. split; [done|by apply Forall_nil_2]. }
  exists [EvProposal p (Some blk)], (out ++ []).
  split; [|split; [simpl; lia|]; split; [by apply on_proposal_height in Hp as [? _]|];
    split; [done|by rewrite Hnd]].
  split.
  - simpl. rewrite Hp. simpl. done.
  - apply Forall_cons. split; [|by apply Forall_nil_2]. right. by exists sk, h, r, blk.
  - eapply sends_mono; [exact Hsends|]. intros ws ->. apply sublist_nil_l.
  - exists []. rewrite Hnd, app_nil_r. split; [done|]. apply Forall_nil_2.
  - intros _. by split.
Qed.

(** A commit: the machine moves to the next height, and a block is stored. *)
Lemma commit_sim h x nd nd' :
  commit_and_advance env h x nd = Some nd' →
  ∃ es outs b, bft_run (nd_bft nd) es = Some (nd_bft nd', outs) ∧ Forall event_from es ∧
    sends (λ ws, ws = []) nd nd' ∧
    rpc_block_store (nd_rpc nd') = rpc_block_store (nd_rpc nd) ++ [b] ∧
    br_height b = h ∧ br_block_hash b = to_hex x ∧ (length es <= 2)%nat ∧
    (sm_height (nd_bft nd) = h → no_bare_commit rcv → by_one (nd_bft nd) es).
Proof.
  intros (nd1 & Hc & Hrest)%bind_Some. apply apply_commit_inv in Hc as (_ & _ & Hbft & _ & Hsent & b & Hb & Hbh & Hbx & _).
  apply bind_Some in Hrest as (h' & Hh' & Hrest). revert Hrest. rewrite advance_height_timeout, Hbft. cbn [fst snd].
  intros ([bs nd2] & Ho & Hrest)%bind_Some. apply node_output_timeout in Ho as (-> & ts & ->).
  apply bind_Some in Hrest as (nd3 & Hp & [= <-]).
  apply propose_sim in Hp as (es & outs & [Hrun Hev _ _ Hone] & Hlen & _ & Hv & Hbs).
  cbn [nd_bft nd_sent nd_rpc spawn_timers set_bft broadcast] in *.
  exists (EvAdvanceHeight h' :: es), ([ScheduleTimeout (mkTimeoutEvent h' 0 TimeoutPropose)] ++ outs), b.
  split_and!; [|by apply Forall_cons| | |done|done|simpl; lia|].
  - cbn [bft_run bft_exec mbind option_bind]. rewrite advance_height_timeout. cbn [mbind option_bind fst snd].
    rewrite Hrun. done.
  - eapply sends_silent; [apply sends_refl; [exact Hsent|done]|]. destruct Hv as (ms & Hms & Hrest).
    exists ms. cbn [nd_sent broadcast]. rewrite app_nil_r. split; [exact Hms|exact Hrest].
  - by rewrite Hbs, Hb.
  - intros Hh Hn. cbn [by_one]. rewrite Hh. split; [done|]. intros s' out [-> ->]%advance_exec_inv. by apply Hone.
Qed.

Lemma sim_machine_step e nd s' out nd1 :
  bft_exec (nd_bft nd) e = Some (s', out) → stays_at_height e = true → event_from e →
  nd_bft nd1 = s' → nd_sent nd1 = nd_sent nd →
  rpc_block_store (nd_rpc nd1) = rpc_block_store (nd_rpc nd) → simulates nd nd1 [e] out.
Proof.
  intros He Hst Hev H1 H2 H3. split.
  - simpl. rewrite He, H1. simpl. by rewrite app_nil_r.
  - apply Forall_cons. split; [done|apply Forall_nil_2].
  - apply sends_refl; [done|]. apply sublist_nil_l.
  - exists []. rewrite app_nil_r. split; [done|]. apply Forall_nil_2.
  - intros _. split; [by destruct e|done].
Qed.

(** More votes can be said to be sent, if they are signed answers not yet counted: here,
    those of a simulation that has sent none. *)
Lemma sim_sends nd nd1 nd2 es outs :
  simulates nd nd1 es outs → sends (λ ws, ws = []) nd nd1 →
  nd_bft nd2 = nd_bft nd1 → rpc_block_store (nd_rpc nd2) = rpc_block_store (nd_rpc nd1) →
  sends (λ ws, ws `sublist_of` signed_votes outs) nd1 nd2 → simulates nd nd2 es outs.
Proof.
  intros [R E _ Bl O] Hs H1 H2 H3. split; [by rewrite H1|done|by eapply sends_silent|by rewrite H2|done].
Qed.

(** A commit after a simulation. *)
Lemma sim_commit nd nd1 nd2 es outs h x :
  simulates nd nd1 es outs → commit_and_advance env h x nd1 = Some nd2 →
  CommitBlock h x ∈ outs ∧ sm_height (nd_bft nd1) = h ∨ NetMessage (CommitBlock h x) ∈ rcv →
  ∃ es' outs', simulates nd nd2 (es ++ es') (outs ++ outs') ∧ (length es' <= 2)%nat.
Proof.
  intros [R E V (bs & Bl & F) O] Hc Hwhy.
  destruct (commit_sim h x nd1 nd2 Hc) as (es' & outs' & b & R' & E' & V' & B' & Hbh & Hbx & Hlen & O').
  exists es', outs'. split; [|done]. split.
  - apply bft_run_app. by exists (nd_bft nd1), outs, outs'.
  - by apply Forall_app.
  - eapply sends_trans; [exact V|exact V'|]. intros ws ? W ->. rewrite app_nil_r, signed_votes_app.
    by apply sublist_inserts_r.
  - exists (bs ++ [b]). rewrite B', Bl, app_assoc. split; [done|]. apply Forall_app. split.
    + eapply Forall_impl; [exact F|]. intros b'. apply block_from_mono. set_solver.
    + apply Forall_cons. split; [|apply Forall_nil_2]. exists x. rewrite Hbh. split; [done|].
      destruct Hwhy as [[? _]|?]; [left; set_solver|by right].
  - intros Hn. eapply by_one_app; [by apply O|exact R|]. apply O'; [|done].
    destruct Hwhy as [[_ ?]|Hin]; [done|]. by destruct (Hn h x).
Qed.

(** The machine's answer, this node's proposal, and the broadcasts. *)
Definition proposes (nd nd' : Node) : Prop :=
  ∃ es outs, simulates nd nd' es outs ∧ (length es <= 1)%nat ∧ sm_height (nd_bft nd') = sm_height (nd_bft nd) ∧
    sends (λ ws, ws = []) nd nd' ∧ rpc_block_store (nd_rpc nd') = rpc_block_store (nd_rpc nd).
Lemma proposes_refl nd : proposes nd nd.
Proof.
  exists [], []. split; [by apply simulates_refl|]. split; [simpl; lia|]. split; [done|].
  split; [by apply sends_refl|done].
Qed.

Lemma answer_sim e nd s' out bs nd1 nd2 nd' :
  bft_exec (nd_bft nd) e = Some (s', out) → stays_at_height e = true → event_from e →
  node_output env out (set_bft s' nd) = Some (bs, nd1) → proposes nd1 nd2 →
  fold_may_panic (handle_broadcast env) nd2 bs = Some nd' →
  ∃ es outs, simulates nd nd' es outs ∧ (length es <= 4)%nat.
Proof.
  intros He Hst Hev Ho (es2 & outs2 & H2 & Hlen & Hh & Hv & Hb) Hf.
  destruct (bft_exec_answer _ _ _ _ Hst He) as (Hh1 & _ & Hout).
  assert (∃ ts, nd1 = spawn_timers ts (set_bft s' nd)) as (ts & ->) by (by eapply node_output_inv).
  pose proof (sim_machine_step e nd s' out (spawn_timers ts (set_bft s' nd)) He Hst Hev eq_refl eq_refl eq_refl) as H1.
  pose proof (simulates_trans _ _ _ _ _ _ _ H1 H2) as H12.
  cbn [nd_sent nd_rpc nd_bft spawn_timers set_bft] in Hh, Hv, Hb.
  unfold node_output, process_bft_output in Ho.
  destruct Hout as [->|[(te & ->)|[(v & -> & _)|(x & ->)]]]; cbn [fold_may_panic process_message] in Ho.
  - injection Ho as <- _. injection Hf as <-. exists ([e] ++ es2), ([] ++ outs2). split; [done|simpl; lia].
  - destruct (TimeoutConfig_timeout_for _ _ _); [|done]. injection Ho as <- _. injection Hf as <-.
    eexists _, _. split; [exact H12|simpl; lia].
  - assert (∃ b, bs = b ∧ b = CastVote <$> signed_votes [CastVote v]) as (b & -> & ->).
    { exists bs. split; [done|]. unfold signed_votes. destruct (ne_signing_key env); by injection Ho as <- _. }
    assert (nd' = broadcast (CastVote <$> signed_votes [CastVote v]) nd2) as ->.
    { unfold signed_votes in *. destruct (ne_signing_key env); injection Hf as <-; [done|].
      destruct nd2. unfold broadcast. simpl. by rewrite app_nil_r. }
    exists ([e] ++ es2), ([CastVote v] ++ outs2). split; [|simpl; lia].
    eapply (sim_sends _ _ _ _ _ H12); [|done|done|].
    + eapply sends_silent; [|exact Hv]. by apply sends_refl.
    + exists (CastVote <$> signed_votes [CastVote v]). split; [done|]. unfold signed_votes, own_message.
      destruct (ne_signing_key env) as [sk|] eqn:Hsk; simpl.
      * split; [repeat constructor; by exists sk|]. apply sublist_skip, sublist_nil_l.
      * split; [apply Forall_nil_2|done].
  - injection Ho as <- _. cbn [fold_may_panic handle_broadcast] in Hf. apply bind_Some in Hf as (nd3 & Hc & [= <-]).
    destruct (sim_commit _ _ _ _ _ _ _ H12 Hc) as (es' & outs' & Hs & Hl).
    { left. split; [set_solver|]. by rewrite Hh. }
    eexists _, _. split; [exact Hs|]. rewrite length_app. simpl. lia.
Qed.

Lemma node_step_sim e nd nd' :
  e ∈ rcv → node_step env nd e = Some nd' → ∃ es outs, simulates nd nd' es outs ∧ (length es <= 4)%nat.
Proof.
  intros Hin Hs. destruct e as [msg|te|tx|req|]; simpl in Hs.
  - unfold on_net_message in Hs. apply bind_Some in Hs as ([nd1 out] & Hm & Hs).
    apply bind_Some in Hs as ([bs nd2] & Ho & Hf). destruct msg as [p b|v|h x|te].
    + apply bind_Some in Hm as ([s' out'] & He & [= <- <-]).
      eapply (answer_sim (EvProposal p b)); [exact He|done|by left|exact Ho|apply proposes_refl|exact Hf].
    + destruct (v_vote_type v) eqn:Ht.
      * destruct (BftStateMachine_on_prevote v (nd_bft nd)) as [s' out'] eqn:He. injection Hm as <- <-.
        eapply (answer_sim (EvPrevote v)); [simpl; by rewrite He|done|by split|exact Ho|apply proposes_refl|exact Hf].
      * destruct (BftStateMachine_on_precommit v (nd_bft nd)) as [s' out'] eqn:He. injection Hm as <- <-.
        eapply (answer_sim (EvPrecommit v)); [simpl; by rewrite He|done|by split|exact Ho|apply proposes_refl|exact Hf].
    + apply bind_Some in Hm as (nd3 & Hc & [= <- <-]). injection Ho as <- <-. injection Hf as <-.
      destruct (sim_commit nd nd nd3 [] [] h x) as (es' & outs' & Hs & Hl);
        [by apply simulates_refl|done|by right|].
      assert (nd_bft nd3 = nd_bft (spawn_timers [] nd3)) as _ by done.
      exists es', outs'. split; [|lia]. destruct Hs as [R E V Bl O]. by split.
    + injection Hm as <- <-. injection Ho as <- <-. injection Hf as <-. exists [], [].
      split; [by apply simulates_refl|simpl; lia].
  - unfold on_timeout_event in Hs. apply bind_Some in Hs as ([s' out] & He & Hs).
    apply bind_Some in Hs as ([bs nd1] & Ho & Hs). apply bind_Some in Hs as (nd2 & Hp & Hf).
    eapply (answer_sim (EvTimeout te)); [exact He|done|done|exact Ho|by eapply propose_sim|exact Hf].
  - unfold on_net_transaction in Hs. apply bind_Some in Hs as ([pool r] & _ & [= <-]).
    exists [], []. split; [by apply simulates_refl|simpl; lia].
  - unfold on_rpc_submit in Hs. apply bind_Some in Hs as ([rpc r] & Hr & [= <-]).
    apply submit_keeps_ledger in Hr as [_ Hr]. exists [], []. split; [by apply simulates_refl|simpl; lia].
  - unfold on_gossip_ready in Hs. exists [], []. split; [|simpl; lia].
    repeat case_match; simplify_eq; by apply simulates_refl.
Qed.
End Refinement.

Section Runs.
Context {OC : OverflowChecks} {C : Crypto} {B : Bincode} {HO : HashOrder} {S : Serde} {K : Clock}.

Lemma node_run_sim env rcv es nd nd' :
  es ⊆ rcv → node_run env nd es = Some nd' →
  ∃ bes outs, simulates env rcv nd nd' bes outs ∧ (length bes <= 4 * length es)%nat.
Proof.
  unfold node_run. revert nd. induction es as [|e es IH]; intros nd Hin; simpl.
  { intros [= <-]. exists [], []. split; [by apply simulates_refl|simpl; lia]. }
  intros (nd1 & Hs & Hrest)%bind_Some.
  destruct (node_step_sim env rcv e nd nd1) as (es1 & outs1 & H1 & Hl1); [apply Hin; left|done|].
  destruct (IH nd1) as (es2 & outs2 & H2 & Hl2); [intros x ?; apply Hin; by right|done|].
  exists (es1 ++ es2), (outs1 ++ outs2). split; [by eapply simulates_trans|]. rewrite length_app. lia.
Qed.

(** The machine a node starts with. *)
Definition node_machine (g : GenesisConfig) (env : NodeEnv) : BftStateMachine :=
  BftStateMachine_new 0 (bft_validators g) (our_validator_index (ne_signing_key env) (bft_validators g))
    TimeoutConfig_default.
Definition node_before (g : GenesisConfig) (env : NodeEnv) (nd : Node) : Node :=
  mkNode (BftStateMachine_advance_height 0 (node_machine g env)).1 (nd_rpc nd) (nd_fee_market nd)
    (nd_staking_pool nd) (nd_validator_set nd) zero32 [] [] [] O.


(** The start of a node: [node_init] yields the machine and the ledger of the genesis. *)
Lemma node_boot_start g state_file validator_key env nd :
  node_boot g state_file validator_key = Some (Ok (env, nd)) →
  ∃ key nd0, load_validator_key validator_key = Ok key ∧ env = mkNodeEnv g key TimeoutConfig_default ∧
    nd_bft nd0 = node_machine g env ∧ rpc_block_store (nd_rpc nd0) = [] ∧
    nd_state_db nd0 = initial_state_db g state_file ∧ (nd_sent nd0 = [] ∧ nd_gossiped nd0 = []) ∧
    nd_last_block_hash nd0 = zero32 ∧ rpc_current_height (nd_rpc nd0) = 0 ∧ node_start env nd0 = Some nd.
Proof.
  unfold node_boot, node_init. intros (started & Hinit & Hstart)%bind_Some.
  apply bind_Some in Hinit as (valid & _ & Hinit). destruct valid; [|by simplify_eq].
  apply bind_Some in Hinit as (market & _ & Hinit). destruct market as [fm|]; [|by simplify_eq].
  apply bind_Some in Hinit as ([pool vs] & _ & Hinit). apply bind_Some in Hinit as (logged & _ & Hinit).
  destruct (load_validator_key validator_key) as [key|]; [|by simplify_eq]. injection Hinit as <-.
  apply bind_Some in Hstart as (nd' & Hstart & [= <- <-]). eexists key, _. by split_and!; [..|exact Hstart].
Qed.

(** A node that is not the first proposer starts with the machine's first round. *)
Lemma node_boot_not_proposer g state_file validator_key env nd :
  node_boot g state_file validator_key = Some (Ok (env, nd)) →
  let start := (BftStateMachine_start_round 0 (node_machine g env)).1 in
  BftStateMachine_is_proposer (nd_bft nd) = BftStateMachine_is_proposer start ∧
  (BftStateMachine_is_proposer start = Some false →
   nd_bft nd = start ∧ rpc_block_store (nd_rpc nd) = [] ∧ nd_state_db nd = initial_state_db g state_file).
Proof.
  intros (key & nd0 & _ & _ & Hb & Hst & Hd & _ & _ & _ & Hstart)%node_boot_start. unfold node_start in Hstart.
  rewrite Hb in Hstart. destruct (BftStateMachine_start_round 0 _) as [s out] eqn:Hs. cbn [fst].
  injection Hs as Hs1 Hs2. subst out. apply bind_Some in Hstart as ([bs nd1] & Ho & Hrest).
  apply node_output_timeout in Ho as (-> & ts & ->). apply bind_Some in Hrest as (nd2 & Hp & [= <-]).
  split.
  - apply propose_if_proposer_inv in Hp as [->|(sk & _ & (block & out & _ & Hon & _)%propose_block_inv)]; [done|].
    apply on_proposal_keeps_turn in Hon as (_ & _ & Hturn). exact Hturn.
  - intros Hturn. unfold propose_if_proposer in Hp. cbn [nd_bft spawn_timers set_bft] in Hp. rewrite Hturn in Hp.
    cbn [mbind option_bind andb] in Hp. injection Hp as <-. unfold nd_state_db in *. done.
Qed.

Lemma node_boot_sim g state_file validator_key env nd rcv :
  node_boot g state_file validator_key = Some (Ok (env, nd)) →
  ∃ bes outs, simulates env rcv (node_before g env nd) nd bes outs ∧ (length bes <= 1)%nat ∧
    rpc_block_store (nd_rpc nd) = [].
Proof.
  intros (key & nd0 & _ & _ & Hb & Hst0 & _ & [Hsent0 _] & _ & _ & Hstart)%node_boot_start. unfold node_start in Hstart. rewrite Hb in Hstart.
  destruct (BftStateMachine_start_round 0 _) as [s out] eqn:Hs. injection Hs as <- <-.
  apply bind_Some in Hstart as ([bs nd1] & Ho & Hrest). apply node_output_timeout in Ho as (-> & ts & ->).
  apply bind_Some in Hrest as (nd2 & Hp & [= <-]).
  destruct (propose_sim _ rcv _ _ _ _ _ Hp) as (es & outs & [R E (ms & V & Om & Ws) Bl O] & Hl & _ & _ & Hst).
  cbn [nd_rpc nd_sent nd_bft spawn_timers set_bft broadcast] in *. rewrite Hst0 in Hst.
  exists es, outs. split; [|split; [exact Hl|exact Hst]]. split; [exact R|exact E| | |exact O].
  - exists ms. simpl. rewrite app_nil_r, V, Hsent0. done.
  - exists []. simpl. rewrite app_nil_r. split; [done|apply Forall_nil_2].
Qed.

(** All of a node's run. *)
Lemma node_sim g state_file validator_key env nd es nd' :
  node_boot g state_file validator_key = Some (Ok (env, nd)) → node_run env nd es = Some nd' →
  ∃ bes outs, let start := (BftStateMachine_advance_height 0 (node_machine g env)).1 in
    bft_run start bes = Some (nd_bft nd', outs) ∧ Forall (event_from env es) bes ∧
    Forall (own_message env) (nd_sent nd') ∧ votes_of (nd_sent nd') `sublist_of` signed_votes env outs ∧
    Forall (block_from es outs) (rpc_block_store (nd_rpc nd')) ∧
    (no_bare_commit es → by_one start bes) ∧ (length bes <= 4 * length es + 1)%nat.
Proof.
  intros Hboot Hrun. destruct (node_boot_sim _ _ _ _ _ es Hboot) as (es1 & outs1 & H1 & Hl1 & Hst).
  destruct (node_run_sim env es es nd nd') as (es2 & outs2 & H2 & Hl2); [done|done|].
  destruct (simulates_trans _ _ _ _ _ _ _ _ _ H1 H2) as [R E (ms & V & Om & W) _ O].
  destruct H2 as [_ _ _ (bs & Bl & F) _]. cbn [node_before nd_sent nd_bft] in R, V, O.
  exists (es1 ++ es2), (outs1 ++ outs2). split_and!; [exact R|exact E|by rewrite V|by rewrite V| |exact O|rewrite length_app; lia].
  rewrite Bl, Hst. eapply Forall_impl; [exact F|]. intros b. apply block_from_mono. set_solver.
Qed.
End Runs.

(** ** The heights of a run *)

Definition msg_height (m : ConsensusMessage) : option Height :=
  match m with
  | CastVote v => Some (v_height v)
  | CommitBlock h _ => Some h
  | _ => None
  end.

Section Heights.
Context {OC : OverflowChecks} {C : Crypto} {B : Bincode} {HO : HashOrder}.
Implicit Types (s : BftStateMachine).

(** The part of a run at height [h]: it is a run of its own, and has all the messages of
    that height. *)
Record segment (vals : list ValidatorId) (h : Height) (es : list bft_event) (outs : list ConsensusMessage)
    (before : BftStateMachine) (seg : list bft_event) (after : BftStateMachine)
    (sout : list ConsensusMessage) : Prop := {
  sg_validators : sm_validators before = vals;
  sg_run : bft_run (BftStateMachine_advance_height h before).1 seg = Some (after, sout);
  sg_stays : forallb stays_at_height seg = true;
  sg_events : seg ⊆ es;
  sg_length : (length seg <= length es)%nat;
  sg_outs : sout ⊆ outs;
  sg_all : ∀ m, m ∈ outs → msg_height m = Some h → m ∈ sout;
}.

Lemma by_one_snoc s es e s1 outs1 :
  by_one s (es ++ [e]) → bft_run s es = Some (s1, outs1) →
  by_one s es ∧ match e with EvAdvanceHeight h => u64_add (sm_height s1) 1 = Some h | _ => True end.
Proof.
  revert s outs1. induction es as [|e' es IH]; intros s outs1 Hb Hrun; simpl in *.
  { simplify_eq. destruct Hb as [He _]. by split. }
  destruct Hb as [He Hb]. apply bind_Some in Hrun as ([s2 out] & Hx & Hrun).
  apply bind_Some in Hrun as ([s3 o3] & Hrun & [= -> <-]).
  destruct (IH s2 o3 (Hb _ _ Hx) Hrun) as [Hes Hlast]. split; [|done]. split; [done|].
  intros s' out' Hx'. rewrite Hx in Hx'. by simplify_eq.
Qed.

Lemma answer_heights s e s' out m h :
  stays_at_height e = true → bft_exec s e = Some (s', out) → m ∈ out → msg_height m = Some h →
  h = sm_height s.
Proof.
  intros Hst He Hm Hh. apply bft_exec_answer in He as (_ & _ & Hout); [|done].
  destruct Hout as [->|[(te & ->)|[(v & -> & Hv)|(x & ->)]]]; [by apply elem_of_nil in Hm|..];
    apply list_elem_of_singleton in Hm as ->; simpl in Hh; congruence.
Qed.

Lemma run_segments vals h0 m0 es s outs :
  sm_validators m0 = vals → 0 <= h0 → h0 + Z.of_nat (length es) < U64 →
  bft_run (BftStateMachine_advance_height h0 m0).1 es = Some (s, outs) →
  by_one (BftStateMachine_advance_height h0 m0).1 es →
  h0 <= sm_height s <= h0 + Z.of_nat (length es) ∧ sm_validators s = vals ∧
  (∀ m h, m ∈ outs → msg_height m = Some h → h0 <= h <= sm_height s) ∧
  ∀ h, h0 <= h <= sm_height s →
    ∃ before seg after sout, segment vals h es outs before seg after sout ∧ (h = sm_height s → after = s).
Proof.
  intros Hvals H0. revert s outs. induction es as [|e es IH] using rev_ind; intros s outs Hlen Hrun Hone.
  { rewrite bft_run_nil in Hrun. apply (inj Some), pair_eq in Hrun as [<- <-]. destruct (advance_height_height h0 m0) as [-> ->].
    split; [simpl; lia|]. split; [exact Hvals|]. split; [by intros m h Hm%elem_of_nil|].
    intros h Hh. assert (h = h0) as -> by lia.
    exists m0, [], (BftStateMachine_advance_height h0 m0).1, []. split; [|done].
    split; [exact Hvals|apply bft_run_nil|reflexivity|set_solver|reflexivity|set_solver|]. by intros m Hm%elem_of_nil. }
  rewrite length_app in *. cbn [length] in *. apply bft_run_app in Hrun as (s1 & outs1 & outs2 & Hrun1 & Hrun2 & ->).
  destruct (by_one_snoc _ _ _ _ _ Hone Hrun1) as [Hone1 He].
  destruct (IH s1 outs1 ltac:(lia) Hrun1 Hone1) as (Hh1 & Hv1 & Hm1 & Hseg1).
  simpl in Hrun2. apply bind_Some in Hrun2 as ([s2 out] & Hx & [= -> <-]). rewrite app_nil_r.
  destruct (stays_at_height e) eqn:Hst.
  - destruct (bft_exec_answer _ _ _ _ Hst Hx) as (Hh & Hv & _). rewrite Hh, Hv.
    split; [lia|]. split; [done|]. split.
    { intros m h [Hm|Hm]%elem_of_app Hmh; [by eapply Hm1|]. rewrite (answer_heights _ _ _ _ _ _ Hst Hx Hm Hmh). lia. }
    intros h Hhr. destruct (Hseg1 h Hhr) as (before & seg & after & sout & [G1 G2 G3 G4 G5 G6 G7] & Hlast).
    destruct (decide (h = sm_height s1)) as [Heq|Hne].
    + specialize (Hlast Heq). subst after. exists before, (seg ++ [e]), s, (sout ++ out). split; [|done]. split.
      * done.
      * apply bft_run_app. exists s1, sout, out. split; [exact G2|]. split; [|reflexivity].
        cbn [bft_run]. rewrite Hx. cbn [mbind option_bind]. by rewrite app_nil_r.
      * rewrite forallb_app, G3. simpl. by rewrite Hst.
      * intros x [?|?]%elem_of_app; apply elem_of_app; [left; by apply G4|by right].
      * rewrite !length_app. simpl. lia.
      * intros x [?|?]%elem_of_app; apply elem_of_app; [left; by apply G6|by right].
      * intros m [Hm|Hm]%elem_of_app Hmh; apply elem_of_app; [left; by apply G7|by right].
    + exists before, seg, after, sout. split; [|done]. split; try done.
      * intros x Hin. apply elem_of_app. left. by apply G4.
      * rewrite length_app. lia.
      * intros x Hin. apply elem_of_app. left. by apply G6.
      * intros m [Hm|Hm]%elem_of_app Hmh; [by apply G7|].
        destruct Hne. by eapply answer_heights.
  - destruct e as [| | | |h']; try done. rewrite u64_add_ok in He by zlia. injection He as <-.
    apply advance_exec_inv in Hx as [-> ->].
    assert (∀ m h, m ∈ outs1 ++ [ScheduleTimeout (mkTimeoutEvent (sm_height s1 + 1) 0 TimeoutPropose)] →
      msg_height m = Some h → m ∈ outs1) as Hold.
    { intros m h [Hm|Hm]%elem_of_app Hmh; [done|]. by apply list_elem_of_singleton in Hm as ->. }
    destruct (advance_height_height (sm_height s1 + 1) s1) as [-> ->].
    split; [lia|]. split; [done|]. split.
    { intros m h Hm Hmh. specialize (Hm1 m h (Hold m h Hm Hmh) Hmh). lia. }
    intros h Hhr. destruct (decide (h = sm_height s1 + 1)) as [->|Hne].
    + exists s1, [], (BftStateMachine_advance_height (sm_height s1 + 1) s1).1, []. split; [|done].
      split; [exact Hv1|apply bft_run_nil|reflexivity|set_solver|simpl; lia|set_solver|].
      intros m Hm Hmh. specialize (Hm1 m _ (Hold m _ Hm Hmh) Hmh). lia.
    + destruct (Hseg1 h ltac:(lia)) as (before & seg & after & sout & [G1 G2 G3 G4 G5 G6 G7] & _).
      exists before, seg, after, sout. split; [|intros; lia]. split; try done.
      * intros x Hin. apply elem_of_app. left. by apply G4.
      * rewrite length_app. lia.
      * intros x Hin. apply elem_of_app. left. by apply G6.
      * intros m Hm Hmh. apply G7; [by eapply Hold|done].
Qed.

Lemma by_one_advancing s es :
  0 <= sm_height s → sm_height s + Z.of_nat (length es) < U64 → by_one s es → advancing s es.
Proof.
  revert s. induction es as [|e es IH]; intros s H0 Hlen Hone; [done|]. destruct Hone as [He Hone]. simpl in Hlen.
  split.
  - destruct e; try done. rewrite u64_add_ok in He by zlia. simplify_eq. simpl. lia.
  - intros s' out Hx. specialize (Hone _ _ Hx). destruct (stays_at_height e) eqn:Hst.
    + destruct (bft_exec_answer _ _ _ _ Hst Hx) as (Hh & _). apply IH; [lia|lia|done].
    + destruct e as [| | | |h]; try done. rewrite u64_add_ok in He by zlia. injection He as <-.
      apply advance_exec_inv in Hx as [-> _]. destruct (advance_height_height (sm_height s + 1) s) as [Hh _].
      apply IH; [lia|lia|done].
Qed.
End Heights.

(** ** Networks of nodes *)

(** The whole run of an honest node's process: its build, hash seed and clock, its files
    and key, what its event loop is given and how it ends. *)
Record program := mkProgram {
  pr_checks : OverflowChecks;
  pr_order : HashOrder;
  pr_clock : Clock;
  pr_state_file : option (result string bytes);
  pr_key_file : option (result string bytes);
  pr_key : bytes;
  pr_env : NodeEnv;
  pr_start : Node;
  pr_events : list node_event;
  pr_end : Node;
}.

Section Programs.
Context {C : Crypto} {B : Bincode} {S : Serde} (g : GenesisConfig).

Definition pr_validator (p : program) : ValidatorId := ed_verifying_key (pr_key p).
Definition pr_blocks (p : program) : list BlockResponse := rpc_block_store (nd_rpc (pr_end p)).

Definition honest_program (p : program) : Prop :=
  HashOrderLaws (pr_order p) ∧ ne_signing_key (pr_env p) = Some (pr_key p) ∧
  pr_validator p ∈ bft_validators g ∧ 4 * Z.of_nat (length (pr_events p)) + 1 < U32 ∧
  no_bare_commit (pr_events p) ∧
  node_boot (OC := pr_checks p) (HO := pr_order p) (K := pr_clock p) g (pr_state_file p) (pr_key_file p) =
    Some (Ok (pr_env p, pr_start p)) ∧
  node_run (OC := pr_checks p) (HO := pr_order p) (K := pr_clock p) (pr_env p) (pr_start p) (pr_events p) =
    Some (pr_end p).

Context (programs : list program) (F : gset bytes).

(** A vote may have been sent: by a key of [F], or by an honest node. *)
Definition sent (h : Height) (t : VoteType) (r : Round) (x : BlockHash) (k : ValidatorId) : Prop :=
  k ∈ F ∨ ∃ q, q ∈ programs ∧ pr_validator q = k ∧
    ∃ v, CastVote v ∈ nd_sent (pr_end q) ∧ vote_is t h r x v.

(** Signatures are not forged: a vote that verifies was sent. *)
Definition votes_unforged : Prop :=
  ∀ p v h t r x, p ∈ programs → NetMessage (CastVote v) ∈ pr_events p → Vote_verify v = true →
    vote_is t h r x v → sent h t r x (v_validator v).

(** A proposal names only an earlier round in which its block had a quorum of prevotes. *)
Definition proposals_true_rounds : Prop :=
  ∀ p q b vr, p ∈ programs → NetMessage (ProposeBlock q b) ∈ pr_events p → p_valid_round q = Some vr →
    vr < p_round q ∧
    quorum_voted (list_to_set (bft_validators g)) (sent (p_height q)) Prevote vr (p_block_hash q).
End Programs.

(** A node at one height, as a run of its machine. *)
Record program_at {C : Crypto} {B : Bincode} (g : GenesisConfig) (h : Height) (p : program)
    (nd : honest_node) : Prop := {
  pa_key : hn_key nd = pr_validator p;
  pa_run : honest_run h (bft_validators g) nd;
  pa_events : Forall (event_from (pr_env p) (pr_events p)) (hn_events nd);
  pa_votes : ∀ v t r x, CastVote v ∈ nd_sent (pr_end p) → vote_is t h r x v → asks t h r x (hn_outs nd);
  pa_blocks : ∀ b, b ∈ pr_blocks p → br_height b = h →
    ∃ x, br_block_hash b = to_hex x ∧ CommitBlock h x ∈ hn_outs nd;
}.
(** A node that has not reached a height. *)
Definition not_reached (h : Height) (p : program) : Prop :=
  (∀ v, CastVote v ∈ nd_sent (pr_end p) → v_height v ≠ h) ∧ ∀ b, b ∈ pr_blocks p → br_height b ≠ h.

Lemma elem_of_votes_of v msgs : v ∈ votes_of msgs ↔ CastVote v ∈ msgs.
Proof.
  unfold votes_of. rewrite list_elem_of_omap. split; [|intros; by exists (CastVote v)].
  intros (m & Hm & Hv). destruct m; by simplify_eq.
Qed.

Lemma elem_of_signed_votes {C : Crypto} env outs w :
  w ∈ signed_votes env outs →
  ∃ v, CastVote v ∈ outs ∧ v_height w = v_height v ∧ ∀ t h r x, vote_is t h r x w → vote_is t h r x v.
Proof.
  unfold signed_votes. destruct (ne_signing_key env) as [sk|]; [|by intros ?%elem_of_nil].
  intros (v & -> & Hv)%list_elem_of_fmap. exists v. by split; [apply elem_of_votes_of|].
Qed.

Section ProgramLemmas.
Context {C : Crypto} {B : Bincode} {S : Serde} {g : GenesisConfig}.

Lemma program_at_height h p :
  honest_program g p → (∃ nd, program_at g h p nd) ∨ not_reached h p.
Proof.
  intros (HL & Hsk & Hval & Hlen & Hno & Hboot & Hrun).
  destruct (node_sim (OC := pr_checks p) (HO := pr_order p) (K := pr_clock p) _ _ _ _ _ _ _ Hboot Hrun)
    as (bes & outs & Hbft & Hev & _ & Hvotes & Hblocks & Hone & Hl). cbv zeta in Hbft, Hone.
  destruct (run_segments (OC := pr_checks p) (HO := pr_order p) (bft_validators g) 0
    (node_machine g (pr_env p)) bes _ _ eq_refl
    ltac:(lia) ltac:(lia) Hbft (Hone Hno)) as (_ & _ & Hbounds & Hseg).
  assert (∀ w, CastVote w ∈ nd_sent (pr_end p) → ∃ v, CastVote v ∈ outs ∧ v_height w = v_height v ∧
    ∀ t h r x, vote_is t h r x w → vote_is t h r x v) as Hsent.
  { intros w Hw. apply elem_of_signed_votes with (pr_env p). eapply elem_of_sublist; [|exact Hvotes].
    by apply elem_of_votes_of. }
  assert (∀ b, b ∈ pr_blocks p → ∃ x, br_block_hash b = to_hex x ∧ CommitBlock (br_height b) x ∈ outs) as Hbl.
  { intros b Hb. rewrite Forall_forall in Hblocks. destruct (Hblocks b Hb) as (x & Hx & [?|Hin]); [by exists x|].
    by destruct (Hno _ _ Hin). }
  destruct (decide (0 <= h <= sm_height (nd_bft (pr_end p)))) as [Hh|Hh]; [left|right].
  - destruct (Hseg h Hh) as (before & seg & after & sout & [G1 G2 G3 G4 G5 G6 G7] & _).
    exists (mkHonestNode (pr_validator p) (pr_checks p) (pr_order p) before seg after sout). split.
    + done.
    + unfold honest_run. cbn [hn_order hn_before hn_key hn_events hn_checks hn_after hn_outs].
      split; [exact HL|]. split; [exact G1|]. split; [exact Hval|]. split; [lia|]. split; [exact G3|exact G2].
    + simpl. rewrite Forall_forall in Hev |- *. intros e He. by apply Hev, G4.
    + simpl. intros w t r x Hw His. destruct (Hsent w Hw) as (v & Hv & _ & His').
      exists v. specialize (His' _ _ _ _ His). split; [|done]. apply G7; [done|]. simpl. f_equal. apply His'.
    + simpl. intros b Hb <-. destruct (Hbl b Hb) as (x & Hx & Hc). exists x. split; [done|]. by apply G7.
  - split.
    + intros w Hw <-. destruct (Hsent w Hw) as (v & Hv & Heq & _). rewrite Heq in Hh.
      by apply Hh, (Hbounds (CastVote v)).
    + intros b Hb <-. destruct (Hbl b Hb) as (x & _ & Hc). by apply Hh, (Hbounds (CommitBlock (br_height b) x)).
Qed.

(** The machines of all the nodes that reach a height. *)
Lemma programs_at_height h programs :
  Forall (honest_program g) programs → NoDup (pr_validator <$> programs) →
  ∃ nodes, NoDup (hn_key <$> nodes) ∧
    (∀ nd, nd ∈ nodes → ∃ p, p ∈ programs ∧ program_at g h p nd) ∧
    (∀ p, p ∈ programs → (∃ nd, nd ∈ nodes ∧ program_at g h p nd) ∨ not_reached h p).
Proof.
  intros Hp. induction Hp as [|p programs Hp _ IH]; intros Hnd.
  { exists []. split; [constructor|]. split; by intros ? ?%elem_of_nil. }
  apply NoDup_cons in Hnd as [Hn Hnd]. destruct (IH Hnd) as (nodes & Hk & Hfrom & Hto).
  destruct (program_at_height h p Hp) as [(nd & Hat)|Hnot].
  - exists (nd :: nodes). split; [|split].
    + apply NoDup_cons. split; [|done]. intros (nd' & Heq & Hin)%list_elem_of_fmap.
      destruct (Hfrom nd' Hin) as (p' & Hp' & Hat'). apply Hn. apply list_elem_of_fmap. exists p'.
      split; [|done]. rewrite <-(pa_key _ _ _ _ Hat), <-(pa_key _ _ _ _ Hat'). done.
    + intros nd' [->|Hin]%elem_of_cons; [exists p; split; [left|done]|].
      destruct (Hfrom nd' Hin) as (p' & Hp' & Hat'). exists p'. split; [by right|done].
    + intros p' [->|Hin]%elem_of_cons; [left; exists nd; split; [left|done]|].
      destruct (Hto p' Hin) as [(nd' & Hnd' & Hat')|?]; [left|by right]. exists nd'. split; [by right|done].
  - exists nodes. split; [done|]. split.
    + intros nd' Hin. destruct (Hfrom nd' Hin) as (p' & Hp' & Hat'). exists p'. split; [by right|done].
    + intros p' [->|Hin]%elem_of_cons; [by right|by apply Hto].
Qed.

Context {programs : list program} {F : gset bytes} {nodes : list honest_node} {h : Height}.
Hypothesis Hfrom : ∀ nd, nd ∈ nodes → ∃ p, p ∈ programs ∧ program_at g h p nd.
Hypothesis Hto : ∀ p, p ∈ programs → (∃ nd, nd ∈ nodes ∧ program_at g h p nd) ∨ not_reached h p.

Lemma sent_is_signed t r x k : sent programs F h t r x k → signed h nodes F t r x k.
Proof.
  intros [?|(q & Hq & <- & v & Hv & His)]; [by left|right].
  destruct (Hto q Hq) as [(nd & Hnd & Hat)|[Hn _]].
  - exists nd. split; [done|]. split; [by rewrite (pa_key _ _ _ _ Hat)|]. by eapply pa_votes.
  - destruct (Hn v Hv). apply His.
Qed.

Lemma programs_unforged : votes_unforged programs F → unforged h nodes F.
Proof.
  intros Hu nd e v t r x Hnd He Hev Hver His. destruct (Hfrom nd Hnd) as (p & Hp & Hat).
  pose proof (pa_events _ _ _ _ Hat) as Hall. rewrite Forall_forall in Hall. specialize (Hall e He).
  apply sent_is_signed. eapply (Hu p); [done| |done|done].
  destruct e; simplify_eq/=; by destruct Hall.
Qed.

Lemma programs_rounds :
  proposals_true_rounds g programs F → valid_rounds_true h (bft_validators g) nodes F.
Proof.
  intros Ht nd q b vr Hnd He Hh Hvr. destruct (Hfrom nd Hnd) as (p & Hp & Hat).
  pose proof (pa_events _ _ _ _ Hat) as Hall. rewrite Forall_forall in Hall. specialize (Hall _ He).
  destruct Hall as [Hnet|(sk & h' & r' & blk & _ & -> & _)]; [|done].
  destruct (Ht p q b vr Hp Hnet Hvr) as [Hlt (voters & Hq & Hv)]. split; [done|].
  exists voters. split; [done|]. intros k Hk. apply sent_is_signed. rewrite <-Hh. by apply Hv.
Qed.
End ProgramLemmas.

(** Nodes agree on the chain.  Take any number of honest validator processes started
    from one genesis, in any builds, with any clocks, files and hash seeds, over any
    deliveries of messages, timeouts and transactions; let at most a third of the
    validators be faulty, signatures be unforged, proposals name true [valid_round]s, and
    no peer send a bare commit.  Then whenever two of them have stored a block at the
    same height, it is the same block. *)
Lemma programs_agree {C : Crypto} {B : Bincode} {S : Serde} (g : GenesisConfig)
    (programs : list program) (F : gset bytes) :
  NoDup (bft_validators g) → NoDup (pr_validator <$> programs) → Forall (honest_program g) programs →
  few_faults (list_to_set (bft_validators g)) F → votes_unforged programs F →
  proposals_true_rounds g programs F →
  ∀ p1 p2 b1 b2, p1 ∈ programs → p2 ∈ programs → b1 ∈ pr_blocks p1 → b2 ∈ pr_blocks p2 →
    br_height b1 = br_height b2 → br_block_hash b1 = br_block_hash b2.
Proof.
  intros Hvals Hkeys Hhonest Hfew Hunf Htrue p1 p2 b1 b2 Hp1 Hp2 Hb1 Hb2 Hh.
  destruct (programs_at_height (br_height b1) programs Hhonest Hkeys) as (nodes & Hk & Hfrom & Hto).
  assert (∀ p b, p ∈ programs → b ∈ pr_blocks p → br_height b = br_height b1 →
    ∃ nd x, nd ∈ nodes ∧ br_block_hash b = to_hex x ∧ CommitBlock (br_height b1) x ∈ hn_outs nd) as Hcommit.
  { intros p b Hp Hb Hbh. destruct (Hto p Hp) as [(nd & Hnd & Hat)|[_ Hn]]; [|by destruct (Hn b Hb)].
    destruct (pa_blocks _ _ _ _ Hat b Hb Hbh) as (x & Hx & Hc). by exists nd, x. }
  destruct (Hcommit p1 b1 Hp1 Hb1 eq_refl) as (nd1 & x1 & Hnd1 & -> & Hc1).
  destruct (Hcommit p2 b2 Hp2 Hb2 (eq_sym Hh)) as (nd2 & x2 & Hnd2 & -> & Hc2).
  f_equal.
  refine (proj2 (proj2 (machines_agree (br_height b1) (bft_validators g) nodes F Hvals Hk _ Hfew _ _
    nd1 nd2 _ _ x1 x2 Hnd1 Hnd2 Hc1 Hc2))).
  - apply Forall_forall. intros nd Hnd. destruct (Hfrom nd Hnd) as (p & _ & Hat). apply Hat.
  - by apply (programs_unforged Hfrom Hto).
  - by apply (programs_rounds Hfrom Hto).
Qed.

(** What a node has sent: messages of its own, ever more. *)
Lemma node_step_sends {OC : OverflowChecks} {C : Crypto} {B : Bincode} {HO : HashOrder} {S : Serde} {K : Clock}
    env nd e nd' :
  node_step env nd e = Some nd' → sends env (λ _, True) nd nd'.
Proof.
  intros Hs. destruct (node_step_sim env [e] e nd nd') as (es & outs & [_ _ Hsent _ _] & _); [left|done|].
  by eapply sends_mono; [exact Hsent|].
Qed.
Lemma node_sent_own {OC : OverflowChecks} {C : Crypto} {B : Bincode} {HO : HashOrder} {S : Serde} {K : Clock}
    g state_file validator_key env nd es nd' :
  node_boot g state_file validator_key = Some (Ok (env, nd)) → node_run env nd es = Some nd' →
  Forall (own_message env) (nd_sent nd').
Proof. intros Hb Hr. by destruct (node_sim _ _ _ _ _ _ _ Hb Hr) as (? & ? & _ & _ & Hown & _). Qed.

Lemma node_run_snoc {OC : OverflowChecks} {C : Crypto} {B : Bincode} {HO : HashOrder} {S : Serde} {K : Clock}
    env nd nd1 nd2 es e :
  node_run env nd es = Some nd1 → node_step env nd1 e = Some nd2 → node_run env nd (es ++ [e]) = Some nd2.
Proof.
  unfold node_run. revert nd. induction es as [|e' es IH]; intros nd; simpl; [by intros [= ->] ->|].
  intros (nd' & -> & Hrun)%bind_Some Hs. cbn [mbind option_bind]. by apply IH.
Qed.

(** ** Votes are sent once *)

Definition vote_key (v : Vote) : msg_key := KeyVote (v_vote_type v) (v_height v) (v_round v).

Lemma votes_sublist_keys outs : (vote_key <$> votes_of outs) `sublist_of` omap key_of outs.
Proof.
  induction outs as [|m outs IH]; [constructor|]. unfold votes_of in *. destruct m; csimpl; try done.
  - by constructor.
  - by constructor.
Qed.

Lemma signed_votes_keys {C : Crypto} env outs :
  (vote_key <$> signed_votes env outs) `sublist_of` omap key_of outs.
Proof.
  unfold signed_votes. destruct (ne_signing_key env); [|apply sublist_nil_l].
  rewrite <-list_fmap_compose. apply votes_sublist_keys.
Qed.

Section Demos.
(** Four validators; the first, which is faulty, proposes [key32 70] at height 0, and all
    vote for it.  What the validator with key [k] is given: *)
Definition demo_ballot (t : VoteType) (k : Z) : Vote :=
  Vote_new (C := toy_crypto) t 0 0 (Some split_block) (key32 k).
Definition demo_others (k : Z) : list Z := filter (λ j, j ≠ k) [1; 2; 3; 4].
Definition demo_deliveries (k : Z) : list node_event :=
  NetMessage (ProposeBlock (mkProposal 0 0 split_block (toy_key (key32 1)) [] None) None) ::
  ((λ j, NetMessage (CastVote (demo_ballot Prevote j))) <$> demo_others k) ++
  ((λ j, NetMessage (CastVote (demo_ballot Precommit j))) <$> demo_others k).
Definition demo_program (k : Z) : option program :=
  started ← node_boot (OC := debug_build) (C := toy_crypto) (B := toy_bincode) (HO := forward_order)
    (S := toy_serde) (K := demo_clock) demo_genesis None (Some (Ok (key32 k)));
  match started with
  | Ok (env, nd) =>
    nd' ← node_run (OC := debug_build) (C := toy_crypto) (B := toy_bincode) (HO := forward_order)
      (S := toy_serde) (K := demo_clock) env nd (demo_deliveries k);
    Some (mkProgram debug_build forward_order demo_clock None (Some (Ok (key32 k))) (key32 k) env nd
      (demo_deliveries k) nd')
  | Err _ => None
  end.
Definition demo_sends (t : VoteType) (p : program) : bool :=
  existsb (λ m, match m with CastVote v => bool_decide (vote_is t 0 0 split_block v) | _ => false end)
    (nd_sent (pr_end p)).
Definition demo_program_check (k : Z) : bool :=
  match demo_program k with
  | Some p =>
    bool_decide (ne_signing_key (pr_env p) = Some (key32 k)) &&
    bool_decide (toy_key (key32 k) ∈ bft_validators (C := toy_crypto) demo_genesis) &&
    demo_sends Prevote p && demo_sends Precommit p && bool_decide ((br_height <$> pr_blocks p) = [0])
  | None => false
  end.

Lemma demo_deliveries_inv k msg :
  NetMessage msg ∈ demo_deliveries k →
  msg = ProposeBlock (mkProposal 0 0 split_block (toy_key (key32 1)) [] None) None ∨
  ∃ t j, j ∈ [1; 2; 3; 4] ∧ msg = CastVote (demo_ballot t j).
Proof.
  unfold demo_deliveries. intros [Hm|[Hm|Hm]%elem_of_app]%elem_of_cons; [left; congruence|right..];
    apply list_elem_of_fmap in Hm as (j & Heq & [_ Hj]%list_elem_of_filter); injection Heq as ->; eauto.
Qed.

Lemma demo_no_bare_commit k : no_bare_commit (demo_deliveries k).
Proof. intros h x [?|(t & j & _ & ?)]%demo_deliveries_inv; done. Qed.

Lemma demo_sends_sound t p : demo_sends t p = true → ∃ v, CastVote v ∈ nd_sent (pr_end p) ∧ vote_is t 0 0 split_block v.
Proof.
  intros (m & Hm & Hd)%existsb_exists. apply list_elem_of_In in Hm.
  destruct m; try done. apply bool_decide_eq_true in Hd. eauto.
Qed.

Lemma demo_program_ok k :
  length (demo_deliveries k) = 7%nat → demo_program_check k = true →
  ∃ p, honest_program (C := toy_crypto) (B := toy_bincode) (S := toy_serde) demo_genesis p ∧
    pr_key p = key32 k ∧ pr_events p = demo_deliveries k ∧
    (∀ t, ∃ v, CastVote v ∈ nd_sent (pr_end p) ∧ vote_is t 0 0 split_block v) ∧
    br_height <$> pr_blocks p = [0].
Proof.
  intros Hlen. unfold demo_program_check, demo_program.
  destruct (node_boot _ _ _) as [[[env nd]|]|] eqn:Hboot; [|done|done]. cbn [mbind option_bind].
  destruct (node_run env nd _) as [nd'|] eqn:Hrun; [|done]. cbn [mbind option_bind pr_env pr_end pr_blocks].
  intros ([([Hk Hv]%andb_true_iff & Hs1)%andb_true_iff Hs2]%andb_true_iff & Hb)%andb_true_iff.
  apply bool_decide_eq_true in Hk, Hv, Hb.
  exists (mkProgram debug_build forward_order demo_clock None (Some (Ok (key32 k))) (key32 k) env nd
    (demo_deliveries k) nd').
  split; [|split; [|split; [|split]]]; [|reflexivity|reflexivity| |exact Hb].
  - unfold honest_program. cbn [pr_checks pr_order pr_clock pr_state_file pr_key_file pr_key pr_env pr_start pr_events pr_end].
    split; [exact forward_order_laws|]. split; [exact Hk|]. split; [exact Hv|]. split; [rewrite Hlen; lia|].
    split; [apply demo_no_bare_commit|]. split; [exact Hboot|exact Hrun].
  - intros []; [exact (demo_sends_sound _ _ Hs1)|exact (demo_sends_sound _ _ Hs2)].
Qed.
End Demos.

(** * Properties *)

(** C3: the event loop refines the consensus machine.  Whatever a node is given after it
    has started, there is a run of its machine, from height 0, that ends in the same
    state, over events it was given (and the proposals it made itself); the votes it has
    sent are, in order, votes that the machine asked for, signed; every block it has
    stored is one the machine committed, or one of a peer's bare commit; and when there
    is no bare commit the machine goes up one height at a time. *)
Theorem node_refines_machine {OC : OverflowChecks} {C : Crypto} {B : Bincode} {HO : HashOrder}
    {S : Serde} {K : Clock} (g : GenesisConfig)
    (state_file validator_key : option (result string bytes)) (env : NodeEnv) (nd nd' : Node)
    (es : list node_event) :
  node_boot g state_file validator_key = Some (Ok (env, nd)) → node_run env nd es = Some nd' →
  ∃ bes outs, let start := (BftStateMachine_advance_height 0 (node_machine g env)).1 in
    bft_run start bes = Some (nd_bft nd', outs) ∧ Forall (event_from env es) bes ∧
    votes_of (nd_sent nd') `sublist_of` signed_votes env outs ∧
    Forall (block_from es outs) (rpc_block_store (nd_rpc nd')) ∧
    (no_bare_commit es → by_one start bes) ∧ (length bes <= 4 * length es + 1)%nat.
Proof.
  intros Hboot Hrun. destruct (node_sim _ _ _ _ _ _ _ Hboot Hrun) as (bes & outs & R & E & _ & Hrest).
  exists bes, outs. exact (conj R (conj E Hrest)).
Qed.

Lemma node_refines_machine_witness :
  ∃ env nd nd' bes outs,
    node_boot (OC := debug_build) (C := toy_crypto) (B := toy_bincode) (HO := forward_order)
      (S := toy_serde) (K := demo_clock) demo_genesis None None = Some (Ok (env, nd)) ∧
    node_run (OC := debug_build) (C := toy_crypto) (B := toy_bincode) (HO := forward_order)
      (S := toy_serde) (K := demo_clock) env nd demo_node_events = Some nd' ∧
    bft_run (OC := debug_build) (C := toy_crypto) (B := toy_bincode) (HO := forward_order)
      (BftStateMachine_advance_height 0 (node_machine (C := toy_crypto) demo_genesis env)).1 bes =
      Some (nd_bft nd', outs).
Proof.
  destruct (node_boot_ok (OC := debug_build) (C := toy_crypto) (B := toy_bincode) (HO := forward_order)
    (S := toy_serde) (K := demo_clock) 100 6 demo_genesis None None None)
    as (env & nd & Hboot & Henv & Hnd); [lia|lia|apply demo_genesis_ok|reflexivity|apply (demo_initial_db 6); lia|].
  destruct (node_run_ok (OC := debug_build) (C := toy_crypto) (B := toy_bincode) (HO := forward_order)
    (S := toy_serde) (K := demo_clock) 100 _ ltac:(lia) ltac:(lia) env Henv 0 demo_node_events nd Hnd ltac:(done))
    as (nd' & Hrun & _).
  { unfold demo_node_events. repeat constructor; vm_compute; discriminate || reflexivity. }
  destruct (node_refines_machine (OC := debug_build) (C := toy_crypto) (B := toy_bincode) (HO := forward_order)
    (S := toy_serde) (K := demo_clock) demo_genesis None None env nd nd' demo_node_events Hboot Hrun)
    as (bes & outs & Hbft & _).
  exists env, nd, nd', bes, outs. split; [exact Hboot|]. split; [exact Hrun|exact Hbft].
Defined.

(** C4: an honest node never signs two votes of one type for one height and round, as long
    as no peer sends a bare commit: over any deliveries, the votes it hands to the
    network are of pairwise different type, height and round. *)
Theorem node_never_signs_twice {OC : OverflowChecks} {C : Crypto} {B : Bincode} {HO : HashOrder}
    {S : Serde} {K : Clock} (g : GenesisConfig)
    (state_file validator_key : option (result string bytes)) (env : NodeEnv) (nd nd' : Node)
    (es : list node_event) :
  4 * Z.of_nat (length es) + 1 < U32 → no_bare_commit es →
  node_boot g state_file validator_key = Some (Ok (env, nd)) → node_run env nd es = Some nd' →
  NoDup (vote_key <$> votes_of (nd_sent nd')).
Proof.
  intros Hlen Hno Hboot Hrun.
  destruct (node_sim _ _ _ _ _ _ _ Hboot Hrun) as (bes & outs & Hbft & _ & _ & Hvotes & _ & Hone & Hl).
  cbv zeta in Hbft, Hone.
  destruct (bft_run_progress (BftStateMachine_advance_height 0 (node_machine g env)).1 bes (nd_bft nd') outs
    (advance_height_wf 0 (node_machine g env))) as (_ & _ & Hnd & _); [simpl; lia| |exact Hbft|].
  - apply by_one_advancing; [simpl; lia|simpl; zlia|by apply Hone].
  - eapply sublist_NoDup; [exact Hnd|]. etrans; [|apply signed_votes_keys]. by apply fmap_sublist.
Qed.

Lemma node_never_signs_twice_witness :
  ∃ p, (∀ t, ∃ v, CastVote v ∈ nd_sent (pr_end p) ∧ vote_is t 0 0 split_block v) ∧
    NoDup (vote_key <$> votes_of (nd_sent (pr_end p))).
Proof.
  destruct (demo_program_ok 3 ltac:(reflexivity) ltac:(vm_compute; reflexivity))
    as (p & (_ & _ & _ & Hlen & Hno & Hboot & Hrun) & _ & _ & Hv & _).
  exists p. split; [exact Hv|].
  exact (node_never_signs_twice (OC := pr_checks p) (C := toy_crypto) (B := toy_bincode) (HO := pr_order p)
    (S := toy_serde) (K := pr_clock p) demo_genesis (pr_state_file p) (pr_key_file p) (pr_env p) (pr_start p)
    (pr_end p) (pr_events p) Hlen Hno Hboot Hrun).
Defined.
