(* ===== verification/NodeChain.v ===== *)
(** * The node as a replicated ledger (validator/src/main.rs, rpc/src/server.rs)

    Behind consensus, mempool and timers a node keeps a ledger: accounts, base fee, the
    last hash and the stored blocks.  Whatever happens, the ledger is the result of
    replaying a log of commits from the start ([replay]), and - while no peer sends a
    bare commit - the log has the heights 0, 1, 2, ..., its blocks are linked by their
    hashes, and the RPC interface serves them by height. *)
From S2P Require Import Prelude Crypto Block Vote StateMachine Agreement State Mempool.
From S2P Require Import Staking Fees ValidatorSet Genesis Rpc Node NodeSafety NodeFaults NodeAgreement.
Open Scope Z_scope.

(** ** Specification *)

(** A commit: what was executed under a hash, and what is shown of it. *)
Record entry := mkEntry {
  en_height : Height;
  en_hash : BlockHash;
  en_transactions : list Transaction;
  en_proposer : string;
  en_time : Z;
}.
Record Ledger := mkLedger {
  lg_accounts : StateDB;
  lg_fees : FeeMarket;
  lg_last_hash : BlockHash;
  lg_blocks : list BlockResponse;
  lg_height : Height;
  lg_base_fee : Z;
}.

Section Ledgers.
Context {OC : OverflowChecks} {C : Crypto} {S : Serde}.

(** The block that is stored for a commit, after the block [parent]. *)
Definition entry_block (parent : BlockHash) (en : entry) : BlockResponse :=
  mkBlockResponse (en_height en) (en_time en) (to_hex parent) (en_proposer en)
    (Z.of_nat (length (en_transactions en))) (to_hex (en_hash en)).
Definition ledger_step (lg : Ledger) (en : entry) : may_panic Ledger :=
  '(accounts, _) ← StateDB_apply_block (en_transactions en) (lg_accounts lg);
  gas_used ← u64_mul (Z.of_nat (length (en_transactions en))) 21000;
  fees ← FeeMarket_update_base_fee gas_used (lg_fees lg);
  Some (mkLedger accounts fees (en_hash en) (lg_blocks lg ++ [entry_block (lg_last_hash lg) en])
    (en_height en) (FeeMarket_current_base_fee fees)).
Definition replay (lg : Ledger) (log : list entry) : may_panic Ledger := fold_may_panic ledger_step lg log.

(** The heights of a log that takes a machine from one height to another. *)
Fixpoint climbs (h : Height) (log : list entry) (h' : Height) : Prop :=
  match log with
  | [] => h' = h
  | en :: log => en_height en = h ∧ ∃ h1, u64_add h 1 = Some h1 ∧ climbs h1 log h'
  end.
End Ledgers.

Definition ledger_of (nd : Node) : Ledger :=
  mkLedger (nd_state_db nd) (nd_fee_market nd) (nd_last_block_hash nd) (rpc_block_store (nd_rpc nd))
    (rpc_current_height (nd_rpc nd)) (rpc_base_fee (nd_rpc nd)).

(** What a node executes under a hash: the body of the block that it holds for the hash,
    which has that hash, or - when it holds none - its own hundred first pending
    transactions. *)
Definition entry_ok {C : Crypto} {B : Bincode} {HO : HashOrder} (nd : Node) (en : entry) : Prop :=
  match sm_proposed_blocks (nd_bft nd) !! en_hash en with
  | Some b => Block_hash b = en_hash en ∧ en_transactions en = blk_transactions b ∧
              en_proposer en = to_hex (bh_proposer (blk_header b))
  | None => en_transactions en = TransactionPool_get_pending_ordered 100 (nd_mempool nd) ∧
            en_proposer en = EmptyString
  end.

(** What has been executed in a run: by the node as it was before one of the events. *)
Definition executed {OC : OverflowChecks} {C : Crypto} {B : Bincode} {HO : HashOrder} {S : Serde} {K : Clock}
    (env : NodeEnv) (nd : Node) (es : list node_event) (en : entry) : Prop :=
  ∃ before nd1, before `prefix_of` es ∧ (length before < length es)%nat ∧
    node_run env nd before = Some nd1 ∧ entry_ok nd1 en.

(** The cached blocks have the hashes they are filed under. *)
Definition blocks_hashed {C : Crypto} {B : Bincode} (s : BftStateMachine) : Prop :=
  map_Forall (λ h b, Block_hash b = h) (sm_proposed_blocks s).

(** The node goes on and commits [log], of entries that are [P]. *)
Definition commits {OC : OverflowChecks} {C : Crypto} {B : Bincode} {S : Serde} (P : entry → Prop) (nd nd' : Node)
    (log : list entry) : Prop :=
  replay (ledger_of nd) log = Some (ledger_of nd') ∧ Forall P log ∧ blocks_hashed (nd_bft nd').

(** The stored blocks are linked: each names the hash of the one before. *)
Definition linked (first : BlockHash) (blocks : list BlockResponse) : Prop :=
  ∀ i b, blocks !! i = Some b →
    br_parent_hash b = match i with
                       | O => to_hex first
                       | Datatypes.S j => default EmptyString (br_block_hash <$> blocks !! j)
                       end.

(** * Lemmas *)

Section Replay.
Context {OC : OverflowChecks} {C : Crypto} {S : Serde}.

Lemma replay_app lg lg' log1 log2 :
  replay lg (log1 ++ log2) = Some lg' ↔ ∃ lg1, replay lg log1 = Some lg1 ∧ replay lg1 log2 = Some lg'.
Proof.
  unfold replay. revert lg. induction log1 as [|en log1 IH]; intros lg; simpl.
  { split; [by exists lg|]. by intros (? & [= ->] & ?). }
  destruct (ledger_step lg en) as [lg1|]; simpl; [apply IH|]. split; [done|]. by intros (? & ? & _).
Qed.

Lemma climbs_app h log1 h1 log2 h' : climbs h log1 h1 → climbs h1 log2 h' → climbs h (log1 ++ log2) h'.
Proof.
  revert h. induction log1 as [|en log1 IH]; intros h; simpl; [by intros ->|].
  intros (He & h2 & Hh & Hc) H2. split; [done|]. exists h2. split; [done|]. by apply IH.
Qed.

Lemma climbs_heights h log h' :
  0 <= h → h + Z.of_nat (length log) < U64 → climbs h log h' →
  en_height <$> log = seqZ h (Z.of_nat (length log)) ∧ h' = h + Z.of_nat (length log).
Proof.
  revert h. induction log as [|en log IH]; intros h Hh Hlen; simpl.
  { intros ->. split; [done|lia]. }
  intros (He & h1 & Hh1 & Hc). simpl in Hlen. rewrite u64_add_ok in Hh1 by zlia. injection Hh1 as <-.
  destruct (IH (h + 1) ltac:(lia) ltac:(lia) Hc) as [Hseq ->]. split; [|lia].
  rewrite (seqZ_cons h) by lia. csimpl.
  f_equal; [exact He|]. etrans; [exact Hseq|]. f_equal; lia.
Qed.

(** The blocks of a replay. *)
Lemma replay_blocks lg log lg' :
  replay lg log = Some lg' →
  ∃ blocks, lg_blocks lg' = lg_blocks lg ++ blocks ∧ br_height <$> blocks = en_height <$> log ∧
    br_block_hash <$> blocks = (λ en, to_hex (en_hash en)) <$> log ∧ linked (lg_last_hash lg) blocks ∧
    lg_height lg' = default (lg_height lg) (br_height <$> last blocks) ∧
    to_hex (lg_last_hash lg') = default (to_hex (lg_last_hash lg)) (br_block_hash <$> last blocks).
Proof.
  unfold replay. revert lg. induction log as [|en log IH]; intros lg; simpl.
  { intros [= <-]. exists []. rewrite app_nil_r. by split_and!. }
  intros (lg1 & Hs & Hr)%bind_Some. destruct (IH lg1 Hr) as (blocks & Hb & Hh & Hx & Hl & Hlast & Hhash).
  unfold ledger_step in Hs. apply bind_Some in Hs as ([db rs] & _ & Hs). apply bind_Some in Hs as (gas & _ & Hs).
  apply bind_Some in Hs as (fm & _ & [= <-]). cbn [lg_blocks lg_last_hash lg_height] in *.
  exists (entry_block (lg_last_hash lg) en :: blocks). split; [by rewrite Hb, <-app_assoc|].
  split; [csimpl; by rewrite Hh|]. split; [csimpl; by rewrite Hx|]. split.
  - intros [|i] b; simpl; [by intros [= <-]|]. intros Hi. rewrite (Hl i b Hi). by destruct i.
  - rewrite Hlast, Hhash. destruct blocks as [|b blocks]; [done|]. rewrite last_cons_cons.
    destruct (last (b :: blocks)) eqn:E; [done|]. by apply last_None in E.
Qed.
End Replay.

Section Node.
Context {OC : OverflowChecks} {C : Crypto} {B : Bincode} {HO : HashOrder} {S : Serde} {K : Clock}.

Lemma bft_exec_hashed s e s' out : blocks_hashed s → bft_exec s e = Some (s', out) → blocks_hashed s'.
Proof.
  intros Hs Hx. destruct e as [p blk|v|v|te|h]; simpl in Hx.
  - apply on_proposal_inv in Hx as [[-> _]|((_ & _ & _ & _ & Hb) & -> & _)]; [done|].
    destruct blk as [b|]; [|done]. by apply map_Forall_insert_2; [apply Hb|].
  - injection Hx as Hx. revert Hx. unfold BftStateMachine_on_prevote. repeat case_match; intros; by simplify_eq.
  - injection Hx as Hx. revert Hx. unfold BftStateMachine_on_precommit. repeat case_match; intros; by simplify_eq.
  - revert Hx. unfold BftStateMachine_on_timeout. destruct (_ || _); [by intros [= <- _]|].
    destruct (te_step te); (destruct (bool_decide _); [|by intros [= <- _]]).
    + by intros [= <- _].
    + by intros (first & _ & [= <- _])%bind_Some.
    + by intros (nr & _ & [= <- _])%bind_Some.
  - injection Hx as <- _. apply map_Forall_empty.
Qed.

(** Only a precommit makes the machine commit, and it leaves the cached blocks. *)
Lemma commit_answer s e s' h x :
  bft_exec s e = Some (s', [CommitBlock h x]) → (∃ v, e = EvPrecommit v) ∧ sm_proposed_blocks s' = sm_proposed_blocks s.
Proof.
  intros Hx. destruct e as [p blk|v|v|te|h']; simpl in Hx.
  - by apply on_proposal_inv in Hx as [[_ ?]|(_ & _ & ?)].
  - injection Hx as Hx. revert Hx. unfold BftStateMachine_on_prevote. repeat case_match; intros; by simplify_eq.
  - split; [by eexists|]. injection Hx as Hx. revert Hx. unfold BftStateMachine_on_precommit.
    repeat case_match; intros; by simplify_eq.
  - revert Hx. unfold BftStateMachine_on_timeout. destruct (_ || _); [by intros|].
    destruct (te_step te); (destruct (bool_decide _); [|by intros]).
    + by intros.
    + by intros (first & _ & ?)%bind_Some.
    + intros (nr & _ & Hr)%bind_Some. unfold BftStateMachine_start_round in Hr. by simplify_eq.
  - unfold BftStateMachine_start_round in Hx. by injection Hx.
Qed.

(** What the node holds decides what it executes. *)
Lemma entry_ok_same nd nd' en :
  sm_proposed_blocks (nd_bft nd') = sm_proposed_blocks (nd_bft nd) → nd_mempool nd' = nd_mempool nd →
  entry_ok nd' en → entry_ok nd en.
Proof. unfold entry_ok. by intros -> ->. Qed.

Lemma commits_mono (P Q : entry → Prop) nd nd' log :
  commits P nd nd' log → (∀ en, P en → Q en) → commits Q nd nd' log.
Proof. intros (R & E & H) HPQ. split; [done|]. split; [by eapply Forall_impl|done]. Qed.
Lemma commits_nothing P nd nd' :
  ledger_of nd' = ledger_of nd → blocks_hashed (nd_bft nd') → commits P nd nd' [].
Proof. intros H Hb. split; [unfold replay; simpl; by rewrite H|]. split; [by apply Forall_nil_2|done]. Qed.
Lemma commits_trans P nd1 nd2 nd3 log1 log2 :
  commits P nd1 nd2 log1 → commits P nd2 nd3 log2 → commits P nd1 nd3 (log1 ++ log2).
Proof.
  intros (R1 & E1 & _) (R2 & E2 & H2). split; [apply replay_app; by exists (ledger_of nd2)|].
  split; [by apply Forall_app|done].
Qed.

Lemma propose_ledger env cond h r nd nd' :
  blocks_hashed (nd_bft nd) → propose_if_proposer env cond h r nd = Some nd' →
  ledger_of nd' = ledger_of nd ∧ blocks_hashed (nd_bft nd') ∧ sm_height (nd_bft nd') = sm_height (nd_bft nd).
Proof.
  intros Hb [->|(sk & _ & (block & out & _ & Hon & Hnd)%propose_block_inv)]%propose_if_proposer_inv; [done|].
  split; [by rewrite Hnd|]. split; [exact (bft_exec_hashed _ (EvProposal _ _) _ _ Hb Hon)|].
  by apply on_proposal_height in Hon as [-> _].
Qed.

(** A commit replays one entry. *)
Lemma apply_commit_replays env h x nd nd' :
  blocks_hashed (nd_bft nd) → apply_commit env h x (sm_proposed_blocks (nd_bft nd) !! x) nd = Some nd' →
  ∃ en, en_height en = h ∧ en_hash en = x ∧ entry_ok nd en ∧
    ledger_step (ledger_of nd) en = Some (ledger_of nd') ∧ nd_bft nd' = nd_bft nd.
Proof.
  intros Hblk. unfold apply_commit.
  destruct (committed_transactions _ (rpc_mempool (nd_rpc nd))) as [txs proposer] eqn:Htx.
  intros ([db receipts] & Hdb & (pool & _ & (gas & Hgas & (fm & Hfm & (vs & ->)%epoch_boundary_inv)%bind_Some)
    %bind_Some)%bind_Some)%bind_Some.
  exists (mkEntry h x txs proposer (clock (nd_clock_reads nd))). split; [done|]. split; [done|]. split; [|split; [|done]].
  - unfold entry_ok. cbn [en_hash en_transactions en_proposer]. unfold committed_transactions in Htx.
    destruct (sm_proposed_blocks (nd_bft nd) !! x) as [b|] eqn:Hb; injection Htx as <- <-; [|done].
    split; [by apply (Hblk x)|done].
  - unfold ledger_step. cbn [en_transactions lg_accounts ledger_of lg_fees]. unfold nd_state_db.
    rewrite Hdb. cbn [mbind option_bind]. rewrite Hgas. cbn [mbind option_bind]. rewrite Hfm. done.
Qed.

Lemma commit_replays env h x nd nd' :
  blocks_hashed (nd_bft nd) → commit_and_advance env h x nd = Some nd' →
  ∃ en, commits (entry_ok nd) nd nd' [en] ∧ en_height en = h ∧ en_hash en = x ∧
    u64_add h 1 = Some (sm_height (nd_bft nd')).
Proof.
  intros Hb (nd1 & Hc & Hrest)%bind_Some.
  apply (apply_commit_replays _ _ _ _ _ Hb) in Hc as (en & Hh & Hx & Hen & Hstep & Hbft).
  apply bind_Some in Hrest as (h' & Hh' & Hrest). revert Hrest. rewrite advance_height_timeout, Hbft. cbn [fst snd].
  intros ([bs nd2] & Ho & Hrest)%bind_Some. apply node_output_timeout in Ho as (-> & ts & ->).
  apply bind_Some in Hrest as (nd3 & Hp & [= <-]).
  apply propose_ledger in Hp as (Hl & Hhash & Hht); [|apply map_Forall_empty].
  exists en. split; [|split; [exact Hh|split; [exact Hx|]]].
  - split; [|split; [by apply Forall_singleton|exact Hhash]].
    unfold replay. cbn [fold_may_panic]. rewrite Hstep. cbn [mbind option_bind]. f_equal.
    change (ledger_of (broadcast [] nd3)) with (ledger_of nd3). rewrite Hl. done.
  - change (sm_height (nd_bft (broadcast [] nd3))) with (sm_height (nd_bft nd3)). rewrite Hht, Hh'. done.
Qed.
(** The log of a step or a run, and its heights. *)
Definition advances (nd nd' : Node) (log : list entry) : Prop :=
  climbs (sm_height (nd_bft nd)) log (sm_height (nd_bft nd')).

Lemma advances_nothing nd nd' : sm_height (nd_bft nd') = sm_height (nd_bft nd) → advances nd nd' [].
Proof. done. Qed.
Lemma advances_one nd nd' en :
  en_height en = sm_height (nd_bft nd) → u64_add (en_height en) 1 = Some (sm_height (nd_bft nd')) →
  advances nd nd' [en].
Proof. intros He Hu. split; [done|]. eexists. split; [by rewrite <-He|done]. Qed.

(** The machine's answer to an event, this node's proposal, and the broadcasts. *)
Lemma answer_replays env e nd s' out bs nd1 nd2 nd' :
  blocks_hashed (nd_bft nd) → bft_exec (nd_bft nd) e = Some (s', out) → stays_at_height e = true →
  node_output env out (set_bft s' nd) = Some (bs, nd1) →
  ledger_of nd2 = ledger_of nd1 ∧ (blocks_hashed (nd_bft nd1) → blocks_hashed (nd_bft nd2)) ∧
    sm_height (nd_bft nd2) = sm_height (nd_bft nd1) →
  ((∃ v, e = EvPrecommit v) → nd2 = nd1) →
  fold_may_panic (handle_broadcast env) nd2 bs = Some nd' →
  ∃ log, commits (entry_ok nd) nd nd' log ∧ advances nd nd' log ∧ (length log <= 1)%nat.
Proof.
  intros Hb He Hst Ho (Hl & Hb2 & Hh2) Hsame Hf.
  pose proof (bft_exec_hashed _ _ _ _ Hb He) as Hbs.
  destruct (bft_exec_answer _ _ _ _ Hst He) as (Hh1 & _ & Hout).
  destruct (node_output_inv _ _ _ _ _ Ho) as (ts & ->).
  cbn [nd_bft spawn_timers set_bft] in Hh2, Hb2. specialize (Hb2 Hbs).
  assert (commits (entry_ok nd) nd nd2 []) as H02 by (by apply commits_nothing; [rewrite Hl|]).
  assert (∀ ms, ∃ log, commits (entry_ok nd) nd (broadcast ms nd2) log ∧ advances nd (broadcast ms nd2) log ∧ (length log <= 1)%nat) as Hsend.
  { intros ms. exists []. split; [by apply commits_nothing; [exact Hl|]|]. split; [|simpl; lia]. apply advances_nothing. cbn. congruence. }
  assert (nd2 = broadcast [] nd2) as Hnil by (destruct nd2; unfold broadcast; simpl; by rewrite app_nil_r).
  unfold node_output, process_bft_output in Ho.
  destruct Hout as [->|[(te & ->)|[(v & -> & _)|(x & ->)]]]; cbn [fold_may_panic process_message] in Ho.
  - injection Ho as <- _. injection Hf as <-. rewrite Hnil. apply Hsend.
  - destruct (TimeoutConfig_timeout_for _ _ _); [|done]. injection Ho as <- _. injection Hf as <-.
    rewrite Hnil. apply Hsend.
  - destruct (ne_signing_key env); injection Ho as <- _; injection Hf as <-; [apply Hsend|].
    rewrite Hnil. apply Hsend.
  - injection Ho as <- _. cbn [fold_may_panic handle_broadcast app] in Hf. apply bind_Some in Hf as (nd3 & Hc & [= <-]).
    destruct (commit_replays _ _ _ _ _ Hb2 Hc) as (en & Hcom & He' & _ & Hu).
    apply commit_answer in He as [Hpre Hkept]. rewrite (Hsame Hpre) in *.
    apply (commits_mono _ (entry_ok nd)) in Hcom; [|intros en'; by apply entry_ok_same].
    exists [en]. split; [exact (commits_trans _ _ _ _ _ _ H02 Hcom)|]. split; [|simpl; lia]. by apply advances_one; rewrite He'.
Qed.

Lemma node_step_replays env e nd nd' :
  blocks_hashed (nd_bft nd) → node_step env nd e = Some nd' →
  ∃ log, commits (entry_ok nd) nd nd' log ∧
    ((∀ h x, e ≠ NetMessage (CommitBlock h x)) → advances nd nd' log) ∧ (length log <= 1)%nat.
Proof.
  intros Hb Hs.
  assert (∀ P : Prop, (∃ log, commits (entry_ok nd) nd nd' log ∧ advances nd nd' log ∧ (length log <= 1)%nat) →
    ∃ log, commits (entry_ok nd) nd nd' log ∧ (P → advances nd nd' log) ∧ (length log <= 1)%nat) as Hweak
    by (intros P (log & ? & ? & ?); by exists log).
  assert (ledger_of nd' = ledger_of nd → nd_bft nd' = nd_bft nd →
    ∃ log, commits (entry_ok nd) nd nd' log ∧ advances nd nd' log ∧ (length log <= 1)%nat) as Hsame.
  { intros Hl Hbft. exists []. split; [by apply commits_nothing; [|rewrite Hbft]|]. split; [|simpl; lia]. apply advances_nothing. by rewrite Hbft. }
  destruct e as [msg|te|tx|req|]; simpl in Hs.
  - unfold on_net_message in Hs. apply bind_Some in Hs as ([nd1 out] & Hm & Hs).
    apply bind_Some in Hs as ([bs nd2] & Ho & Hf). destruct msg as [p b|v|h x|te].
    + apply Hweak. apply bind_Some in Hm as ([s' out'] & He & [= <- <-]).
      by eapply (answer_replays env (EvProposal p b)).
    + apply Hweak. destruct (v_vote_type v).
      * destruct (BftStateMachine_on_prevote v (nd_bft nd)) as [s' out'] eqn:He. injection Hm as <- <-.
        eapply (answer_replays env (EvPrevote v)); [done|simpl; by rewrite He|done|exact Ho|done|done|exact Hf].
      * destruct (BftStateMachine_on_precommit v (nd_bft nd)) as [s' out'] eqn:He. injection Hm as <- <-.
        eapply (answer_replays env (EvPrecommit v)); [done|simpl; by rewrite He|done|exact Ho|done|done|exact Hf].
    + apply bind_Some in Hm as (nd3 & Hc & [= <- <-]). injection Ho as <- <-. injection Hf as <-.
      destruct (commit_replays _ _ _ _ _ Hb Hc) as (en & Hcom & _). exists [en]. split; [exact Hcom|]. split; [|simpl; lia].
      intros Hno. by destruct (Hno h x).
    + injection Hm as <- <-. injection Ho as <- <-. injection Hf as <-. by apply Hweak, Hsame.
  - apply Hweak. unfold on_timeout_event in Hs. apply bind_Some in Hs as ([s' out] & He & Hs).
    apply bind_Some in Hs as ([bs nd1] & Ho & Hs). apply bind_Some in Hs as (nd2 & Hp & Hf).
    assert (blocks_hashed (nd_bft nd1)) as Hb1.
    { destruct (node_output_inv _ _ _ _ _ Ho) as (ts & ->). exact (bft_exec_hashed _ (EvTimeout te) _ _ Hb He). }
    destruct (propose_ledger _ _ _ _ _ _ Hb1 Hp) as (Hl & Hb2 & Hh).
    eapply (answer_replays env (EvTimeout te)); [exact Hb|exact He|done|exact Ho|by split|by intros [v ?]|exact Hf].
  - apply Hweak. unfold on_net_transaction in Hs. apply bind_Some in Hs as ([pool r] & _ & [= <-]). by apply Hsame.
  - apply Hweak. unfold on_rpc_submit in Hs. apply bind_Some in Hs as ([rpc r] & Hr & [= <-]).
    apply Hsame; [|done]. destruct (submit_keeps_ledger _ _ _ _ Hr) as [H1 H2].
    destruct (submit_keeps_head _ _ _ _ Hr) as [H3 H4]. unfold ledger_of, nd_state_db. simpl. congruence.
  - apply Hweak. unfold on_gossip_ready in Hs. repeat case_match; simplify_eq; by apply Hsame.
Qed.

Lemma node_run_replays env es nd nd' :
  blocks_hashed (nd_bft nd) → node_run env nd es = Some nd' →
  ∃ log, commits (executed env nd es) nd nd' log ∧ (no_bare_commit es → advances nd nd' log) ∧
    (length log <= length es)%nat.
Proof.
  unfold node_run. revert nd. induction es as [|e es IH]; intros nd Hb; simpl.
  { intros [= <-]. exists []. split; [by apply commits_nothing|]. by split. }
  intros (nd1 & Hs & Hr)%bind_Some. destruct (node_step_replays env e nd nd1 Hb Hs) as (log1 & H1 & A1 & L1).
  destruct (IH nd1) as (log2 & H2 & A2 & L2); [by apply H1|done|].
  exists (log1 ++ log2). split.
  { eapply commits_trans; (eapply commits_mono; [done|]).
    - intros en Hen. exists [], nd. split; [apply prefix_nil|]. split; [simpl; lia|done].
    - intros en (before & nd2 & Hpre & Hlen & Hrun & Hen). exists (e :: before), nd2.
      split; [by apply prefix_cons|]. split; [simpl; lia|]. split; [|done].
      unfold node_run. cbn [fold_may_panic]. rewrite Hs. exact Hrun. }
  split.
  - intros Hno. eapply climbs_app; [apply A1|apply A2]; intros h x; [intros ->; by apply (Hno h x); left|].
    intros Hin. apply (Hno h x). by right.
  - rewrite length_app. simpl. lia.
Qed.

Lemma node_boot_ledger g state_file validator_key env nd :
  node_boot g state_file validator_key = Some (Ok (env, nd)) →
  blocks_hashed (nd_bft nd) ∧ sm_height (nd_bft nd) = 0 ∧ nd_state_db nd = initial_state_db g state_file ∧
  rpc_block_store (nd_rpc nd) = [] ∧ nd_last_block_hash nd = zero32 ∧ rpc_current_height (nd_rpc nd) = 0.
Proof.
  intros (key & nd0 & _ & _ & Hb & Hst & Hd & _ & Hz & Hh & Hstart)%node_boot_start. unfold node_start in Hstart.
  rewrite Hb in Hstart. destruct (BftStateMachine_start_round 0 _) as [s out] eqn:Hs. injection Hs as Hs1 Hs2.
  subst s out. apply bind_Some in Hstart as ([bs nd1] & Ho & Hrest).
  apply node_output_timeout in Ho as (-> & ts & ->). apply bind_Some in Hrest as (nd2 & Hp & [= <-]).
  apply propose_ledger in Hp as (Hl & Hbl & Hht); [|apply map_Forall_empty].
  unfold ledger_of, nd_state_db in *. injection Hl as H1 H2 H3 H4 H5 H6. simpl in *.
  split; [exact Hbl|]. split; [by rewrite Hht|]. split_and!; congruence.
Qed.
End Node.

(** * Properties *)

(** C5: the node refines a ledger.  Whatever a started node is given - also bare commits -
    its accounts, base fee, last hash, stored blocks and what the RPC interface shows of
    them are those of replaying a log of commits, one step of the specification each;
    each entry executes what the node held before one of the events: the body of the block
    it had for the hash - a block with that hash - or, having none, its own hundred first
    pending transactions; and while no peer sends a bare commit, and for fewer than 2^64
    events, the heights of the log are 0, 1, 2, ... up to that of the machine. *)
Theorem node_refines_ledger {OC : OverflowChecks} {C : Crypto} {B : Bincode} {HO : HashOrder}
    {S : Serde} {K : Clock} (g : GenesisConfig) (state_file validator_key : option (result string bytes))
    (env : NodeEnv) (nd nd' : Node) (es : list node_event) :
  node_boot g state_file validator_key = Some (Ok (env, nd)) → node_run env nd es = Some nd' →
  ∃ log, replay (ledger_of nd) log = Some (ledger_of nd') ∧ Forall (executed env nd es) log ∧
    (length log <= length es)%nat ∧ lg_accounts (ledger_of nd) = initial_state_db g state_file ∧
    lg_blocks (ledger_of nd) = [] ∧
    (no_bare_commit es → Z.of_nat (length es) < U64 →
     en_height <$> log = seqZ 0 (Z.of_nat (length log)) ∧ sm_height (nd_bft nd') = Z.of_nat (length log)).
Proof.
  intros Hboot Hrun. destruct (node_boot_ledger _ _ _ _ _ Hboot) as (Hb & Hh & Hd & Hst & _).
  destruct (node_run_replays env es nd nd' Hb Hrun) as (log & (Hr & He & _) & Hadv & Hlen).
  exists log. split_and!; [done..|]. intros Hno Hes. specialize (Hadv Hno). unfold advances in Hadv. rewrite Hh in Hadv.
  destruct (climbs_heights 0 log (sm_height (nd_bft nd'))) as [H1 H2]; [lia|lia|done|]. split; [exact H1|lia].
Qed.

Lemma node_refines_ledger_witness :
  ∃ env nd nd' log,
    node_boot (OC := debug_build) (C := toy_crypto) (B := toy_bincode) (HO := forward_order)
      (S := toy_serde) (K := demo_clock) demo_genesis None None = Some (Ok (env, nd)) ∧
    node_run (OC := debug_build) (C := toy_crypto) (B := toy_bincode) (HO := forward_order)
      (S := toy_serde) (K := demo_clock) env nd demo_node_events = Some nd' ∧
    replay (OC := debug_build) (C := toy_crypto) (S := toy_serde) (ledger_of nd) log = Some (ledger_of nd').
Proof.
  destruct (node_boot_ok (OC := debug_build) (C := toy_crypto) (B := toy_bincode) (HO := forward_order)
    (S := toy_serde) (K := demo_clock) 100 6 demo_genesis None None None)
    as (env & nd & Hboot & Henv & Hnd); [lia|lia|apply demo_genesis_ok|reflexivity|apply (demo_initial_db 6); lia|].
  destruct (node_run_ok (OC := debug_build) (C := toy_crypto) (B := toy_bincode) (HO := forward_order)
    (S := toy_serde) (K := demo_clock) 100 _ ltac:(lia) ltac:(lia) env Henv 0 demo_node_events nd Hnd ltac:(done))
    as (nd' & Hrun & _).
  { unfold demo_node_events. repeat constructor; vm_compute; discriminate || reflexivity. }
  destruct (node_refines_ledger (OC := debug_build) (C := toy_crypto) (B := toy_bincode) (HO := forward_order)
    (S := toy_serde) (K := demo_clock) demo_genesis None None env nd nd' demo_node_events Hboot Hrun)
    as (log & Hr & _).
  exists env, nd, nd', log. exact (conj Hboot (conj Hrun Hr)).
Defined.

(** C18: the RPC interface serves the chain.  While no peer sends a bare commit, and for
    fewer than 2^64 events, the stored blocks have the heights 0, 1, 2, ... without a gap
    and each is linked to the one before it by its hash.  Once a block has been committed,
    [get_block] answers exactly the heights that have been, each with its block, and
    [get_latest_block] with the last - although blocks are looked up by their position.
    Before the first commit [get_block] of height 0 and [get_latest_block] answer a
    placeholder of zeros, and [get_block] of any other height an error. *)
Theorem rpc_serves_chain {OC : OverflowChecks} {C : Crypto} {B : Bincode} {HO : HashOrder}
    {S : Serde} {K : Clock} (g : GenesisConfig) (state_file validator_key : option (result string bytes))
    (env : NodeEnv) (nd nd' : Node) (es : list node_event) :
  node_boot g state_file validator_key = Some (Ok (env, nd)) → node_run env nd es = Some nd' →
  no_bare_commit es → Z.of_nat (length es) < U64 →
  let blocks := rpc_block_store (nd_rpc nd') in
  br_height <$> blocks = seqZ 0 (Z.of_nat (length blocks)) ∧
  sm_height (nd_bft nd') = Z.of_nat (length blocks) ∧ linked zero32 blocks ∧
  (∀ h, 0 <= h < Z.of_nat (length blocks) →
    ∃ b, RpcImpl_get_block h (nd_rpc nd') = Ok b ∧ b ∈ blocks ∧ br_height b = h) ∧
  (blocks ≠ [] → ∀ h, Z.of_nat (length blocks) <= h → is_ok (RpcImpl_get_block h (nd_rpc nd')) = false) ∧
  (blocks ≠ [] → ∃ b, RpcImpl_get_latest_block (nd_rpc nd') = Ok b ∧
    br_height b = Z.of_nat (length blocks) - 1 ∧ br_block_hash b = to_hex (nd_last_block_hash nd')) ∧
  (blocks = [] → let zeros := mkBlockResponse 0 0 zeros64 zeros64 0 zeros64 in
    RpcImpl_get_block 0 (nd_rpc nd') = Ok zeros ∧ RpcImpl_get_latest_block (nd_rpc nd') = Ok zeros ∧
    ∀ h, 0 < h → is_ok (RpcImpl_get_block h (nd_rpc nd')) = false).
Proof.
  intros Hboot Hrun Hno Hlen blocks. destruct (node_boot_ledger _ _ _ _ _ Hboot) as (Hb & Hh & _ & Hst & Hz & Hch).
  destruct (node_run_replays env es nd nd' Hb Hrun) as (log & (Hr & _ & _) & Hadv & Hle).
  specialize (Hadv Hno). unfold advances in Hadv. rewrite Hh in Hadv.
  destruct (climbs_heights 0 log (sm_height (nd_bft nd'))) as [Hseq Hht]; [lia|lia|done|].
  destruct (replay_blocks _ _ _ Hr) as (bs & Hbs & Hbh & _ & Hlink & Hcur & Hlast).
  cbn [ledger_of lg_blocks lg_last_hash lg_height] in *. rewrite Hst, app_nil_l in Hbs. rewrite Hz in Hlink.
  assert (bs = blocks) as -> by done. assert (length blocks = length log) as Hll.
  { apply (f_equal length) in Hbh. rewrite !length_fmap in Hbh. exact Hbh. }
  assert (br_height <$> blocks = seqZ 0 (Z.of_nat (length blocks))) as Hheights.
  { rewrite Hll. etrans; [exact Hbh|exact Hseq]. }
  assert (∀ i b, blocks !! i = Some b → br_height b = Z.of_nat i) as Hat.
  { intros i b Hi. apply (f_equal (.!! i)) in Hheights. rewrite list_lookup_fmap, Hi in Hheights. simpl in Hheights.
    symmetry in Hheights. apply lookup_seqZ in Hheights as [? _]. lia. }
  assert (blocks ≠ [] → ∃ b, last blocks = Some b ∧ br_height b = Z.of_nat (length blocks) - 1) as Hend.
  { intros Hne. rewrite last_lookup. destruct (lookup_lt_is_Some_2 blocks (pred (length blocks))) as [b Hbl].
    - destruct blocks; [done|simpl; lia].
    - exists b. split; [done|]. rewrite (Hat _ _ Hbl). destruct blocks; [done|simpl; lia]. }
  split; [exact Hheights|]. split; [lia|]. split; [exact Hlink|]. split; [|split; [|split]].
  - intros h Hrange. destruct (lookup_lt_is_Some_2 blocks (Z.to_nat h)) as [b Hbl]; [lia|].
    exists b. unfold RpcImpl_get_block. fold blocks. rewrite Hbl. split; [done|].
    split; [by eapply list_elem_of_lookup_2|]. rewrite (Hat _ _ Hbl). lia.
  - intros Hne h Hge. destruct (Hend Hne) as (b & Hlb & Hbb). unfold RpcImpl_get_block. fold blocks.
    rewrite lookup_ge_None_2 by lia. rewrite Hcur, Hlb. simpl.
    rewrite (proj2 (Z.ltb_lt _ _)); [done|]. lia.
  - intros Hne. destruct (Hend Hne) as (b & Hlb & Hbb). exists b. unfold RpcImpl_get_latest_block. fold blocks.
    rewrite Hlb in Hlast |- *. split; [done|]. split; [done|]. by rewrite Hlast.
  - intros Hnil. cbv zeta. rewrite Hnil in Hcur. simpl in Hcur.
    assert (rpc_current_height (nd_rpc nd') = 0) as Hc by congruence.
    unfold RpcImpl_get_block, RpcImpl_get_latest_block. fold blocks. rewrite Hnil, Hc. split; [done|]. split; [done|].
    intros h Hpos. rewrite lookup_nil. rewrite (proj2 (Z.ltb_lt 0 h)); done.
Qed.

Lemma rpc_serves_chain_witness :
  ∃ p b, br_height <$> pr_blocks p = [0] ∧ RpcImpl_get_block 0 (nd_rpc (pr_end p)) = Ok b ∧
    b ∈ pr_blocks p ∧ br_height b = 0 ∧ is_ok (RpcImpl_get_block 1 (nd_rpc (pr_end p))) = false.
Proof.
  destruct (demo_program_ok 3 ltac:(reflexivity) ltac:(vm_compute; reflexivity))
    as (p & (_ & _ & _ & Hlen & Hno & Hboot & Hrun) & _ & _ & _ & Hblocks).
  assert (Z.of_nat (length (pr_events p)) < U64) as Hlen' by lia.
  destruct (rpc_serves_chain (OC := pr_checks p) (C := toy_crypto) (B := toy_bincode) (HO := pr_order p)
    (S := toy_serde) (K := pr_clock p) demo_genesis (pr_state_file p) (pr_key_file p) (pr_env p) (pr_start p)
    (pr_end p) (pr_events p) Hboot Hrun Hno Hlen') as (_ & _ & _ & Hget & Hbeyond & _).
  assert (length (pr_blocks p) = 1%nat) as Hone.
  { apply (f_equal length) in Hblocks. rewrite length_fmap in Hblocks. exact Hblocks. }
  unfold pr_blocks in *.
  destruct (Hget 0) as (b & Hb & Hin & Hh); [rewrite Hone; lia|].
  exists p, b. refine (conj Hblocks (conj Hb (conj Hin (conj Hh (Hbeyond _ 1 _))))).
  - intros Hnil. rewrite Hnil in Hone. discriminate Hone.
  - rewrite Hone. reflexivity.
Defined.
