(* ===== verification/Host.v ===== *)
(** * The process around the node (consensus/net/src/network.rs, validator/src/main.rs)

    The event loop and the task of the network run side by side, joined by four bounded
    channels.  [Host] is the state of both: the node and the task, the channels, and
    what each of the two still has to send before it can go on - a round of the loop
    waits for room in the channel of the broadcasts, the task for room in the channel
    of the messages.  One event is one step of one of them, in any order.  A timer may
    fire more often than once, and what a round of the loop sends it sends at its end. *)
From S2P Require Import Prelude Crypto Block Vote StateMachine State Mempool.
From S2P Require Import Staking Fees ValidatorSet Network Genesis Rpc Node.
From S2P Require Import NodeSafety NodeFaults NodeAgreement NodeChain.
Open Scope Z_scope.

(** ** tokio's bounded channels *)

(** [send] and [recv] are polled: [None] when the sender or the receiver has to wait.
    Both ends of a channel live as long as the process. *)
Class Mpsc := {
  channel : Type → Type;
  channel_new {T} (buffer : nat) : channel T;
  channel_send {T} (x : T) (c : channel T) : option (channel T);
  channel_recv {T} (c : channel T) : option (T * channel T);
  channel_items {T} (c : channel T) : list T;
  channel_buffer {T} (c : channel T) : nat;
}.

(** What is documented: values arrive in the order they were sent, and a sender waits
    while [buffer] values are queued. *)
Class MpscLaws (M : Mpsc) := {
  new_items T n : channel_items (channel_new (T := T) n) = [] ∧ channel_buffer (channel_new (T := T) n) = n;
  send_full T (x : T) c : channel_send x c = None ↔ (channel_buffer c <= length (channel_items c))%nat;
  send_items T (x : T) c c' : channel_send x c = Some c' →
    channel_items c' = channel_items c ++ [x] ∧ channel_buffer c' = channel_buffer c;
  recv_empty T (c : channel T) : channel_recv c = None ↔ channel_items c = [];
  recv_items T (c : channel T) x c' : channel_recv c = Some (x, c') →
    channel_items c = x :: channel_items c' ∧ channel_buffer c' = channel_buffer c;
}.

(** ** The handle of the network *)

(** The channels of [ConsensusNetwork::new], by what they carry: broadcasts and
    transactions towards the task, messages and transactions towards the node. *)
Record Channels {M : Mpsc} := mkChannels {
  ch_broadcasts : channel ConsensusMessage;
  ch_messages : channel NetworkMessage;
  ch_tx_broadcasts : channel Transaction;
  ch_transactions : channel Transaction;
}.

(** A receiver of transactions: of the task's, or of a channel that has no sender. *)
Inductive TxReceiver := InboundTransactions | EmptyReceiver.

(** The ends of the other three channels stay with the handle. *)
Record NetworkHandle := mkNetworkHandle {
  nh_tx_msg_rx : TxReceiver;
  nh_local_peer_id : PeerId;
}.

Section Handle.
Context {M : Mpsc}.

Definition ConsensusNetwork_channels : Channels :=
  mkChannels _ (channel_new 256) (channel_new 256) (channel_new 256) (channel_new 256).
Definition ConsensusNetwork_handle (local_peer_id : PeerId) : NetworkHandle :=
  mkNetworkHandle InboundTransactions local_peer_id.

Definition NetworkHandle_local_peer_id (h : NetworkHandle) : PeerId := nh_local_peer_id h.

Definition NetworkHandle_broadcast_message (msg : ConsensusMessage) (chs : Channels) : option Channels :=
  c ← channel_send msg (ch_broadcasts chs);
  Some (mkChannels _ c (ch_messages chs) (ch_tx_broadcasts chs) (ch_transactions chs)).

Definition NetworkHandle_next_message (chs : Channels) : option (NetworkMessage * Channels) :=
  '(msg, c) ← channel_recv (ch_messages chs);
  Some (msg, mkChannels _ (ch_broadcasts chs) c (ch_tx_broadcasts chs) (ch_transactions chs)).

Definition NetworkHandle_broadcast_transaction (tx : Transaction) (chs : Channels) : option Channels :=
  c ← channel_send tx (ch_tx_broadcasts chs);
  Some (mkChannels _ (ch_broadcasts chs) (ch_messages chs) c (ch_transactions chs)).

(** [Some None]: the channel is closed. *)
Definition receive_transaction (rx : TxReceiver) (chs : Channels) : option (option Transaction * Channels) :=
  match rx with
  | InboundTransactions =>
    '(tx, c) ← channel_recv (ch_transactions chs);
    Some (Some tx, mkChannels _ (ch_broadcasts chs) (ch_messages chs) (ch_tx_broadcasts chs) c)
  | EmptyReceiver => Some (None, chs)
  end.
Definition NetworkHandle_next_transaction (h : NetworkHandle) (chs : Channels) :
    option (option Transaction * Channels) := receive_transaction (nh_tx_msg_rx h) chs.

Definition NetworkHandle_take_tx_receiver (h : NetworkHandle) : TxReceiver * NetworkHandle :=
  (nh_tx_msg_rx h, mkNetworkHandle EmptyReceiver (nh_local_peer_id h)).

(** ** The task's ends *)

Definition send_message (msg : NetworkMessage) (chs : Channels) : option Channels :=
  c ← channel_send msg (ch_messages chs);
  Some (mkChannels _ (ch_broadcasts chs) c (ch_tx_broadcasts chs) (ch_transactions chs)).
Definition send_transaction (tx : Transaction) (chs : Channels) : option Channels :=
  c ← channel_send tx (ch_transactions chs);
  Some (mkChannels _ (ch_broadcasts chs) (ch_messages chs) (ch_tx_broadcasts chs) c).
Definition receive_broadcast (chs : Channels) : option (ConsensusMessage * Channels) :=
  '(msg, c) ← channel_recv (ch_broadcasts chs);
  Some (msg, mkChannels _ c (ch_messages chs) (ch_tx_broadcasts chs) (ch_transactions chs)).
Definition receive_tx_broadcast (chs : Channels) : option (Transaction * Channels) :=
  '(tx, c) ← channel_recv (ch_tx_broadcasts chs);
  Some (tx, mkChannels _ (ch_broadcasts chs) (ch_messages chs) c (ch_transactions chs)).
End Handle.

(** ** The loop and the task *)

(** What a round of the loop, and one of the task, has to send before the next. *)
Inductive request := RequestMessage (msg : ConsensusMessage) | RequestTransaction (tx : Transaction).
Inductive delivery := DeliverMessage (msg : NetworkMessage) | DeliverTransaction (tx : Transaction).

Record Host {M : Mpsc} := mkHost {
  ho_node : Node;
  ho_tx_rx : TxReceiver;
  ho_handle : NetworkHandle;
  ho_sending : list request;
  ho_task : NetworkRunner;
  ho_delivering : list delivery;
  ho_channels : Channels;
}.

(** What has been appended to a log. *)
Definition appended {T} (old new : list T) : list T := drop (length old) new.
Definition requests_of (nd nd' : Node) : list request :=
  (RequestMessage <$> appended (nd_sent nd) (nd_sent nd'))
  ++ (RequestTransaction <$> appended (nd_gossiped nd) (nd_gossiped nd')).
Definition deliveries_of (r r' : NetworkRunner) : list delivery :=
  (DeliverMessage <$> appended (nr_messages r) (nr_messages r'))
  ++ (DeliverTransaction <$> appended (nr_transactions r) (nr_transactions r')).

(** The arms of the loop's [select!], the progress of its sends, and the RPC server's
    threads; the arms of the task's [select!] and the progress of its sends. *)
Inductive host_event :=
| LoopMessage
| LoopTimeout (event : TimeoutEvent)
| LoopTransaction
| LoopGossip
| LoopSend
| RpcRequest (req : SubmitTransactionRequest)
| TaskSwarm (event : runner_event)
| TaskBroadcast
| TaskBroadcastTransaction
| TaskSend.

#[export] Instance TimeoutEvent_eq_dec : EqDecision TimeoutEvent.
Proof. solve_decision. Defined.

(** The events that come from the swarm. *)
Definition swarm_event (e : runner_event) : bool :=
  match e with BroadcastMessage _ | BroadcastTransaction _ => false | _ => true end.

Section Host.
Context {OC : OverflowChecks} {C : Crypto} {B : Bincode} {HO : HashOrder} {S : Serde} {K : Clock}.
Context {N : NetCodec} {M : Mpsc}.

Definition set_channels (chs : Channels) (h : Host) : Host :=
  mkHost _ (ho_node h) (ho_tx_rx h) (ho_handle h) (ho_sending h) (ho_task h) (ho_delivering h) chs.
Definition set_host_node (nd : Node) (h : Host) : Host :=
  mkHost _ nd (ho_tx_rx h) (ho_handle h) (ho_sending h) (ho_task h) (ho_delivering h) (ho_channels h).

(** A round of the loop, up to what it sends. *)
Definition loop_round (env : NodeEnv) (e : node_event) (h : Host) : may_panic Host :=
  nd ← node_step env (ho_node h) e;
  Some (mkHost _ nd (ho_tx_rx h) (ho_handle h) (requests_of (ho_node h) nd) (ho_task h) (ho_delivering h)
    (ho_channels h)).

(** A round of the task, up to what it sends. *)
Definition task_round (e : runner_event) (h : Host) : Host :=
  let r := runner_step (ho_task h) e in
  mkHost _ (ho_node h) (ho_tx_rx h) (ho_handle h) (ho_sending h) r (deliveries_of (ho_task h) r) (ho_channels h).

Definition send_request (x : request) (chs : Channels) : option Channels :=
  match x with
  | RequestMessage msg => NetworkHandle_broadcast_message msg chs
  | RequestTransaction tx => NetworkHandle_broadcast_transaction tx chs
  end.
Definition send_delivery (x : delivery) (chs : Channels) : option Channels :=
  match x with
  | DeliverMessage msg => send_message msg chs
  | DeliverTransaction tx => send_transaction tx chs
  end.

(** One of the arms of the loop, which is taken between two rounds. *)
Definition loop_arm (env : NodeEnv) (e : host_event) (h : Host) : may_panic Host :=
  match e with
  | LoopMessage =>
    match NetworkHandle_next_message (ho_channels h) with
    | Some (m, chs) => loop_round env (NetMessage (nm_message m)) (set_channels chs h)
    | None => Some h
    end
  | LoopTimeout event =>
    if bool_decide (event ∈ (nd_timers (ho_node h)).*1) then loop_round env (TimeoutFired event) h else Some h
  | LoopTransaction =>
    match receive_transaction (ho_tx_rx h) (ho_channels h) with
    | Some (Some tx, chs) => loop_round env (NetTransaction tx) (set_channels chs h)
    | _ => Some h
    end
  | LoopGossip => loop_round env GossipReady h
  | _ => Some h
  end.

(** One of the arms of the task. *)
Definition task_arm (e : host_event) (h : Host) : Host :=
  match e with
  | TaskSwarm event => if swarm_event event then task_round event h else h
  | TaskBroadcast =>
    match receive_broadcast (ho_channels h) with
    | Some (msg, chs) => task_round (BroadcastMessage msg) (set_channels chs h)
    | None => h
    end
  | TaskBroadcastTransaction =>
    match receive_tx_broadcast (ho_channels h) with
    | Some (tx, chs) => task_round (BroadcastTransaction tx) (set_channels chs h)
    | None => h
    end
  | _ => h
  end.

(** An event that is not possible leaves the host as it is. *)
Definition host_step (env : NodeEnv) (h : Host) (e : host_event) : may_panic Host :=
  match e with
  | LoopSend =>
    match ho_sending h with
    | x :: rest =>
      match send_request x (ho_channels h) with
      | Some chs =>
        Some (mkHost _ (ho_node h) (ho_tx_rx h) (ho_handle h) rest (ho_task h) (ho_delivering h) chs)
      | None => Some h
      end
    | [] => Some h
    end
  | TaskSend =>
    match ho_delivering h with
    | x :: rest =>
      match send_delivery x (ho_channels h) with
      | Some chs =>
        Some (mkHost _ (ho_node h) (ho_tx_rx h) (ho_handle h) (ho_sending h) (ho_task h) rest chs)
      | None => Some h
      end
    | [] => Some h
    end
  | RpcRequest req => nd ← on_rpc_submit req (ho_node h); Some (set_host_node nd h)
  | LoopMessage | LoopTimeout _ | LoopTransaction | LoopGossip =>
    match ho_sending h with [] => loop_arm env e h | _ => Some h end
  | TaskSwarm _ | TaskBroadcast | TaskBroadcastTransaction =>
    match ho_delivering h with [] => Some (task_arm e h) | _ => Some h end
  end.

Definition host_run (env : NodeEnv) (h : Host) (es : list host_event) : may_panic Host :=
  fold_may_panic (host_step env) h es.

(** The process once the node has booted: the task is spawned, and what the boot has
    broadcast is still to be sent. *)
Definition host_start (local_peer_id : PeerId) (nd : Node) : Host :=
  let '(rx, handle) := NetworkHandle_take_tx_receiver (ConsensusNetwork_handle local_peer_id) in
  mkHost _ nd rx handle (RequestMessage <$> nd_sent nd) (ConsensusNetwork_new default_peer_ban_threshold) []
    ConsensusNetwork_channels.
End Host.

(** ** Specification *)

(** What a node has been given of the network, and what a task has been asked to send. *)
Definition heard (es : list node_event) : list ConsensusMessage :=
  omap (λ e, match e with NetMessage m => Some m | _ => None end) es.
Definition heard_transactions (es : list node_event) : list Transaction :=
  omap (λ e, match e with NetTransaction t => Some t | _ => None end) es.
Definition asked (es : list runner_event) : list ConsensusMessage :=
  omap (λ e, match e with BroadcastMessage m => Some m | _ => None end) es.
Definition asked_transactions (es : list runner_event) : list Transaction :=
  omap (λ e, match e with BroadcastTransaction t => Some t | _ => None end) es.

(** What waits to be sent. *)
Definition messages_in (l : list request) : list ConsensusMessage :=
  omap (λ x, match x with RequestMessage m => Some m | _ => None end) l.
Definition transactions_in (l : list request) : list Transaction :=
  omap (λ x, match x with RequestTransaction t => Some t | _ => None end) l.
Definition delivered_in (l : list delivery) : list NetworkMessage :=
  omap (λ x, match x with DeliverMessage m => Some m | _ => None end) l.
Definition transactions_delivered_in (l : list delivery) : list Transaction :=
  omap (λ x, match x with DeliverTransaction t => Some t | _ => None end) l.

(** A host is a run of the node and a run of the task, joined by queues: what the one
    has sent is, in order, what the other has been given, what is queued, and what
    still waits to be sent. *)
Record joined {OC : OverflowChecks} {C : Crypto} {B : Bincode} {HO : HashOrder} {S : Serde} {K : Clock}
    {N : NetCodec} {M : Mpsc} (env : NodeEnv) (nd0 : Node) (h : Host)
    (nes : list node_event) (res : list runner_event) : Prop := {
  jo_node : node_run env nd0 nes = Some (ho_node h);
  jo_task : ho_task h = runner_run (ConsensusNetwork_new default_peer_ban_threshold) res;
  jo_sent : nd_sent (ho_node h) =
    asked res ++ channel_items (ch_broadcasts (ho_channels h)) ++ messages_in (ho_sending h);
  jo_gossiped : nd_gossiped (ho_node h) =
    asked_transactions res ++ channel_items (ch_tx_broadcasts (ho_channels h)) ++ transactions_in (ho_sending h);
  jo_messages : nm_message <$> delivered res =
    heard nes ++ (nm_message <$> channel_items (ch_messages (ho_channels h)) ++ delivered_in (ho_delivering h));
  jo_transactions : delivered_transactions res =
    heard_transactions nes ++ channel_items (ch_transactions (ho_channels h))
    ++ transactions_delivered_in (ho_delivering h);
}.

(** Nothing is invented: timeouts and submissions of the node's run, and what the swarm
    hands to the task, are events of the host. *)
Definition node_event_from (es : list host_event) (e : node_event) : Prop :=
  match e with
  | TimeoutFired te => LoopTimeout te ∈ es
  | RpcSubmit req => RpcRequest req ∈ es
  | NetMessage _ | NetTransaction _ | GossipReady => True
  end.
Definition runner_event_from (es : list host_event) (e : runner_event) : Prop :=
  if swarm_event e then TaskSwarm e ∈ es else True.

(** No channel holds more than its 256 values. *)
Definition room_kept {M : Mpsc} {T} (c : channel T) : Prop :=
  channel_buffer c = 256%nat ∧ (length (channel_items c) <= 256)%nat.
Definition bounded {M : Mpsc} (chs : Channels) : Prop :=
  room_kept (ch_broadcasts chs) ∧ room_kept (ch_messages chs) ∧
  room_kept (ch_tx_broadcasts chs) ∧ room_kept (ch_transactions chs).

(** What the swarm and the clients can send: see [node_event_ok]. *)
Definition host_event_ok {N : NetCodec} (L : Z) (e : host_event) : Prop :=
  match e with
  | TaskSwarm (GossipMessage _ _ data) =>
    (∀ m, decode_consensus_message data = Ok m → message_ok L m) ∧
    (∀ tx, decode_transaction data = Ok tx → u64 (tx_amount tx))
  | RpcRequest req => u64 (sr_amount req)
  | _ => True
  end.

(** The invariant of the host: the node's, and of all that is on its way to it. *)
Record Host_wf {OC : OverflowChecks} {C : Crypto} {B : Bincode} {S : Serde} {M : Mpsc}
    (L total room : Z) (h : Host) : Prop := {
  hw_node : Node_wf L total room (ho_node h);
  hw_messages : Forall (λ m, message_ok L (nm_message m))
    (channel_items (ch_messages (ho_channels h)) ++ delivered_in (ho_delivering h));
  hw_transactions : Forall (λ tx, u64 (tx_amount tx))
    (channel_items (ch_transactions (ho_channels h)) ++ transactions_delivered_in (ho_delivering h));
}.

(** * Lemmas *)

Lemma appended_app {T} (l l' : list T) : appended l (l ++ l') = l'.
Proof. apply drop_app_length. Qed.

Lemma omap_fmap_all {A B} (f : A → B) (g : B → option A) (l : list A) : (∀ x, g (f x) = Some x) → omap g (f <$> l) = l.
Proof. intros Hg. induction l as [|x l IH]; [done|]. csimpl. rewrite Hg. by f_equal. Qed.
Lemma omap_fmap_none {A B D} (f : A → B) (g : B → option D) (l : list A) : (∀ x, g (f x) = None) → omap g (f <$> l) = [].
Proof. intros Hg. induction l as [|x l IH]; [done|]. csimpl. by rewrite Hg. Qed.

Lemma messages_in_requests nd nd' ms ts :
  nd_sent nd' = nd_sent nd ++ ms → nd_gossiped nd' = nd_gossiped nd ++ ts →
  messages_in (requests_of nd nd') = ms ∧ transactions_in (requests_of nd nd') = ts.
Proof.
  intros H1 H2. unfold requests_of, messages_in, transactions_in. rewrite H1, H2, !appended_app, !omap_app.
  split; [rewrite omap_fmap_all, omap_fmap_none by done; apply app_nil_r|by rewrite omap_fmap_none, omap_fmap_all by done].
Qed.
Lemma delivered_in_deliveries r r' ms ts :
  nr_messages r' = nr_messages r ++ ms → nr_transactions r' = nr_transactions r ++ ts →
  delivered_in (deliveries_of r r') = ms ∧ transactions_delivered_in (deliveries_of r r') = ts.
Proof.
  intros H1 H2. unfold deliveries_of, delivered_in, transactions_delivered_in.
  rewrite H1, H2, !appended_app, !omap_app.
  split; [rewrite omap_fmap_all, omap_fmap_none by done; apply app_nil_r|by rewrite omap_fmap_none, omap_fmap_all by done].
Qed.

Section Steps.
Context {OC : OverflowChecks} {C : Crypto} {B : Bincode} {HO : HashOrder} {S : Serde} {K : Clock}.
Context (env : NodeEnv).

(** Only [GossipReady] hands transactions to the network. *)
Lemma propose_gossip cond h r nd nd' :
  propose_if_proposer env cond h r nd = Some nd' → nd_gossiped nd' = nd_gossiped nd.
Proof. by intros [->|(sk & _ & (block & out & _ & _ & ->)%propose_block_inv)]%propose_if_proposer_inv. Qed.

Lemma commit_gossip h x nd nd' :
  commit_and_advance env h x nd = Some nd' → nd_gossiped nd' = nd_gossiped nd.
Proof.
  intros (nd1 & Ha & (h1 & _ & Hrest)%bind_Some)%bind_Some.
  destruct (BftStateMachine_advance_height h1 (nd_bft nd1)) as [s out].
  apply bind_Some in Hrest as ([bs nd2] & (ts & ->)%node_output_inv & Hrest).
  apply bind_Some in Hrest as (nd3 & Hp%propose_gossip & [= <-]). simpl in *. rewrite Hp. clear Hp.
  unfold apply_commit in Ha. destruct (committed_transactions _ _).
  by revert Ha; intros ([db rs] & _ & (pool & _ & (gas & _ & (fm & _ & (vs & ->)%epoch_boundary_inv)%bind_Some)
    %bind_Some)%bind_Some)%bind_Some.
Qed.

Lemma broadcasts_gossip bs nd nd' :
  fold_may_panic (handle_broadcast env) nd bs = Some nd' → nd_gossiped nd' = nd_gossiped nd.
Proof.
  revert nd. induction bs as [|b bs IH]; intros nd; simpl; [by intros [= <-]|].
  intros (nd1 & H1 & ->%IH)%bind_Some. destruct b; simpl in H1; try by injection H1 as <-. by apply commit_gossip in H1.
Qed.

Lemma node_step_gossip e nd nd' :
  node_step env nd e = Some nd' → ∃ ts, nd_gossiped nd' = nd_gossiped nd ++ ts.
Proof.
  destruct e as [msg|te|tx|req|]; simpl; intros Hs.
  - exists []. rewrite app_nil_r. apply bind_Some in Hs as ([nd1 out] & Hm & Hs).
    apply bind_Some in Hs as ([bs nd2] & (ts & ->)%node_output_inv & ->%broadcasts_gossip). simpl.
    destruct msg as [p b|v|h x|te].
    + by apply bind_Some in Hm as ([s o] & _ & [= <- _]).
    + destruct (v_vote_type v); [destruct (BftStateMachine_on_prevote _ _)|destruct (BftStateMachine_on_precommit _ _)];
        by injection Hm as <- _.
    + by apply bind_Some in Hm as (nd3 & ?%commit_gossip & [= <- _]).
    + by injection Hm as <- _.
  - exists []. rewrite app_nil_r. apply bind_Some in Hs as ([s out] & _ & Hs).
    apply bind_Some in Hs as ([bs nd2] & (ts & ->)%node_output_inv & Hs).
    by apply bind_Some in Hs as (nd3 & Hp%propose_gossip & ->%broadcasts_gossip).
  - exists []. rewrite app_nil_r. by apply bind_Some in Hs as ([pool r] & _ & [= <-]).
  - exists []. rewrite app_nil_r. by apply bind_Some in Hs as ([rpc r] & _ & [= <-]).
  - unfold on_gossip_ready in Hs. destruct (rpc_tx_gossip (nd_rpc nd)) as [[[|tx q] c]|]; simplify_eq;
      [exists []; by rewrite app_nil_r|by exists [tx]|exists []; by rewrite app_nil_r].
Qed.

Lemma node_step_logs e nd nd' :
  node_step env nd e = Some nd' →
  nd_sent nd' = nd_sent nd ++ messages_in (requests_of nd nd') ∧
  nd_gossiped nd' = nd_gossiped nd ++ transactions_in (requests_of nd nd').
Proof.
  intros Hs. destruct (node_step_sends _ _ _ _ Hs) as (ms & Hms & _). destruct (node_step_gossip _ _ _ Hs) as (ts & Hts).
  by destruct (messages_in_requests nd nd' ms ts Hms Hts) as [-> ->].
Qed.

Context {HL : HashOrderLaws HO}.
Lemma boot_logs g state_file validator_key nd :
  node_boot g state_file validator_key = Some (Ok (env, nd)) →
  nd_gossiped nd = [] ∧ (length (nd_sent nd) <= 1)%nat.
Proof.
  intros (key & nd0 & _ & _ & Hb & _ & _ & [Hs Hg] & _ & _ & Hstart)%node_boot_start. unfold node_start in Hstart.
  rewrite Hb in Hstart. destruct (BftStateMachine_start_round 0 _) as [s out] eqn:Hst.
  injection Hst as Hs1 Hs2. subst out. apply bind_Some in Hstart as ([bs nd1] & Ho & Hrest).
  apply node_output_timeout in Ho as (-> & ts & ->). apply bind_Some in Hrest as (nd2 & Hp & [= <-]).
  pose proof (propose_gossip _ _ _ _ _ Hp) as Hg2. simpl in *. rewrite Hg2, app_nil_r. split; [done|].
  apply propose_if_proposer_inv in Hp as [->|(sk & _ & (block & o & _ & _ & ->)%propose_block_inv)]; simpl; rewrite Hs; simpl; lia.
Qed.
End Steps.

(** ** The two runs and their queues *)

Section Joined.
Context {OC : OverflowChecks} {C : Crypto} {B : Bincode} {HO : HashOrder} {S : Serde} {K : Clock}.
Context {N : NetCodec} {M : Mpsc} {ML : MpscLaws M}.
Context (env : NodeEnv) (nd0 : Node).

Lemma joined_start pid g state_file validator_key :
  node_boot g state_file validator_key = Some (Ok (env, nd0)) → joined env nd0 (host_start pid nd0) [] [].
Proof.
  intros [Hg _]%boot_logs. split; simpl.
  - done.
  - done.
  - rewrite (proj1 (new_items _ _)). symmetry. apply omap_fmap_all. done.
  - rewrite (proj1 (new_items _ _)), Hg. symmetry. apply omap_fmap_none. done.
  - by rewrite (proj1 (new_items _ _)).
  - by rewrite (proj1 (new_items _ _)).
Qed.

(** A round of the loop on [e], which it has taken from the channels. *)
Lemma joined_loop_round h nes res e chs h' :
  joined env nd0 h nes res → ho_sending h = [] →
  ch_broadcasts chs = ch_broadcasts (ho_channels h) → ch_tx_broadcasts chs = ch_tx_broadcasts (ho_channels h) →
  nm_message <$> channel_items (ch_messages (ho_channels h)) =
    heard [e] ++ (nm_message <$> channel_items (ch_messages chs)) →
  channel_items (ch_transactions (ho_channels h)) = heard_transactions [e] ++ channel_items (ch_transactions chs) →
  loop_round env e (set_channels chs h) = Some h' → joined env nd0 h' (nes ++ [e]) res.
Proof.
  intros [Hn Ht Hs Hg Hm Hx] Hidle Hb Htb Hcm Hcx (nd & Hstep & [= <-])%bind_Some. simpl in Hstep.
  destruct (node_step_logs _ _ _ _ Hstep) as [Hsent Hgos]. rewrite Hidle in Hs, Hg. unfold messages_in, transactions_in in Hs, Hg.
  simpl in Hs, Hg. split; simpl.
  - by apply (node_run_snoc _ _ (ho_node h)).
  - done.
  - rewrite Hsent, Hs, Hb, app_nil_r. by rewrite <-app_assoc.
  - rewrite Hgos, Hg, Htb, app_nil_r. by rewrite <-app_assoc.
  - unfold heard in *. rewrite omap_app, Hm, !fmap_app, Hcm, <-!app_assoc. done.
  - unfold heard_transactions in *. rewrite omap_app, Hx, Hcx, <-!app_assoc. done.
Qed.

(** A round of the task on [e], which it has taken from the channels. *)
Lemma joined_task_round h nes res e chs :
  joined env nd0 h nes res → ho_delivering h = [] →
  ch_messages chs = ch_messages (ho_channels h) → ch_transactions chs = ch_transactions (ho_channels h) →
  channel_items (ch_broadcasts (ho_channels h)) = asked [e] ++ channel_items (ch_broadcasts chs) →
  channel_items (ch_tx_broadcasts (ho_channels h)) = asked_transactions [e] ++ channel_items (ch_tx_broadcasts chs) →
  joined env nd0 (task_round e (set_channels chs h)) nes (res ++ [e]).
Proof.
  intros [Hn Ht Hs Hg Hm Hx] Hidle Hcm Hcx Hcb Hctb.
  destruct (runner_run_delivered (ho_task h) [e]) as (Hdm & Hdt & _).
  destruct (delivered_in_deliveries (ho_task h) (runner_step (ho_task h) e) _ _ Hdm Hdt) as [Hq1 Hq2].
  rewrite Hidle in Hm, Hx. unfold delivered_in, transactions_delivered_in in Hm, Hx. simpl in Hm, Hx.
  rewrite app_nil_r in Hm, Hx. split; simpl.
  - done.
  - by rewrite Ht, runner_run_app.
  - unfold asked in *. rewrite omap_app, Hs, Hcb, <-!app_assoc. done.
  - unfold asked_transactions in *. rewrite omap_app, Hg, Hctb, <-!app_assoc. done.
  - rewrite Hq1. unfold delivered at 1. rewrite omap_app, !fmap_app, Hcm, app_assoc. f_equal. exact Hm.
  - rewrite Hq2. unfold delivered_transactions at 1. rewrite omap_app, Hcx, app_assoc. f_equal. exact Hx.
Qed.

Lemma joined_nothing (P : list node_event → list runner_event → Prop) h nes res :
  joined env nd0 h nes res → (∀ ns rs, ns = [] → rs = [] → P ns rs) →
  ∃ ns rs, joined env nd0 h (nes ++ ns) (res ++ rs) ∧ P ns rs.
Proof. intros Hj HP. exists [], []. rewrite !app_nil_r. split; [done|by apply HP]. Qed.

(** What one event adds to the two runs. *)
Definition adds (e : host_event) (ns : list node_event) (rs : list runner_event) : Prop :=
  (length ns <= 1)%nat ∧ Forall (node_event_from [e]) ns ∧ Forall (runner_event_from [e]) rs.

Lemma adds_nothing e ns rs : ns = [] → rs = [] → adds e ns rs.
Proof. intros -> ->. split; [simpl; lia|]. split; apply Forall_nil_2. Qed.
Lemma adds_node e n : node_event_from [e] n → adds e [n] [].
Proof. intros Hn. split; [done|]. split; [by apply Forall_singleton|apply Forall_nil_2]. Qed.
Lemma adds_task e r : runner_event_from [e] r → adds e [] [r].
Proof. intros Hr. split; [simpl; lia|]. split; [apply Forall_nil_2|by apply Forall_singleton]. Qed.

Lemma set_same_channels h : set_channels (ho_channels h) h = h.
Proof. by destruct h. Qed.

Lemma joined_loop_arm h nes res e h' :
  joined env nd0 h nes res → ho_sending h = [] → loop_arm env e h = Some h' →
  ∃ ns rs, joined env nd0 h' (nes ++ ns) (res ++ rs) ∧ adds e ns rs.
Proof.
  intros Hj Hidle Hs.
  assert (h' = h → ∃ ns rs, joined env nd0 h' (nes ++ ns) (res ++ rs) ∧ adds e ns rs) as Hsame.
  { intros ->. apply joined_nothing; [done|apply adds_nothing]. }
  assert (∀ n, joined env nd0 h' (nes ++ [n]) res → node_event_from [e] n →
    ∃ ns rs, joined env nd0 h' (nes ++ ns) (res ++ rs) ∧ adds e ns rs) as Hone.
  { intros n H1 H2. exists [n], []. rewrite app_nil_r. split; [done|by apply adds_node]. }
  destruct e as [|te| | | | | | | |]; simpl in Hs; try by apply Hsame; injection Hs as <-.
  - unfold NetworkHandle_next_message in Hs. destruct (channel_recv _) as [[m c]|] eqn:Hr; simpl in Hs;
      [|by apply Hsame; injection Hs as <-].
    destruct (recv_items _ _ _ _ Hr) as [Hi _].
    apply (Hone (NetMessage (nm_message m))); [|exact I]. eapply joined_loop_round; [done|done| | | | |exact Hs]; simpl; try done.
    by rewrite Hi.
  - case_bool_decide; [|by apply Hsame; injection Hs as <-].
    apply (Hone (TimeoutFired te)); [|simpl; set_solver].
    eapply (joined_loop_round _ _ _ _ (ho_channels h)); [done..|]. by rewrite set_same_channels.
  - destruct (ho_tx_rx h); simpl in Hs; [|by apply Hsame; injection Hs as <-].
    destruct (channel_recv _) as [[tx c]|] eqn:Hr; simpl in Hs; [|by apply Hsame; injection Hs as <-].
    destruct (recv_items _ _ _ _ Hr) as [Hi _].
    apply (Hone (NetTransaction tx)); [|exact I]. eapply joined_loop_round; [done|done| | | | |exact Hs]; simpl; done.
  - apply (Hone GossipReady); [|exact I].
    eapply (joined_loop_round _ _ _ _ (ho_channels h)); [done..|]. by rewrite set_same_channels.
Qed.

Lemma joined_task_arm h nes res e :
  joined env nd0 h nes res → ho_delivering h = [] →
  ∃ ns rs, joined env nd0 (task_arm e h) (nes ++ ns) (res ++ rs) ∧ adds e ns rs.
Proof.
  intros Hj Hidle.
  assert (task_arm e h = h → ∃ ns rs, joined env nd0 (task_arm e h) (nes ++ ns) (res ++ rs) ∧ adds e ns rs) as Hsame.
  { intros ->. apply joined_nothing; [done|apply adds_nothing]. }
  assert (∀ r, joined env nd0 (task_arm e h) nes (res ++ [r]) → runner_event_from [e] r →
    ∃ ns rs, joined env nd0 (task_arm e h) (nes ++ ns) (res ++ rs) ∧ adds e ns rs) as Hone.
  { intros r H1 H2. exists [], [r]. rewrite app_nil_r. split; [done|by apply adds_task]. }
  destruct e as [| | | | | |r| | |]; simpl in *; try by apply Hsame.
  - destruct (swarm_event r) eqn:Hr; [|by apply Hsame].
    apply (Hone r); [|unfold runner_event_from; rewrite Hr; set_solver].
    rewrite <-(set_same_channels h) at 1. apply joined_task_round; try done; by destruct r.
  - unfold receive_broadcast in *. destruct (channel_recv _) as [[m c]|] eqn:Hr; simpl in *; [|by apply Hsame].
    destruct (recv_items _ _ _ _ Hr) as [Hi _].
    apply (Hone (BroadcastMessage m)); [|exact I]. by apply joined_task_round.
  - unfold receive_tx_broadcast in *. destruct (channel_recv _) as [[t c]|] eqn:Hr; simpl in *; [|by apply Hsame].
    destruct (recv_items _ _ _ _ Hr) as [Hi _].
    apply (Hone (BroadcastTransaction t)); [|exact I]. by apply joined_task_round.
Qed.

(** A send that goes through moves one value from those that wait into its channel. *)
Lemma send_request_items x rest chs chs' :
  send_request x chs = Some chs' →
  channel_items (ch_broadcasts chs) ++ messages_in (x :: rest) =
    channel_items (ch_broadcasts chs') ++ messages_in rest ∧
  channel_items (ch_tx_broadcasts chs) ++ transactions_in (x :: rest) =
    channel_items (ch_tx_broadcasts chs') ++ transactions_in rest ∧
  ch_messages chs' = ch_messages chs ∧ ch_transactions chs' = ch_transactions chs.
Proof.
  destruct x as [m|t]; simpl; intros (c & Hc & [= <-])%bind_Some; simpl;
    destruct (send_items _ _ _ _ Hc) as [-> _]; rewrite <-app_assoc; done.
Qed.
Lemma send_delivery_items x rest chs chs' :
  send_delivery x chs = Some chs' →
  channel_items (ch_messages chs) ++ delivered_in (x :: rest) =
    channel_items (ch_messages chs') ++ delivered_in rest ∧
  channel_items (ch_transactions chs) ++ transactions_delivered_in (x :: rest) =
    channel_items (ch_transactions chs') ++ transactions_delivered_in rest ∧
  ch_broadcasts chs' = ch_broadcasts chs ∧ ch_tx_broadcasts chs' = ch_tx_broadcasts chs.
Proof.
  destruct x as [m|t]; simpl; intros (c & Hc & [= <-])%bind_Some; simpl;
    destruct (send_items _ _ _ _ Hc) as [-> _]; rewrite <-app_assoc; done.
Qed.

Lemma joined_step h nes res e h' :
  joined env nd0 h nes res → host_step env h e = Some h' →
  ∃ ns rs, joined env nd0 h' (nes ++ ns) (res ++ rs) ∧ adds e ns rs.
Proof.
  intros Hj Hs.
  assert (h' = h → ∃ ns rs, joined env nd0 h' (nes ++ ns) (res ++ rs) ∧ adds e ns rs) as Hsame.
  { intros ->. apply joined_nothing; [done|apply adds_nothing]. }
  destruct e as [|te| | | |req|r| | |]; cbn [host_step] in Hs;
    try (destruct (ho_sending h) eqn:Hidle; [by apply (joined_loop_arm _ _ _ _ _ Hj Hidle Hs)|by apply Hsame; injection Hs as <-]);
    try (destruct (ho_delivering h) eqn:Hidle; [apply (inj Some) in Hs; rewrite <-Hs; by apply joined_task_arm|by apply Hsame; injection Hs as <-]).
  - destruct (ho_sending h) as [|x rest] eqn:Hx; [by apply Hsame; injection Hs as <-|].
    destruct (send_request x (ho_channels h)) as [chs|] eqn:Hc; [|by apply Hsame; injection Hs as <-].
    injection Hs as <-. apply joined_nothing; [|apply adds_nothing].
    destruct (send_request_items x rest _ _ Hc) as (H1 & H2 & H3 & H4).
    destruct Hj as [Hn Ht Hss Hg Hm Htx]. rewrite Hx in Hss, Hg.
    split; simpl; rewrite ?H3, ?H4; try done; [by rewrite Hss, H1|by rewrite Hg, H2].
  - apply bind_Some in Hs as (nd & Hr & [= <-]). exists [RpcSubmit req], [].
    split; [|by apply adds_node, list_elem_of_singleton]. rewrite app_nil_r.
    destruct Hj as [Hn Ht Hss Hg Hm Htx].
    assert (nd_sent nd = nd_sent (ho_node h) ∧ nd_gossiped nd = nd_gossiped (ho_node h)) as [Hr1 Hr2]
      by (by apply bind_Some in Hr as ([rpc o] & _ & [= <-])).
    split; simpl; rewrite ?Hr1, ?Hr2; try done; [by apply (node_run_snoc _ _ (ho_node h))|..].
    + by unfold heard in *; rewrite omap_app, app_nil_r.
    + by unfold heard_transactions in *; rewrite omap_app, app_nil_r.
  - destruct (ho_delivering h) as [|x rest] eqn:Hx; [by apply Hsame; injection Hs as <-|].
    destruct (send_delivery x (ho_channels h)) as [chs|] eqn:Hc; [|by apply Hsame; injection Hs as <-].
    injection Hs as <-. apply joined_nothing; [|apply adds_nothing].
    destruct (send_delivery_items x rest _ _ Hc) as (H1 & H2 & H3 & H4).
    destruct Hj as [Hn Ht Hss Hg Hm Htx]. rewrite Hx in Hm, Htx.
    split; simpl; rewrite ?H3, ?H4; try done; [|by rewrite Htx, H2].
    rewrite Hm. by rewrite H1.
Qed.

Lemma node_event_from_mono es es' e : es ⊆ es' → node_event_from es e → node_event_from es' e.
Proof. intros Hs. destruct e; simpl; auto. Qed.
Lemma runner_event_from_mono es es' e : es ⊆ es' → runner_event_from es e → runner_event_from es' e.
Proof. intros Hs. unfold runner_event_from. destruct (swarm_event e); auto. Qed.

Lemma joined_run h nes res es h' :
  joined env nd0 h nes res → host_run env h es = Some h' →
  ∃ ns rs, joined env nd0 h' (nes ++ ns) (res ++ rs) ∧ (length ns <= length es)%nat ∧
    Forall (node_event_from es) ns ∧ Forall (runner_event_from es) rs.
Proof.
  unfold host_run. revert h nes res. induction es as [|e es IH]; intros h nes res Hj; simpl.
  { intros [= <-]. apply joined_nothing; [done|]. intros ? ? -> ->. split; [done|]. split; apply Forall_nil_2. }
  intros (h1 & Hs & Hr)%bind_Some. destruct (joined_step _ _ _ _ _ Hj Hs) as (ns1 & rs1 & Hj1 & Hl1 & Hn1 & Hr1).
  destruct (IH _ _ _ Hj1 Hr) as (ns2 & rs2 & Hj2 & Hl2 & Hn2 & Hr2).
  exists (ns1 ++ ns2), (rs1 ++ rs2). rewrite !app_assoc. split; [done|]. rewrite length_app. split; [simpl; lia|].
  split; apply Forall_app; split; (eapply Forall_impl; [done|]); intros x; simpl;
    (apply node_event_from_mono || apply runner_event_from_mono); set_solver.
Qed.
End Joined.

(** ** The channels stay within their bounds *)

Section Bounds.
Context {OC : OverflowChecks} {C : Crypto} {B : Bincode} {HO : HashOrder} {S : Serde} {K : Clock}.
Context {N : NetCodec} {M : Mpsc} {ML : MpscLaws M}.
Context (env : NodeEnv).

Lemma new_room_kept T : room_kept (channel_new (T := T) 256).
Proof. destruct (new_items T 256) as [Hi Hb]. split; [done|]. rewrite Hi. simpl. lia. Qed.
Lemma send_room_kept T (x : T) c c' : room_kept c → channel_send x c = Some c' → room_kept c'.
Proof.
  intros [Hb Hl] Hs. destruct (send_items _ _ _ _ Hs) as [Hi Hb']. split; [lia|]. rewrite Hi, length_app. simpl.
  destruct (decide (channel_buffer c <= length (channel_items c))%nat) as [Hfull|]; [|lia].
  apply (send_full _ x) in Hfull. congruence.
Qed.
Lemma recv_room_kept T (x : T) c c' : room_kept c → channel_recv c = Some (x, c') → room_kept c'.
Proof.
  intros [Hb Hl] Hs. destruct (recv_items _ _ _ _ Hs) as [Hi Hb']. split; [lia|]. rewrite Hi in Hl. simpl in Hl. lia.
Qed.

Lemma loop_round_channels n chs h h' : loop_round env n (set_channels chs h) = Some h' → ho_channels h' = chs.
Proof. by intros (nd & _ & [= <-])%bind_Some. Qed.

Lemma loop_arm_bounded e h h' : bounded (ho_channels h) → loop_arm env e h = Some h' → bounded (ho_channels h').
Proof.
  intros Hb Hs.
  assert (h' = h → bounded (ho_channels h')) as Hsame by (by intros ->).
  assert (∀ n, loop_round env n h = Some h' → bounded (ho_channels h')) as Hround.
  { intros n. rewrite <-(set_same_channels h) at 1. by intros ->%loop_round_channels. }
  destruct Hb as (H1 & H2 & H3 & H4).
  destruct e as [|te| | | | | | | |]; simpl in Hs; try by apply Hsame; injection Hs as <-.
  - unfold NetworkHandle_next_message in Hs. destruct (channel_recv _) as [[m c]|] eqn:Hr; simpl in Hs;
      [|by apply Hsame; injection Hs as <-].
    apply loop_round_channels in Hs as ->. unfold bounded. simpl. by apply recv_room_kept in Hr.
  - case_bool_decide; [by apply Hround in Hs|by apply Hsame; injection Hs as <-].
  - destruct (ho_tx_rx h); simpl in Hs; [|by apply Hsame; injection Hs as <-].
    destruct (channel_recv _) as [[tx c]|] eqn:Hr; simpl in Hs; [|by apply Hsame; injection Hs as <-].
    apply loop_round_channels in Hs as ->. unfold bounded. simpl. by apply recv_room_kept in Hr.
  - by apply Hround in Hs.
Qed.

Lemma task_arm_bounded e h : bounded (ho_channels h) → bounded (ho_channels (task_arm e h)).
Proof.
  intros Hb. destruct e as [| | | | | |r| | |]; simpl; try done.
  - by destruct (swarm_event r).
  - destruct Hb as (H1 & H2 & H3 & H4). unfold receive_broadcast.
    destruct (channel_recv _) as [[m c]|] eqn:Hr; simpl; unfold bounded; [|done]. simpl. by apply recv_room_kept in Hr.
  - destruct Hb as (H1 & H2 & H3 & H4). unfold receive_tx_broadcast.
    destruct (channel_recv _) as [[t c]|] eqn:Hr; simpl; unfold bounded; [|done]. simpl. by apply recv_room_kept in Hr.
Qed.

Lemma send_request_bounded x chs chs' : bounded chs → send_request x chs = Some chs' → bounded chs'.
Proof.
  intros (H1 & H2 & H3 & H4). destruct x; simpl; intros (c & Hc & [= <-])%bind_Some; unfold bounded; simpl;
    by apply send_room_kept in Hc.
Qed.
Lemma send_delivery_bounded x chs chs' : bounded chs → send_delivery x chs = Some chs' → bounded chs'.
Proof.
  intros (H1 & H2 & H3 & H4). destruct x; simpl; intros (c & Hc & [= <-])%bind_Some; unfold bounded; simpl;
    by apply send_room_kept in Hc.
Qed.

Lemma host_step_bounded h e h' :
  bounded (ho_channels h) → host_step env h e = Some h' → bounded (ho_channels h').
Proof.
  intros Hb Hs. assert (h' = h → bounded (ho_channels h')) as Hsame by (by intros ->).
  destruct e as [|te| | | |req|r| | |]; cbn [host_step] in Hs;
    try (destruct (ho_sending h); [by apply loop_arm_bounded in Hs|by apply Hsame; injection Hs as <-]);
    try (destruct (ho_delivering h); [apply (inj Some) in Hs; rewrite <-Hs; by apply task_arm_bounded
                                     |by apply Hsame; injection Hs as <-]).
  - destruct (ho_sending h) as [|x rest]; [by apply Hsame; injection Hs as <-|].
    destruct (send_request x _) as [chs|] eqn:Hc; [|by apply Hsame; injection Hs as <-].
    injection Hs as <-. by apply send_request_bounded in Hc.
  - by apply bind_Some in Hs as (nd & _ & [= <-]).
  - destruct (ho_delivering h) as [|x rest]; [by apply Hsame; injection Hs as <-|].
    destruct (send_delivery x _) as [chs|] eqn:Hc; [|by apply Hsame; injection Hs as <-].
    injection Hs as <-. by apply send_delivery_bounded in Hc.
Qed.

Lemma host_run_bounded h es h' : bounded (ho_channels h) → host_run env h es = Some h' → bounded (ho_channels h').
Proof.
  unfold host_run. revert h. induction es as [|e es IH]; intros h Hb; simpl; [by intros [= <-]|].
  intros (h1 & Hs & Hr)%bind_Some. by apply (IH h1); [by apply (host_step_bounded h e)|].
Qed.

Lemma host_start_bounded pid nd : bounded (ho_channels (host_start pid nd)).
Proof. split_and!; apply new_room_kept. Qed.
End Bounds.

(** ** The host never panics *)

Section Total.
Context {OC : OverflowChecks} {C : Crypto} {B : Bincode} {HO : HashOrder} {HL : HashOrderLaws HO}.
Context {S : Serde} {K : Clock} {N : NetCodec} {M : Mpsc} {ML : MpscLaws M}.
Context (L total : Z) (HL1 : 100 <= L) (HL2 : L * 21000 < U64).
Context (env : NodeEnv) (Henv : ne_timeout_config env = TimeoutConfig_default).
Local Abbreviation host_ok := (Host_wf L total).

Lemma host_ok_less room room' h : host_ok room h → 0 <= room' <= room → host_ok room' h.
Proof. intros [Hn Hm Ht] Hr. split; [by apply (node_wf_less L total HL1 HL2 room)|done|done]. Qed.

Lemma delivered_ok e :
  host_event_ok L (TaskSwarm e) → Forall (λ m, message_ok L (nm_message m)) (delivered [e]) ∧
    Forall (λ tx, u64 (tx_amount tx)) (delivered_transactions [e]).
Proof.
  destruct e as [src t d| | | | |]; try by split; apply Forall_nil_2.
  intros [Hm Ht]. unfold delivered, delivered_transactions. csimpl. split.
  - destruct (String.eqb _ _); [|apply Forall_nil_2]. destruct (decode_consensus_message d) eqn:Hd; [|apply Forall_nil_2].
    apply Forall_singleton. simpl. by apply Hm.
  - destruct (String.eqb _ _); [|apply Forall_nil_2]. destruct (decode_transaction d) eqn:Hd; [|apply Forall_nil_2].
    apply Forall_singleton. by apply Ht.
Qed.

Lemma task_round_ok room e chs h :
  host_ok room h → ho_delivering h = [] → host_event_ok L (TaskSwarm e) →
  ch_messages chs = ch_messages (ho_channels h) → ch_transactions chs = ch_transactions (ho_channels h) →
  host_ok room (task_round e (set_channels chs h)).
Proof.
  intros [Hn Hm Ht] Hidle [Hd1 Hd2]%delivered_ok Hcm Hct.
  destruct (runner_run_delivered (ho_task h) [e]) as (Hdm & Hdt & _).
  destruct (delivered_in_deliveries (ho_task h) (runner_step (ho_task h) e) _ _ Hdm Hdt) as [Hq1 Hq2].
  rewrite Hidle in Hm, Ht. unfold delivered_in, transactions_delivered_in in Hm, Ht. simpl in Hm, Ht.
  rewrite app_nil_r in Hm, Ht. split; simpl; [done| |].
  - rewrite Hq1, Hcm. by apply Forall_app.
  - rewrite Hq2, Hct. by apply Forall_app.
Qed.

Lemma task_arm_ok room e h :
  host_ok room h → ho_delivering h = [] → host_event_ok L e → host_ok room (task_arm e h).
Proof.
  intros Hh Hidle He. destruct e as [| | | | | |r| | |]; simpl; try done.
  - destruct (swarm_event r); [|done]. rewrite <-(set_same_channels h) at 1. by apply task_round_ok.
  - unfold receive_broadcast. destruct (channel_recv _) as [[m c]|]; simpl; [|done]. by apply task_round_ok.
  - unfold receive_tx_broadcast. destruct (channel_recv _) as [[t c]|]; simpl; [|done]. by apply task_round_ok.
Qed.

Lemma loop_round_ok room n chs h :
  host_ok (room + 1) h → 0 <= room → node_event_ok L n →
  Forall (λ m, message_ok L (nm_message m)) (channel_items (ch_messages chs) ++ delivered_in (ho_delivering h)) →
  Forall (λ tx, u64 (tx_amount tx))
    (channel_items (ch_transactions chs) ++ transactions_delivered_in (ho_delivering h)) →
  ∃ h', loop_round env n (set_channels chs h) = Some h' ∧ host_ok room h'.
Proof.
  intros [Hn _ _] Hr He Hm Ht. unfold loop_round. simpl.
  destruct (node_step_ok L total HL1 HL2 env Henv room n (ho_node h) Hn Hr He) as (nd & -> & Hnd). simpl.
  eexists. split; [done|]. by split.
Qed.

Lemma loop_arm_ok room e h :
  host_ok (room + 1) h → 0 <= room → ∃ h', loop_arm env e h = Some h' ∧ host_ok room h'.
Proof.
  intros Hh Hr. assert (host_ok room h) as Hh0 by (by apply (host_ok_less (room + 1)); [|lia]).
  pose proof Hh as [Hn Hm Ht].
  assert (∀ n, node_event_ok L n → ∃ h', loop_round env n h = Some h' ∧ host_ok room h') as Hround.
  { intros n He. destruct (loop_round_ok room n (ho_channels h) h) as (h' & H1 & H2); [done..|].
    rewrite set_same_channels in H1. by exists h'. }
  destruct e as [|te| | | | | | | |]; cbn [loop_arm]; try by exists h.
  - unfold NetworkHandle_next_message. destruct (channel_recv _) as [[m c]|] eqn:Hc; simpl; [|by exists h].
    destruct (recv_items _ _ _ _ Hc) as [Hi _]. rewrite Hi in Hm. inversion Hm. by apply loop_round_ok.
  - case_bool_decide; [by apply Hround|by exists h].
  - destruct (ho_tx_rx h); simpl; [|by exists h].
    destruct (channel_recv _) as [[t c]|] eqn:Hc; simpl; [|by exists h].
    destruct (recv_items _ _ _ _ Hc) as [Hi _]. rewrite Hi in Ht. inversion Ht. by apply loop_round_ok.
  - by apply Hround.
Qed.

Lemma host_step_ok room e h :
  host_ok (room + 1) h → 0 <= room → host_event_ok L e → ∃ h', host_step env h e = Some h' ∧ host_ok room h'.
Proof.
  intros Hh Hr He. assert (host_ok room h) as Hh0 by (by apply (host_ok_less (room + 1)); [|lia]).
  pose proof Hh0 as [Hn Hm Ht]. destruct e as [|te| | | |req|r| | |]; cbn [host_step];
    try (destruct (ho_sending h); [by apply loop_arm_ok|by exists h]);
    try (destruct (ho_delivering h) eqn:Hd; [|by exists h]; eexists; split; [done|]; by apply task_arm_ok).
  - destruct (ho_sending h) as [|x rest]; [by exists h|].
    destruct (send_request x _) as [chs|] eqn:Hc; [|by exists h].
    destruct (send_request_items x [] _ _ Hc) as (_ & _ & H3 & H4).
    eexists. split; [done|]. split; simpl; rewrite ?H3, ?H4; done.
  - destruct (rpc_submit_ok L total room req (ho_node h) Hn He) as (nd & -> & Hnd). simpl.
    eexists. split; [done|]. by split.
  - destruct (ho_delivering h) as [|x rest] eqn:Hd; [by exists h|].
    destruct (send_delivery x _) as [chs|] eqn:Hc; [|by exists h].
    destruct (send_delivery_items x rest _ _ Hc) as (H1 & H2 & _).
    eexists. split; [done|]. split; simpl; [done|by rewrite <-H1|by rewrite <-H2].
Qed.

Lemma host_run_ok room es h :
  host_ok (room + Z.of_nat (length es)) h → 0 <= room → Forall (host_event_ok L) es →
  ∃ h', host_run env h es = Some h' ∧ host_ok room h'.
Proof.
  unfold host_run. intros Hh Hroom Hes. revert h Hh.
  induction Hes as [|e es He Hes IH]; intros h Hh; simpl.
  { exists h. by rewrite Z.add_0_r in Hh. }
  destruct (host_step_ok (room + Z.of_nat (length es)) e h) as (h1 & -> & Hh1); [|lia|done|].
  { by replace (room + Z.of_nat (length es) + 1) with (room + Z.of_nat (length (e :: es))) by (simpl; lia). }
  by apply IH.
Qed.

Lemma host_start_ok pid room nd : Node_wf L total room nd → host_ok room (host_start pid nd).
Proof.
  intros Hn. split; simpl; [done| |]; rewrite (proj1 (new_items _ _)); apply Forall_nil_2.
Qed.
End Total.

(** ** Concrete channels *)

Record list_channel (T : Type) := mkListChannel { lc_items : list T; lc_buffer : nat }.
Arguments mkListChannel {_} _ _.
Arguments lc_items {_} _.
Arguments lc_buffer {_} _.

Definition toy_mpsc : Mpsc := {|
  channel := list_channel;
  channel_new _ n := mkListChannel [] n;
  channel_send _ x c :=
    if (length (lc_items c) <? lc_buffer c)%nat then Some (mkListChannel (lc_items c ++ [x]) (lc_buffer c)) else None;
  channel_recv _ c := match lc_items c with x :: l => Some (x, mkListChannel l (lc_buffer c)) | [] => None end;
  channel_items _ c := lc_items c;
  channel_buffer _ c := lc_buffer c;
|}.
#[export] Instance toy_mpsc_laws : MpscLaws toy_mpsc.
Proof.
  split; simpl; [done|..]; intros T.
  - intros x c. destruct (Nat.ltb_spec (length (lc_items c)) (lc_buffer c)); split; (done || lia).
  - intros x c c'. by destruct (_ <? _)%nat; [intros [= <-]|].
  - intros [[|x l] n]; simpl; done.
  - intros [[|y l] n] x c'; simpl; [done|]. by intros [= -> <-].
Qed.

(** * Properties *)

(** C6: the process runs, and its two tasks are joined by queues.  From a genesis and
    accounts as in [node_never_panics] - valid, with fee ratios, stakes and balances that
    add up to less than 2^64, a key on the curve, room in the nonces - and for fewer than
    2^32 events, whatever the swarm, the peers, the timers and the clients do and in
    whatever order the loop and the task take their turns, nothing panics, as long as what
    is gossiped names no bare commit of a height above 2^64 - 2^33 and has no block of more
    than [L] transactions, with [L * 21000] below 2^64; the node has made a run of
    the event loop and the task a run of the swarm's, and what the one has sent is - in
    order, nothing lost, nothing twice - what the other has been given, what is queued,
    and what waits for room; no queue ever holds more than 256 values; and neither run
    has an input that is not one of the process. *)
Theorem host_joins_two_runs {OC : OverflowChecks} {C : Crypto} {B : Bincode} {HO : HashOrder}
    {HL : HashOrderLaws HO} {S : Serde} {K : Clock} {N : NetCodec} {M : Mpsc} {ML : MpscLaws M}
    (L : Z) (g : GenesisConfig) (state_file validator_key : option (result string bytes)) (key : option bytes)
    (pid : PeerId) (es : list host_event) :
  100 <= L → L * 21000 < U64 → Z.of_nat (length es) < U32 → genesis_ok g →
  load_validator_key validator_key = Ok key →
  StateDB_wf (Z.of_nat (length es) * L) (initial_state_db g state_file) → Forall (host_event_ok L) es →
  ∃ env nd h nes res, node_boot g state_file validator_key = Some (Ok (env, nd)) ∧
    host_run env (host_start pid nd) es = Some h ∧ joined env nd h nes res ∧ bounded (ho_channels h) ∧
    (length nes <= length es)%nat ∧ Forall (node_event_from es) nes ∧ Forall (runner_event_from es) res ∧
    Node_wf L (supply (initial_state_db g state_file)) 0 (ho_node h).
Proof.
  intros HL1 HL2 Hlen Hg Hkey Hdb Hes.
  destruct (node_boot_ok L (Z.of_nat (length es)) g state_file validator_key key)
    as (env & nd & Hboot & Henv & Hnd); [done|lia|done..|].
  destruct (host_run_ok L (supply (initial_state_db g state_file)) HL1 HL2 env Henv 0 es (host_start pid nd))
    as (h & Hrun & Hh);
    [by apply host_start_ok|lia|done|].
  destruct (joined_run env nd _ [] [] es h (joined_start env nd pid g state_file validator_key Hboot) Hrun)
    as (nes & res & Hj & Hl & Hn & Hr).
  exists env, nd, h, nes, res. split_and!; [done..| |done|done|done|apply Hh].
  by apply (host_run_bounded env (host_start pid nd) es); [apply host_start_bounded|].
Qed.

Definition demo_gossip : bytes := positive_bytes (encode (3, key32 9)).
Definition demo_host_events : list host_event :=
  [TaskSwarm (ConnectionEstablished (key32 50) 1700000000);
   TaskSwarm (GossipMessage (key32 50) CONSENSUS_TOPIC demo_gossip); TaskSend; LoopMessage; LoopSend; TaskBroadcast].
Lemma demo_gossip_decodes :
  decode_consensus_message (N := toy_codec) demo_gossip = Ok (CommitBlock 3 (key32 9)).
Proof.
  unfold decode_consensus_message, demo_gossip. cbn [bincode_parse_consensus toy_codec].
  by rewrite bytes_positive_bytes, decode_encode.
Qed.

Lemma host_joins_two_runs_witness :
  ∃ env nd h nes res,
    node_boot (OC := debug_build) (C := toy_crypto) (B := toy_bincode) (HO := forward_order)
      (S := toy_serde) (K := demo_clock) demo_genesis None demo_key_file = Some (Ok (env, nd)) ∧
    host_run (OC := debug_build) (C := toy_crypto) (B := toy_bincode) (HO := forward_order)
      (S := toy_serde) (K := demo_clock) (N := toy_codec) (M := toy_mpsc) env
      (host_start (M := toy_mpsc) (key32 40) nd) demo_host_events = Some h ∧
    node_run (OC := debug_build) (C := toy_crypto) (B := toy_bincode) (HO := forward_order)
      (S := toy_serde) (K := demo_clock) env nd nes = Some (ho_node h) ∧
    (length nes <= 6)%nat ∧ Forall (runner_event_from demo_host_events) res.
Proof.
  destruct (host_joins_two_runs (OC := debug_build) (C := toy_crypto) (B := toy_bincode) (HO := forward_order)
    (S := toy_serde) (K := demo_clock) (N := toy_codec) (M := toy_mpsc) 100 demo_genesis None demo_key_file
    (Some (key32 1)) (key32 40) demo_host_events)
    as (env & nd & h & nes & res & Hboot & Hrun & [Hnode _ _ _ _ _] & _ & Hlen & _ & Hres & _);
    [lia|lia|reflexivity|apply demo_genesis_ok|vm_compute; reflexivity|apply (demo_initial_db 6); lia| |].
  - unfold demo_host_events. repeat (apply Forall_cons; split); try exact I; [|apply Forall_nil_2]. split.
    + intros m Hm. rewrite demo_gossip_decodes in Hm. injection Hm as <-. simpl. lia.
    + intros tx Htx. unfold decode_transaction, codec_result in Htx. vm_compute in Htx. discriminate Htx.
  - exists env, nd, h, nes, res. exact (conj Hboot (conj Hrun (conj Hnode (conj Hlen Hres)))).
Defined.
