(* ===== verification/HostFlood.v ===== *)
(** * A process that waits for itself (consensus/net/src/network.rs, validator/src/main.rs)

    The loop waits for room in the channel of the broadcasts, which only the task
    empties, and the task for room in the channel of the messages, which only the loop
    empties.  When both wait the process has stopped ([mutual_wait]); a flood of one
    message brings it there ([flood]), and nothing else keeps the loop from going on. *)
From S2P Require Import Prelude Crypto Block Vote StateMachine State Mempool.
From S2P Require Import Staking Fees ValidatorSet Network Genesis Rpc Node.
From S2P Require Import NodeSafety NodeFaults NodeAgreement NodeChain Host.
Open Scope Z_scope.

(** ** A flood of bare commits *)

(** One peer gossips one message for ever.  A round of it is heard by the task, handed
    to the loop, answered, and the answer is queued; then the loop's last round has no
    room for its answer, and the task none for what it hears. *)
Definition hear (peer : PeerId) (data : bytes) : host_event := TaskSwarm (GossipMessage peer CONSENSUS_TOPIC data).
Definition answered (peer : PeerId) (data : bytes) : list host_event := [hear peer data; TaskSend; LoopMessage].
Definition flood (peer : PeerId) (data : bytes) (rounds : nat) : list host_event :=
  [LoopSend] ++ mjoin (replicate rounds (answered peer data ++ [LoopSend])) ++ answered peer data
  ++ mjoin (replicate 256 [hear peer data; TaskSend]) ++ [hear peer data].

(** The loop waits for room in a channel that only the task empties, and the task for
    room in a channel that only the loop empties. *)
Definition mutual_wait {M : Mpsc} (h : Host) : Prop :=
  (∃ x rest, ho_sending h = x :: rest ∧ send_request x (ho_channels h) = None) ∧
  (∃ y rest, ho_delivering h = y :: rest ∧ send_delivery y (ho_channels h) = None).

(** The steps the task takes of its own, whatever the swarm does. *)
Definition own_step (e : host_event) : Prop :=
  e = TaskSend ∨ e = TaskBroadcast ∨ e = TaskBroadcastTransaction.

(** What a host still does when it waits for itself: nothing, but that clients submit. *)
Record stands_still {M : Mpsc} (h h' : Host) : Prop := {
  ss_node : ∃ rpc, ho_node h' = set_rpc rpc (ho_node h);
  ss_ledger : ledger_of (ho_node h') = ledger_of (ho_node h);
  ss_sending : ho_sending h' = ho_sending h;
  ss_delivering : ho_delivering h' = ho_delivering h;
  ss_task : ho_task h' = ho_task h;
  ss_channels : ho_channels h' = ho_channels h;
}.

Section Still.
Context {OC : OverflowChecks} {C : Crypto} {B : Bincode} {HO : HashOrder} {HL : HashOrderLaws HO}.
Context {S : Serde} {K : Clock} {N : NetCodec} {M : Mpsc}.
Context (L total room : Z) (env : NodeEnv).

Lemma stands_still_refl h : stands_still h h.
Proof. split; try done. exists (nd_rpc (ho_node h)). by destruct h as [[]]. Qed.
Lemma stands_still_trans h1 h2 h3 : stands_still h1 h2 → stands_still h2 h3 → stands_still h1 h3.
Proof.
  intros [[r1 Hn1] Hl1 Hs1 Hd1 Ht1 Hc1] [[r2 Hn2] Hl2 Hs2 Hd2 Ht2 Hc2].
  split; [exists r2; rewrite Hn2, Hn1; done|congruence..].
Qed.
Lemma mutual_wait_still h h' : stands_still h h' → mutual_wait h → mutual_wait h'.
Proof. intros [_ _ Hs Hd _ Hc]. unfold mutual_wait. by rewrite Hs, Hd, Hc. Qed.

Lemma mutual_wait_step h e :
  mutual_wait h → Node_wf L total room (ho_node h) → host_event_ok L e →
  ∃ h', host_step env h e = Some h' ∧ stands_still h h' ∧ Node_wf L total room (ho_node h').
Proof.
  intros [(y & rest & Hs & Hsend) (z & rest' & Hd & Hdeliver)] Hn He.
  assert (∃ h', Some h = Some h' ∧ stands_still h h' ∧ Node_wf L total room (ho_node h')) as Hsame.
  { exists h. split; [done|]. split; [apply stands_still_refl|done]. }
  destruct e as [|te| | | |req|r| | |]; cbn [host_step]; rewrite ?Hs, ?Hd; try exact Hsame.
  - by rewrite Hsend.
  - destruct (rpc_submit_ok L total room req (ho_node h) Hn He) as (nd & Hr & Hnd). rewrite Hr. cbn [mbind option_bind].
    eexists. split; [done|]. split; [|done]. apply bind_Some in Hr as ([rpc o] & Hr & [= <-]).
    split; simpl; try done; [by eexists|]. destruct (submit_keeps_ledger _ _ _ _ Hr) as [H1 H2].
    destruct (submit_keeps_head _ _ _ _ Hr) as [H3 H4]. unfold ledger_of, nd_state_db. simpl. congruence.
  - by rewrite Hdeliver.
Qed.

Lemma mutual_wait_run h es :
  mutual_wait h → Node_wf L total room (ho_node h) → Forall (host_event_ok L) es →
  ∃ h', host_run env h es = Some h' ∧ stands_still h h'.
Proof.
  unfold host_run. intros Hw Hn Hes. revert h Hw Hn. induction Hes as [|e es He Hes IH]; intros h Hw Hn; simpl.
  { exists h. split; [done|apply stands_still_refl]. }
  destruct (mutual_wait_step h e Hw Hn He) as (h1 & -> & Hs1 & Hn1). simpl.
  destruct (IH h1) as (h' & -> & Hs2); [by apply (mutual_wait_still h)|done|].
  exists h'. split; [done|]. by apply (stands_still_trans h h1).
Qed.
End Still.

(** ** A host that does not wait for itself goes on *)

Section Progress.
Context {OC : OverflowChecks} {C : Crypto} {B : Bincode} {HO : HashOrder} {S : Serde} {K : Clock}.
Context {N : NetCodec} {M : Mpsc} {ML : MpscLaws M}.
Context (env : NodeEnv).

(** The task has at most one thing to deliver. *)
Lemma deliveries_one r e : (length (deliveries_of r (runner_step r e)) <= 1)%nat.
Proof.
  assert (∀ ms ts r', nr_messages r' = nr_messages r ++ ms → nr_transactions r' = nr_transactions r ++ ts →
    length (deliveries_of r r') = (length ms + length ts)%nat) as Hlen.
  { intros ms ts r' H1 H2. unfold deliveries_of. by rewrite H1, H2, !appended_app, length_app, !length_fmap. }
  destruct (runner_run_delivered r [e]) as (H1 & H2 & _).
  change (runner_run r [e]) with (runner_step r e) in H1, H2. rewrite (Hlen _ _ _ H1 H2).
  destruct e as [src t d| | | | |]; try (simpl; lia). unfold delivered, delivered_transactions. csimpl.
  destruct (String.eqb_spec t CONSENSUS_TOPIC) as [->|]; [|destruct (String.eqb t TRANSACTION_TOPIC)]; simpl; [| |lia].
  - destruct (decode_consensus_message d); simpl; lia.
  - destruct (decode_transaction d); simpl; lia.
Qed.

Lemma task_arm_one e h : ho_delivering h = [] → (length (ho_delivering (task_arm e h)) <= 1)%nat.
Proof.
  intros Hd. destruct e as [| | | | | |r| | |]; simpl; rewrite ?Hd; try (simpl; lia).
  - destruct (swarm_event r); [apply deliveries_one|rewrite Hd; simpl; lia].
  - destruct (receive_broadcast _) as [[m chs]|]; [apply deliveries_one|rewrite Hd; simpl; lia].
  - destruct (receive_tx_broadcast _) as [[t chs]|]; [apply deliveries_one|rewrite Hd; simpl; lia].
Qed.

Lemma loop_round_delivering n chs h h' :
  loop_round env n (set_channels chs h) = Some h' → ho_delivering h' = ho_delivering h.
Proof. by intros (nd & _ & [= <-])%bind_Some. Qed.

Lemma loop_arm_delivering e h h' : loop_arm env e h = Some h' → ho_delivering h' = ho_delivering h.
Proof.
  intros Hs. assert (∀ n, loop_round env n h = Some h' → ho_delivering h' = ho_delivering h) as Hround.
  { intros n. rewrite <-(set_same_channels h) at 1. apply loop_round_delivering. }
  destruct e as [|te| | | | | | | |]; cbn [loop_arm] in Hs; try by injection Hs as <-.
  - destruct (NetworkHandle_next_message _) as [[m chs]|]; [by apply loop_round_delivering in Hs|by injection Hs as <-].
  - case_bool_decide; [by apply Hround in Hs|by injection Hs as <-].
  - destruct (receive_transaction _ _) as [[[t|] chs]|]; [by apply loop_round_delivering in Hs|by injection Hs as <-..].
  - by apply Hround in Hs.
Qed.

Lemma host_step_one h e h' :
  (length (ho_delivering h) <= 1)%nat → host_step env h e = Some h' → (length (ho_delivering h') <= 1)%nat.
Proof.
  intros Hl Hs. assert (h' = h → (length (ho_delivering h') <= 1)%nat) as Hsame by (by intros ->).
  destruct e as [|te| | | |req|r| | |]; cbn [host_step] in Hs;
    try (destruct (ho_sending h); [by apply loop_arm_delivering in Hs as ->|by apply Hsame; injection Hs as <-]);
    try (destruct (ho_delivering h) eqn:Hd; [apply (inj Some) in Hs; rewrite <-Hs; by apply task_arm_one
                                            |injection Hs as <-; by rewrite Hd]).
  - destruct (ho_sending h) as [|x rest]; [by apply Hsame; injection Hs as <-|].
    destruct (send_request x _) as [chs|]; by injection Hs as <-.
  - by apply bind_Some in Hs as (nd & _ & [= <-]).
  - destruct (ho_delivering h) as [|x rest] eqn:Hd; [injection Hs as <-; by rewrite Hd|].
    destruct (send_delivery x _) as [chs|]; injection Hs as <-; [simpl in *; lia|by rewrite Hd].
Qed.

Lemma host_run_one h es h' :
  (length (ho_delivering h) <= 1)%nat → host_run env h es = Some h' → (length (ho_delivering h') <= 1)%nat.
Proof.
  unfold host_run. revert h. induction es as [|e es IH]; intros h Hl; simpl; [by intros [= <-]|].
  intros (h1 & Hs & Hr)%bind_Some. by apply (IH h1); [by apply (host_step_one h e)|].
Qed.

(** A task that has nothing to deliver makes room for the loop. *)
Lemma idle_task_makes_room h x rest :
  ho_sending h = x :: rest → ho_delivering h = [] → bounded (ho_channels h) →
  send_request x (ho_channels h) = None →
  ∃ e h', own_step e ∧ host_run env h [e; LoopSend] = Some h' ∧ ho_node h' = ho_node h ∧ ho_sending h' = rest.
Proof.
  intros Hs Hd (H1 & H2 & H3 & H4) Hx. destruct x as [m|t]; simpl in Hx.
  - unfold NetworkHandle_broadcast_message in Hx. destruct (channel_send m _) eqn:Hfull; [done|]. clear Hx.
    apply send_full in Hfull. exists TaskBroadcast. unfold host_run. cbn [fold_may_panic host_step]. rewrite Hd.
    cbn [task_arm]. unfold receive_broadcast.
    destruct (channel_recv (ch_broadcasts (ho_channels h))) as [[m' c]|] eqn:Hc;
      [|apply recv_empty in Hc; destruct H1 as [Hb _]; rewrite Hc, Hb in Hfull; simpl in Hfull; lia].
    cbn [mbind option_bind task_round ho_sending set_channels]. rewrite Hs. cbn [send_request task_round set_channels ho_channels].
    unfold NetworkHandle_broadcast_message. cbn [task_round set_channels ho_channels ch_broadcasts].
    destruct (recv_items _ _ _ _ Hc) as [Hi Hbuf]. destruct H1 as [Hb Hl].
    destruct (channel_send m c) as [c'|] eqn:Hc'; [|apply send_full in Hc'; rewrite Hi in Hl; simpl in Hl; lia].
    eexists. split; [right; by left|]. by split_and!.
  - unfold NetworkHandle_broadcast_transaction in Hx. destruct (channel_send t _) eqn:Hfull; [done|]. clear Hx.
    apply send_full in Hfull. exists TaskBroadcastTransaction. unfold host_run. cbn [fold_may_panic host_step]. rewrite Hd.
    cbn [task_arm]. unfold receive_tx_broadcast.
    destruct (channel_recv (ch_tx_broadcasts (ho_channels h))) as [[t' c]|] eqn:Hc;
      [|apply recv_empty in Hc; destruct H3 as [Hb _]; rewrite Hc, Hb in Hfull; simpl in Hfull; lia].
    cbn [mbind option_bind task_round ho_sending set_channels]. rewrite Hs. cbn [send_request task_round set_channels ho_channels].
    unfold NetworkHandle_broadcast_transaction. cbn [task_round set_channels ho_channels ch_tx_broadcasts].
    destruct (recv_items _ _ _ _ Hc) as [Hi Hbuf]. destruct H3 as [Hb Hl].
    destruct (channel_send t c) as [c'|] eqn:Hc'; [|apply send_full in Hc'; rewrite Hi in Hl; simpl in Hl; lia].
    eexists. split; [right; by right|]. by split_and!.
Qed.

Lemma loop_goes_on h x rest :
  ho_sending h = x :: rest → bounded (ho_channels h) → (length (ho_delivering h) <= 1)%nat →
  mutual_wait h ∨ ∃ own h', Forall own_step own ∧ (length own <= 2)%nat ∧
    host_run env h (own ++ [LoopSend]) = Some h' ∧ ho_node h' = ho_node h ∧ ho_sending h' = rest.
Proof.
  intros Hs Hb Hl. destruct (send_request x (ho_channels h)) as [chs|] eqn:Hx.
  { right. eexists [], _. split; [apply Forall_nil_2|]. split; [simpl; lia|]. unfold host_run. simpl. rewrite Hs, Hx. by split_and!. }
  destruct (ho_delivering h) as [|y l] eqn:Hd.
  { right. destruct (idle_task_makes_room h x rest Hs Hd Hb Hx) as (e & h' & He & Hrun & Hnd & Hs').
    exists [e], h'. split; [by apply Forall_singleton|]. split; [simpl; lia|done]. }
  destruct l; [|simpl in Hl; lia].
  destruct (send_delivery y (ho_channels h)) as [chs|] eqn:Hy; [right|left].
  - pose proof (send_delivery_bounded y _ _ Hb Hy) as Hb'.
    destruct (send_delivery_items y [] _ _ Hy) as (_ & _ & Hc1 & Hc2).
    set (h1 := mkHost _ (ho_node h) (ho_tx_rx h) (ho_handle h) (ho_sending h) (ho_task h) [] chs).
    assert (host_step env h TaskSend = Some h1) as Hstep by (cbn [host_step]; by rewrite Hd, Hy).
    assert (send_request x (ho_channels h1) = None) as Hx1.
    { destruct x; simpl in Hx |- *; [unfold NetworkHandle_broadcast_message in *; rewrite Hc1
                                    |unfold NetworkHandle_broadcast_transaction in *; rewrite Hc2];
        by destruct (channel_send _ _). }
    destruct (idle_task_makes_room h1 x rest Hs eq_refl Hb' Hx1) as (e & h' & He & Hrun & Hnd & Hs').
    exists [TaskSend; e], h'. split; [apply Forall_cons; split; [by left|by apply Forall_singleton]|].
    split; [simpl; lia|].     unfold host_run in *. cbn [app fold_may_panic]. rewrite Hstep. cbn [mbind option_bind]. done.
  - split; [by exists x, rest|by exists y, []].
Qed.
End Progress.

Section Flood.
Context {OC : OverflowChecks} {C : Crypto} {B : Bincode} {HO : HashOrder} {HL : HashOrderLaws HO}.
Context {S : Serde} {K : Clock}.
Context (L total : Z) (HL1 : 100 <= L) (HL2 : L * 21000 < U64).
Context (env : NodeEnv) (Henv : ne_timeout_config env = TimeoutConfig_default).
Context (h0 : Height) (x : BlockHash) (sk : bytes) (Hh0 : 0 <= h0 <= U64 - 2 * U32).
Context (Hsk : ne_signing_key env = Some sk).

(** The node is the proposer at the height after [h0]. *)
Definition next_turn (s : BftStateMachine) : Prop :=
  sm_validator_index s = Some ((h0 + 1) mod total_validators s).

Lemma on_proposal_keeps_seat p blk s s' out :
  BftStateMachine_on_proposal p blk s = Some (s', out) →
  sm_validators s' = sm_validators s ∧ sm_validator_index s' = sm_validator_index s.
Proof. intros [[-> _]|(_ & -> & _)]%on_proposal_inv; [done|by destruct blk]. Qed.

Lemma next_turn_proposer room s :
  bft_ok L room s → 0 <= room → sm_height s = h0 + 1 → sm_round s = 0 → next_turn s →
  BftStateMachine_is_proposer s = Some true.
Proof.
  intros Hs Hr Hh Hrd Ht. unfold BftStateMachine_is_proposer. rewrite Ht.
  destruct (proposer_index_total L room s Hs Hr) as [-> _]. rewrite Hh, Hrd, Z.add_0_r. simpl.
  by rewrite Z.eqb_refl.
Qed.

(** Each commit makes the node propose once more. *)
Lemma commit_proposes room nd :
  Node_wf L total (room + 1) nd → 0 <= room → next_turn (nd_bft nd) →
  ∃ nd' m, node_step env nd (NetMessage (CommitBlock h0 x)) = Some nd' ∧ Node_wf L total room nd' ∧
    next_turn (nd_bft nd') ∧ nd_sent nd' = nd_sent nd ++ [m] ∧ nd_gossiped nd' = nd_gossiped nd.
Proof.
  intros Hnd Hr Ht.
  destruct (node_step_ok L total HL1 HL2 env Henv room (NetMessage (CommitBlock h0 x)) nd Hnd Hr Hh0)
    as (nd' & Hstep & Hnd'). exists nd'.
  assert (room < U32) as Hr32.
  { pose proof (nw_bft _ _ _ _ Hnd) as Hb. by destruct (bft_ok_room_round L room _ Hb Hr). }
  pose proof Hstep as Hs. simpl in Hs. unfold on_net_message in Hs.
  apply bind_Some in Hs as ([nd1 out] & (nd2 & Hc & [= <- <-])%bind_Some & Hs).
  unfold node_output in Hs. simpl in Hs. injection Hs as Hs.
  assert (nd_bft nd' = nd_bft nd2 ∧ nd_sent nd' = nd_sent nd2 ∧ nd_gossiped nd' = nd_gossiped nd2) as (-> & -> & ->)
    by (by rewrite <-Hs).
  rewrite (commit_gossip _ _ _ _ _ Hc).
  apply bind_Some in Hc as (nd3 & (_ & _ & Hbft & _ & Hsent & _)%apply_commit_inv & Hc).
  rewrite u64_add_ok in Hc by zlia. cbn [mbind option_bind] in Hc.
  destruct (advance_height_ok L (h0 + 1) room (nd_bft nd)) as [Hok _]; [apply Hnd|lia..|].
  revert Hc. rewrite advance_height_timeout, Hbft. cbn [fst snd].
  assert (next_turn (BftStateMachine_advance_height (h0 + 1) (nd_bft nd)).1) as Hturn by exact Ht.
  assert (BftStateMachine_is_proposer (BftStateMachine_advance_height (h0 + 1) (nd_bft nd)).1 = Some true) as Hprop
    by (by apply (next_turn_proposer room)).
  revert Hturn Hprop. generalize (BftStateMachine_advance_height (h0 + 1) (nd_bft nd)).1. intros s Hturn Hprop Hc.
  apply bind_Some in Hc as ([bs nd4] & (-> & ts & ->)%node_output_timeout & Hc).
  unfold propose_if_proposer in Hc. cbn [nd_bft spawn_timers set_bft] in Hc. rewrite Hprop, Hsk in Hc.
  cbn [mbind option_bind andb] in Hc. apply bind_Some in Hc as (nd5 & Hp & [= <-]).
  apply propose_block_inv in Hp as (block & out & _ & Hon & Hnd5). cbn [nd_bft spawn_timers set_bft] in Hon.
  apply on_proposal_keeps_seat in Hon as [Hv Hi]. rewrite Hnd5. cbn [nd_bft nd_sent broadcast set_bft tick spawn_timers].
  eexists. split; [done|]. split; [done|]. split; [|by rewrite app_nil_r, Hsent].
  unfold next_turn, total_validators. rewrite Hi, Hv. exact Hturn.
Qed.

Context {N : NetCodec} {M : Mpsc} {ML : MpscLaws M}.
Context (peer : PeerId) (data : bytes) (Hdata : decode_consensus_message data = Ok (CommitBlock h0 x)).

Lemma host_run_app h es1 es2 h1 :
  host_run env h es1 = Some h1 → host_run env h (es1 ++ es2) = host_run env h1 es2.
Proof.
  unfold host_run. revert h. induction es1 as [|e es1 IH]; intros h; simpl; [by intros [= ->]|].
  intros (h2 & -> & Hrun)%bind_Some. simpl. by apply IH.
Qed.

(** Between two messages of the flood: both are idle and no message is on its way. *)
Record between (room : Z) (h : Host) : Prop := {
  bw_node : Node_wf L total room (ho_node h);
  bw_turn : next_turn (nd_bft (ho_node h));
  bw_sending : ho_sending h = [];
  bw_delivering : ho_delivering h = [];
  bw_messages : channel_items (ch_messages (ho_channels h)) = [];
  bw_bounded : bounded (ho_channels h);
}.

Local Abbreviation flooding := (mkNetworkMessage peer (CommitBlock h0 x)).

(** The task hears the message. *)
Lemma hear_step h :
  ho_delivering h = [] →
  host_step env h (hear peer data) = Some (mkHost _ (ho_node h) (ho_tx_rx h) (ho_handle h) (ho_sending h)
    (push_message flooding (ho_task h)) [DeliverMessage flooding] (ho_channels h)).
Proof.
  intros Hd. unfold hear. cbn [host_step]. rewrite Hd. cbn [task_arm swarm_event]. unfold task_round.
  assert (runner_step (ho_task h) (GossipMessage peer CONSENSUS_TOPIC data) = push_message flooding (ho_task h)) as ->.
  { cbn [runner_step]. unfold on_gossip_message. by rewrite String.eqb_refl, Hdata. }
  unfold deliveries_of. cbn [nr_messages nr_transactions push_message].
  rewrite appended_app. rewrite <-(app_nil_r (nr_transactions (ho_task h))) at 2. by rewrite appended_app.
Qed.

(** The message gets into the queue, if there is room. *)
Lemma deliver_step h m :
  ho_delivering h = [DeliverMessage m] → bounded (ho_channels h) →
  (length (channel_items (ch_messages (ho_channels h))) < 256)%nat →
  ∃ chs, host_step env h TaskSend = Some (mkHost _ (ho_node h) (ho_tx_rx h) (ho_handle h) (ho_sending h)
      (ho_task h) [] chs) ∧ bounded chs ∧ ch_broadcasts chs = ch_broadcasts (ho_channels h) ∧
    channel_items (ch_messages chs) = channel_items (ch_messages (ho_channels h)) ++ [m].
Proof.
  intros Hd Hb Hl. destruct (channel_send m (ch_messages (ho_channels h))) as [c|] eqn:Hc.
  - assert (send_delivery (DeliverMessage m) (ho_channels h) = Some (mkChannels _ (ch_broadcasts (ho_channels h)) c
      (ch_tx_broadcasts (ho_channels h)) (ch_transactions (ho_channels h)))) as Hsend
      by (simpl; unfold send_message; by rewrite Hc).
    cbn [host_step]. rewrite Hd, Hsend. eexists. split; [done|].
    split; [by apply (send_delivery_bounded (DeliverMessage m) (ho_channels h))|]. split; [done|].
    by destruct (send_items _ _ _ _ Hc).
  - apply send_full in Hc. destruct Hb as (_ & [Hbuf _] & _). rewrite Hbuf in Hc. lia.
Qed.

(** The loop takes it, and has a proposal to broadcast. *)
Lemma answered_run room h :
  between (room + 1) h → 0 <= room →
  ∃ h' m, host_run env h (answered peer data) = Some h' ∧ Node_wf L total room (ho_node h') ∧
    next_turn (nd_bft (ho_node h')) ∧ ho_sending h' = [RequestMessage m] ∧ ho_delivering h' = [] ∧
    channel_items (ch_messages (ho_channels h')) = [] ∧ bounded (ho_channels h') ∧
    ch_broadcasts (ho_channels h') = ch_broadcasts (ho_channels h).
Proof.
  intros [Hn Ht Hs Hd Hm Hb] Hr. unfold answered, host_run. cbn [fold_may_panic]. rewrite hear_step by done.
  cbn [mbind option_bind]. set (h1 := mkHost _ _ _ _ _ _ _ _).
  destruct (deliver_step h1 flooding) as (chs & -> & Hb' & Hbr & Hitems); [done|done|simpl; rewrite Hm; simpl; lia|].
  cbn [mbind option_bind host_step ho_sending h1]. rewrite Hs. cbn [loop_arm ho_channels]. unfold NetworkHandle_next_message.
  simpl in Hitems. rewrite Hm in Hitems. simpl in Hitems.
  destruct (channel_recv (ch_messages chs)) as [[m c]|] eqn:Hc; [|apply recv_empty in Hc; rewrite Hc in Hitems; done].
  destruct (recv_items _ _ _ _ Hc) as [Hi _]. rewrite Hitems in Hi. injection Hi as <- Hi.
  cbn [mbind option_bind]. unfold loop_round, h1. cbn [nm_message ho_node set_channels].
  destruct (commit_proposes room (ho_node h) Hn Hr Ht) as (nd' & out & -> & Hn' & Ht' & Hsent & Hgos).
  cbn [mbind option_bind]. eexists _, out. split; [done|]. cbn [ho_node ho_sending ho_delivering ho_channels ch_messages ch_broadcasts].
  split; [done|]. split; [done|]. split.
  { unfold requests_of. rewrite Hsent, Hgos, appended_app. rewrite <-(app_nil_r (nd_gossiped (ho_node h))) at 2.
    by rewrite appended_app. }
  split; [done|]. split; [done|]. split; [|done]. destruct Hb' as (H1 & H2 & H3 & H4). split; [done|].
  split; [by apply (recv_room_kept _ _ _ _ H2 Hc)|done].
Qed.

(** A round whose answer still finds room. *)
Lemma flood_round room h :
  between (room + 1) h → 0 <= room → (length (channel_items (ch_broadcasts (ho_channels h))) < 256)%nat →
  ∃ h', host_run env h (answered peer data ++ [LoopSend]) = Some h' ∧ between room h' ∧
    length (channel_items (ch_broadcasts (ho_channels h'))) = Datatypes.S (length (channel_items (ch_broadcasts (ho_channels h)))).
Proof.
  intros Hb Hr Hl. destruct (answered_run room h Hb Hr) as (h1 & m & Hrun & Hn & Ht & Hs & Hd & Hm & Hbd & Hbr).
  rewrite (host_run_app _ _ _ _ Hrun). unfold host_run. cbn [fold_may_panic host_step]. rewrite Hs. cbn [send_request].
  unfold NetworkHandle_broadcast_message. rewrite Hbr.
  destruct (channel_send m (ch_broadcasts (ho_channels h))) as [c|] eqn:Hc.
  - cbn [mbind option_bind]. eexists. split; [done|].
    destruct (send_items _ _ _ _ Hc) as [Hi _].
    split; [|cbn [ho_channels ch_broadcasts]; rewrite Hi, length_app; simpl; lia].
    split; try done. destruct Hbd as (H1 & H2 & H3 & H4). rewrite Hbr in H1. split; [|done]. by apply (send_room_kept _ _ _ _ H1 Hc).
  - apply send_full in Hc. destruct (bw_bounded _ _ Hb) as ([Hbuf _] & _). rewrite Hbuf in Hc. lia.
Qed.

Lemma flood_rounds n room h :
  between (room + Z.of_nat n) h → 0 <= room → (length (channel_items (ch_broadcasts (ho_channels h))) + n <= 256)%nat →
  ∃ h', host_run env h (mjoin (replicate n (answered peer data ++ [LoopSend]))) = Some h' ∧ between room h' ∧
    length (channel_items (ch_broadcasts (ho_channels h'))) = (length (channel_items (ch_broadcasts (ho_channels h))) + n)%nat.
Proof.
  revert h. induction n as [|n IH]; intros h Hb Hr Hl.
  { exists h. rewrite Z.add_0_r in Hb. split; [done|]. split; [done|lia]. }
  destruct (flood_round (room + Z.of_nat n) h) as (h1 & Hrun & Hb1 & Hl1); [|lia|lia|].
  { by replace (room + Z.of_nat n + 1) with (room + Z.of_nat (Datatypes.S n)) by lia. }
  destruct (IH h1) as (h' & Hrun' & Hb' & Hl'); [done|done|lia|].
  exists h'. split; [|split; [done|lia]].
  change (mjoin (replicate (Datatypes.S n) (answered peer data ++ [LoopSend]))) with
    ((answered peer data ++ [LoopSend]) ++ mjoin (replicate n (answered peer data ++ [LoopSend]))).
  by rewrite (host_run_app _ _ _ _ Hrun).
Qed.

(** The task goes on until its queue is full as well. *)
Lemma fill_messages n h :
  ho_delivering h = [] → bounded (ho_channels h) →
  (length (channel_items (ch_messages (ho_channels h))) + n <= 256)%nat →
  ∃ h', host_run env h (mjoin (replicate n [hear peer data; TaskSend])) = Some h' ∧
    ho_node h' = ho_node h ∧ ho_sending h' = ho_sending h ∧ ho_delivering h' = [] ∧ bounded (ho_channels h') ∧
    ch_broadcasts (ho_channels h') = ch_broadcasts (ho_channels h) ∧
    length (channel_items (ch_messages (ho_channels h'))) = (length (channel_items (ch_messages (ho_channels h))) + n)%nat.
Proof.
  revert h. induction n as [|n IH]; intros h Hd Hb Hl.
  { exists h. rewrite Nat.add_0_r. by split_and!. }
  change (mjoin (replicate (Datatypes.S n) [hear peer data; TaskSend])) with
    (hear peer data :: TaskSend :: mjoin (replicate n [hear peer data; TaskSend])).
  unfold host_run. cbn [fold_may_panic]. rewrite hear_step by done. cbn [mbind option_bind]. set (h1 := mkHost _ _ _ _ _ _ _ _).
  destruct (deliver_step h1 flooding) as (chs & -> & Hb' & Hbr & Hitems); [done|done|simpl; lia|].
  cbn [mbind option_bind]. set (h2 := mkHost _ _ _ _ _ _ _ _). simpl in Hitems, Hbr.
  destruct (IH h2) as (h' & Hrun & H1 & H2 & H3 & H4 & H5 & H6); [done|done|simpl; rewrite Hitems, length_app; simpl; lia|].
  exists h'. split; [exact Hrun|]. rewrite H1, H2, H5, H6. simpl. rewrite Hitems, length_app, Hbr. simpl.
  split_and!; try done. lia.
Qed.

Lemma flood_waits room pid nd :
  Node_wf L total (room + 257) nd → 0 <= room → next_turn (nd_bft nd) → (length (nd_sent nd) <= 1)%nat →
  ∃ h, host_run env (host_start pid nd) (flood peer data (256 - length (nd_sent nd))) = Some h ∧
    mutual_wait h ∧ Node_wf L total room (ho_node h).
Proof.
  intros Hn Hr Ht Hsent. unfold flood.
  assert (∃ h1, host_run env (host_start pid nd) [LoopSend] = Some h1 ∧ between (room + 257) h1 ∧
    length (channel_items (ch_broadcasts (ho_channels h1))) = length (nd_sent nd)) as (h1 & Hrun1 & Hb1 & Hl1).
  { pose proof (host_start_bounded pid nd) as Hbd. unfold host_run, host_start in *. simpl in Hbd |- *.
    destruct (nd_sent nd) as [|m [|m' l]]; [| |simpl in Hsent; lia]; cbn [fmap list_fmap].
    - eexists. split; [done|]. split; [|simpl; by rewrite (proj1 (new_items _ _))].
      split; try done; simpl; by rewrite (proj1 (new_items _ _)).
    - simpl. unfold NetworkHandle_broadcast_message. simpl.
      destruct (channel_send m (channel_new 256)) as [c|] eqn:Hc.
      + simpl. destruct (send_items _ _ _ _ Hc) as [Hi _]. eexists. split; [done|].
        split; [|simpl; by rewrite Hi, (proj1 (new_items _ _))].
        split; try done; simpl; [by rewrite (proj1 (new_items _ _))|].
        destruct Hbd as (H1 & H2 & H3 & H4). split; [|done]. by apply (send_room_kept _ _ _ _ H1 Hc).
      + apply send_full in Hc. destruct (new_items ConsensusMessage 256) as [Hi Hbuf]. rewrite Hi, Hbuf in Hc. simpl in Hc. lia. }
  destruct (flood_rounds (256 - length (nd_sent nd)) (room + 1 + Z.of_nat (length (nd_sent nd))) h1)
    as (h2 & Hrun2 & Hb2 & Hl2); [|lia|lia|].
  { by replace (room + 1 + Z.of_nat (length (nd_sent nd)) + Z.of_nat (256 - length (nd_sent nd))) with (room + 257) by lia. }
  destruct (answered_run (room + Z.of_nat (length (nd_sent nd))) h2) as (h3 & m & Hrun3 & Hn3 & Ht3 & Hs3 & Hd3 & Hm3 & Hb3 & Hbr3);
    [|lia|].
  { by replace (room + Z.of_nat (length (nd_sent nd)) + 1) with (room + 1 + Z.of_nat (length (nd_sent nd))) by lia. }
  destruct (fill_messages 256 h3) as (h4 & Hrun4 & H41 & H42 & H43 & H44 & H45 & H46); [done|done|rewrite Hm3; simpl; lia|].
  rewrite (host_run_app _ _ _ _ Hrun1), (host_run_app _ _ _ _ Hrun2), (host_run_app _ _ _ _ Hrun3), (host_run_app _ _ _ _ Hrun4).
  unfold host_run. cbn [fold_may_panic]. rewrite hear_step by done. cbn [mbind option_bind]. eexists. split; [done|]. split.
  - split; cbn [ho_sending ho_delivering ho_channels].
    + eexists _, []. rewrite H42. split; [exact Hs3|]. cbn [send_request]. unfold NetworkHandle_broadcast_message.
      rewrite H45, Hbr3. rewrite (proj2 (send_full _ _ _)); [done|]. destruct (bw_bounded _ _ Hb2) as ([-> _] & _). lia.
    + eexists _, []. split; [done|]. cbn [send_delivery]. unfold send_message.
      rewrite (proj2 (send_full _ _ _)); [done|]. destruct H44 as (_ & [-> _] & _). rewrite H46. lia.
  - cbn [ho_node]. rewrite H41. apply (node_wf_less L total HL1 HL2 (room + Z.of_nat (length (nd_sent nd)))); [done|lia].
Qed.
End Flood.

(** The node's place among the validators, and its key. *)
Lemma boot_seat {OC : OverflowChecks} {C : Crypto} {B : Bincode} {HO : HashOrder} {S : Serde} {K : Clock}
    g state_file validator_key env nd :
  node_boot g state_file validator_key = Some (Ok (env, nd)) →
  sm_validators (nd_bft nd) = bft_validators g ∧
  sm_validator_index (nd_bft nd) = our_validator_index (ne_signing_key env) (bft_validators g) ∧
  load_validator_key validator_key = Ok (ne_signing_key env).
Proof.
  intros (key & nd0 & Hkey & Henv & Hb & _ & _ & _ & _ & _ & Hstart)%node_boot_start. unfold node_start in Hstart.
  rewrite Hb in Hstart. destruct (BftStateMachine_start_round 0 _) as [s out] eqn:Hst.
  injection Hst as Hs Ho. subst out. apply bind_Some in Hstart as ([bs nd1] & Ho & Hrest).
  apply node_output_timeout in Ho as (-> & ts & ->). apply bind_Some in Hrest as (nd2 & Hp & [= <-]).
  assert (sm_validators s = bft_validators g ∧
    sm_validator_index s = our_validator_index (ne_signing_key env) (bft_validators g)) as [Hv Hi]
    by (rewrite <-Hs; by split).
  split; [|split; [|by rewrite Henv]];
    apply propose_if_proposer_inv in Hp as [->|(sk & _ & (block & o & _ & Hon & _)%propose_block_inv)]; try done;
    apply on_proposal_keeps_seat in Hon as [Hv' Hi']; cbn [nd_bft spawn_timers set_bft] in Hv', Hi';
    cbn [nd_bft broadcast]; congruence.
Qed.

(** * Properties *)

(** C16: one message stops a validator.  A peer that gossips a bare commit of a height
    after which it is this validator's turn, over and over, can make the process wait
    for itself: each copy makes the node propose; when 256 proposals are queued and the
    loop waits for room for one more, the task can go on to hear copies until 256 of
    them are queued and it waits for room as well.  From then on the loop waits for the
    task and the task for the loop: whatever happens - messages, timers, connections -
    nothing changes any more but that clients' transactions pile up in the mempool. *)
Theorem flood_stops_host {OC : OverflowChecks} {C : Crypto} {B : Bincode} {HO : HashOrder}
    {HL : HashOrderLaws HO} {S : Serde} {K : Clock} {N : NetCodec} {M : Mpsc} {ML : MpscLaws M}
    (L : Z) (g : GenesisConfig) (state_file validator_key : option (result string bytes)) (sk : bytes) (i : Z)
    (pid peer : PeerId) (h0 : Height) (x : BlockHash) (data : bytes) :
  100 <= L → L * 21000 < U64 → genesis_ok g → load_validator_key validator_key = Ok (Some sk) →
  StateDB_wf (257 * L) (initial_state_db g state_file) →
  our_validator_index (Some sk) (bft_validators g) = Some i →
  (h0 + 1) mod Z.of_nat (length (bft_validators g)) = i → 0 <= h0 <= U64 - 2 * U32 →
  decode_consensus_message data = Ok (CommitBlock h0 x) →
  ∃ env nd h, node_boot g state_file validator_key = Some (Ok (env, nd)) ∧
    host_run env (host_start pid nd) (flood peer data (256 - length (nd_sent nd))) = Some h ∧ mutual_wait h ∧
    ∀ es, Forall (host_event_ok L) es → ∃ h', host_run env h es = Some h' ∧ stands_still h h'.
Proof.
  intros HL1 HL2 Hg Hkey Hdb Hidx Hturn Hh0 Hdata.
  destruct (node_boot_ok L 257 g state_file validator_key (Some sk)) as (env & nd & Hboot & Henv & Hnd); [done|lia|done..|].
  destruct (boot_logs env _ _ _ _ Hboot) as [_ Hsent].
  destruct (boot_seat g state_file validator_key env nd Hboot) as (Hv & Hi & Hk).
  rewrite Hkey in Hk. injection Hk as Hk.
  destruct (flood_waits L (supply (initial_state_db g state_file)) HL1 HL2 env Henv h0 x sk Hh0 (eq_sym Hk) peer data Hdata 0 pid nd)
    as (h & Hrun & Hw & Hh); [done|lia| |done|].
  { unfold next_turn, total_validators. rewrite Hv, Hi, <-Hk, Hturn. exact Hidx. }
  exists env, nd, h. split_and!; [done..|]. intros es Hes.
  by apply (mutual_wait_run L (supply (initial_state_db g state_file)) 0).
Qed.

Lemma flood_stops_host_witness :
  ∃ env nd h,
    node_boot (OC := debug_build) (C := toy_crypto) (B := toy_bincode) (HO := forward_order)
      (S := toy_serde) (K := demo_clock) demo_genesis None demo_key_file = Some (Ok (env, nd)) ∧
    host_run (OC := debug_build) (C := toy_crypto) (B := toy_bincode) (HO := forward_order)
      (S := toy_serde) (K := demo_clock) (N := toy_codec) (M := toy_mpsc) env
      (host_start (M := toy_mpsc) (key32 40) nd) (flood (key32 50) demo_gossip (256 - length (nd_sent nd))) = Some h ∧
    mutual_wait (M := toy_mpsc) h.
Proof.
  destruct (flood_stops_host (OC := debug_build) (C := toy_crypto) (B := toy_bincode) (HO := forward_order)
    (S := toy_serde) (K := demo_clock) (N := toy_codec) (M := toy_mpsc) 100 demo_genesis None demo_key_file
    (key32 1) 0 (key32 40) (key32 50) 3 (key32 9) demo_gossip)
    as (env & nd & h & Hboot & Hrun & Hw & _);
    [lia|lia|apply demo_genesis_ok|vm_compute; reflexivity|apply (demo_initial_db 257); lia
    |vm_compute; reflexivity|vm_compute; reflexivity|lia|apply demo_gossip_decodes|].
  exists env, nd, h. exact (conj Hboot (conj Hrun Hw)).
Defined.

(** C17: the loop waits for ever only in a mutual wait.  A round of the loop that waits for
    room to send is never stuck unless the task waits for the loop at the same time: otherwise at most two steps
    that the task takes by itself - whatever the swarm does - make the room, and the
    loop sends and goes on. *)
Theorem loop_waits_only_mutually {OC : OverflowChecks} {C : Crypto} {B : Bincode} {HO : HashOrder}
    {S : Serde} {K : Clock} {N : NetCodec} {M : Mpsc} {ML : MpscLaws M} (env : NodeEnv) (nd : Node) (pid : PeerId)
    (es : list host_event) (h : Host) (x : request) (rest : list request) :
  host_run env (host_start pid nd) es = Some h → ho_sending h = x :: rest →
  mutual_wait h ∨
  ∃ own h', Forall own_step own ∧ (length own <= 2)%nat ∧ host_run env h (own ++ [LoopSend]) = Some h' ∧
    ho_node h' = ho_node h ∧ ho_sending h' = rest.
Proof.
  intros Hrun Hs. apply (loop_goes_on env h x rest Hs).
  - by apply (host_run_bounded env (host_start pid nd) es); [apply host_start_bounded|].
  - by apply (host_run_one env (host_start pid nd) es); [simpl; lia|].
Qed.

Lemma loop_waits_only_mutually_witness :
  ∃ env nd m, demo_node demo_key_file [] = Some (env, nd) ∧ nd_sent nd = [m] ∧
    let h := host_start (M := toy_mpsc) (key32 40) nd in
    mutual_wait (M := toy_mpsc) h ∨
    ∃ own h', Forall own_step own ∧ (length own <= 2)%nat ∧
      host_run (OC := debug_build) (C := toy_crypto) (B := toy_bincode) (HO := forward_order)
        (S := toy_serde) (K := demo_clock) (N := toy_codec) (M := toy_mpsc) env h (own ++ [LoopSend]) = Some h' ∧
      ho_node h' = ho_node h ∧ ho_sending h' = [].
Proof.
  assert ((λ x : NodeEnv * Node, length (nd_sent x.2)) <$> demo_node demo_key_file [] = Some 1%nat) as Hone
    by (vm_compute; reflexivity).
  destruct (demo_node demo_key_file []) as [[env nd]|] eqn:Hnode; [|discriminate Hone].
  injection Hone as Hone. destruct (nd_sent nd) as [|m [|m' l]] eqn:Hsent; [discriminate Hone| |discriminate Hone].
  exists env, nd, m. split; [reflexivity|]. split; [exact Hsent|].
  refine (loop_waits_only_mutually (OC := debug_build) (C := toy_crypto) (B := toy_bincode) (HO := forward_order)
    (S := toy_serde) (K := demo_clock) (N := toy_codec) (M := toy_mpsc) env nd (key32 40) []
    (host_start (M := toy_mpsc) (key32 40) nd) (RequestMessage m) [] eq_refl _).
  unfold host_start. simpl. rewrite Hsent. reflexivity.
Defined.
