(* ===== verification/NodeRestart.v ===== *)
(** * What a restart forgets (validator/src/main.rs)

    At its shutdown a node saves its accounts, and at its start it restores them.  Its
    height, its blocks, its mempool and the votes it has cast are not saved: the
    machine starts at height 0 again, and the node signs votes there once more. *)
From S2P Require Import Prelude Crypto Block Vote StateMachine Agreement State Mempool.
From S2P Require Import Staking Fees ValidatorSet Genesis Rpc Node NodeSafety NodeFaults NodeAgreement.
Open Scope Z_scope.

(** ** Specification *)

(** Every account is filed under a key of 32 bytes, as the arrays of the code are. *)
Definition keys_fit (db : StateDB) : Prop := map_Forall (λ k _, length k = 32%nat) db.

(** The text that [node_shutdown] writes. *)
Definition saved_text {S : Serde} {HO : HashOrder} (nd : Node) : bytes := save_text (nd_state_db nd).

(** * Lemmas *)

Section Restart.
Context {OC : OverflowChecks} {C : Crypto} {B : Bincode} {HO : HashOrder} {HL : HashOrderLaws HO}.
Context {S : Serde} {SL : SerdeLaws S} {K : Clock}.

Lemma shutdown_writes write nd u : node_shutdown write nd = Ok u → write (saved_text nd) = Ok u.
Proof. unfold node_shutdown, StateDB_save_to_file, saved_text. destruct (write _) as [u'|]; [|done].
  by intros [= ->].
Qed.

Lemma restored_state {HO' : HashOrder} {HL' : HashOrderLaws HO'} g nd :
  keys_fit (nd_state_db nd) →
  initial_state_db (HO := HO') g (Some (Ok (saved_text (HO := HO) nd))) = nd_state_db nd.
Proof. intros Hk. unfold initial_state_db, saved_text. by rewrite load_save. Qed.

(** What is sent stays sent. *)
Lemma node_run_sends env nd es nd' m :
  node_run env nd es = Some nd' → m ∈ nd_sent nd → m ∈ nd_sent nd'.
Proof.
  unfold node_run. revert nd. induction es as [|e es IH]; intros nd; simpl; [by intros [= <-]|].
  intros (nd1 & Hs & Hrest)%bind_Some Hm. apply (IH nd1 Hrest).
  apply node_step_sends in Hs as (ms & -> & _). set_solver.
Qed.
End Restart.

(** * Properties *)

(** C20: a restarted validator votes twice.  A validator is shown a proposal of the first
    round and votes for it; then anything may happen, and it shuts down, and saves its
    state.  The saved file is read without fail, and brings back every account as it
    was; but the node that starts from it is at height 0 with no block, in the state of
    consensus it had at its first start, and votes for another proposal of the same
    round: two verifying votes for one height and round. *)
Theorem restart_signs_twice {OC : OverflowChecks} {C : Crypto} {CL : CryptoLaws C} {B : Bincode}
    {HO HO' : HashOrder} {HL : HashOrderLaws HO} {HL' : HashOrderLaws HO'} {S : Serde} {SL : SerdeLaws S}
    {K K' : Clock} (L : Z) (g : GenesisConfig) (state_file : option (result string bytes))
    (key_file : result string bytes) (sk : bytes) (env : NodeEnv) (nd nd1 : Node) (p1 p2 : Proposal)
    (es : list node_event) (write : bytes → result string unit) :
  100 <= L → genesis_ok g → load_signing_key key_file = Ok sk →
  node_boot (HO := HO) (K := K) g state_file (Some key_file) = Some (Ok (env, nd)) →
  BftStateMachine_is_proposer (nd_bft nd) = Some false →
  proposal_ok p1 None (nd_bft nd) → proposal_ok p2 None (nd_bft nd) → p_block_hash p1 ≠ p_block_hash p2 →
  node_run (HO := HO) (K := K) env nd (NetMessage (ProposeBlock p1 None) :: es) = Some nd1 →
  keys_fit (nd_state_db nd1) → StateDB_wf L (nd_state_db nd1) → node_shutdown (HO := HO) write nd1 = Ok tt →
  ∃ data nd' nd2 v1 v2, write data = Ok tt ∧
    node_boot (HO := HO') (K := K') g (Some (Ok data)) (Some key_file) = Some (Ok (env, nd')) ∧
    nd_state_db nd' = nd_state_db nd1 ∧ nd_bft nd' = nd_bft nd ∧ sm_height (nd_bft nd') = 0 ∧
    rpc_block_store (nd_rpc nd') = [] ∧
    node_run (HO := HO') (K := K') env nd' [NetMessage (ProposeBlock p2 None)] = Some nd2 ∧
    CastVote v1 ∈ nd_sent nd1 ∧ CastVote v2 ∈ nd_sent nd2 ∧
    v_validator v1 = ed_verifying_key sk ∧ v_validator v2 = ed_verifying_key sk ∧
    Vote_verify v1 = true ∧ Vote_verify v2 = true ∧ v_vote_type v1 = v_vote_type v2 ∧
    v_height v1 = v_height v2 ∧ v_round v1 = v_round v2 ∧ v_block_hash v1 ≠ v_block_hash v2.
Proof.
  intros HL1 Hg Hkey Hboot Hturn Hok1 Hok2 Hne Hrun Hfit Hdb Hdown.
  assert (load_validator_key (Some key_file) = Ok (Some sk)) as Hkey' by (simpl; by rewrite Hkey).
  destruct (node_boot_start (HO := HO) (K := K) _ _ _ _ _ Hboot) as (key & nd0 & Hk & Henv & _). rewrite Hkey' in Hk. injection Hk as <-.
  assert (ne_signing_key env = Some sk) as Hsk by (by rewrite Henv).
  destruct (node_boot_not_proposer (HO := HO) (K := K) _ _ _ _ _ Hboot) as [Hpr Hstart]. rewrite Hturn in Hpr.
  destruct (Hstart (eq_sym Hpr)) as (Hb & _ & _).
  assert (initial_state_db (HO := HO') g (Some (Ok (saved_text (HO := HO) nd1))) = nd_state_db nd1) as Hinit
    by (by apply restored_state).
  destruct (node_boot_ok (HO := HO') (K := K') L 1 g (Some (Ok (saved_text (HO := HO) nd1))) (Some key_file) (Some sk))
    as (env' & nd' & Hboot' & _ & _); [done|lia|done|done|rewrite Hinit; by rewrite Z.mul_1_l|].
  destruct (node_boot_start (HO := HO') (K := K') _ _ _ _ _ Hboot') as (key & nd0' & Hk & Henv' & _).
  rewrite Hkey' in Hk. injection Hk as <-. rewrite <-Henv in Henv'. subst env'.
  destruct (node_boot_not_proposer (HO := HO') (K := K') _ _ _ _ _ Hboot') as [_ Hstart'].
  destruct (Hstart' (eq_sym Hpr)) as (Hb' & Hs' & Hd').
  assert (nd_bft nd' = nd_bft nd) as Hsame by (by rewrite Hb, Hb').
  assert (sm_locked_value (nd_bft nd) = None) as Hlock by (by rewrite Hb).
  pose proof (prevote_step (HO := HO) (K := K) env p1 None sk nd Hok1 Hlock Hsk) as H1.
  pose proof (prevote_step (HO := HO') (K := K') env p2 None sk nd') as H2. rewrite Hsame in H2.
  specialize (H2 Hok2 Hlock Hsk). unfold node_run in Hrun. cbn [fold_may_panic] in Hrun. rewrite H1 in Hrun.
  cbn [mbind option_bind] in Hrun.
  exists (saved_text (HO := HO) nd1), nd'. eexists _, _, _.
  split; [by apply (shutdown_writes (HO := HO))|]. split; [exact Hboot'|]. split; [by rewrite Hd'|].
  split; [exact Hsame|]. split; [by rewrite Hb'|]. split; [exact Hs'|].
  split; [unfold node_run; cbn [fold_may_panic]; rewrite H2; reflexivity|].
  split; [eapply (node_run_sends (HO := HO) (K := K)); [exact Hrun|]; cbn; apply elem_of_app; right; by left|].
  split; [cbn; apply elem_of_app; right; by left|].
  unfold Vote_verify. simpl. split_and!; try done; try apply ed_verify_sign. congruence.
Qed.

(** The second of four validators, shown two proposals of the first. *)
Definition restart_proposal (hash : BlockHash) : Proposal := mkProposal 0 0 hash (toy_key (key32 1)) [] None.
Definition restart_facts (x : NodeEnv * Node) :=
  let s := nd_bft x.2 in
  ((sm_height s, sm_round s, sm_step s), BftStateMachine_is_proposer (OC := debug_build) s, sm_validators s).
Lemma restart_proposal_ok hash (s : BftStateMachine) :
  sm_height s = 0 → sm_round s = 0 → sm_step s = StepPropose →
  sm_validators s = (λ i, toy_key (key32 i)) <$> [1; 2; 3; 4] →
  proposal_ok (OC := debug_build) (C := toy_crypto) (B := toy_bincode) (restart_proposal hash) None s.
Proof.
  intros Hh Hr Hs Hv. split_and!; [done|done|done| |done]. exists 0.
  unfold BftStateMachine_proposer_index, total_validators. rewrite Hh, Hr, Hv.
  split; [reflexivity|]. split; [reflexivity|]. vm_compute. reflexivity.
Qed.
Lemma demo_restart_facts env nd :
  demo_node (Some (Ok (key32 2))) [] = Some (env, nd) →
  sm_height (nd_bft nd) = 0 ∧ sm_round (nd_bft nd) = 0 ∧ sm_step (nd_bft nd) = StepPropose ∧
  BftStateMachine_is_proposer (OC := debug_build) (nd_bft nd) = Some false ∧
  sm_validators (nd_bft nd) = (λ i, toy_key (key32 i)) <$> [1; 2; 3; 4].
Proof.
  intros Hboot.
  assert (Some (restart_facts (env, nd)) = Some ((0, 0, StepPropose), Some false,
    (λ i, toy_key (key32 i)) <$> [1; 2; 3; 4])) as Hfacts.
  { change (Some (restart_facts (env, nd))) with (restart_facts <$> Some (env, nd)). rewrite <-Hboot.
    vm_compute. reflexivity. }
  unfold restart_facts in Hfacts. cbn [fst snd] in Hfacts. apply (inj Some) in Hfacts.
  apply pair_eq in Hfacts as [Hfacts Hv]. apply pair_eq in Hfacts as [Hf Hp]. injection Hf as Hh Hr Hs.
  by split_and!.
Qed.
(** The account of the demo genesis, after a proposal. *)
Lemma demo_restart_run :
  (λ '(_, nd), bool_decide (keys_fit (nd_state_db nd) ∧ nd_state_db nd = initial_state_db (S := toy_serde)
     (HO := forward_order) demo_genesis None)) <$>
    demo_node (Some (Ok (key32 2))) [NetMessage (ProposeBlock (restart_proposal (key32 70)) None)] = Some true.
Proof. vm_compute. reflexivity. Qed.

Lemma restart_signs_twice_witness :
  ∃ env nd nd1 data nd' nd2 v1 v2, demo_node (Some (Ok (key32 2))) [] = Some (env, nd) ∧
    node_run (OC := debug_build) (C := toy_crypto) (B := toy_bincode) (HO := forward_order) (S := toy_serde)
      (K := demo_clock) env nd [NetMessage (ProposeBlock (restart_proposal (key32 70)) None)] = Some nd1 ∧
    node_boot (OC := debug_build) (C := toy_crypto) (B := toy_bincode) (HO := backward_order) (S := toy_serde)
      (K := demo_clock) demo_genesis (Some (Ok data)) (Some (Ok (key32 2))) = Some (Ok (env, nd')) ∧
    node_run (OC := debug_build) (C := toy_crypto) (B := toy_bincode) (HO := backward_order) (S := toy_serde)
      (K := demo_clock) env nd' [NetMessage (ProposeBlock (restart_proposal (key32 71)) None)] = Some nd2 ∧
    CastVote v1 ∈ nd_sent nd1 ∧ CastVote v2 ∈ nd_sent nd2 ∧ v_block_hash v1 ≠ v_block_hash v2.
Proof.
  destruct (node_boot_ok (OC := debug_build) (C := toy_crypto) (B := toy_bincode) (HO := forward_order)
    (S := toy_serde) (K := demo_clock) 100 2 demo_genesis None (Some (Ok (key32 2))) (Some (key32 2)))
    as (env & nd & Hboot & Henv & Hnd); [lia|lia|apply demo_genesis_ok|vm_compute; reflexivity|apply demo_initial_db; lia|].
  destruct (node_run_ok (OC := debug_build) (C := toy_crypto) (B := toy_bincode) (HO := forward_order)
    (S := toy_serde) (K := demo_clock) 100 _ ltac:(lia) ltac:(lia) env Henv 1
    [NetMessage (ProposeBlock (restart_proposal (key32 70)) None)] nd Hnd ltac:(lia)) as (nd1 & Hrun & _).
  { by repeat constructor. }
  assert (demo_node (Some (Ok (key32 2))) [] = Some (env, nd)) as Hdemo by (unfold demo_node; rewrite Hboot; reflexivity).
  destruct (demo_restart_facts env nd Hdemo) as (Hh & Hr & Hs & Hp & Hv).
  assert (keys_fit (nd_state_db nd1) ∧ nd_state_db nd1 = initial_state_db (S := toy_serde) (HO := forward_order)
    demo_genesis None) as [Hfit Hdb].
  { pose proof demo_restart_run as H. unfold demo_node in H. rewrite Hboot in H. cbn [mbind option_bind] in H.
    rewrite Hrun in H. apply (inj Some), bool_decide_eq_true in H. exact H. }
  assert (StateDB_wf 100 (nd_state_db nd1)) as Hwf by (rewrite Hdb; exact (demo_initial_db 1 ltac:(lia))).
  pose proof (restart_proposal_ok (key32 70) _ Hh Hr Hs Hv) as Hok1.
  pose proof (restart_proposal_ok (key32 71) _ Hh Hr Hs Hv) as Hok2.
  assert (p_block_hash (restart_proposal (key32 70)) ≠ p_block_hash (restart_proposal (key32 71))) as Hne0
    by (vm_compute; discriminate).
  destruct (restart_signs_twice (OC := debug_build) (C := toy_crypto) (B := toy_bincode) (HO := forward_order)
    (HO' := backward_order) (S := toy_serde) (K := demo_clock) (K' := demo_clock) 100 demo_genesis None (Ok (key32 2))
    (key32 2) env nd nd1 (restart_proposal (key32 70)) (restart_proposal (key32 71)) [] (λ _, Ok tt)
    ltac:(lia) demo_genesis_ok eq_refl Hboot Hp Hok1 Hok2 Hne0 Hrun Hfit Hwf eq_refl)
    as (data & nd' & nd2 & v1 & v2 & _ & Hboot' & _ & _ & _ & _ & Hrun' & H1 & H2 & _ & _ & _ & _ & _ & _ & _ & Hne).
  exists env, nd, nd1, data, nd', nd2, v1, v2.
  exact (conj Hdemo (conj Hrun (conj Hboot' (conj Hrun' (conj H1 (conj H2 Hne)))))).
Defined.
