(* ===== verification/NodeLiveness.v ===== *)
(** * Networks that never commit (validator/src/main.rs)

    A node broadcasts its own votes but never counts them.  As long as the votes that
    arrive come from at most two thirds of the validators, nothing is ever committed;
    in a network of up to three validators the others are never more.  The walk through
    the event loop is shared with Cluster.v: an invariant of the machine that allows no
    commit is one of the node. *)
From S2P Require Import Prelude Crypto Block Vote StateMachine Agreement State Mempool.
From S2P Require Import Staking Fees ValidatorSet Genesis Rpc Node NodeSafety NodeFaults NodeAgreement.
Open Scope Z_scope.

(** ** Specification *)

(** An invariant [Inv] of a node's machine under the events that satisfy [heard]: nothing
    is committed, and what the node sends satisfies [sent_ok]. *)
Section Quiet.
Context {OC : OverflowChecks} {C : Crypto} {B : Bincode} {HO : HashOrder} {S : Serde}.
Context (env : NodeEnv) (Inv : BftStateMachine → Prop) (heard : bft_event → Prop)
  (sent_ok : ConsensusMessage → Prop).

Record quiet_machine : Prop := {
  qm_exec s e s' out : Inv s → heard e → bft_exec s e = Some (s', out) →
    Inv s' ∧ (∀ h x, CommitBlock h x ∉ out) ∧
    ∀ sk v, ne_signing_key env = Some sk → CastVote v ∈ out →
      sent_ok (CastVote (sign_vote (v_vote_type v) (v_height v) (v_round v) (v_block_hash v) sk));
  qm_own s sk h r blk s' out : Inv s → ne_signing_key env = Some sk →
    BftStateMachine_on_proposal (sign_proposal h r (Block_hash blk) sk) (Some blk) s = Some (s', out) → Inv s';
  qm_proposal sk h r blk : ne_signing_key env = Some sk →
    sent_ok (ProposeBlock (sign_proposal h r (Block_hash blk) sk) (Some blk));
  qm_heard e : heard e → stays_at_height e = true;
}.

Definition quiet_event (e : node_event) : Prop :=
  match e with
  | NetMessage (ProposeBlock p b) => heard (EvProposal p b)
  | NetMessage (CastVote v) => heard (match v_vote_type v with Prevote => EvPrevote v | Precommit => EvPrecommit v end)
  | NetMessage (CommitBlock _ _) => False
  | TimeoutFired te => heard (EvTimeout te)
  | _ => True
  end.

(** Nothing has been committed: the accounts and the stored blocks are those given. *)
Record uncommitted (db : StateDB) (blocks : list BlockResponse) (nd : Node) : Prop := {
  uc_machine : Inv (nd_bft nd);
  uc_db : nd_state_db nd = db;
  uc_blocks : rpc_block_store (nd_rpc nd) = blocks;
  uc_sent : Forall sent_ok (nd_sent nd);
}.
End Quiet.

(** What honest peers of a network send: votes of the keys [V], and no bare commits. *)
Definition honest_event (V : gset bytes) (e : node_event) : Prop :=
  match e with
  | NetMessage (CastVote v) => v_validator v ∈ V
  | NetMessage (CommitBlock _ _) => False
  | _ => True
  end.
Definition precommits_of (V : gset bytes) (e : bft_event) : Prop :=
  match e with EvPrecommit v => v_validator v ∈ V | EvAdvanceHeight _ => False | _ => True end.

(** A machine that counts only precommits of the keys [V]. *)
Record counts_only (V : gset bytes) (n : Z) (h : Height) (s : BftStateMachine) : Prop := {
  co_height : sm_height s = h;
  co_total : total_validators s = n;
  co_set_total : vs_total_validators (rs_precommits (sm_round_state s)) = n;
  co_voters : dom (vs_votes (rs_precommits (sm_round_state s))) ⊆ V;
}.

(** * Lemmas *)

Section Walk.
Context {OC : OverflowChecks} {C : Crypto} {B : Bincode} {HO : HashOrder}.
Context {S : Serde} {K : Clock}.
Context (env : NodeEnv) (Inv : BftStateMachine → Prop) (heard : bft_event → Prop)
  (sent_ok : ConsensusMessage → Prop) (quiet : quiet_machine env Inv heard sent_ok).
Abbreviation uncommitted := (uncommitted Inv sent_ok).

Lemma uncommitted_same db blocks nd nd' :
  uncommitted db blocks nd → nd_bft nd' = nd_bft nd → nd_rpc nd' = nd_rpc nd → nd_sent nd' = nd_sent nd →
  uncommitted db blocks nd'.
Proof. unfold nd_state_db. intros [Hm Hd Hb Hs] E1 E2 E3. split; unfold nd_state_db; by rewrite ?E1, ?E2, ?E3. Qed.

(** An answer of the machine is at most a vote, which the node signs. *)
Lemma answer_quiet db blocks e s' out bs nd nd1 :
  uncommitted db blocks nd → heard e → bft_exec (nd_bft nd) e = Some (s', out) →
  node_output env out (set_bft s' nd) = Some (bs, nd1) →
  uncommitted db blocks nd1 ∧ Forall sent_ok bs ∧
  ∀ nd2, fold_may_panic (handle_broadcast env) nd2 bs = Some (broadcast bs nd2).
Proof.
  intros [Hm Hd Hb Hs] He Hx Ho. destruct (qm_exec _ _ _ _ quiet _ _ _ _ Hm He Hx) as (Hs' & Hno & Hvotes).
  destruct (bft_exec_answer _ _ _ _ (qm_heard _ _ _ _ quiet _ He) Hx) as (_ & _ & Hout).
  destruct (node_output_inv _ _ _ _ _ Ho) as (ts & ->). split; [by split|].
  assert (∀ nd2, broadcast [] nd2 = nd2) as Hnil by (intros []; unfold broadcast; simpl; by rewrite app_nil_r).
  unfold node_output, process_bft_output in Ho.
  destruct Hout as [->|[(te & ->)|[(v & -> & _)|(x & ->)]]]; cbn [fold_may_panic process_message] in Ho.
  - injection Ho as <- _. split; [by apply Forall_nil_2|]. intros nd2. by rewrite Hnil.
  - destruct (TimeoutConfig_timeout_for _ _ _); [|done]. injection Ho as <- _.
    split; [by apply Forall_nil_2|]. intros nd2. by rewrite Hnil.
  - destruct (ne_signing_key env) as [sk|] eqn:Hsk; injection Ho as <- _.
    + split; [|done]. apply Forall_cons. split; [|by apply Forall_nil_2]. by apply (Hvotes sk v); [|left].
    + split; [by apply Forall_nil_2|]. intros nd2. by rewrite Hnil.
  - destruct (Hno (sm_height (nd_bft nd)) x). left.
Qed.

Lemma broadcast_uncommitted db blocks bs nd :
  uncommitted db blocks nd → Forall sent_ok bs → uncommitted db blocks (broadcast bs nd).
Proof. intros [Hm Hd Hb Hs] Hbs. split; [done..|]. simpl. by apply Forall_app. Qed.

Lemma propose_uncommitted db blocks cond h' r nd nd' :
  uncommitted db blocks nd → propose_if_proposer env cond h' r nd = Some nd' → uncommitted db blocks nd'.
Proof.
  intros Hnd Hp. pose proof Hp as [->|(sk & Hsk & (block & out & _ & Hon & Heq)%propose_block_inv)]%propose_if_proposer_inv; [done|].
  apply propose_if_proposer_keeps in Hp as (Hr & _ & _). destruct Hnd as [Hm Hd Hb Hs].
  pose proof (qm_own _ _ _ _ quiet _ _ _ _ _ _ _ Hm Hsk Hon) as Hm'.
  unfold nd_state_db in *. split; unfold nd_state_db; [exact Hm'|congruence|congruence|].
  rewrite Heq. simpl. apply Forall_app. split; [exact Hs|]. apply Forall_cons.
  split; [by apply (qm_proposal _ _ _ _ quiet)|by apply Forall_nil_2].
Qed.

Lemma net_message_uncommitted db blocks msg nd nd' :
  uncommitted db blocks nd → quiet_event heard (NetMessage msg) → on_net_message env msg nd = Some nd' →
  uncommitted db blocks nd'.
Proof.
  intros Hnd Hmsg. unfold on_net_message. intros ([nd1 out] & Hon & Hrest)%bind_Some.
  assert (msg = ScheduleTimeout (match msg with ScheduleTimeout te => te | _ => mkTimeoutEvent 0 0 TimeoutPropose end) ∨
    ∃ e s, heard e ∧ nd1 = set_bft s nd ∧ bft_exec (nd_bft nd) e = Some (s, out)) as [Hm|(e & s & He & -> & Hx)].
  { destruct msg as [p blk|v|h' hash|te]; simpl in Hmsg; [| |done|by left]; right.
    - apply bind_Some in Hon as ([s out'] & Hon & [= <- <-]). by exists (EvProposal p blk), s.
    - destruct (v_vote_type v).
      + destruct (BftStateMachine_on_prevote v (nd_bft nd)) as [s out'] eqn:Hv. injection Hon as <- <-.
        exists (EvPrevote v), s. simpl. by rewrite Hv.
      + destruct (BftStateMachine_on_precommit v (nd_bft nd)) as [s out'] eqn:Hv. injection Hon as <- <-.
        exists (EvPrecommit v), s. simpl. by rewrite Hv. }
  - rewrite Hm in Hon. injection Hon as <- <-. simpl in Hrest. injection Hrest as <-.
    by eapply uncommitted_same.
  - apply bind_Some in Hrest as ([bs nd2] & Ho & Hf).
    destruct (answer_quiet db blocks e s out bs nd nd2 Hnd He Hx Ho) as (Hnd2 & Hbs & Hall).
    rewrite Hall in Hf. injection Hf as <-. by apply broadcast_uncommitted.
Qed.

Lemma node_step_uncommitted db blocks e nd nd' :
  uncommitted db blocks nd → quiet_event heard e → node_step env nd e = Some nd' → uncommitted db blocks nd'.
Proof.
  intros Hnd He. destruct e as [msg|te|tx|req|]; simpl.
  - by apply net_message_uncommitted.
  - unfold on_timeout_event. intros ([s out] & Hon & Hrest)%bind_Some.
    apply bind_Some in Hrest as ([bs nd1] & Ho & Hrest). apply bind_Some in Hrest as (nd2 & Hp & Hf).
    destruct (answer_quiet db blocks (EvTimeout te) s out bs nd nd1 Hnd He Hon Ho) as (Hnd1 & Hbs & Hall).
    rewrite Hall in Hf. injection Hf as <-. apply broadcast_uncommitted; [|done].
    by eapply propose_uncommitted.
  - unfold on_net_transaction. intros ([p r] & _ & [= <-])%bind_Some. by destruct Hnd.
  - unfold on_rpc_submit. intros ([rpc r] & Hr & [= <-])%bind_Some.
    apply submit_keeps_ledger in Hr as [E1 E2].
    destruct Hnd as [Hm Hd Hb Hs]. unfold nd_state_db in *. split; unfold nd_state_db; simpl; [exact Hm|congruence|congruence|exact Hs].
  - unfold on_gossip_ready. repeat case_match; intros; simplify_eq; try done. by destruct Hnd.
Qed.

Lemma node_run_uncommitted db blocks es nd nd' :
  uncommitted db blocks nd → Forall (quiet_event heard) es → node_run env nd es = Some nd' →
  uncommitted db blocks nd'.
Proof.
  unfold node_run. intros Hnd Hes. revert nd Hnd. induction Hes as [|e es He Hes IH]; intros nd Hnd; simpl.
  { by intros [= <-]. }
  intros (nd1 & Hstep & Hrest)%bind_Some. eapply IH; [|exact Hrest]. by eapply node_step_uncommitted.
Qed.

(** A node that has just started has committed nothing. *)
Lemma node_boot_uncommitted (g : GenesisConfig) (state_file validator_key : option (result string bytes)) (nd : Node) :
  node_boot g state_file validator_key = Some (Ok (env, nd)) →
  Inv (BftStateMachine_start_round 0 (node_machine g env)).1 →
  uncommitted (initial_state_db g state_file) [] nd.
Proof.
  intros Hboot Hinv. destruct (node_boot_start _ _ _ _ _ Hboot) as (key & nd0 & _ & _ & Hb & Hr & Hd & [Hs _] & _ & _ & Hstart).
  unfold node_start in Hstart. rewrite Hb in Hstart.
  destruct (BftStateMachine_start_round 0 _) as [s out] eqn:E. cbn [fst] in Hinv. injection E as <- <-.
  apply bind_Some in Hstart as ([bs nd1] & Ho & Hrest). apply node_output_timeout in Ho as (-> & ts & ->).
  apply bind_Some in Hrest as (nd2 & Hp & [= <-]). apply broadcast_uncommitted; [|by apply Forall_nil_2].
  eapply propose_uncommitted; [|exact Hp].
  split; [exact Hinv|done|done|]. simpl. rewrite Hs. by apply Forall_nil_2.
Qed.
End Walk.

Section FewVoters.
Context {OC : OverflowChecks} {C : Crypto} {B : Bincode} {HO : HashOrder} {HL : HashOrderLaws HO} {S : Serde}.
Context (env : NodeEnv) (V : gset bytes) (n : Z) (few : 3 * Z.of_nat (size V) <= 2 * n).

Lemma counts_only_no_quorum h s :
  counts_only V n h s → VoteSet_quorum_block (rs_precommits (sm_round_state s)) = None.
Proof using few HL.
  intros [_ _ Ht Hv]. destruct (VoteSet_quorum_block _) as [hash|] eqn:Hq; [exfalso|done].
  apply quorum_block_Some, has_quorum_for_iff in Hq. rewrite Ht in Hq.
  pose proof (voters_for_subset (rs_precommits (sm_round_state s)) hash) as Hsub.
  assert (size (voters_for (rs_precommits (sm_round_state s)) hash) <= size V)%nat by (apply subseteq_size; set_solver).
  lia.
Qed.

Lemma add_vote_dom v vs :
  vs_total_validators (VoteSet_add_vote v vs).1 = vs_total_validators vs ∧
  dom (vs_votes (VoteSet_add_vote v vs).1) ⊆ {[v_validator v]} ∪ dom (vs_votes vs).
Proof.
  unfold VoteSet_add_vote. repeat case_match; simpl; (split; [done|]); set_solver.
Qed.

Lemma start_round_counts_only h r s :
  sm_height s = h → total_validators s = n → counts_only V n h (BftStateMachine_start_round r s).1.
Proof. intros Hh Hn. split; [done|done|done|]. simpl. rewrite dom_empty_L. set_solver. Qed.

(** A handler fed with such votes keeps counting only them, and asks for no commit. *)
Lemma bft_exec_counts_only h s e s' out :
  counts_only V n h s → precommits_of V e → bft_exec s e = Some (s', out) →
  counts_only V n h s' ∧ ∀ h' hash, CommitBlock h' hash ∉ out.
Proof using few HL.
  intros Hs He Hx. pose proof Hs as [Hh Hn Ht Hv]. destruct e as [p blk|v|v|te|]; [..|done]; simpl in Hx.
  - apply on_proposal_inv in Hx as [[-> ->]|(_ & -> & ->)]; [split; [done|set_solver]|].
    split; [by destruct blk|set_solver].
  - injection Hx as Hx. revert Hx. unfold BftStateMachine_on_prevote.
    repeat case_match; intros; simplify_eq; (split; [by split|set_solver]).
  - injection Hx as Hx. revert Hx. unfold BftStateMachine_on_precommit.
    destruct (_ || _); [intros; simplify_eq; split; [done|set_solver]|].
    destruct (negb _); [intros; simplify_eq; split; [done|set_solver]|].
    destruct (add_vote_dom v (rs_precommits (sm_round_state s))) as [Ht' Hd].
    assert (counts_only V n h (set_precommits (VoteSet_add_vote v (rs_precommits (sm_round_state s))).1 s)) as Hs1.
    { simpl in He. split; [done|done|simpl; congruence|simpl; set_solver]. }
    rewrite (counts_only_no_quorum _ _ Hs1).
    destruct (_ && _); intros; simplify_eq; (split; [done|set_solver]).
  - revert Hx. unfold BftStateMachine_on_timeout. destruct (_ || _); [intros; simplify_eq; split; [done|set_solver]|].
    destruct (te_step te); (destruct (bool_decide _); [|intros; simplify_eq; split; [done|set_solver]]).
    + intros; simplify_eq. split; [by split|set_solver].
    + intros (first & _ & ?)%bind_Some. simplify_eq. split; [by split|set_solver].
    + intros (nr & _ & Hst)%bind_Some. pose proof (start_round_counts_only h nr s Hh Hn) as Hc.
      unfold BftStateMachine_start_round in *. simplify_eq. split; [exact Hc|set_solver].
Qed.

Lemma counts_only_quiet h : quiet_machine env (counts_only V n h) (precommits_of V) (λ _, True).
Proof using few HL.
  split; [|intros s sk h' r blk s' out Hs _ Hp|done|by intros []].
  - intros s e s' out Hs He Hx. destruct (bft_exec_counts_only h s e s' out Hs He Hx). done.
  - by destruct (bft_exec_counts_only h s (EvProposal (sign_proposal h' r (Block_hash blk) sk) (Some blk)) s' out Hs I Hp).
Qed.

Lemma honest_event_quiet e : honest_event V e → quiet_event (precommits_of V) e.
Proof. destruct e as [[]| | | |]; simpl; try done. by destruct (v_vote_type vote). Qed.
End FewVoters.

Lemma bft_validators_nodup {C : Crypto} g : genesis_wf g → NoDup (bft_validators g).
Proof. intros Hg. apply NoDup_filter, Hg. Qed.

(** * Properties *)

(** Networks of up to three validators never commit.  A validator never feeds its
    own votes to its machine, so that the votes of all the others are needed, and in
    a set of one, two or three they are no quorum: whatever proposals, votes,
    timeouts and transactions arrive, as long as no peer sends a bare commit, the node
    stays at height 0 with the accounts it started with. *)
Theorem small_networks_never_commit {OC : OverflowChecks} {C : Crypto} {B : Bincode} {HO : HashOrder}
    {HL : HashOrderLaws HO} {S : Serde} {K : Clock} (g : GenesisConfig)
    (state_file : option (result string bytes)) (key_file : result string bytes) (sk : bytes)
    (env : NodeEnv) (nd nd' : Node) (es : list node_event) :
  genesis_wf g → load_signing_key key_file = Ok sk → ed_verifying_key sk ∈ bft_validators g →
  (length (bft_validators g) <= 3)%nat →
  node_boot g state_file (Some key_file) = Some (Ok (env, nd)) →
  Forall (honest_event (list_to_set (bft_validators g) ∖ {[ed_verifying_key sk]})) es →
  node_run env nd es = Some nd' →
  sm_height (nd_bft nd') = 0 ∧ rpc_block_store (nd_rpc nd') = [] ∧
  nd_state_db nd' = initial_state_db g state_file.
Proof.
  intros Hg Hk Hin Hlen Hboot Hes Hrun. set (V := list_to_set (bft_validators g) ∖ {[ed_verifying_key sk]}) in *.
  assert (3 * Z.of_nat (size V) <= 2 * Z.of_nat (length (bft_validators g))) as Hfew.
  { unfold V. rewrite size_difference by set_solver. rewrite size_singleton, size_list_to_set; [unfold ValidatorId in *; lia|].
    by apply bft_validators_nodup. }
  set (n := Z.of_nat (length (bft_validators g))) in *. pose proof (counts_only_quiet env V n Hfew 0) as Hq.
  assert (uncommitted (counts_only V n 0) (λ _, True) (initial_state_db g state_file) [] nd) as H0.
  { by eapply (node_boot_uncommitted env _ _ _ Hq); [exact Hboot|]; apply start_round_counts_only. }
  assert (Forall (quiet_event (precommits_of V)) es) as Hes'.
  { eapply Forall_impl; [exact Hes|]. apply honest_event_quiet. }
  destruct (node_run_uncommitted env _ _ _ Hq _ _ es nd nd' H0 Hes' Hrun) as [Hm Hd Hb _].
  split_and!; [apply Hm|done|done].
Qed.

(** Three validators, of which two vote for a block in both phases. *)
Definition demo_small_genesis : GenesisConfig :=
  mkGenesisConfig "small" 0 (ChainParams_with_id "small")
    ((λ i, mkGenesisValidator (toy_key (key32 i)) 2000000 500) <$> [1; 2; 3]) [] zero32.
Definition demo_small_votes : list node_event :=
  (λ v, NetMessage (CastVote v)) <$>
    [Vote_new (C := toy_crypto) Prevote 0 0 (Some (key32 70)) (key32 2);
     Vote_new (C := toy_crypto) Prevote 0 0 (Some (key32 70)) (key32 3);
     Vote_new (C := toy_crypto) Precommit 0 0 (Some (key32 70)) (key32 2);
     Vote_new (C := toy_crypto) Precommit 0 0 (Some (key32 70)) (key32 3)].
Lemma demo_small_genesis_ok : genesis_ok (C := toy_crypto) demo_small_genesis.
Proof.
  split.
  - split; try (vm_compute; discriminate); try (vm_compute; reflexivity).
    + apply (bool_decide_unpack _). vm_compute. exact I.
    + repeat constructor; vm_compute; discriminate.
  - unfold ratios_fit. repeat constructor; simpl; lia.
  - vm_compute. split; [discriminate|reflexivity].
  - repeat constructor; vm_compute; discriminate || reflexivity.
  - vm_compute. reflexivity.
  - vm_compute. discriminate.
Qed.
Lemma small_networks_never_commit_witness :
  ∃ env nd nd', node_boot (OC := debug_build) (C := toy_crypto) (B := toy_bincode) (HO := forward_order)
      (S := toy_serde) (K := demo_clock) demo_small_genesis None (Some (Ok (key32 1))) = Some (Ok (env, nd)) ∧
    node_run (OC := debug_build) (C := toy_crypto) (B := toy_bincode) (HO := forward_order)
      (S := toy_serde) (K := demo_clock) env nd demo_small_votes = Some nd' ∧
    rpc_block_store (nd_rpc nd') = [].
Proof.
  destruct (node_boot_ok (OC := debug_build) (C := toy_crypto) (B := toy_bincode) (HO := forward_order)
    (S := toy_serde) (K := demo_clock) 100 4 demo_small_genesis None (Some (Ok (key32 1))) (Some (key32 1)))
    as (env & nd & Hboot & Henv & Hnd); [lia|lia|apply demo_small_genesis_ok|vm_compute; reflexivity| |].
  { split; [apply map_Forall_empty|vm_compute; reflexivity]. }
  destruct (node_run_ok (OC := debug_build) (C := toy_crypto) (B := toy_bincode) (HO := forward_order)
    (S := toy_serde) (K := demo_clock) 100 _ ltac:(lia) ltac:(lia) env Henv 0 demo_small_votes nd Hnd ltac:(done))
    as (nd' & Hrun & _); [repeat constructor|].
  exists env, nd, nd'. split; [exact Hboot|]. split; [exact Hrun|].
  refine (proj1 (proj2 (small_networks_never_commit (OC := debug_build) (C := toy_crypto) (B := toy_bincode)
    (HO := forward_order) (S := toy_serde) (K := demo_clock) demo_small_genesis None (Ok (key32 1)) (key32 1)
    env nd nd' demo_small_votes (go_wf _ demo_small_genesis_ok) _ _ _ Hboot _ Hrun))).
  - vm_compute. reflexivity.
  - apply (bool_decide_unpack _). vm_compute. exact I.
  - vm_compute. repeat constructor.
  - repeat constructor; simpl; apply (bool_decide_unpack _); vm_compute; exact I.
Defined.
