(* ===== verification/Cluster.v ===== *)
(** * A network of validator processes (validator/src/main.rs, consensus/net)

    Processes that all run the node's event loop, booted from one genesis in any builds,
    with any clocks, files and hash seeds, and the messages they have broadcast.  A step
    delivers a broadcast message to another process - in any order, late, repeatedly or
    never, but, as gossipsub does, not back to its sender - or gives a process a timeout,
    a transaction or a request; an adversary may deliver more.  The processes agree on
    the blocks they store; and up to six of them never store any. *)
From S2P Require Import Prelude Crypto Block Vote StateMachine Agreement State Mempool.
From S2P Require Import Staking Fees ValidatorSet Genesis Rpc Node NodeSafety NodeFaults NodeAgreement NodeLiveness.
Open Scope Z_scope.

(** ** Processes and their network *)

(** A process: its build, hash seed and clock, and the state of its node. *)
Record process := mkProcess {
  ps_checks : OverflowChecks;
  ps_order : HashOrder;
  ps_clock : Clock;
  ps_env : NodeEnv;
  ps_node : Node;
}.
Definition set_node (nd : Node) (p : process) : process :=
  mkProcess (ps_checks p) (ps_order p) (ps_clock p) (ps_env p) nd.

Section Cluster.
Context {C : Crypto} {B : Bincode} {S : Serde}.

Definition process_step (p : process) (e : node_event) : may_panic process :=
  nd ← node_step (OC := ps_checks p) (HO := ps_order p) (K := ps_clock p) (ps_env p) (ps_node p) e;
  Some (set_node nd p).

(** The process has just been started. *)
Definition launched (g : GenesisConfig) (p : process) : Prop :=
  HashOrderLaws (ps_order p) ∧
  ∃ state_file key_file, node_boot (OC := ps_checks p) (HO := ps_order p) (K := ps_clock p) g state_file key_file =
    Some (Ok (ps_env p, ps_node p)).

(** What does not come from the consensus topic. *)
Definition local_event (e : node_event) : Prop := match e with NetMessage _ => False | _ => True end.

Section Steps.
Context (adversary : list process → ConsensusMessage → Prop).

Inductive cluster_step (cl : list process) : list process → Prop :=
| DeliveryStep src dst p q q' msg :
    cl !! src = Some p → cl !! dst = Some q → src ≠ dst → msg ∈ nd_sent (ps_node p) →
    process_step q (NetMessage msg) = Some q' → cluster_step cl (<[dst := q']> cl)
| LocalStep dst q q' e :
    cl !! dst = Some q → local_event e → process_step q e = Some q' → cluster_step cl (<[dst := q']> cl)
| AdversaryStep dst q q' msg :
    cl !! dst = Some q → adversary cl msg → process_step q (NetMessage msg) = Some q' →
    cluster_step cl (<[dst := q']> cl).
End Steps.

(** Steps without an adversary, for execution: the [k]-th message that [src] has sent
    goes to [dst]. *)
Inductive cluster_event :=
| Deliver (src k dst : nat)
| Local (dst : nat) (e : node_event).
Definition cluster_exec (cl : list process) (e : cluster_event) : option (list process) :=
  match e with
  | Deliver src k dst =>
    if (src =? dst)%nat then None
    else
      p ← cl !! src; msg ← nd_sent (ps_node p) !! k; q ← cl !! dst;
      q' ← process_step q (NetMessage msg); Some (<[dst := q']> cl)
  | Local dst e =>
    match e with
    | NetMessage _ => None
    | _ => q ← cl !! dst; q' ← process_step q e; Some (<[dst := q']> cl)
    end
  end.
Fixpoint cluster_run (cl : list process) (es : list cluster_event) : option (list process) :=
  match es with
  | [] => Some cl
  | e :: es => cl' ← cluster_exec cl e; cluster_run cl' es
  end.
End Cluster.

(** ** Specification *)

(** The key a process signs with. *)
Definition process_key {C : Crypto} (p : process) : option ValidatorId :=
  ed_verifying_key <$> ne_signing_key (ps_env p).
(** Every process has its own key. *)
Definition distinct_keys {C : Crypto} (cl : list process) : Prop :=
  ∀ i j p q k, cl !! i = Some p → cl !! j = Some q → process_key p = Some k → process_key q = Some k → i = j.
(** Whoever signs is a validator of the genesis. *)
Definition known_keys {C : Crypto} (g : GenesisConfig) (cl : list process) : Prop :=
  ∀ p k, p ∈ cl → process_key p = Some k → k ∈ bft_validators g.

(** A vote has been sent: by a faulty key, or by a process. *)
Definition cluster_sent {C : Crypto} (F : gset bytes) (cl : list process) (h : Height) (t : VoteType) (r : Round)
    (x : BlockHash) (k : ValidatorId) : Prop :=
  k ∈ F ∨ ∃ p, p ∈ cl ∧ process_key p = Some k ∧ ∃ v, CastVote v ∈ nd_sent (ps_node p) ∧ vote_is t h r x v.
(** What an adversary with the keys [F] may deliver: votes it has signed or seen, or that
    do not verify; any proposal that names no round, or an earlier one with a quorum of
    prevotes; and no bare commit. *)
Definition byzantine {C : Crypto} (g : GenesisConfig) (F : gset bytes) (cl : list process)
    (msg : ConsensusMessage) : Prop :=
  match msg with
  | CastVote v => Vote_verify v = true → ∀ x, v_block_hash v = Some x →
      cluster_sent F cl (v_height v) (v_vote_type v) (v_round v) x (v_validator v)
  | ProposeBlock p _ => ∀ vr, p_valid_round p = Some vr → vr < p_round p ∧
      quorum_voted (list_to_set (bft_validators g)) (cluster_sent F cl (p_height p)) Prevote vr (p_block_hash p)
  | CommitBlock _ _ => False
  | ScheduleTimeout _ => True
  end.

Section Silence.
Context {C : Crypto} (vals : list ValidatorId) (me : option ValidatorId).

(** Whose turn it is to propose at height 0. *)
Definition turn (r : Round) : nat := Z.to_nat (r mod Z.of_nat (length vals)).

(** A proposer never prevotes for its block; and only a proposer hears a quorum of
    prevotes, if there are more than three validators. *)
Definition vote_honest (v : Vote) : Prop :=
  v_validator v ∈ vals ∧
  ∀ x, v_block_hash v = Some x →
    match v_vote_type v with
    | Prevote => vals !! turn (v_round v) ≠ Some (v_validator v)
    | Precommit => vals !! turn (v_round v) = Some (v_validator v) ∧ (3 < length vals)%nat
    end.
Definition heard_honest (e : bft_event) : Prop :=
  match e with
  | EvProposal p _ => Some (p_proposer p) ≠ me
  | EvPrevote v | EvPrecommit v => Some (v_validator v) ≠ me ∧ vote_honest v
  | EvTimeout _ => True
  | EvAdvanceHeight _ => False
  end.
Definition message_honest (m : ConsensusMessage) : Prop :=
  match m with
  | ProposeBlock p _ => Some (p_proposer p) = me
  | CastVote v => Some (v_validator v) = me ∧ vote_honest v
  | _ => False
  end.

(** A vote set of the others' honest votes of a round. *)
Record votes_of_others (t : VoteType) (r : Round) (vs : VoteSet) : Prop := {
  vo_total : vs_total_validators vs = Z.of_nat (length vals);
  vo_votes : map_Forall (λ k v, v_validator v = k ∧ Some k ≠ me ∧ vote_honest v ∧ v_round v = r ∧ v_vote_type v = t)
    (vs_votes vs);
}.
Record hears_others (s : BftStateMachine) : Prop := {
  ho_height : sm_height s = 0;
  ho_validators : sm_validators s = vals;
  ho_round : 0 <= sm_round s < U32;
  ho_prevotes : votes_of_others Prevote (sm_round s) (rs_prevotes (sm_round_state s));
  ho_precommits : votes_of_others Precommit (sm_round s) (rs_precommits (sm_round_state s));
}.
End Silence.

(** * Lemmas *)

Lemma disjoint_size (l : list bytes) (X D : gset bytes) :
  X ⊆ list_to_set l → D ⊆ list_to_set l → X ## D → (size X + size D <= length l)%nat.
Proof.
  intros HX HD Hdis. rewrite <-size_union by done.
  assert (size (list_to_set l : gset bytes) <= length l)%nat.
  { clear. induction l as [|x l IH]; [done|]. simpl. rewrite size_union_alt, size_singleton.
    pose proof (subseteq_size (list_to_set l ∖ {[x]} : gset bytes) (list_to_set l) ltac:(set_solver)). lia. }
  pose proof (subseteq_size (X ∪ D) (list_to_set l) ltac:(set_solver)). lia.
Qed.

Section Machine.
Context {OC : OverflowChecks} {C : Crypto} {B : Bincode} {HO : HashOrder} {HL : HashOrderLaws HO} {S : Serde}.
Context (vals : list ValidatorId) (env : NodeEnv).
Abbreviation me := (ed_verifying_key <$> ne_signing_key env).

Lemma turn_lookup r : vals ≠ [] → ∃ a, vals !! turn vals r = Some a.
Proof.
  intros Hne. apply lookup_lt_is_Some_2. unfold turn.
  assert (0 < Z.of_nat (length vals)) as Hn by (destruct vals; [done|simpl; lia]).
  pose proof (Z.mod_pos_bound r _ Hn). lia.
Qed.

Lemma proposer_index_turn s i :
  hears_others vals me s → vals ≠ [] → BftStateMachine_proposer_index s (sm_height s) (sm_round s) = Some i →
  Z.to_nat i = turn vals (sm_round s).
Proof.
  intros [Hh Hv Hr _ _] Hne. unfold BftStateMachine_proposer_index, total_validators. rewrite Hv, Hh.
  assert (0 < Z.of_nat (length vals)) as Hn by (destruct vals; [done|simpl; lia]).
  rewrite (proj2 (Z.eqb_neq _ _)) by lia. rewrite u64_add_ok by zlia. cbn [mbind option_bind].
  unfold rem_or_panic. rewrite (proj2 (Z.eqb_neq _ _)) by lia. by intros [= <-].
Qed.

Lemma add_vote_others t r v vs :
  votes_of_others vals me t r vs → Some (v_validator v) ≠ me → vote_honest vals v → v_round v = r → v_vote_type v = t →
  votes_of_others vals me t r (VoteSet_add_vote v vs).1.
Proof.
  intros [Ht Hv] Hme Hh Hr Hty. unfold VoteSet_add_vote. repeat case_match; try by split.
  split; [done|]. by apply map_Forall_insert_2.
Qed.
Lemma new_votes_others t h r : votes_of_others vals me t r (VoteSet_new t h r (Z.of_nat (length vals))).
Proof. split; [done|]. apply map_Forall_empty. Qed.

(** The voters of a quorum, one by one. *)
Lemma quorum_voters t r vs x :
  votes_of_others vals me t r vs → VoteSet_quorum_block vs = Some x →
  2 * Z.of_nat (length vals) < 3 * Z.of_nat (size (voters_for vs x)) ∧
  ∀ k, k ∈ voters_for vs x → Some k ≠ me ∧ k ∈ vals ∧
    match t with
    | Prevote => vals !! turn vals r ≠ Some k
    | Precommit => vals !! turn vals r = Some k ∧ (3 < length vals)%nat
    end.
Proof.
  intros [Ht Hv] Hq%quorum_block_Some%has_quorum_for_iff. rewrite Ht in Hq. split; [lia|].
  intros k Hk. unfold voters_for in Hk. apply elem_of_dom in Hk as [v Hk].
  apply map_lookup_filter_Some in Hk as [Hk Hx]. apply Hv in Hk as (<- & Hme & [Hin Hh] & <- & <-).
  split; [done|]. split; [done|]. exact (Hh x Hx).
Qed.

Lemma no_precommit_quorum s :
  hears_others vals me s → VoteSet_quorum_block (rs_precommits (sm_round_state s)) = None.
Proof.
  intros Hs. destruct (VoteSet_quorum_block _) as [x|] eqn:Hq; [exfalso|done].
  destruct (quorum_voters _ _ _ _ (ho_precommits _ _ _ Hs) Hq) as [Hsize Hvoters].
  set (V := voters_for _ x) in *. destruct (decide (V = ∅)) as [->|(k & Hk)%set_choose_L]; [rewrite size_empty in Hsize; lia|].
  destruct (Hvoters k Hk) as (_ & _ & Ha & Hn).
  assert (size V <= 1)%nat; [|lia]. rewrite <-(size_singleton (C := gset bytes) k). apply subseteq_size.
  intros k' Hk'. destruct (Hvoters k' Hk') as (_ & _ & Ha' & _). apply elem_of_singleton. congruence.
Qed.

Lemma start_round_others r s :
  sm_height s = 0 → sm_validators s = vals → 0 <= r < U32 → hears_others vals me (BftStateMachine_start_round r s).1.
Proof.
  intros Hh Hv Hr. split; [done|done|done|..]; simpl; unfold total_validators; simpl; rewrite Hv; apply new_votes_others.
Qed.

Context (small : (length vals <= 6)%nat) (member : ∀ sk, ne_signing_key env = Some sk → ed_verifying_key sk ∈ vals).

(** A validator that hears a quorum of prevotes is the proposer, one of four at least. *)
Lemma prevote_quorum s x sk :
  hears_others vals me s → ne_signing_key env = Some sk →
  VoteSet_quorum_block (rs_prevotes (sm_round_state s)) = Some x →
  vals !! turn vals (sm_round s) = Some (ed_verifying_key sk) ∧ (3 < length vals)%nat.
Proof.
  intros Hs Hsk Hq. destruct (quorum_voters _ _ _ _ (ho_prevotes _ _ _ Hs) Hq) as [Hsize Hvoters].
  pose proof (member sk Hsk) as Hin. rewrite Hsk in Hvoters. cbn [fmap option_fmap option_map] in Hvoters.
  destruct (turn_lookup (sm_round s)) as [a Ha]; [by intros Hv; rewrite Hv in Hin; apply elem_of_nil in Hin|].
  assert (a ∈ vals) as Hain by (by eapply list_elem_of_lookup_2).
  set (V := voters_for _ x) in *. set (b := ed_verifying_key sk) in *. set (D := {[a]} ∪ {[b]} : gset bytes).
  assert (size V + size D <= length vals)%nat as Hle.
  { apply disjoint_size; [|unfold D; set_solver|].
    - intros k Hk. apply elem_of_list_to_set. by apply Hvoters.
    - intros k Hk%Hvoters [Hx%elem_of_singleton|Hx%elem_of_singleton]%elem_of_union; subst k;
        [by apply Hk|by destruct Hk]. }
  assert (1 <= size D)%nat as H1.
  { rewrite <-(size_singleton (C := gset bytes) a). apply subseteq_size. unfold D. set_solver. }
  destruct (decide (a = b)) as [->|Hne]; [split; [exact Ha|lia]|exfalso].
  assert (size D = 2%nat) as H2; [|lia]. unfold D. by rewrite size_union, !size_singleton by set_solver.
Qed.

Abbreviation signed_ok out := (∀ sk v, ne_signing_key env = Some sk → CastVote v ∈ out →
  message_honest vals me (CastVote (sign_vote (v_vote_type v) (v_height v) (v_round v) (v_block_hash v) sk))).

Lemma nothing_signed : signed_ok [].
Proof. intros sk v _ []%elem_of_nil. Qed.
Lemma timeout_signed te : signed_ok [ScheduleTimeout te].
Proof. by intros sk v _ [?|[]%elem_of_nil]%elem_of_cons. Qed.
Lemma one_signed v :
  (∀ sk x, ne_signing_key env = Some sk → v_block_hash v = Some x →
    match v_vote_type v with
    | Prevote => vals !! turn vals (v_round v) ≠ Some (ed_verifying_key sk)
    | Precommit => vals !! turn vals (v_round v) = Some (ed_verifying_key sk) ∧ (3 < length vals)%nat
    end) → signed_ok [CastVote v].
Proof.
  intros Hv sk w Hsk [[= ->]|[]%elem_of_nil]%elem_of_cons. simpl. rewrite Hsk. split; [done|].
  split; [by apply member|]. intros x Hx. by apply (Hv sk x).
Qed.

Lemma on_proposal_others p blk s s' out :
  hears_others vals me s → BftStateMachine_on_proposal p blk s = Some (s', out) →
  hears_others vals me s' ∧ (∀ h x, CommitBlock h x ∉ out) ∧ (Some (p_proposer p) ≠ me → signed_ok out).
Proof.
  intros Hs [[-> ->]|(Hok & -> & ->)]%on_proposal_inv; [split; [done|split; [set_solver|intros _; apply nothing_signed]]|].
  split; [destruct Hs; by destruct blk|]. split; [set_solver|]. intros Hme. apply one_signed.
  intros sk x Hsk _ Heq. destruct Hok as (_ & _ & _ & (i & Hi & _ & Hp) & _).
  rewrite (ho_validators _ _ _ Hs) in Hp. rewrite (proposer_index_turn s i Hs) in Hp; [|by intros Hv; rewrite Hv in Hp|done].
  apply Hme. rewrite Hsk. exact (eq_trans (eq_sym Hp) Heq).
Qed.
(** The machine stays as it is, up to fields that are not restricted, and says nothing. *)
Ltac unchanged := intros [= <- <-]; split; [done|split; [set_solver|apply nothing_signed]].

Lemma exec_others s e s' out :
  hears_others vals me s → heard_honest vals me e → bft_exec s e = Some (s', out) →
  hears_others vals me s' ∧ (∀ h x, CommitBlock h x ∉ out) ∧ signed_ok out.
Proof.
  intros Hs He Hx. pose proof Hs as [Hh Hv Hr Hpre Hcom]. destruct e as [p blk|v|v|te|]; [..|done]; simpl in Hx.
  - destruct (on_proposal_others _ _ _ _ _ Hs Hx) as (H1 & H2 & H3). auto.
  - destruct He as [Hme Hho]. injection Hx as Hx. revert Hx. unfold BftStateMachine_on_prevote.
    destruct (_ || _) eqn:E1; [unchanged|]. bool_to_Z.
    destruct (negb _) eqn:E2; [unchanged|].
    apply negb_false_iff, bool_decide_eq_true in E2. cbv zeta.
    set (s1 := set_prevotes (VoteSet_add_vote v (rs_prevotes (sm_round_state s))).1 s).
    assert (hears_others vals me s1) as Hs1.
    { split; [done|done|done|by apply add_vote_others|done]. }
    destruct (sm_step s1); try unchanged.
    + destruct (VoteSet_quorum_block _) as [x|] eqn:Hq.
      * intros [= <- <-]. split; [by destruct Hs1|]. split; [set_solver|]. apply one_signed.
        intros sk y Hsk _. exact (prevote_quorum s1 x sk Hs1 Hsk Hq).
      * destruct (VoteSet_has_quorum_for_nil _); [|destruct (VoteSet_has_two_thirds_any _)];
          intros [= <- <-]; (split; [by destruct Hs1|split; [set_solver|]]);
          [by apply one_signed|apply timeout_signed|apply nothing_signed].
    + destruct (VoteSet_quorum_block _); intros [= <- <-];
        (split; [by destruct Hs1|split; [set_solver|apply nothing_signed]]).
  - destruct He as [Hme Hho]. injection Hx as Hx. revert Hx. unfold BftStateMachine_on_precommit.
    destruct (_ || _) eqn:E1; [unchanged|]. bool_to_Z.
    destruct (negb _) eqn:E2; [unchanged|].
    apply negb_false_iff, bool_decide_eq_true in E2. cbv zeta.
    set (s1 := set_precommits (VoteSet_add_vote v (rs_precommits (sm_round_state s))).1 s).
    assert (hears_others vals me s1) as Hs1.
    { split; [done|done|done|done|by apply add_vote_others]. }
    rewrite (no_precommit_quorum s1 Hs1).
    destruct (_ && _); intros [= <- <-]; (split; [done|split; [set_solver|]]);
      [apply timeout_signed|apply nothing_signed].
  - revert Hx. unfold BftStateMachine_on_timeout.
    destruct (_ || _); [unchanged|].
    destruct (te_step te);
      (destruct (bool_decide _); [|intros [= <- <-]; split; [done|split; [set_solver|apply nothing_signed]]]).
    + intros [= <- <-]. split; [by destruct Hs|split; [set_solver|apply timeout_signed]].
    + intros (first & _ & [= <- <-])%bind_Some. split; [by destruct Hs|split; [set_solver|by apply one_signed]].
    + intros (nr & Hnr & Hst)%bind_Some. apply arith_u_range in Hnr; [|lia].
      pose proof (start_round_others nr s Hh Hv Hnr) as Hc. unfold BftStateMachine_start_round in *.
      injection Hst as <- <-. split; [exact Hc|split; [set_solver|apply timeout_signed]].
Qed.

Lemma others_quiet : quiet_machine env (hears_others vals me) (heard_honest vals me) (message_honest vals me).
Proof.
  split.
  - intros. by eapply exec_others.
  - intros s sk h r blk s' out Hs _ Hp. by destruct (on_proposal_others _ _ _ _ _ Hs Hp).
  - intros sk h r blk Hsk. simpl. by rewrite Hsk.
  - by intros [].
Qed.
End Machine.

Section Network.
Context {C : Crypto} {B : Bincode} {S : Serde}.
Implicit Types (p q : process) (cl : list process).

Lemma process_step_inv p e p' :
  process_step p e = Some p' →
  ∃ nd, node_step (OC := ps_checks p) (HO := ps_order p) (K := ps_clock p) (ps_env p) (ps_node p) e = Some nd ∧
    p' = set_node nd p.
Proof. unfold process_step. intros (nd & Hs & [= <-])%bind_Some. by exists nd. Qed.

(** What a step of the network is: one process takes an event. *)
Lemma cluster_step_inv adv cl cl' :
  cluster_step adv cl cl' →
  ∃ dst q e nd, cl !! dst = Some q ∧ cl' = <[dst := set_node nd q]> cl ∧
    node_step (OC := ps_checks q) (HO := ps_order q) (K := ps_clock q) (ps_env q) (ps_node q) e = Some nd ∧
    ((∃ src p msg, e = NetMessage msg ∧ cl !! src = Some p ∧ src ≠ dst ∧ msg ∈ nd_sent (ps_node p)) ∨
     local_event e ∨ ∃ msg, e = NetMessage msg ∧ adv cl msg).
Proof.
  intros [src dst p q q' msg Hp Hq Hne Hin Hs|dst q q' e Hq He Hs|dst q q' msg Hq Ha Hs];
    apply process_step_inv in Hs as (nd & Hs & ->); eexists dst, q, _, nd; (split; [done|]; split; [done|]; split; [exact Hs|]).
  - left. by exists src, p, msg.
  - by right; left.
  - right; right. by exists msg.
Qed.

(** The executable steps are steps. *)
Lemma cluster_exec_sound adv cl e cl' : cluster_exec cl e = Some cl' → cluster_step adv cl cl'.
Proof.
  destruct e as [src k dst|dst e]; simpl.
  - destruct (src =? dst)%nat eqn:Hne; [done|]. apply Nat.eqb_neq in Hne.
    intros (p & Hp & (msg & Hm & (q & Hq & (q' & Hs & [= <-])%bind_Some)%bind_Some)%bind_Some)%bind_Some.
    eapply DeliveryStep; [exact Hp|exact Hq|done| |exact Hs]. by eapply list_elem_of_lookup_2.
  - intros H. assert (local_event e ∧ (q ← cl !! dst; q' ← process_step q e; Some (<[dst := q']> cl)) = Some cl')
      as [He (q & Hq & (q' & Hs & [= <-])%bind_Some)%bind_Some] by (by destruct e).
    by eapply LocalStep.
Qed.
Lemma cluster_run_sound adv cl es cl' :
  cluster_run cl es = Some cl' → nsteps (cluster_step adv) (length es) cl cl'.
Proof.
  revert cl. induction es as [|e es IH]; intros cl; simpl; [intros [= <-]; constructor|].
  intros (cl1 & He & Hrest)%bind_Some. econstructor; [by eapply cluster_exec_sound|by apply IH].
Qed.

(** ** Silence *)

(** What remains of a process that was launched as [p0] in a network of a few. *)
Definition process_quiet (g : GenesisConfig) (p0 p : process) : Prop :=
  p = set_node (ps_node p) p0 ∧
  uncommitted (hears_others (bft_validators g) (process_key p)) (message_honest (bft_validators g) (process_key p))
    (nd_state_db (ps_node p0)) [] (ps_node p).

Section Few.
Context (g : GenesisConfig) (small : (length (bft_validators g) <= 6)%nat).

Lemma process_key_member cl p sk :
  known_keys g cl → p ∈ cl → ne_signing_key (ps_env p) = Some sk → ed_verifying_key sk ∈ bft_validators g.
Proof. intros Hk Hin Hsk. apply (Hk p); [done|]. unfold process_key. by rewrite Hsk. Qed.

Lemma launched_quiet cl p : known_keys g cl → p ∈ cl → launched g p → process_quiet g p p.
Proof.
  intros Hkeys Hin [HL (sf & kf & Hboot)]. split; [by destruct p|].
  pose proof (others_quiet (OC := ps_checks p) (HO := ps_order p) (bft_validators g) (ps_env p) small
    (λ sk, process_key_member cl p sk Hkeys Hin)) as Hq.
  pose proof (node_boot_uncommitted (OC := ps_checks p) (HO := ps_order p) (K := ps_clock p) _ _ _ _ Hq _ _ _ _ Hboot) as Hu.
  destruct Hu as [Hm Hd Hb Hs]; [by apply start_round_others|]. by split.
Qed.

Lemma quiet_step cl p0 p e nd :
  known_keys g cl → p0 ∈ cl → launched g p0 → process_quiet g p0 p →
  quiet_event (heard_honest (bft_validators g) (process_key p)) e →
  node_step (OC := ps_checks p) (HO := ps_order p) (K := ps_clock p) (ps_env p) (ps_node p) e = Some nd →
  process_quiet g p0 (set_node nd p).
Proof.
  intros Hkeys Hin [HL _] [Hp Hu] He Hs. split; [by rewrite Hp|].
  assert (ps_env p = ps_env p0 ∧ ps_order p = ps_order p0) as [Henv Hord] by (by rewrite Hp).
  assert (HashOrderLaws (ps_order p)) as HL' by (by rewrite Hord).
  assert (∀ sk, ne_signing_key (ps_env p) = Some sk → ed_verifying_key sk ∈ bft_validators g) as Hmem.
  { intros sk Hsk. apply (process_key_member cl p0); [done|done|by rewrite <-Henv]. }
  exact (node_step_uncommitted (OC := ps_checks p) (HO := ps_order p) (K := ps_clock p) _ _ _ _
    (others_quiet (OC := ps_checks p) (HO := ps_order p) (bft_validators g) (ps_env p) small Hmem) _ _ _ _ _ Hu He Hs).
Qed.

(** A message of another process is one of honest others. *)
Lemma delivery_quiet cl0 cl src dst p q msg :
  distinct_keys cl0 → Forall2 (process_quiet g) cl0 cl → cl !! src = Some p → cl !! dst = Some q → src ≠ dst →
  msg ∈ nd_sent (ps_node p) → quiet_event (heard_honest (bft_validators g) (process_key q)) (NetMessage msg).
Proof.
  intros Hdis Hall Hp Hq Hne Hin.
  destruct (Forall2_lookup_r _ _ _ _ _ Hall Hp) as (p0 & Hp0 & [Ep [_ _ _ Hs]]).
  destruct (Forall2_lookup_r _ _ _ _ _ Hall Hq) as (q0 & Hq0 & [Eq _]).
  assert (∀ k, Some k = process_key p → Some k ≠ process_key q) as Hk.
  { intros k H1 H2. apply Hne. apply (Hdis src dst p0 q0 k); [done|done|rewrite H1, Ep|rewrite H2, Eq]; done. }
  rewrite Forall_forall in Hs. specialize (Hs msg Hin). destruct msg as [pr b|v|h x|te]; simpl in *; [by apply Hk| |done|done].
  destruct Hs as [Hv Hh]. destruct (v_vote_type v); (split; [by apply Hk|done]).
Qed.

Lemma cluster_quiet cl0 cl :
  Forall (launched g) cl0 → distinct_keys cl0 → known_keys g cl0 →
  rtc (cluster_step (λ _ _, False)) cl0 cl → Forall2 (process_quiet g) cl0 cl.
Proof using small.
  intros Hlaunched Hdis Hkeys. rewrite Forall_forall in Hlaunched. revert cl. apply rtc_ind_r.
  - apply Forall_Forall2_diag, Forall_forall. intros p Hp. by eapply launched_quiet; [done|done|apply Hlaunched].
  - intros cl cl' _ Hstep Hall.
    apply cluster_step_inv in Hstep as (dst & q & e & nd & Hq & -> & Hs & Hwhy).
    destruct (Forall2_lookup_r _ _ _ _ _ Hall Hq) as (q0 & Hq0 & Hquiet).
    assert (quiet_event (heard_honest (bft_validators g) (process_key q)) e) as He.
    { destruct Hwhy as [(src & p & msg & -> & Hp & Hne & Hin)|[He|(? & _ & [])]].
      - by eapply delivery_quiet.
      - by destruct e. }
    rewrite <-(list_insert_id cl0 dst q0 Hq0). apply Forall2_insert; [done|].
    eapply quiet_step; [done|by eapply list_elem_of_lookup_2|apply Hlaunched; by eapply list_elem_of_lookup_2|done..].
Qed.
End Few.

(** ** Agreement *)

Section Runs.
Context (g : GenesisConfig) (F : gset bytes).

(** The run of a process that was launched as [p0]: at most [n] events, all of whose
    messages an adversary with the keys [F] could deliver. *)
Definition process_ran (n : nat) (cl : list process) (p0 p : process) : Prop :=
  p = set_node (ps_node p) p0 ∧
  ∃ es, node_run (OC := ps_checks p0) (HO := ps_order p0) (K := ps_clock p0) (ps_env p0) (ps_node p0) es =
      Some (ps_node p) ∧
    (length es <= n)%nat ∧ ∀ msg, NetMessage msg ∈ es → byzantine g F cl msg.

Lemma quorum_voted_mono V (voted voted' : VoteType → Round → BlockHash → ValidatorId → Prop) t r x :
  (∀ k, voted t r x k → voted' t r x k) → quorum_voted V voted t r x → quorum_voted V voted' t r x.
Proof. intros Hv (voters & Hq & Hall). exists voters. auto. Qed.

Lemma byzantine_grows cl dst q nd msg :
  cl !! dst = Some q → (∀ m, m ∈ nd_sent (ps_node q) → m ∈ nd_sent nd) →
  byzantine g F cl msg → byzantine g F (<[dst := set_node nd q]> cl) msg.
Proof.
  intros Hq Hgrow.
  assert (∀ h t r x k, cluster_sent F cl h t r x k → cluster_sent F (<[dst := set_node nd q]> cl) h t r x k) as Hmono.
  { intros h t r x k [?|(p & (i & Hp)%list_elem_of_lookup_1 & Hk & v & Hv & His)]; [by left|right].
    destruct (decide (i = dst)) as [->|Hne].
    - rewrite Hq in Hp. injection Hp as <-. exists (set_node nd q). split; [|split; [exact Hk|exists v; auto]].
      eapply list_elem_of_lookup_2, list_lookup_insert_eq. by eapply lookup_lt_Some.
    - exists p. split; [|split; [done|by exists v]]. apply (list_elem_of_lookup_2 _ i).
      by rewrite list_lookup_insert_ne. }
  destruct msg as [p b|v|h x|te]; simpl; [|by eauto|done|done].
  intros Hp vr Hvr. destruct (Hp vr Hvr) as [Hlt Hq']. split; [done|]. eapply quorum_voted_mono; [|exact Hq']. auto.
Qed.

(** What a process has sent, an adversary may repeat. *)
Lemma own_message_byzantine cl p msg :
  p ∈ cl → Forall (own_message (ps_env p)) (nd_sent (ps_node p)) → msg ∈ nd_sent (ps_node p) → byzantine g F cl msg.
Proof.
  intros Hp Hown Hin. rewrite Forall_forall in Hown. specialize (Hown msg Hin).
  destruct msg as [pr b|v|h x|te]; simpl in *; [by rewrite Hown| |done|done].
  intros _ x Hx. right. destruct Hown as (sk & Hsk & Hk). exists p. split; [done|]. split.
  - unfold process_key. by rewrite Hsk, Hk.
  - exists v. by split_and!.
Qed.

Lemma process_ran_more n cl cl' p0 p :
  process_ran n cl p0 p → (∀ msg, byzantine g F cl msg → byzantine g F cl' msg) →
  process_ran (Datatypes.S n) cl' p0 p.
Proof. intros (Hp & es & Hrun & Hlen & Hmsg) Hg. split; [done|]. exists es. split; [done|]. split; [lia|auto]. Qed.

Lemma process_ran_own n cl p0 p :
  launched g p0 → process_ran n cl p0 p → Forall (own_message (ps_env p)) (nd_sent (ps_node p)).
Proof.
  intros (_ & sf & kf & Hboot) (Hp & es & Hrun & _ & _). rewrite Hp. cbn [ps_env set_node].
  exact (node_sent_own (OC := ps_checks p0) (HO := ps_order p0) (K := ps_clock p0) _ _ _ _ _ _ _ Hboot Hrun).
Qed.

(** The event of a step is one an adversary could cause. *)
Lemma step_byzantine n cl0 cl dst e :
  Forall (launched g) cl0 → Forall2 (process_ran n cl) cl0 cl →
  ((∃ src p msg, e = NetMessage msg ∧ cl !! src = Some p ∧ src ≠ dst ∧ msg ∈ nd_sent (ps_node p)) ∨
   local_event e ∨ ∃ msg, e = NetMessage msg ∧ byzantine g F cl msg) →
  ∀ msg, e = NetMessage msg → byzantine g F cl msg.
Proof.
  intros Hlaunched IH Hwhy msg ->. destruct Hwhy as [(src & p & msg' & [= <-] & Hp & _ & Hin)|[[]|(msg' & [= <-] & Hb)]]; [|done].
  destruct (Forall2_lookup_r _ _ _ _ _ IH Hp) as (p0 & Hp0 & Hran).
  apply (own_message_byzantine cl p msg); [by eapply list_elem_of_lookup_2| |done].
  eapply process_ran_own; [|exact Hran]. rewrite Forall_forall in Hlaunched.
  apply Hlaunched. by eapply list_elem_of_lookup_2.
Qed.

Lemma process_ran_step n cl cl' p0 p e nd :
  process_ran n cl p0 p →
  node_step (OC := ps_checks p) (HO := ps_order p) (K := ps_clock p) (ps_env p) (ps_node p) e = Some nd →
  (∀ msg, byzantine g F cl msg → byzantine g F cl' msg) → (∀ msg, e = NetMessage msg → byzantine g F cl msg) →
  process_ran (Datatypes.S n) cl' p0 (set_node nd p).
Proof.
  intros (Hp & es & Hrun & Hlen & Hmsg) Hs Hg He. split; [by rewrite Hp|]. exists (es ++ [e]).
  split; [|split; [rewrite length_app; simpl; lia|]].
  - cbn [ps_node set_node]. eapply node_run_snoc; [exact Hrun|]. rewrite Hp in Hs. exact Hs.
  - intros msg [Hin|[Hin|[]%elem_of_nil]%elem_of_cons]%elem_of_app; auto.
Qed.

Lemma cluster_ran n cl0 cl :
  Forall (launched g) cl0 → nsteps (cluster_step (byzantine g F)) n cl0 cl →
  Forall2 (process_ran n cl) cl0 cl.
Proof.
  intros Hlaunched. revert cl. induction n as [|n IH]; intros cl.
  { intros Hn. inversion Hn; subst. apply Forall_Forall2_diag, Forall_forall. intros p Hp.
    split; [by destruct p|]. exists []. split; [done|]. split; [done|]. by intros msg ?%elem_of_nil. }
  intros (cl1 & Hsteps & Hstep)%nsteps_inv_r. specialize (IH cl1 Hsteps).
  apply cluster_step_inv in Hstep as (dst & q & e & nd & Hq & -> & Hs & Hwhy).
  destruct (Forall2_lookup_r _ _ _ _ _ IH Hq) as (q0 & Hq0 & Hran).
  assert (∀ msg, byzantine g F cl1 msg → byzantine g F (<[dst := set_node nd q]> cl1) msg) as Hbyz.
  { intros msg. apply byzantine_grows; [done|]. apply node_step_sends in Hs as (ms & -> & _). set_solver. }
  rewrite <-(list_insert_id cl0 dst q0 Hq0). apply Forall2_insert.
  - eapply Forall2_impl; [exact IH|]. intros p0 p Hp. by eapply process_ran_more.
  - eapply process_ran_step; [exact Hran|exact Hs|exact Hbyz|]. by eapply step_byzantine.
Qed.

(** The run of a process is a program of NodeAgreement.v. *)
Definition program_for (cl : list process) (p : process) (pr : program) : Prop :=
  honest_program g pr ∧ Some (pr_validator pr) = process_key p ∧ pr_end pr = ps_node p ∧
  ∀ msg, NetMessage msg ∈ pr_events pr → byzantine g F cl msg.

Lemma process_program n cl0 cl p0 p :
  launched g p0 → process_ran n cl p0 p → (∃ k, process_key p = Some k ∧ k ∈ bft_validators g) →
  4 * Z.of_nat n + 1 < U32 → ∃ pr, program_for cl p pr.
Proof.
  intros (HL & sf & kf & Hboot) (Hp & es & Hrun & Hlen & Hmsg) (k & Hk & Hin) Hn.
  unfold process_key in Hk. destruct (ne_signing_key (ps_env p)) as [sk|] eqn:Hsk; [|done]. injection Hk as <-.
  exists (mkProgram (ps_checks p0) (ps_order p0) (ps_clock p0) sf kf sk (ps_env p0) (ps_node p0) es (ps_node p)).
  assert (ps_env p = ps_env p0) as Henv by (by rewrite Hp).
  split; [|split; [|split; [done|exact Hmsg]]].
  - unfold honest_program. cbn [pr_checks pr_order pr_clock pr_state_file pr_key_file pr_key pr_env pr_start pr_events pr_end].
    split; [exact HL|]. split; [by rewrite <-Henv|]. split; [exact Hin|]. split; [lia|].
    split; [|split; [exact Hboot|exact Hrun]]. intros h x Hc. exact (Hmsg _ Hc).
  - unfold process_key. rewrite Hsk. done.
Qed.

Lemma cluster_programs n cl0 cl :
  Forall (launched g) cl0 → (∀ p, p ∈ cl0 → ∃ k, process_key p = Some k ∧ k ∈ bft_validators g) →
  nsteps (cluster_step (byzantine g F)) n cl0 cl → 4 * Z.of_nat n + 1 < U32 →
  ∃ prs, Forall2 (program_for cl) cl prs.
Proof.
  intros Hlaunched Hkeys Hsteps Hn. pose proof (cluster_ran n cl0 cl Hlaunched Hsteps) as Hran.
  apply Forall_exists_Forall2_l, Forall_forall. intros p (i & Hp)%list_elem_of_lookup_1.
  destruct (Forall2_lookup_r _ _ _ _ _ Hran Hp) as (p0 & Hp0 & Hr). rewrite Forall_forall in Hlaunched.
  apply list_elem_of_lookup_2 in Hp0. eapply (process_program n cl0); [by apply Hlaunched|exact Hr| |done].
  destruct Hr as [-> _]. exact (Hkeys p0 Hp0).
Qed.

Section Programs.
Context (cl : list process) (prs : list program) (Hall : Forall2 (program_for cl) cl prs).

Lemma program_of pr : pr ∈ prs → ∃ p, p ∈ cl ∧ program_for cl p pr.
Proof using Hall.
  intros (i & Hpr)%list_elem_of_lookup_1. destruct (Forall2_lookup_r _ _ _ _ _ Hall Hpr) as (p & Hp & Hfor).
  exists p. split; [by eapply list_elem_of_lookup_2|done].
Qed.
Lemma of_program p : p ∈ cl → ∃ pr, pr ∈ prs ∧ program_for cl p pr.
Proof using Hall.
  intros (i & Hp)%list_elem_of_lookup_1. destruct (Forall2_lookup_l _ _ _ _ _ Hall Hp) as (pr & Hpr & Hfor).
  exists pr. split; [by eapply list_elem_of_lookup_2|done].
Qed.

Lemma cluster_sent_sent h t r x k : cluster_sent F cl h t r x k → sent prs F h t r x k.
Proof using Hall.
  intros [?|(p & Hp & Hk & v & Hv & His)]; [by left|right].
  destruct (of_program p Hp) as (pr & Hpr & _ & Hval & Hend & _). exists pr. split; [done|].
  split; [congruence|]. exists v. by rewrite Hend.
Qed.

Lemma cluster_unforged : votes_unforged prs F.
Proof using Hall.
  intros pr v h t r x Hpr Hin Hver (<- & <- & <- & Hx). destruct (program_of pr Hpr) as (p & _ & _ & _ & _ & Hmsg).
  apply cluster_sent_sent. by apply (Hmsg _ Hin).
Qed.

Lemma cluster_rounds : proposals_true_rounds g prs F.
Proof using Hall.
  intros pr q b vr Hpr Hin Hvr. destruct (program_of pr Hpr) as (p & _ & _ & _ & _ & Hmsg).
  destruct (Hmsg _ Hin vr Hvr) as [Hlt Hq]. split; [done|].
  eapply quorum_voted_mono; [|exact Hq]. intros k. apply cluster_sent_sent.
Qed.

Lemma distinct_keys_ran n cl0 cl1 :
  Forall2 (process_ran n cl1) cl0 cl1 → distinct_keys cl0 → distinct_keys cl1.
Proof.
  intros Hran Hdis i j p q k Hi Hj Hp Hq.
  destruct (Forall2_lookup_r _ _ _ _ _ Hran Hi) as (p0 & Hp0 & Ep & _).
  destruct (Forall2_lookup_r _ _ _ _ _ Hran Hj) as (q0 & Hq0 & Eq & _).
  rewrite Ep in Hp. rewrite Eq in Hq. by apply (Hdis i j p0 q0 k).
Qed.

Lemma program_keys : distinct_keys cl → NoDup (pr_validator <$> prs).
Proof using Hall.
  intros Hdis. apply NoDup_alt. intros i j k Hi Hj.
  apply list_lookup_fmap_Some in Hi as (pi & -> & Hi). apply list_lookup_fmap_Some in Hj as (pj & Heq & Hj).
  destruct (Forall2_lookup_r _ _ _ _ _ Hall Hi) as (p & Hp & _ & Hk & _).
  destruct (Forall2_lookup_r _ _ _ _ _ Hall Hj) as (q & Hq & _ & Hk' & _).
  apply (Hdis i j p q (pr_validator pi)); congruence.
Qed.
End Programs.
End Runs.
End Network.

(** ** Concrete networks *)

Section Demos.
#[local] Existing Instances debug_build toy_crypto toy_bincode forward_order toy_serde demo_clock.

Definition boot_process (g : GenesisConfig) (k : Z) : option process :=
  started ← node_boot g None (Some (Ok (key32 k)));
  match started with
  | Ok (env, nd) => Some (mkProcess debug_build forward_order demo_clock env nd)
  | Err _ => None
  end.
Definition demo_cluster (g : GenesisConfig) (ks : list Z) (es : list cluster_event) :
    option (list process * list process) :=
  cl0 ← mapM (boot_process g) ks; cl ← cluster_run cl0 es; Some (cl0, cl).
(** The keys of the processes, and the heights of the blocks they store. *)
Definition demo_summary (x : list process * list process) : list (option ValidatorId) * list (list Height) :=
  (process_key <$> x.1, (λ p, br_height <$> rpc_block_store (nd_rpc (ps_node p))) <$> x.2).

Lemma boot_process_launched g k p : boot_process g k = Some p → launched g p.
Proof.
  unfold boot_process. intros ([[env nd]|e] & Hboot & H)%bind_Some; [|done]. injection H as <-.
  split; [apply forward_order_laws|]. eexists _, _. exact Hboot.
Qed.

Lemma demo_cluster_ok g ks es blocks :
  demo_summary <$> demo_cluster g ks es = Some ((λ k, Some (toy_key (key32 k))) <$> ks, blocks) →
  NoDup ((λ k, toy_key (key32 k)) <$> ks) → Forall (λ k, toy_key (key32 k) ∈ bft_validators g) ks →
  ∃ cl0 cl, Forall (launched g) cl0 ∧ distinct_keys cl0 ∧
    (∀ p, p ∈ cl0 → ∃ k, process_key p = Some k ∧ k ∈ bft_validators g) ∧
    (∀ adv, nsteps (cluster_step adv) (length es) cl0 cl) ∧
    (λ p, br_height <$> rpc_block_store (nd_rpc (ps_node p))) <$> cl = blocks.
Proof.
  intros ([cl0 cl] & (cl0' & Hboot & (cl' & Hrun & [= <- <-])%bind_Some)%bind_Some & Hsum)%fmap_Some Hdis Hmem.
  unfold demo_summary in Hsum. cbn [fst snd] in Hsum. apply pair_eq in Hsum as [Hkeys Hblocks].
  exists cl0', cl'. split; [|split; [|split; [|split; [|done]]]].
  - apply mapM_Some in Hboot. eapply Forall2_Forall_r; [exact Hboot|]. apply Forall_forall.
    intros k _ p. apply boot_process_launched.
  - intros i j p q k Hi Hj Hp Hq.
    assert (∀ i p, cl0' !! i = Some p → process_key p = Some k → ((λ k, toy_key (key32 k)) <$> ks) !! i = Some k) as Hl.
    { intros i' p' Hi' Hp'. apply (f_equal (.!! i')) in Hkeys. rewrite !list_lookup_fmap, Hi' in Hkeys. simpl in Hkeys.
      rewrite list_lookup_fmap. destruct (ks !! i'); simpl in *; congruence. }
    eapply NoDup_lookup; [exact Hdis|by eapply Hl|by eapply Hl].
  - intros p (i & Hi)%list_elem_of_lookup_1. apply (f_equal (.!! i)) in Hkeys.
    rewrite !list_lookup_fmap, Hi in Hkeys. simpl in Hkeys. destruct (ks !! i) as [k|] eqn:Hk; [|done].
    injection Hkeys as Hkey. exists (toy_key (key32 k)). split; [done|]. rewrite Forall_forall in Hmem.
    apply Hmem. by eapply list_elem_of_lookup_2.
  - intros adv. by apply cluster_run_sound.
Qed.

Lemma one_block (cl : list process) (blocks : list (list Height)) (i : nat) (h : Height) :
  (λ p, br_height <$> rpc_block_store (nd_rpc (ps_node p))) <$> cl = blocks → blocks !! i = Some [h] →
  ∃ p b, cl !! i = Some p ∧ rpc_block_store (nd_rpc (ps_node p)) = [b] ∧ br_height b = h.
Proof.
  intros <- (p & Hb & Hp)%list_lookup_fmap_Some. exists p.
  destruct (rpc_block_store (nd_rpc (ps_node p))) as [|b [|b' l]] eqn:E; simplify_eq/=. by exists b.
Qed.

(** Seven validators: all but the proposer prevote for its block, hear five prevotes each
    and precommit; the second and the third hear the precommits of five others. *)
Definition seven_genesis : GenesisConfig :=
  mkGenesisConfig "seven" 0 (ChainParams_with_id "seven")
    ((λ i, mkGenesisValidator (toy_key (key32 i)) 2000000 500) <$> [1; 2; 3; 4; 5; 6; 7]) [] zero32.
Definition deliver_votes (k : nat) (from to : list nat) : list cluster_event :=
  concat ((λ j, (λ i, Deliver i k j) <$> filter (λ i, i ≠ j) from) <$> to).
Definition seven_schedule : list cluster_event :=
  ((λ j, Deliver 0 0 j) <$> [1; 2; 3; 4; 5; 6]%nat) ++
  deliver_votes 0 [1; 2; 3; 4; 5; 6]%nat [1; 2; 3; 4; 5; 6]%nat ++ deliver_votes 1 [1; 2; 3; 4; 5; 6]%nat [1; 2]%nat.
Example seven_commit :
  demo_summary <$> demo_cluster seven_genesis [1; 2; 3; 4; 5; 6; 7] seven_schedule =
  Some ((λ k, Some (toy_key (key32 k))) <$> [1; 2; 3; 4; 5; 6; 7], [[]; [0]; [0]; []; []; []; []]).
Proof. vm_compute. reflexivity. Qed.

(** Four validators: the others prevote, so that the proposer precommits; they cannot. *)
Definition four_schedule : list cluster_event :=
  ((λ j, Deliver 0 0 j) <$> [1; 2; 3]%nat) ++ deliver_votes 0 [1; 2; 3]%nat [0; 1; 2; 3]%nat ++
  ((λ j, Deliver 0 1 j) <$> [1; 2; 3]%nat).
Example four_do_not_commit :
  demo_summary <$> demo_cluster demo_genesis [1; 2; 3; 4] four_schedule =
  Some ((λ k, Some (toy_key (key32 k))) <$> [1; 2; 3; 4], [[]; []; []; []]).
Proof. vm_compute. reflexivity. Qed.
End Demos.

(** * Properties *)

(** C15: a network of up to six validators that all run this code never commits.  The
    proposer does not prevote for its block, and no validator counts its own vote, so
    that a validator who is not the proposer hears two votes less than there are
    validators - no quorum among six - and at most the proposer precommits.  Whatever is
    delivered in whatever order, and whatever timeouts, transactions and requests come:
    every process stays at height 0, with no block and the accounts it started with. *)
Theorem small_clusters_never_commit {C : Crypto} {B : Bincode} {S : Serde} (g : GenesisConfig)
    (cl0 cl : list process) :
  (length (bft_validators g) <= 6)%nat → Forall (launched g) cl0 → distinct_keys cl0 → known_keys g cl0 →
  rtc (cluster_step (λ _ _, False)) cl0 cl →
  Forall2 (λ p0 p, sm_height (nd_bft (ps_node p)) = 0 ∧ rpc_block_store (nd_rpc (ps_node p)) = [] ∧
    nd_state_db (ps_node p) = nd_state_db (ps_node p0)) cl0 cl.
Proof.
  intros Hsmall Hl Hd Hk Hrun. eapply Forall2_impl; [by apply (cluster_quiet g Hsmall cl0 cl)|].
  intros p0 p [_ [[Hh _ _ _ _] Hdb Hb _]]. done.
Qed.

Lemma small_clusters_never_commit_witness :
  ∃ cl0 cl, length cl0 = 4%nat ∧
    rtc (cluster_step (C := toy_crypto) (B := toy_bincode) (S := toy_serde) (λ _ _, False)) cl0 cl ∧
    Forall (λ p, rpc_block_store (nd_rpc (ps_node p)) = []) cl.
Proof.
  destruct (demo_cluster_ok demo_genesis [1; 2; 3; 4] four_schedule _ four_do_not_commit)
    as (cl0 & cl & Hl & Hd & Hk & Hsteps & Hb).
  { apply (bool_decide_unpack _). vm_compute. exact I. }
  { repeat constructor; apply (bool_decide_unpack _); vm_compute; exact I. }
  assert (rtc (cluster_step (C := toy_crypto) (B := toy_bincode) (S := toy_serde) (λ _ _, False)) cl0 cl) as Hrun.
  { eapply rtc_nsteps_2. exact (Hsteps _). }
  assert (known_keys (C := toy_crypto) demo_genesis cl0) as Hknown.
  { intros p k Hp Hkey. destruct (Hk p Hp) as (k' & Hk' & Hin). congruence. }
  assert ((length (bft_validators (C := toy_crypto) demo_genesis) <= 6)%nat) as Hsmall.
  { vm_compute. repeat constructor. }
  pose proof (small_clusters_never_commit (C := toy_crypto) (B := toy_bincode) (S := toy_serde) demo_genesis cl0 cl
    Hsmall Hl Hd Hknown Hrun) as Hall.
  exists cl0, cl. split; [|split; [exact Hrun|]].
  - rewrite (Forall2_length _ _ _ Hall). apply (f_equal length) in Hb. rewrite length_fmap in Hb. exact Hb.
  - eapply Forall2_Forall_r; [exact Hall|]. apply Forall_forall. intros p0 _ p (_ & H & _). exact H.
Defined.

(** C2: a network of validators agrees on the hashes of its chain.  The processes, each with
    a validator key of its own, may be of any builds, with any clocks, files and hash
    seeds, and take fewer than 2^30 steps; the network may reorder, repeat and lose what
    they broadcast.  An adversary holds a set [F] of keys, of validators or of outsiders -
    whose votes the code counts as well - such that the size of [F] and once more its
    outsiders are at most a third of the validators.  It may deliver any vote that does
    not verify, is nil, is of a key of [F] or has been sent, any proposal but one that
    lies about a quorum of an earlier round, and no bare commit.  Then any two blocks that
    two processes have stored at one height have the same hash (which binds the header; the
    bodies are not bound by it, see [block_body_unbound]). *)
Theorem clusters_agree {C : Crypto} {B : Bincode} {S : Serde} (g : GenesisConfig) (F : gset bytes)
    (n : nat) (cl0 cl : list process) :
  NoDup (bft_validators g) → Forall (launched g) cl0 → distinct_keys cl0 →
  (∀ p, p ∈ cl0 → ∃ k, process_key p = Some k ∧ k ∈ bft_validators g) →
  few_faults (list_to_set (bft_validators g)) F →
  nsteps (cluster_step (byzantine g F)) n cl0 cl → 4 * Z.of_nat n + 1 < U32 →
  ∀ p q b1 b2, p ∈ cl → q ∈ cl → b1 ∈ rpc_block_store (nd_rpc (ps_node p)) →
    b2 ∈ rpc_block_store (nd_rpc (ps_node q)) → br_height b1 = br_height b2 → br_block_hash b1 = br_block_hash b2.
Proof.
  intros Hvals Hl Hd Hk Hfew Hsteps Hn p q b1 b2 Hp Hq Hb1 Hb2.
  destruct (cluster_programs g F n cl0 cl Hl Hk Hsteps Hn) as (prs & Hall).
  destruct (of_program _ _ _ _ Hall p Hp) as (pr1 & Hpr1 & _ & _ & He1 & _).
  destruct (of_program _ _ _ _ Hall q Hq) as (pr2 & Hpr2 & _ & _ & He2 & _).
  apply (programs_agree g prs F) with pr1 pr2; try done.
  - eapply program_keys; [exact Hall|]. eapply distinct_keys_ran; [by eapply cluster_ran|done].
  - apply Forall_forall. intros pr Hpr. by destruct (program_of _ _ _ _ Hall pr Hpr) as (? & _ & ? & _).
  - by eapply cluster_unforged.
  - by eapply cluster_rounds.
  - unfold pr_blocks. by rewrite He1.
  - unfold pr_blocks. by rewrite He2.
Qed.

Lemma clusters_agree_witness :
  ∃ cl0 cl p q b1 b2, nsteps (cluster_step (C := toy_crypto) (B := toy_bincode) (S := toy_serde)
      (byzantine (C := toy_crypto) seven_genesis ∅)) (length seven_schedule) cl0 cl ∧
    cl !! 1%nat = Some p ∧ cl !! 2%nat = Some q ∧ rpc_block_store (nd_rpc (ps_node p)) = [b1] ∧
    rpc_block_store (nd_rpc (ps_node q)) = [b2] ∧ br_block_hash b1 = br_block_hash b2.
Proof.
  destruct (demo_cluster_ok seven_genesis [1; 2; 3; 4; 5; 6; 7] seven_schedule _ seven_commit)
    as (cl0 & cl & Hl & Hd & Hk & Hsteps & Hb).
  { apply (bool_decide_unpack _). vm_compute. exact I. }
  { repeat constructor; apply (bool_decide_unpack _); vm_compute; exact I. }
  destruct (one_block cl _ 1 0 Hb eq_refl) as (p & b1 & Hp & Hb1 & Hh1).
  destruct (one_block cl _ 2 0 Hb eq_refl) as (q & b2 & Hq & Hb2 & Hh2).
  exists cl0, cl, p, q, b1, b2. split; [exact (Hsteps _)|]. split; [exact Hp|]. split; [exact Hq|].
  split; [exact Hb1|]. split; [exact Hb2|].
  refine (clusters_agree (C := toy_crypto) (B := toy_bincode) (S := toy_serde) seven_genesis ∅
    (length seven_schedule) cl0 cl _ Hl Hd Hk _ (Hsteps _) _ p q b1 b2 _ _ _ _ (eq_trans Hh1 (eq_sym Hh2))).
  - apply (bool_decide_unpack _). vm_compute. exact I.
  - vm_compute. discriminate.
  - vm_compute. reflexivity.
  - exact (list_elem_of_lookup_2 _ _ _ Hp).
  - exact (list_elem_of_lookup_2 _ _ _ Hq).
  - rewrite Hb1. left.
  - rewrite Hb2. left.
Defined.
