(* ===== verification/Cli.v ===== *)
(** * The command line tool (cli/src/main.rs)

    The commands that prepare a chain: generating a key, writing a genesis file, adding a
    validator to one; and the name of a staking tier.  The file system is a parameter.
    Parsing the arguments, and what is printed besides a result, are left out; an [Err]
    is an exit with its message. *)
From S2P Require Import Prelude Crypto Block State Staking Genesis Node NodeSafety.
Open Scope Z_scope.

(** What the commands use of [std::fs]. *)
Class FileSystem := {
  fs_state : Type;
  fs_read : fs_state → string → result string bytes;
  fs_write : string → bytes → fs_state → fs_state * result string unit;
}.
Class FileSystemLaws (FS : FileSystem) := {
  fs_read_written path data s s' : fs_write path data s = (s', Ok tt) → fs_read s' path = Ok data;
}.

(** [str::to_lowercase], as far as the result is ASCII: of the other characters only the
    Kelvin sign has an ASCII lower case, and no other text becomes equal to one in ASCII. *)
Definition lower_byte (b : Byte.byte) : Byte.byte :=
  if (65 <=? byte_Z b) && (byte_Z b <=? 90) then Z_byte (byte_Z b + 32) else b.
Fixpoint to_lowercase (s : bytes) : bytes :=
  match s with
  | xe2 :: ((x84 :: xaa :: s) as s') => x6b :: to_lowercase s
  | b :: s => lower_byte b :: to_lowercase s
  | [] => []
  end.

(** The aliases of each tier. *)
Definition tier_names : list (LockTier * list string) :=
  [(NoLock, ["nolock"; "no_lock"; "none"]);
   (ThirtyDay, ["30day"; "thirtyday"; "thirty_day"]);
   (NinetyDay, ["90day"; "ninetyday"; "ninety_day"]);
   (OneEightyDay, ["180day"; "oneeightyday"; "one_eighty_day"]);
   (ThreeSixtyDay, ["360day"; "threesixtyday"; "three_sixty_day"]);
   (Delegator, ["delegator"; "delegate"]);
   (Permanent, ["permanent"; "perm"])]%string.
Definition parse_tier (tier_name : string) : result string LockTier :=
  let name := String.string_of_list_byte (to_lowercase (String.list_byte_of_string tier_name)) in
  match list_find (λ e, name ∈ e.2) tier_names with
  | Some (_, (tier, _)) => Ok tier
  | None => Err ("Unknown tier: " +:+ tier_name)
  end.

(** What is said of the lock. *)
Inductive LockText := InstantUnlock | LockedFor (epochs : Z) | NeverUnlocks.
Definition lock_text (tier : LockTier) : LockText :=
  match LockTier_lock_duration_epochs tier with
  | Some d => if d =? 0 then InstantUnlock else LockedFor d
  | None => NeverUnlocks
  end.
Definition cmd_stake (tier_name : string) : result string (Z * LockText) :=
  match parse_tier tier_name with
  | Ok tier => Ok (LockTier_rate_pct tier, lock_text tier)
  | Err e => Err e
  end.

Section Cli.
Context {OC : OverflowChecks} {C : Crypto} {S : Serde} {J : GenesisJson} {FS : FileSystem}.
Implicit Types (s : fs_state).

(** [secret] is what the random generator yields; the result is the public key that is
    printed. *)
Definition cmd_keygen (secret : bytes) (output : string) s : fs_state * result string string :=
  let pubkey_hex := hex_encode (ed_verifying_key secret) in
  let secret_hex := hex_encode secret in
  match fs_write output (String.list_byte_of_string secret_hex) s with
  | (s, Ok _) => (s, Ok pubkey_hex)
  | (s, Err e) => (s, Err ("Error writing key file: " +:+ e))
  end.

(** [GenesisConfig::to_file]. *)
Definition write_genesis (path : string) (config : GenesisConfig) s : fs_state * result GenesisError unit :=
  (match json_genesis config with
   | Ok json => (fs_write path json s).1
   | Err _ => s
   end,
   GenesisConfig_to_file (λ json, (fs_write path json s).2) config).

(** [now1] and [now2] are the times at which [default_testnet] and [new] ask. *)
Definition cmd_genesis_init (chain_id output : string) (now1 now2 : Z) s :
    may_panic (fs_state * result string GenesisConfig) :=
  let config := GenesisConfig_default_testnet now1 in
  v0 ← gc_validators config !! 0%nat; v1 ← gc_validators config !! 1%nat;
  v2 ← gc_validators config !! 2%nat; v3 ← gc_validators config !! 3%nat;
  a0 ← gc_accounts config !! 0%nat; a1 ← gc_accounts config !! 1%nat;
  a2 ← gc_accounts config !! 2%nat; a3 ← gc_accounts config !! 3%nat;
  let b := GenesisBuilder_with_genesis_time (gc_genesis_time config) (GenesisBuilder_new chain_id now2) in
  let b := GenesisBuilder_with_validator (gv_pubkey v0) 10000000 500 b in
  let b := GenesisBuilder_with_validator (gv_pubkey v1) 10000000 500 b in
  let b := GenesisBuilder_with_validator (gv_pubkey v2) 10000000 500 b in
  let b := GenesisBuilder_with_validator (gv_pubkey v3) 10000000 500 b in
  let b := GenesisBuilder_with_account (ga_pubkey a0) 100000000 b in
  let b := GenesisBuilder_with_account (ga_pubkey a1) 100000000 b in
  let b := GenesisBuilder_with_account (ga_pubkey a2) 100000000 b in
  let b := GenesisBuilder_with_account (ga_pubkey a3) 100000000 b in
  built ← GenesisBuilder_build b;
  match built with
  | Err _ => Some (s, Err "Error building genesis")
  | Ok config =>
    match write_genesis output config s with
    | (s, Ok _) => Some (s, Ok config)
    | (s, Err _) => Some (s, Err "Error writing genesis file")
    end
  end.

(** [config.validators.push(..)] *)
Definition push_validator (v : GenesisValidator) (c : GenesisConfig) : GenesisConfig :=
  mkGenesisConfig (gc_chain_id c) (gc_genesis_time c) (gc_chain_params c) (gc_validators c ++ [v])
    (gc_accounts c) (gc_genesis_hash c).
Definition cmd_genesis_add_validator (genesis_path pubkey_hex : string) (stake commission : Z) s :
    may_panic (fs_state * result string GenesisConfig) :=
  match GenesisConfig_from_file (fs_read s genesis_path) with
  | Err _ => Some (s, Err "Error reading genesis file")
  | Ok config =>
    match hex_decode pubkey_hex with
    | Err _ => Some (s, Err "Invalid pubkey hex")
    | Ok pubkey =>
      if negb (length pubkey =? 32)%nat then Some (s, Err "Public key must be 32 bytes")
      else
        let config := push_validator (mkGenesisValidator pubkey stake commission) config in
        let config := with_hash (GenesisConfig_compute_genesis_hash config) config in
        valid ← GenesisConfig_validate config;
        match valid with
        | Err _ => Some (s, Err "Genesis validation failed")
        | Ok _ =>
          match write_genesis genesis_path config s with
          | (s, Ok _) => Some (s, Ok config)
          | (s, Err _) => Some (s, Err "Error writing genesis file")
          end
        end
    end
  end.

(** [Commands], and [main] after the arguments are parsed; of the results only success. *)
Inductive GenesisCommands :=
| Init (chain_id output : string)
| AddValidator (genesis pubkey : string) (stake commission : Z).
Inductive QueryCommands := Balance (address : string) | Validators.
Inductive Commands :=
| Keygen (output : string)
| GenesisCommand (command : GenesisCommands)
| Stake (amount : Z) (tier : string)
| Query (command : QueryCommands)
| Version.

Definition outcome {A} (r : fs_state * result string A) : fs_state * result string unit :=
  (r.1, match r.2 with Ok _ => Ok tt | Err e => Err e end).
Definition cli_main (secret : bytes) (now1 now2 : Z) (command : Commands) s :
    may_panic (fs_state * result string unit) :=
  match command with
  | Keygen output => Some (outcome (cmd_keygen secret output s))
  | GenesisCommand (Init chain_id output) => outcome <$> cmd_genesis_init chain_id output now1 now2 s
  | GenesisCommand (AddValidator genesis pubkey stake commission) =>
    outcome <$> cmd_genesis_add_validator genesis pubkey stake commission s
  | Stake amount tier => Some (outcome (s, cmd_stake tier))
  | Query _ | Version => Some (s, Ok tt)
  end.
End Cli.

(** ** Specification *)

Definition hex_digits : bytes :=
  [x30; x31; x32; x33; x34; x35; x36; x37; x38; x39; x61; x62; x63; x64; x65; x66].
(** [hex::encode] answers with lower-case digits. *)
Class HexLaws (S : Serde) := {
  hex_encode_digits b : Forall (λ x, x ∈ hex_digits) (String.list_byte_of_string (hex_encode b));
}.

(** * Lemmas *)

Definition starts_with_digit (w : bytes) : bool :=
  match w with [] => true | y :: _ => bool_decide (y ∈ hex_digits) end.

Lemma trim_start_digits ws fuel s :
  existsb starts_with_digit ws = false → Forall (λ x, x ∈ hex_digits) s → trim_start fuel ws s = s.
Proof.
  intros Hws Hs. destruct fuel as [|fuel]; [done|]. simpl.
  assert (omap (λ w, strip_prefix w s) ws = []) as ->; [|done].
  induction ws as [|w ws IH]; [done|]. csimpl. simpl in Hws. apply orb_false_iff in Hws as [Hw Hws].
  rewrite (IH Hws). destruct w as [|y w]; [done|]. simpl in Hw. apply bool_decide_eq_false in Hw.
  destruct s as [|x s]; [done|]. apply Forall_cons in Hs as [Hx _]. simpl.
  destruct (Byte.eqb y x) eqn:E; [|done]. apply Byte.byte_dec_bl in E as ->. done.
Qed.

Lemma str_trim_digits s : Forall (λ x, x ∈ hex_digits) s → str_trim s = s.
Proof.
  intros Hs. unfold str_trim. rewrite (trim_start_digits white_space _ s); [|vm_compute; reflexivity|done].
  rewrite trim_start_digits; [by rewrite reverse_involutive|vm_compute; reflexivity|by apply Forall_reverse].
Qed.

Section CliLemmas.
Context {OC : OverflowChecks} {C : Crypto} {S : Serde} {SL : SerdeLaws S} {J : GenesisJson}.

(** What [keygen] writes, the node loads. *)
Lemma load_written_key {HX : HexLaws S} secret :
  length secret = 32%nat → load_signing_key (Ok (String.list_byte_of_string (hex_encode secret))) = Ok secret.
Proof.
  intros Hlen. unfold load_signing_key. rewrite str_trim_digits by apply hex_encode_digits.
  by rewrite String.string_of_list_byte_of_string, hex_decode_encode, Hlen.
Qed.

Lemma our_validator_index_found sk (validators : list ValidatorId) :
  ed_verifying_key sk ∈ validators →
  ∃ i, our_validator_index (Some sk) validators = Some (Z.of_nat i) ∧ validators !! i = Some (ed_verifying_key sk).
Proof.
  intros Hin. unfold our_validator_index. cbn [mbind option_bind].
  destruct (list_find_elem_of (λ v, v = ed_verifying_key sk) validators _ Hin eq_refl) as ([i v] & Hf).
  pose proof Hf as (Hi & -> & _)%list_find_Some. exists i. rewrite Hf. done.
Qed.

Lemma genesis_wf_hash h c : genesis_wf (with_hash h c) ↔ genesis_wf c.
Proof. split; intros []; by split. Qed.

Lemma genesis_wf_push_hash v h c : genesis_wf (push_validator v c) → genesis_wf (push_validator v (with_hash h c)).
Proof. intros []; by split. Qed.

(** [add-validator] of a key that is well-formed hexadecimal. *)
Lemma add_validator_run {FS : FileSystem} path pubkey stake commission s c :
  GenesisConfig_from_file (fs_read s path) = Ok c → length pubkey = 32%nat → ratios_fit (gc_chain_params c) →
  let c1 := push_validator (mkGenesisValidator pubkey stake commission) c in
  let c' := with_hash (GenesisConfig_compute_genesis_hash c1) c1 in
  ∃ s' r, cmd_genesis_add_validator path (hex_encode pubkey) stake commission s = Some (s', r) ∧
    (genesis_wf c1 ∧ write_genesis path c' s = (s', Ok tt) ∧ r = Ok c' ∨
     is_ok r = false ∧ (¬ genesis_wf c1 ∧ s' = s ∨ genesis_wf c1 ∧ (write_genesis path c' s).1 = s' ∧
       is_ok (write_genesis path c' s).2 = false)).
Proof.
  intros Hc Hlen Hr c1 c'. unfold cmd_genesis_add_validator. rewrite Hc, hex_decode_encode, Hlen.
  cbn [negb Nat.eqb]. cbv zeta. fold c1. fold c'.
  destruct (validate_genesis_iff c' Hr) as (r & Hv & Hiff). unfold c' in Hiff. rewrite genesis_wf_hash in Hiff.
  rewrite Hv. cbn [mbind option_bind].
  destruct r as [[]|e].
  - destruct (write_genesis path c' s) as [s' [[]|e]] eqn:Hw.
    + exists s', (Ok c'). split; [done|]. left. split; [by apply Hiff|done].
    + eexists _, _. split; [reflexivity|]. right. split; [done|]. right. split; [by apply Hiff|done].
  - eexists _, _. split; [reflexivity|]. right. split; [done|]. left. split; [|done]. intros Hwf. by apply Hiff in Hwf.
Qed.
End CliLemmas.

(** What [init] writes is a valid genesis of the placeholder validators. *)
Lemma genesis_init_run {OC : OverflowChecks} {C : Crypto} {J : GenesisJson} {FS : FileSystem}
    chain_id output now1 now2 s :
  ∃ c s' r, cmd_genesis_init chain_id output now1 now2 s = Some (s', r) ∧
    genesis_wf c ∧ gc_chain_id c = chain_id ∧ gc_genesis_time c = now1 ∧
    gv_pubkey <$> gc_validators c = testnet_key <$> [1; 2; 3; 4] ∧
    gc_genesis_hash c = GenesisConfig_compute_genesis_hash c ∧
    write_genesis output c s = (s', match r with Ok _ => Ok tt | Err _ => (write_genesis output c s).2 end) ∧
    (∀ c', r = Ok c' → c' = c) ∧ is_ok r = is_ok (write_genesis output c s).2.
Proof.
  set (c0 := mkGenesisConfig chain_id now1 (ChainParams_with_id chain_id)
    ((λ i, mkGenesisValidator (testnet_key i) 10000000 500) <$> [1; 2; 3; 4])
    ((λ i, mkGenesisAccount (testnet_key i) 100000000) <$> [1; 2; 3; 4]) zero32).
  assert (genesis_wf c0) as Hwf.
  { split; try (vm_compute; discriminate); try (vm_compute; reflexivity).
    - apply (bool_decide_unpack _). vm_compute. exact I.
    - repeat constructor; vm_compute; discriminate. }
  assert (ratios_fit (gc_chain_params c0)) as Hr by (unfold ratios_fit; repeat constructor; simpl; lia).
  destruct (validate_genesis_iff c0 Hr) as (v & Hv & Hiff). rewrite (proj2 Hiff Hwf) in Hv.
  set (c := with_hash (GenesisConfig_compute_genesis_hash c0) c0).
  assert (∃ s' r, cmd_genesis_init chain_id output now1 now2 s = Some (s', r) ∧
    write_genesis output c s = (s', match r with Ok _ => Ok tt | Err _ => (write_genesis output c s).2 end) ∧
    (∀ c', r = Ok c' → c' = c) ∧ is_ok r = is_ok (write_genesis output c s).2) as (s' & r & H1 & H2 & H3 & H4).
  { change (cmd_genesis_init chain_id output now1 now2 s) with
      (built ← (r ← GenesisConfig_validate c0; match r with Err e => Some (Err e) | Ok _ => Some (Ok c) end);
       match built with
       | Err _ => Some (s, Err "Error building genesis")
       | Ok config =>
         match write_genesis output config s with
         | (s, Ok _) => Some (s, Ok config)
         | (s, Err _) => Some (s, Err "Error writing genesis file")
         end
       end).
    rewrite Hv. cbn [mbind option_bind].
    destruct (write_genesis output c s) as [s' [[]|e]];
      (eexists _, _; split; [reflexivity|]); split_and!; try done; by intros c' [= <-]. }
  exists c, s', r. split_and!; try done. by apply genesis_wf_hash.
Qed.

(** ** A concrete file system and hexadecimal, for evaluating the definitions *)

Definition toy_fs : FileSystem := {|
  fs_state := gmap string bytes;
  fs_read s path := match s !! path with Some data => Ok data | None => Err "No such file or directory" end;
  fs_write path data s := (<[path := data]> s, Ok tt);
|}.
#[export] Instance toy_fs_laws : FileSystemLaws toy_fs.
Proof. split. intros path data s s' [= <-]. simpl. by rewrite lookup_insert_eq. Qed.

Definition digit_value (x : Byte.byte) : option Z :=
  (λ p, Z.of_nat p.1) <$> list_find (λ y, y = x) hex_digits.
Fixpoint decode_digits (l : bytes) : option bytes :=
  match l with
  | a :: b :: l => x ← digit_value a; y ← digit_value b; r ← decode_digits l; Some (Z_byte (16 * x + y) :: r)
  | [] => Some []
  | [_] => None
  end.
Definition hex_serde : Serde := {|
  json_account := json_account (Serde := toy_serde);
  json_transaction := json_transaction (Serde := toy_serde);
  json_accounts := json_accounts (Serde := toy_serde);
  json_parse_accounts := json_parse_accounts (Serde := toy_serde);
  hex_encode := to_hex;
  hex_decode s := match decode_digits (String.list_byte_of_string s) with
                  | Some b => Ok b
                  | None => Err "Invalid character"
                  end;
|}.

Lemma hex_byte x :
  let a := hex_digit (byte_Z x / 16) in let b := hex_digit (byte_Z x mod 16) in
  a ∈ hex_digits ∧ b ∈ hex_digits ∧
  (x ← digit_value a; y ← digit_value b; Some (Z_byte (16 * x + y))) = Some x.
Proof.
  assert (∀ x, bool_decide (hex_digit (byte_Z x / 16) ∈ hex_digits) &&
    bool_decide (hex_digit (byte_Z x mod 16) ∈ hex_digits) &&
    bool_decide ((a ← digit_value (hex_digit (byte_Z x / 16)); b ← digit_value (hex_digit (byte_Z x mod 16));
      Some (Z_byte (16 * a + b))) = Some x) = true) as Hall.
  { intros []; vm_compute; reflexivity. }
  specialize (Hall x). apply andb_true_iff in Hall as [[H1 H2]%andb_true_iff H3].
  apply bool_decide_eq_true in H1, H2, H3. done.
Qed.
#[export] Instance hex_serde_laws : SerdeLaws hex_serde.
Proof.
  split; [exact (json_parse_print (S := toy_serde))|]. intros b. simpl. unfold to_hex.
  rewrite String.list_byte_of_string_of_list_byte.
  assert (decode_digits (concat ((λ x, [hex_digit (byte_Z x / 16); hex_digit (byte_Z x mod 16)]) <$> b)) = Some b)
    as ->; [|done].
  induction b as [|x b IH]; [done|]. csimpl. cbn [app concat decode_digits].
  destruct (hex_byte x) as (_ & _ & Hx). cbv zeta in Hx.
  destruct (digit_value (hex_digit (byte_Z x / 16))); [|done]. cbn [mbind option_bind] in *.
  destruct (digit_value (hex_digit (byte_Z x mod 16))); [|done]. cbn [mbind option_bind] in *.
  rewrite IH. cbn [mbind option_bind]. congruence.
Qed.
#[export] Instance hex_serde_hex : HexLaws hex_serde.
Proof.
  split. intros b. simpl. unfold to_hex. rewrite String.list_byte_of_string_of_list_byte.
  induction b as [|x b IH]; [by apply Forall_nil_2|]. csimpl. cbn [app concat].
  destruct (hex_byte x) as (H1 & H2 & _). by rewrite !Forall_cons.
Qed.

(** * Properties *)

(** C38: the tool enrols a validator.  After [keygen] of a 32-byte secret, [add-validator]
    with the public key that was printed, on any readable genesis whose four fee ratios at
    launch, and four at maturity, add up to less than 2^64 (they are added unchecked), and
    with the key and the genesis in different files, does not panic, and succeeds exactly when
    the genesis with the new validator is valid and can be written; when it is not valid
    - the key is enrolled already, the stake is zero, the commission above 100 % - the
    file is left alone.  On success the file reads back as that genesis, with its own
    hash; the node reads the generated key from the key file; and it finds itself among
    the validators of the consensus. *)
Theorem cli_enrols_validator {OC : OverflowChecks} {C : Crypto} {CL : CryptoLaws C} {S : Serde}
    {SL : SerdeLaws S} {HX : HexLaws S} {J : GenesisJson} {JL : GenesisJsonLaws J}
    {FS : FileSystem} {FL : FileSystemLaws FS}
    (secret : bytes) (stake commission : Z) (key_path genesis_path pk : string) (s s1 : fs_state)
    (c : GenesisConfig) :
  length secret = 32%nat →
  (∀ data s, fs_read (fs_write genesis_path data s).1 key_path = fs_read s key_path) →
  cmd_keygen secret key_path s = (s1, Ok pk) →
  GenesisConfig_from_file (fs_read s1 genesis_path) = Ok c → ratios_fit (gc_chain_params c) →
  let c1 := push_validator (mkGenesisValidator (ed_verifying_key secret) stake commission) c in
  let c' := with_hash (GenesisConfig_compute_genesis_hash c1) c1 in
  ∃ s2 r, cmd_genesis_add_validator genesis_path pk stake commission s1 = Some (s2, r) ∧
    (is_ok r = true ↔ genesis_wf c1 ∧ is_ok (write_genesis genesis_path c' s1).2 = true) ∧
    (¬ genesis_wf c1 → s2 = s1) ∧
    (is_ok r = true → r = Ok c' ∧ GenesisConfig_from_file (fs_read s2 genesis_path) = Ok c' ∧
      load_signing_key (fs_read s2 key_path) = Ok secret ∧
      ∃ i, our_validator_index (Some secret) (bft_validators c') = Some (Z.of_nat i) ∧
        bft_validators c' !! i = Some (ed_verifying_key secret)).
Proof.
  intros Hlen Hsep Hkey Hc Hr c1 c'. unfold cmd_keygen in Hkey.
  destruct (fs_write key_path _ s) as [s1' [[]|e]] eqn:Hw; [|done]. injection Hkey as -> <-.
  apply fs_read_written in Hw.
  destruct (add_validator_run genesis_path (ed_verifying_key secret) stake commission s1 c Hc
    (length_ed_verifying_key secret) Hr) as (s2 & r & Hrun & Hcases). fold c1 c' in Hcases.
  exists s2, r. split; [done|]. destruct Hcases as [(Hwf & Hwr & ->)|(Hno & Hcases)].
  - rewrite Hwr. split; [by split|]. split; [done|]. intros _. split; [done|].
    unfold write_genesis, GenesisConfig_to_file in Hwr. destruct (json_genesis c') as [json|] eqn:Hj; [|done].
    destruct (fs_write genesis_path json s1) as [s2' [[]|e]] eqn:Hfw; [|done]. injection Hwr as ->. split.
    + rewrite (fs_read_written _ _ _ _ Hfw). unfold GenesisConfig_from_file.
      by rewrite (json_parse_genesis_print _ _ Hj).
    + split; [|apply our_validator_index_found].
      * pose proof (Hsep json s1) as Hk. rewrite Hfw in Hk. simpl in Hk. rewrite Hk, Hw.
        by apply load_written_key.
      * unfold bft_validators. apply list_elem_of_filter. split; [apply ed_key_ok_verifying_key|].
        simpl. rewrite fmap_app. apply elem_of_app. right. by left.
  - rewrite Hno. split; [|split; [|done]].
    + split; [done|]. intros [Hwf Hok]. destruct Hcases as [[? _]|(_ & _ & Hbad)]; [done|congruence].
    + intros Hn. by destruct Hcases as [[_ ?]|(? & _)].
Qed.

Definition demo_fs : gmap string bytes :=
  {["genesis.json"%string := positive_bytes (encode (config_tuple demo_genesis))]}.
Definition demo_enrolled : gmap string bytes :=
  <["validator.key"%string := String.list_byte_of_string (to_hex (key32 5))]> demo_fs.
Lemma demo_push_wf :
  genesis_wf (push_validator (mkGenesisValidator (toy_key (key32 5)) 700 300) demo_genesis).
Proof.
  split; try (vm_compute; discriminate); try (vm_compute; reflexivity).
  - apply (bool_decide_unpack _). vm_compute. exact I.
  - repeat constructor; vm_compute; discriminate.
Qed.
Lemma cli_enrols_validator_witness :
  ∃ s2 r, cmd_genesis_add_validator (OC := debug_build) (C := toy_crypto) (S := hex_serde) (J := toy_genesis_json)
      (FS := toy_fs) "genesis.json" (to_hex (toy_key (key32 5))) 700 300 demo_enrolled = Some (s2, r) ∧
    is_ok r = true ∧ load_signing_key (S := hex_serde) (fs_read (FileSystem := toy_fs) s2 "validator.key") = Ok (key32 5).
Proof.
  set (c := with_hash (GenesisConfig_compute_genesis_hash (C := toy_crypto) (J := toy_genesis_json) demo_genesis)
    demo_genesis).
  assert (GenesisConfig_from_file (C := toy_crypto) (J := toy_genesis_json)
    (fs_read (FileSystem := toy_fs) demo_enrolled "genesis.json") = Ok c) as Hc.
  { change (fs_read _ _) with (Ok (E := string) (positive_bytes (encode (config_tuple demo_genesis)))).
    unfold GenesisConfig_from_file. by rewrite (json_parse_genesis_print (J := toy_genesis_json) demo_genesis _ eq_refl). }
  destruct (cli_enrols_validator (OC := debug_build) (C := toy_crypto) (S := hex_serde) (J := toy_genesis_json)
    (FS := toy_fs) (key32 5) 700 300 "validator.key" "genesis.json" (to_hex (toy_key (key32 5))) demo_fs demo_enrolled c)
    as (s2 & r & Hrun & Hiff & _ & Hok).
  - reflexivity.
  - intros data s. simpl. by rewrite lookup_insert_ne.
  - reflexivity.
  - exact Hc.
  - unfold ratios_fit. repeat constructor; simpl; lia.
  - assert (is_ok r = true) as Hr.
    { apply Hiff. split; [|reflexivity]. exact (genesis_wf_push_hash _ _ _ demo_push_wf). }
    destruct (Hok Hr) as (_ & _ & Hk & _). exists s2, r. exact (conj Hrun (conj Hr Hk)).
Defined.

(** The names of the tiers, in any case. *)
Example tiers_parse :
  (parse_tier "NoLock", parse_tier "360Day", parse_tier "PERM", is_ok (parse_tier "365day")) =
  (Ok NoLock, Ok ThreeSixtyDay, Ok Permanent, false).
Proof. vm_compute. reflexivity. Qed.
